(* ===== verification/_CoqProject ===== *)
-Q . S2P
Prelude.v
MachineInt.v
QFloat.v
Float32.v
Console.v
Beam.v
CRT2D.v
Draw.v
CRT2DFrame.v
Circle.v
DDA.v
CircleDrawer.v
CRT3D.v
CRT3DFrame.v
Clip.v
PolygonClip.v
Transforms2D.v
Transforms3D.v
Ellipse.v
Scanline.v
WeilerAtherton.v
Fill.v
Shapes.v
