(* ===== verification/Prelude.v ===== *)
(** * A verification library for the Computer Graphics lab programs

    The repository (src/semester-05/) holds eighteen single-file lab
    exercises ("CG LAB/Exp-NN/main.cpp") and two animation sketches
    ("crt-simulation/CRT_2D.cpp", "CRT_3D.cpp").  Each lab program reads
    a few numbers from the console, runs one textbook algorithm and
    hands the result to GLUT/OpenGL draw calls.  The two sketches are
    event-driven: GLUT calls their timer, keyboard, mouse and display
    callbacks, which update global state.  The programs share no code.
    This library models the routines that compute what is drawn, as Rocq
    functions returning the vertices (or the printed rows) in emission
    order, and the callbacks of the sketches as functions on a record
    of their globals, run by a step relation.

    ** Files, in dependency order, and what they model

    - [Prelude] (this file): the [cg_scope] notations, the [cg] hint
      databases, the tactics, the list and option lemmas shared by all
      files, and the recorded loop [while_rows] with its invariant and
      trace lemmas.  This includes the capped history [push_capped]
      ([push_back] followed by [erase(begin())]), which both sketches
      use.
    - [MachineInt]: C++ [int] as a 32-bit two's-complement value in a
      [Z] ([wrap32]), and truncating division ([Z.quot]).  It also
      defines the [IntOps] typeclass, the interface between an integer
      algorithm and its arithmetic, with instances [exact_ops] and
      [int32_ops].
    - [QFloat]: [float] and [double] as exact rationals.  The
      operations [fadd], [fsub], [fmul] and [fdiv] normalise with
      [Qred]; [fltb], [fleb] and [feqb] are the comparisons;
      [cmin], [cmax] and [fabs] model [std::min], [std::max] and
      [fabs].  These operations do not round: a theorem over them is
      about exact arithmetic.
    - [Float32]: the [float] accumulators of the CRT timers in IEEE
      binary32.  [round32] rounds a rational to the nearest value with
      a 24-bit significand (ties to even, subnormals below 2^-126),
      and [f32add] and [f32sub] round the exact sum and difference.
      A [float] literal such as [0.02f] is [round32 0.02].  The proofs
      use two facts: rounding keeps a non-negative value non-negative,
      and it moves a value by at most [2^-24] of it plus [2^-150].
    - [Console]: the [std::ostream] formatting the tables are printed
      with (module [Ostream]): [os << n] for an [int] ([show_int]),
      [setw] (right-aligned, never truncating), [std::string(n, c)]
      ([rep]) and [fixed << setprecision(p)] ([show_fixed], rounding
      the exact value half to even).  A printed table is the list of
      strings its output statements write.  Module [OstreamFacts] gives
      the exact width of each field.
    - [Beam]: the beam stage machine that both CRT sketches run
      ([enum BeamStage] and the running branch of the timer) in a
      [Section] whose [Variables] are the step constants, plus the
      abstract [stage_step] relation it refines.  Progress and angle
      are updated with [f32add] and [f32sub].  [progress_seq] is the
      sequence of rounded progress values within a stage.
      [ticks_per_stage N] checks by evaluation that [N] ticks make a
      stage: 51 for [0.02f], 67 for [0.015f].
    - [CRT2D]: CRT_2D.cpp.  Its globals are the record [CRT2D].
      [timerFunc], [keyboardHandler], [display] (particles, beam tip and
      trace), [initGL] and [reshape] are functions on that record.
      The timer's [float] updates (beam progress and angle, intro alpha
      and slide) and their literals are binary32.  The particles of
      [display] and the geometry are exact rationals.
      [crt_step] runs one event, [run] runs a sequence of events, and
      [reachable] closes the initial states under [crt_step].
    - [Draw]: the stream of GL/GLUT calls a display callback issues.
      The type [cmd] covers colours, widths, [glBegin] blocks in 2D and
      3D, bitmap strings, projections, viewports, matrix operations,
      GLUT cubes and GLU cylinders.  The file also holds the loops
      [for (float x = lo; x <= hi; x += step)] ([for_float]) and
      [for (int i = lo; i < hi; i += step)] ([for_int]), on fuel, with
      lemmas that the fuel given runs them to their own exit.
    - [CRT2DFrame]: what CRT_2D's [display] draws (module [Frame2D]).
      This covers the grid, the tube structure and its labels, the
      spread region, the particles and the beam tip, the trace inset,
      the intro screen and the controls line, as a function [frame] of
      the window size, the time and the [CRT2D] state.
    - [Circle]: Exp-04 (Bresenham circle) and Exp-05 (midpoint circle),
      in modules [Bresenham] and [Midpoint].  The loops are written
      once against [IntOps] and return the rows of the printed
      decision table.
    - [DDA]: Exp-03: [class DDA], [computeDDA], [normalizePoints], and
      [display]'s segments and points.
    - [CircleDrawer]: Exp-08, with module [CircleDrawer] for its two
      circle routines and module [Shape] for the rectangle (its outline
      and circle centres), the background quad, the frame [display]
      draws and [main]'s layout.
    - [CRT3D]: CRT_3D.cpp, in module [Sim3D].  It models [timer] (with
      [calculateBeam] and the 500-point trace), [keyboard], [mouse],
      [motion], [display], [init], the [gluLookAt] eye, [drawHUD]'s
      inset map and [reshape]; [crt_step], [run] and [reachable] are
      as in [CRT2D].
    - [CRT3DFrame]: what CRT_3D's [display] draws (module [Frame3D]):
      the tube as cubes, cylinders and labels under matrix operations,
      the beam with its particles, line and glow spot, the HUD inset in
      window pixels, and the intro screen.
    - [Clip]: Exp-13 Cohen-Sutherland (module [CohenSutherland]:
      region codes with [Z.lor]/[Z.land], the [while (true)] loop as one
      pass [cs_iter] iterated on fuel, [main] and the line it prints)
      and Exp-14
      Liang-Barsky (module [LiangBarsky]: the class, [clipLine] with its
      four-edge loop and [break], and [main]'s projection box), with
      both [display]s.
    - [PolygonClip]: Exp-17 Sutherland-Hodgman (module
      [SutherlandHodgman]).  The [Clipper] and its recorded
      intersections are passed as explicit state, and [Polygon] is a
      list capped at [MAX_POINTS]; the draw methods and [display] give
      the vertices drawn.
    - [Transforms2D]: Exp-11 (translation) and Exp-12 (scaling).  Module
      [Shape2D] holds what they share: the [shape[50]] array read from
      the console (with the overflow past 50 as an [outcome]) and
      [display]'s two polylines.  Modules [Translation] and [Scaling]
      hold the point maps, written against [IntOps].  Each program only
      applies [x += tx] or [x *= sx] to every point, so no property of
      them is stated.  One evaluated run shows a silent [int]
      overflow.
    - [Transforms3D]: Exp-15 (module [Cube15]: the console choice of
      translate or scale, the modelview built by [glTranslatef] or
      [glScalef], and the cube drawn) and Exp-16 (module [Rot16]: the
      console choice, the right-click [menu] with a [reachable] relation,
      and [glRotatef] about an axis in a [Section] over [cos]/[sin];
      its axes, solid cube and [reshape] are Exp-15's).
      Module [Space3D] holds the cube, the axes and the GL matrix calls
      as maps on 3D points.
    - [Ellipse]: Exp-09, [class EllipseDrawer].  The two [while] loops
      of [drawEllipse] run through the Prelude's [while_rows]
      combinator, which returns the printed rows and the final state;
      [drawEllipse_output] is the table it prints.
    - [Scanline]: Exp-10.  [readVertices] (below 3 exits, above
      [MAXV] overflows), [buildGET], [bubbleSortIndices] with both of
      its loops, and [scanlineFill]: the active edges, [xCurr], the
      [i += 2] span loop and the [(int)] truncation.  The three printed
      tables (vertices, global edge table, and the active edges of each
      scanline) are strings built with [Console].
    - [WeilerAtherton]: Exp-18.  Points with their intersection flags,
      [isInside], [getIntersection], [buildLists] (the two 50-entry lists
      as Rocq lists), [performClipping]'s walk on fuel, [init]'s
      projection and the frame [display] draws (the intersection
      markers in a [Section] over [cos]/[sin]).
    - [Fill]: Exp-06 (module [BoundaryFill]) and Exp-07 (module
      [FloodFill]).  The pixels are a framebuffer [Z -> Z -> color]
      that [glReadPixels] reads and [plot] writes.  The shared recursive
      [fill4] is on fuel and takes the class's colour test as an
      argument.  The mouse handlers fill only on a left-button press,
      with the filler [main] creates.
    - [Shapes]: Exp-01 (module [BasicShapes]: the four shape functions,
      the [switch] in [displayCallback] and [main]'s range check) and
      Exp-02 (module [Stickman]: [drawRectangle] and every primitive of
      [drawStickman]), each as the [glBegin] mode and its vertices.

    ** What the theorems show

    - Circles (Circle, CircleDrawer):
      - the octant loops of Exp-04 and Exp-05 return for every radius;
      - Exp-04's Bresenham and Exp-05's midpoint walks visit the same
        pixels, with P_bres = 2 P_mid + 1;
      - every drawn pixel is within max(|x|, |y|) of the circle;
      - the walk is 8-connected and stops at the diagonal;
      - the X-axis variants mirror the Y-axis ones;
      - with 32-bit arithmetic, Exp-04 emits the same vertices for
        r <= 2^26;
      - Exp-05's [printed] flag draws the circle only in the first
        frame;
      - Exp-08's midpoint circle plots exactly Exp-05's pixels;
      - Exp-08's Bresenham variant drifts off the circle (a concrete
        counterexample);
      - Exp-08's midpoint circles touch the rectangle at the midpoint
        of each side and never draw inside it;
      - they stay in [initGL]'s 800 x 600 view exactly when two radii
        fit between each side and the window edge, which fails for
        rectangles taller than 300 pixels.
    - CRT sketches (Beam, CRT2D, CRT3D):
      - a reachable-state invariant, proved by rule induction: the
        stage is in its enum, progress and angle are in range, the
        traces are bounded, the particles stay in range and the camera
        is clamped;
      - liveness: 153 (2D) or 201 (3D) timer ticks reach the screen
        stage, with binary32 progress;
      - exact 2D timing: k ticks after the start key the stage is
        min(k / 51, 3), because fifty binary32 steps of [0.02f] sum
        to 0.99999958 < 1;
      - refinement of the abstract stage machine;
      - the intro screen ends only on the [s] key, although a constant
        is commented "6 sec auto start" (2D);
      - the trace records the tip, in the 2D display and in the 3D
        timer before the step;
      - the 3D [r] key leaves a stale tip;
      - the orbit camera stays at distance [camDist];
      - the 2D [reshape] box shows the whole world and keeps the
        window's aspect ratio, but [display]'s [setupOrtho] replaces it
        on every frame unless the window's aspect ratio is 0.9;
      - what the frames draw (CRT2DFrame, CRT3DFrame):
        - the 2D inset shows exactly the trace points right of x = 230;
        - visible 2D particles stay inside the tube;
        - the 2D screen outline lies on the ellipse the sweep targets;
        - the 2D intro rows are ordered and spaced;
        - the 3D HUD trace stays inside its inset;
        - no 3D particle is drawn ahead of the beam tip;
        - the 3D intro rows keep their 25-pixel spacing exactly when
          the window is at least 400 pixels high.
    - Clipping (Clip, PolygonClip):
      - Cohen-Sutherland's accept and trivial reject are sound;
      - Cohen-Sutherland does not terminate on a family of vertical
        segments along the left edge, and rejects a visible one;
      - Liang-Barsky computes exactly the visible parameter interval,
        when no direction component lies within its 1e-9 tolerance,
        and a concrete case shows the tolerance letting a clipped end
        leave the window;
      - Sutherland-Hodgman returns a polygon inside the window
        unchanged (rotated by four vertices) and respects its
        capacities;
      - Sutherland-Hodgman cuts a vertical edge with the slope 1e6, so
        its bottom and top crossings miss the edge, and one on the left
        side of the window lies outside it (as in a run of [main]);
        every intersection it records lies on a boundary line of the
        window;
      - Exp-13's display shows its input exactly when every coordinate
        is in [0, 15];
      - Exp-14's projection box contains all of its display.
    - DDA:
      - the k-th point is exactly start + k (dx, dy) / max(|dx|, |dy|);
      - integer endpoints are hit exactly;
      - the 1000-point cap and the [(int)] truncation cut lines short;
      - [normalizePoints] keeps every point in the view, and so does
        all of [display].
    - Transforms (Transforms2D, Transforms3D):
      - Exp-12's scaling overflows [int] silently (one evaluated run);
      - Exp-15 draws the transform that was asked for;
      - in every state Exp-16 can reach, the rotation is rigid.
    - Ellipse:
      - [drawEllipse] returns for every input, and every printed row
        holds the textbook decision values;
      - with an integer [ry], the plotted quarter is a connected walk
        from (0, ry) down to the axis;
      - the printed table lines up with its borders exactly when every
        row's numbers fit their [setw] columns; radii of 1000 already
        overflow the [dy] column.
    - Scanline:
      - every edge table entry is a non-horizontal side, and [xCurr] is
        its exact crossing with the scanline;
      - each scanline sorts its active edges, pairs all of them (there
        is an even number) and draws the truncated crossings;
      - the vertex table lines up with its rule exactly when no
        coordinate is at or below -10^9; the edge table and every
        active-edge listing line up for coordinates below 10^6.
    - Weiler-Atherton:
      - [getIntersection] returns only points strictly inside both
        segments, so for inputs in [-244, 244]^2 everything [display]
        draws, markers included, lies in [init]'s [-250, 250]^2 view;
      - one evaluated run, kept as the evidence of two findings, where
        a pentagon's clipped polygon comes out wrong;
      - when no edge of one polygon crosses an edge of the other, the
        clipped polygon is empty, even for a subject lying inside the
        clip polygon.
    - Fill:
      - on an enclosed region, boundary fill returns, repaints only
        what it may, and fills up to the boundary (flood fill shares
        [fill4]'s soundness and completeness lemmas);
      - a left click whose row is open to the right never returns.
    - Shapes: every shape Exp-01 accepts and every stroke of Exp-02's
      stickman lies in the view, and the stickman's parts meet.

    ** Bounds and fuel

    - Loops whose exit depends on the data run on fuel: the circle
      loops and Cohen-Sutherland.  A circle loop advances x by one per
      pass from 0 towards y <= r, so [r + 2] passes suffice; the
      totality lemmas prove it ([mid_loop_total], [bc_loop_total],
      [mc_loop_total]).  Cohen-Sutherland is not total: its divergence
      theorem holds for every fuel.
    - Loops bounded by an array capacity (DDA's [MAX_POINTS], the
      polygon's 50 vertices) are [Fixpoint]s on the room left, which is
      exactly the C++ bound.
    - The 2D liveness bound is 3 stages x 51 ticks: the binary32 sum
      of fifty [0.02f] is 0.99999958 < 1 and the 51st step reaches 1.
      The 3D bound is 3 stages x 67 ticks of [0.015f]: the sum of 66
      steps is 0.98999 < 1.  Evaluation checks both counts
      ([ticks_per_stage]), and every reachable progress is one of the
      values a stage runs through, so no state needs more.
    - Exp-09's two loops get [ceil(rx^2 / ry) + 2] and [ceil(y) + 2]
      passes.  Region 1 stops once [2 ry^2 x >= 2 rx^2 y], and x grows
      by one per pass; region 2 lowers y by one per pass.  The lemmas
      [region1_total] and [region2_total] prove these counts enough,
      through the variant lemma [while_rows_total_Q].
    - Weiler-Atherton's walk gets [|subject list| + |clip list| + 2]
      steps.  A walk that visits each list entry at most once needs no
      more.  A walk that needs more ends in [None], which stands for
      the C++ [do]-[while] not ending.  The concrete case of the
      findings ends well within this fuel, as evaluation shows.
    - The drawing loops ([for_float], [for_int]) get one pass per step
      of their range plus two; [for_float_total] and [for_int_total]
      show that more fuel changes nothing, so the loop exits by its own
      test.
    - [fill4]'s fuel is the recursion depth.  On an enclosed region
      [length region + 1] suffices, because each call paints one pixel
      that was left to paint.  On an open row no fuel suffices.

    ** Not modelled (and why)

    - GLUT window creation, the event loop's scheduling, colours, line
      widths and draw primitives are I/O: the vertices handed to
      OpenGL are modelled, the rasterised pixels are not.
    - Console printing is modelled as the rows printed (Exp-04,
      Exp-05) and as the printed strings of the Exp-09, Exp-10 and
      Exp-13 tables.  The prompts before each [cin] are not recorded.
    - [cos] and [sin] are parameters of the CRT sections.  Their
      theorems assume only |cos|, |sin| <= 1, or cos^2 + sin^2 = 1
      for the camera.
    - The same holds for [cos]/[sin] in Exp-01's pentagon and the
      rotations of Exp-16.
    - In the fills, the framebuffer is given; how GL rasterises the
      outline into it is not modelled.  Reads outside the window are
      whatever the framebuffer holds: [glReadPixels] there is
      undefined.
    - Exp-18's [printTable] prints floats in the default [%g] format,
      which [Console] does not model.  Colours and line widths are
      recorded in the frames but no theorem is about them. *)

From Stdlib Require Export ZArith List Lia Bool.
Export ListNotations.

Declare Scope cg_scope.
Delimit Scope cg_scope with cg.
Open Scope Z_scope.

(** A pixel or an integer vertex, as passed to [glVertex2i]. *)
Abbreviation pt := (Z * Z)%type.

(** The squared-radius error of a pixel with respect to a circle of
    radius [r] centred at the origin. *)
Definition circle_err (r : Z) (p : pt) : Z :=
  fst p * fst p + snd p * snd p - r * r.

Notation "'err[' r ']' p" := (circle_err r p)
  (at level 10, r at level 0, p at level 0) : cg_scope.

(** Adjacent pairs of a list satisfy a relation. *)
Fixpoint chain {A} (R : A -> A -> Prop) (l : list A) : Prop :=
  match l with
  | [] => True
  | [_] => True
  | a :: (b :: _) as tl => R a b /\ chain R tl
  end.

(** Last element of a list, if any. *)
Fixpoint last_opt {A} (l : list A) : option A :=
  match l with
  | [] => None
  | [a] => Some a
  | _ :: tl => last_opt tl
  end.

(** Two optional results are both present and related, or both absent. *)
Definition option_rel {A B} (R : A -> B -> Prop) (o1 : option A) (o2 : option B) : Prop :=
  match o1, o2 with
  | Some a, Some b => R a b
  | None, None => True
  | _, _ => False
  end.

(** [v.push_back(p)] followed by [if (v.size() > cap) v.erase(v.begin())]:
    a history that keeps the last [cap] entries. *)
Definition push_capped {A} (cap : nat) (h : list A) (p : A) : list A :=
  let h' := h ++ [p] in
  if Nat.ltb cap (length h') then tl h' else h'.

(** The modes passed to [glBegin]: a drawing routine is modelled as the
    list of primitives it submits, each with its vertices in order. *)
Inductive primitive :=
  GL_POINTS | GL_LINES | GL_LINE_STRIP | GL_LINE_LOOP | GL_TRIANGLES | GL_TRIANGLE_FAN
| GL_QUADS | GL_POLYGON.

Scheme Equality for primitive.

Create HintDb cg.
Create Rewrite HintDb cg_rw.

(** ** Shared tactics *)

(** Case analysis on every boolean integer comparison of the goal. *)
Ltac zcase :=
  repeat match goal with
  | |- context [Z.ltb ?a ?b] => destruct (Z.ltb_spec a b)
  | |- context [Z.leb ?a ?b] => destruct (Z.leb_spec a b)
  | |- context [Z.eqb ?a ?b] => destruct (Z.eqb_spec a b)
  end.

(** Simplify an option bind on a known [Some] produced by a hypothesis. *)
Ltac inv_some :=
  repeat match goal with
  | H : Some _ = Some _ |- _ => injection H as H; subst
  | H : None = Some _ |- _ => discriminate H
  | H : Some _ = None |- _ => discriminate H
  end.

(** ** Generic lemmas on lists and options *)

Lemma chain_cons2 {A} (R : A -> A -> Prop) a b l :
  chain R (a :: b :: l) <-> R a b /\ chain R (b :: l).
Proof. reflexivity. Qed.

Lemma chain_map {A B} (R : B -> B -> Prop) (f : A -> B) (l : list A) :
  chain R (map f l) <-> chain (fun x y => R (f x) (f y)) l.
Proof.
  induction l as [|a l IH]; [simpl; tauto|].
  destruct l as [|b l]; simpl in *; [tauto|]. rewrite IH. tauto.
Qed.

Lemma last_opt_cons2 {A} (a b : A) l :
  last_opt (a :: b :: l) = last_opt (b :: l).
Proof. reflexivity. Qed.

Lemma last_opt_map {A B} (f : A -> B) (l : list A) :
  last_opt (map f l) = option_map f (last_opt l).
Proof. induction l as [|a l IH]; [reflexivity|]. destruct l; simpl in *; auto. Qed.

Lemma in_flat_map_iff {A B} (f : A -> list B) (l : list A) (y : B) :
  In y (flat_map f l) <-> exists x, In x l /\ In y (f x).
Proof. apply in_flat_map. Qed.

Lemma option_map_some {A B} (f : A -> B) o b :
  option_map f o = Some b -> exists a, o = Some a /\ b = f a.
Proof. destruct o; simpl; intros H; inv_some; eauto. Qed.

Lemma is_some_bind {A B} (o : option A) (k : A -> option B) :
  (exists a, o = Some a /\ exists b, k a = Some b) ->
  exists b, match o with Some a => k a | None => None end = Some b.
Proof. intros (a & -> & b & Hb). eauto. Qed.

#[export] Hint Resolve in_eq in_cons : cg.
#[export] Hint Rewrite @last_opt_map @chain_map : cg_rw.

Lemma option_map_map_cons {A B} (f : A -> B) (a : A) (o : option (list A)) :
  option_map (map f) (option_map (cons a) o) = option_map (cons (f a)) (option_map (map f) o).
Proof. destruct o; reflexivity. Qed.

#[export] Hint Rewrite @option_map_map_cons : cg_rw.

Lemma option_rel_cons {A B} (R : A -> B -> Prop) a b o1 o2 :
  R a b -> option_rel (Forall2 R) o1 o2 ->
  option_rel (Forall2 R) (option_map (cons a) o1) (option_map (cons b) o2).
Proof. destruct o1, o2; simpl; auto. Qed.

Lemma option_rel_some_l {A B} (R : A -> B -> Prop) o1 o2 a :
  option_rel R o1 o2 -> o1 = Some a -> exists b, o2 = Some b /\ R a b.
Proof. intros H ->. destruct o2; simpl in H; [eauto | contradiction]. Qed.

Lemma Forall2_map_eq {A B C} (f : A -> C) (g : B -> C) (R : A -> B -> Prop) l1 l2 :
  (forall a b, R a b -> f a = g b) -> Forall2 R l1 l2 -> map f l1 = map g l2.
Proof. intros Hfg H. induction H; simpl; f_equal; auto. Qed.

#[export] Hint Resolve option_rel_cons : cg.

Lemma Forall_flat_map {A B} (P : B -> Prop) (f : A -> list B) (l : list A) :
  (forall x, In x l -> Forall P (f x)) -> Forall P (flat_map f l).
Proof.
  induction l as [|a l IH]; intros H; simpl; [constructor|].
  apply Forall_app; split; [apply H; left; reflexivity | apply IH; intros; apply H; right; assumption].
Qed.

Lemma Forall2_Forall_l {A B} (R : A -> B -> Prop) (P : A -> Prop) (Q : B -> Prop) l1 l2 :
  (forall a b, R a b -> Q b -> P a) -> Forall2 R l1 l2 -> Forall Q l2 -> Forall P l1.
Proof. intros HPQ H. induction H; intros HQ; inversion HQ; subst; constructor; eauto. Qed.

Lemma last_opt_app_single {A} (l : list A) (a : A) : last_opt (l ++ [a]) = Some a.
Proof. induction l as [|b l IH]; [reflexivity|]. cbn [app]. destruct l; [reflexivity|]. exact IH. Qed.

Lemma map_snd_combine {A B} (l : list A) (l' : list B) :
  length l = length l' -> map snd (combine l l') = l'.
Proof.
  revert l'; induction l as [|a l IH]; intros [|b l'] H; cbn in *; try discriminate; auto.
  f_equal. apply IH. lia.
Qed.

Lemma map_fst_combine {A B} (l : list A) (l' : list B) :
  length l = length l' -> map fst (combine l l') = l.
Proof.
  revert l'; induction l as [|a l IH]; intros [|b l'] H; cbn in *; try discriminate; auto.
  f_equal. apply IH. lia.
Qed.

Lemma push_capped_length {A} cap (h : list A) p :
  (length h <= cap)%nat -> (length (push_capped cap h p) <= cap)%nat.
Proof.
  unfold push_capped; cbv zeta. intros H.
  destruct (Nat.ltb_spec cap (length (h ++ [p]))); rewrite ?length_app in *; cbn [length] in *; [|lia].
  destruct h; cbn [app tl length] in *; rewrite ?length_app; cbn [length]; lia.
Qed.

Lemma push_capped_length_eq {A} cap (h : list A) p :
  (length h <= cap)%nat ->
  length (push_capped cap h p) = Nat.min (S (length h)) cap.
Proof.
  unfold push_capped; cbv zeta. intros H.
  destruct (Nat.ltb_spec cap (length (h ++ [p]))); rewrite ?length_app in *; cbn [length] in *; [|lia].
  destruct h; cbn [app tl length] in *; rewrite ?length_app; cbn [length]; lia.
Qed.

Lemma push_capped_last {A} cap (h : list A) p :
  (0 < cap)%nat -> last_opt (push_capped cap h p) = Some p.
Proof.
  unfold push_capped; cbv zeta. intros H.
  destruct (Nat.ltb_spec cap (length (h ++ [p]))); [|apply last_opt_app_single].
  destruct h as [|a h]; [cbn in *; lia|]. apply last_opt_app_single.
Qed.

(** Every entry of a capped history is an old entry or the new one. *)
Lemma push_capped_Forall {A} (P : A -> Prop) cap (h : list A) p :
  Forall P h -> P p -> Forall P (push_capped cap h p).
Proof.
  unfold push_capped; cbv zeta. intros Hh Hp.
  assert (Ha : Forall P (h ++ [p])) by (apply Forall_app; auto).
  destruct (Nat.ltb cap (length (h ++ [p]))); [|exact Ha].
  destruct (h ++ [p]); [constructor|]. inversion Ha; assumption.
Qed.

#[export] Hint Resolve push_capped_length push_capped_Forall : cg.

(** A prefix read by a bounded input loop holds only entries of the input. *)
Lemma in_firstn {A} n (l : list A) a : In a (firstn n l) -> In a l.
Proof. rewrite <- (firstn_skipn n l) at 2. intros H. apply in_or_app. now left. Qed.

Lemma Forall_firstn {A} (P : A -> Prop) n (l : list A) : Forall P l -> Forall P (firstn n l).
Proof. rewrite !Forall_forall. intros H a Ha. apply H, (in_firstn n), Ha. Qed.

#[export] Hint Resolve in_firstn Forall_firstn : cg.

(** A read of a global array past its filled part returns the default
    element: it has a property when the filled part and the default do. *)
Lemma Forall_nth_default {A} (P : A -> Prop) (l : list A) d i : Forall P l -> P d -> P (nth i l d).
Proof.
  intros Hl Hd. destruct (Nat.lt_ge_cases i (length l)) as [Hi|Hi].
  - rewrite Forall_forall in Hl. apply Hl, nth_In, Hi.
  - rewrite nth_overflow by exact Hi. exact Hd.
Qed.

(** A property of the accumulator that every pass of a [fold_left]
    keeps holds at its end. *)
Lemma fold_left_inv {A B} (P : A -> Prop) (f : A -> B -> A) (l : list B) (a : A) :
  (forall acc x, In x l -> P acc -> P (f acc x)) -> P a -> P (fold_left f l a).
Proof.
  revert a. induction l as [|x l IH]; intros a Hf Ha; [exact Ha|]. cbn [fold_left].
  apply IH; [intros acc y Hy; apply Hf; right; exact Hy | apply Hf; [left; reflexivity | exact Ha]].
Qed.


(** ** A [while] loop that records the state of every pass

    [while_rows fuel cond step s] runs [while (cond(s)) { emit s; s = step(s); }]
    for at most [fuel] tests of the condition; it returns the states
    of the passes and the state at exit, or [None] when the fuel ran
    out.  Loops of the lab programs that print or plot once per pass are
    instances. *)
Fixpoint while_rows {S} (fuel : nat) (cond : S -> bool) (step : S -> S) (s : S)
  : option (list S * S) :=
  match fuel with
  | O => None
  | Datatypes.S fuel' =>
      if cond s then option_map (fun '(l, e) => (s :: l, e)) (while_rows fuel' cond step (step s))
      else Some ([], s)
  end.

Section WhileRows.
Context {S : Type} (cond : S -> bool) (step : S -> S).

Lemma while_rows_unfold fuel s :
  while_rows (Datatypes.S fuel) cond step s =
  if cond s then option_map (fun '(l, e) => (s :: l, e)) (while_rows fuel cond step (step s))
  else Some ([], s).
Proof. reflexivity. Qed.

(** An invariant of the loop body holds on every pass and at exit, and
    the loop exits on a failed test. *)
Lemma while_rows_inv (P : S -> Prop) fuel s rows e :
  (forall s, P s -> cond s = true -> P (step s)) ->
  while_rows fuel cond step s = Some (rows, e) -> P s ->
  Forall P rows /\ P e /\ cond e = false.
Proof.
  intros Hstep. revert s rows. induction fuel as [|f IH]; intros s rows H Hs; [discriminate|].
  rewrite while_rows_unfold in H. destruct (cond s) eqn:Hc.
  - destruct (while_rows f cond step (step s)) as [[l e']|] eqn:Hw; [|discriminate].
    injection H as <- ->. destruct (IH _ _ Hw (Hstep s Hs Hc)) as (Hl & He & Hce). auto.
  - injection H as <- <-. auto.
Qed.

(** The passes, followed by the exit state, start at [s] and follow [step]. *)
Lemma while_rows_trace fuel s rows e :
  while_rows fuel cond step s = Some (rows, e) ->
  exists tl, rows ++ [e] = s :: tl /\ chain (fun a b => cond a = true /\ b = step a) (rows ++ [e]).
Proof.
  revert s rows. induction fuel as [|f IH]; intros s rows H; [discriminate|].
  rewrite while_rows_unfold in H. destruct (cond s) eqn:Hc.
  - destruct (while_rows f cond step (step s)) as [[l e']|] eqn:Hw; [|discriminate].
    injection H as <- ->. destruct (IH _ _ Hw) as (tl & Htl & Hch).
    exists (l ++ [e]). split; [reflexivity|]. cbn [app]. rewrite Htl in *.
    split; [auto | exact Hch].
  - injection H as <- <-. exists []. split; reflexivity.
Qed.

End WhileRows.

(** ** More on [chain] *)

Lemma chain_impl {A} (R R' : A -> A -> Prop) l :
  (forall a b, R a b -> R' a b) -> chain R l -> chain R' l.
Proof.
  intros H. induction l as [|a l IH]; [auto|]. destruct l as [|b l]; [auto|].
  rewrite !chain_cons2. intros [Hab Hl]. split; auto.
Qed.

(** A chain through a joint element splits into its two halves. *)
Lemma chain_app {A} (R : A -> A -> Prop) l1 a l2 :
  chain R (l1 ++ a :: l2) <-> chain R (l1 ++ [a]) /\ chain R (a :: l2).
Proof.
  induction l1 as [|b [|c l1] IH]; cbn [app]; [cbn; tauto| |].
  - rewrite !chain_cons2. cbn. tauto.
  - rewrite !(chain_cons2 R b c). cbn [app] in IH. rewrite IH. tauto.
Qed.

Lemma chain_app_l {A} (R : A -> A -> Prop) l a : chain R (l ++ [a]) -> chain R l.
Proof.
  induction l as [|b [|c l] IH]; cbn [app]; auto.
  - cbn. auto.
  - rewrite !chain_cons2. intros [Hbc Hl]. split; auto.
Qed.

Lemma chain_last2 {A} (R : A -> A -> Prop) l a b : chain R (l ++ [a; b]) -> R a b.
Proof.
  induction l as [|c l IH]; cbn [app]; [cbn; tauto|].
  destruct l as [|d l]; cbn [app] in *; [cbn; tauto|]. intros [_ H]. auto.
Qed.

(** The last element of [l ++ [a]] is [a]: a list is empty or ends somewhere. *)
Lemma list_last_view {A} (l : list A) : l = [] \/ exists l' a, l = l' ++ [a].
Proof.
  induction l as [|b l IH]; [auto|]. right. destruct IH as [->|(l' & a & ->)].
  - exists [], b. reflexivity.
  - exists (b :: l'), a. reflexivity.
Qed.

(** Adding in front an element related to everything keeps a chain. *)
Lemma chain_cons_Forall {A} (R : A -> A -> Prop) a l :
  Forall (R a) l -> chain R l -> chain R (a :: l).
Proof. destruct l as [|b l]; [cbn; auto|]. intros Hf Hc. inversion Hf; subst. split; assumption. Qed.
