(* ===== verification/MachineInt.v ===== *)
(** C++ [int] on the 32-bit targets the lab programs are built for:
    a value is a [Z] in [int_min, int_max]; [+], [-] and [*] wrap
    around modulo 2^32 ([wrap32]; signed overflow is undefined in C++,
    and wrap-around is what the unoptimised builds do); [/] truncates
    towards zero ([Z.quot]).  The [IntOps] class is the interface
    between an integer routine and the arithmetic it runs on. *)

From S2P Require Import Prelude.

Definition int_min : Z := - 2 ^ 31.
Definition int_max : Z := 2 ^ 31 - 1.

Definition in_int32 (z : Z) : Prop := int_min <= z <= int_max.

Definition in_int32b (z : Z) : bool := (int_min <=? z) && (z <=? int_max).

(** Two's-complement wrap-around of an exact result. *)
Definition wrap32 (z : Z) : Z := (z + 2 ^ 31) mod 2 ^ 32 - 2 ^ 31.

(** C++ [a / b] on [int]: truncation towards zero. *)
Definition cdiv (a b : Z) : Z := Z.quot a b.

Lemma in_int32b_spec z : in_int32b z = true <-> in_int32 z.
Proof.
  unfold in_int32b, in_int32. rewrite andb_true_iff, !Z.leb_le. tauto.
Qed.

Lemma wrap32_small z : in_int32 z -> wrap32 z = z.
Proof.
  unfold in_int32, int_min, int_max, wrap32. intros H.
  rewrite Z.mod_small; lia.
Qed.

Lemma wrap32_range z : in_int32 (wrap32 z).
Proof.
  unfold in_int32, int_min, int_max, wrap32.
  pose proof (Z.mod_pos_bound (z + 2 ^ 31) (2 ^ 32)). lia.
Qed.

Lemma wrap32_idem z : wrap32 (wrap32 z) = wrap32 z.
Proof. apply wrap32_small, wrap32_range. Qed.

(** ** The arithmetic interface *)

Class IntOps := {
  iadd : Z -> Z -> Z;
  isub : Z -> Z -> Z;
  imul : Z -> Z -> Z
}.

Notation "a +! b" := (iadd a b) (at level 50, left associativity) : cg_scope.
Notation "a -! b" := (isub a b) (at level 50, left associativity) : cg_scope.
Notation "a *! b" := (imul a b) (at level 40, left associativity) : cg_scope.

(** Mathematical integers: the semantics the algorithms are designed for. *)
Definition exact_ops : IntOps := {| iadd := Z.add; isub := Z.sub; imul := Z.mul |}.

(** 32-bit wrap-around: what the compiled program computes. *)
Definition int32_ops : IntOps :=
  {| iadd a b := wrap32 (a + b); isub a b := wrap32 (a - b); imul a b := wrap32 (a * b) |}.

(** Each [int32_ops] operation agrees with the exact one when the exact
    result fits in an [int]. *)
Lemma int32_add_exact a b : in_int32 (a + b) -> @iadd int32_ops a b = a + b.
Proof. apply wrap32_small. Qed.

Lemma int32_sub_exact a b : in_int32 (a - b) -> @isub int32_ops a b = a - b.
Proof. apply wrap32_small. Qed.

Lemma int32_mul_exact a b : in_int32 (a * b) -> @imul int32_ops a b = a * b.
Proof. apply wrap32_small. Qed.

(** A bound [|z| <= 2^30] is a convenient sufficient condition. *)
Lemma in_int32_of_abs z : - 2 ^ 30 <= z <= 2 ^ 30 -> in_int32 z.
Proof. unfold in_int32, int_min, int_max. lia. Qed.

(** Wrap-around is arithmetic modulo 2^32: [wrap32] keeps the residue,
    is determined by it, and is the identity exactly on the [int]
    range.  These carry the algebraic laws of [int32_ops]. *)
Lemma wrap32_mod z : wrap32 z mod 2 ^ 32 = z mod 2 ^ 32.
Proof.
  unfold wrap32. rewrite (Z.mod_eq (z + 2 ^ 31)) by lia.
  replace (z + 2 ^ 31 - 2 ^ 32 * ((z + 2 ^ 31) / 2 ^ 32) - 2 ^ 31)
    with (z + (- ((z + 2 ^ 31) / 2 ^ 32)) * 2 ^ 32) by ring.
  apply Z.mod_add. lia.
Qed.

Lemma wrap32_congr x y : x mod 2 ^ 32 = y mod 2 ^ 32 -> wrap32 x = wrap32 y.
Proof.
  intros H. unfold wrap32. rewrite Z.add_mod, H, <- Z.add_mod by lia. reflexivity.
Qed.

Lemma wrap32_fixed_iff z : wrap32 z = z <-> in_int32 z.
Proof.
  split; [|apply wrap32_small]. intros H. rewrite <- H. apply wrap32_range.
Qed.

Lemma wrap32_add_l a b : wrap32 (wrap32 a + b) = wrap32 (a + b).
Proof. apply wrap32_congr. rewrite Z.add_mod, wrap32_mod, <- Z.add_mod by lia. reflexivity. Qed.

Lemma wrap32_mul_l a b : wrap32 (wrap32 a * b) = wrap32 (a * b).
Proof. apply wrap32_congr. rewrite Z.mul_mod, wrap32_mod, <- Z.mul_mod by lia. reflexivity. Qed.

Lemma wrap32_mul_r a b : wrap32 (a * wrap32 b) = wrap32 (a * b).
Proof. rewrite !(Z.mul_comm a). apply wrap32_mul_l. Qed.

#[export] Hint Resolve wrap32_range in_int32_of_abs : cg.
#[export] Hint Rewrite wrap32_add_l wrap32_mul_l wrap32_mul_r : cg_rw.
#[export] Hint Rewrite wrap32_idem : cg_rw.
