(* ===== verification/QFloat.v ===== *)
(** C++ [float] and [double] values as exact rationals.  Each
    arithmetic result is normalised with [Qred], which leaves its value
    unchanged ([Qred_correct]) and keeps repeated updates (a timer that
    adds 0.02 every frame) small enough to evaluate.  Rounding is not
    modelled: a theorem over these operations is a theorem about exact
    arithmetic.  Comparisons are the boolean tests the code makes. *)

From S2P Require Import Prelude.
From Stdlib Require Export QArith Qround Qminmax Qabs Lqa.

Definition fadd (a b : Q) : Q := Qred (a + b).
Definition fsub (a b : Q) : Q := Qred (a - b).
Definition fmul (a b : Q) : Q := Qred (a * b).
Definition fdiv (a b : Q) : Q := Qred (a / b).

Arguments fadd : simpl never.
Arguments fsub : simpl never.
Arguments fmul : simpl never.
Arguments fdiv : simpl never.

(** [a < b], [a <= b], [a == b] as the code tests them. *)
Definition fltb (a b : Q) : bool := negb (Qle_bool b a).
Definition fleb (a b : Q) : bool := Qle_bool a b.
Definition feqb (a b : Q) : bool := Qeq_bool a b.

(** [std::max(a, b)] and [std::min(a, b)]: [(a < b) ? b : a] and
    [(b < a) ? b : a]. *)
Definition cmax (a b : Q) : Q := if fltb a b then b else a.
Definition cmin (a b : Q) : Q := if fltb b a then b else a.

(** [fabs]. *)
Definition fabs (a : Q) : Q := Qabs a.

(** Two points equal up to [==] on each coordinate. *)
Definition qpt_eq (p q : Q * Q) : Prop := fst p == fst q /\ snd p == snd q.

(** A vertex lies in the box [[x0, x1] x [y0, y1]] of a [gluOrtho2D]
    projection: it is drawn inside the viewport. *)
Definition in_box (x0 x1 y0 y1 : Q) (p : Q * Q) : bool :=
  Qle_bool x0 (fst p) && Qle_bool (fst p) x1 && Qle_bool y0 (snd p) && Qle_bool (snd p) y1.

Lemma fadd_eq a b : fadd a b == a + b.
Proof. apply Qred_correct. Qed.
Lemma fsub_eq a b : fsub a b == a - b.
Proof. apply Qred_correct. Qed.
Lemma fmul_eq a b : fmul a b == a * b.
Proof. apply Qred_correct. Qed.
Lemma fdiv_eq a b : fdiv a b == a / b.
Proof. apply Qred_correct. Qed.

Lemma fleb_spec a b : BoolSpec (a <= b) (b < a) (fleb a b).
Proof.
  unfold fleb. destruct (Qle_bool a b) eqn:E; constructor.
  - apply Qle_bool_iff; exact E.
  - apply Qnot_le_lt. intros H. apply Qle_bool_iff in H. congruence.
Qed.

Lemma fltb_spec a b : BoolSpec (a < b) (b <= a) (fltb a b).
Proof.
  unfold fltb. destruct (Qle_bool b a) eqn:E; constructor.
  - apply Qle_bool_iff; exact E.
  - apply Qnot_le_lt. intros H. apply Qle_bool_iff in H. congruence.
Qed.

(** The comparisons see values, not representations. *)
Lemma fltb_compat a a' b b' : a == a' -> b == b' -> fltb a b = fltb a' b'.
Proof.
  intros Ha Hb. destruct (fltb_spec a b), (fltb_spec a' b'); try reflexivity;
    exfalso; rewrite Ha, Hb in *; lra.
Qed.

#[export] Instance fltb_proper : Proper (Qeq ==> Qeq ==> eq) fltb.
Proof. intros a a' Ha b b' Hb. apply fltb_compat; assumption. Qed.

Lemma feqb_spec a b : BoolSpec (a == b) (~ a == b) (feqb a b).
Proof.
  unfold feqb. destruct (Qeq_bool a b) eqn:E; constructor.
  - apply Qeq_bool_iff; exact E.
  - intros H. apply Qeq_bool_iff in H. congruence.
Qed.

(** Case analysis on every float comparison of the goal. *)
Ltac qcase :=
  repeat match goal with
  | |- context [fltb ?a ?b] => destruct (fltb_spec a b)
  | |- context [fleb ?a ?b] => destruct (fleb_spec a b)
  | |- context [feqb ?a ?b] => destruct (feqb_spec a b)
  end.

(** Replace every normalised operation by its exact value, in the goal
    and in the hypotheses. *)
Ltac qnorm :=
  repeat first
    [ rewrite fadd_eq in * | rewrite fsub_eq in * | rewrite fmul_eq in *
    | rewrite fdiv_eq in * ].

(** Replace every [float] operation of the goal by the exact one, nested
    ones included ([Qred] is a morphism for [==]). *)
Ltac qexact := unfold fadd, fsub, fmul, fdiv; repeat rewrite Qred_correct.

Lemma in_box_spec x0 x1 y0 y1 p :
  in_box x0 x1 y0 y1 p = true <-> (x0 <= fst p <= x1 /\ y0 <= snd p <= y1).
Proof. unfold in_box; rewrite !andb_true_iff, !Qle_bool_iff; tauto. Qed.

Lemma Qmax_left x y : y <= x -> Qmax x y == x.
Proof. apply Q.max_l. Qed.
Lemma Qmax_right x y : x <= y -> Qmax x y == y.
Proof. apply Q.max_r. Qed.
Lemma Qmin_left x y : x <= y -> Qmin x y == x.
Proof. apply Q.min_l. Qed.
Lemma Qmin_right x y : y <= x -> Qmin x y == y.
Proof. apply Q.min_r. Qed.

(** Resolve [Qmin] and [Qmax] from the order facts of the context. *)
Ltac qminmax :=
  repeat first [ rewrite Qmax_left by lra | rewrite Qmax_right by lra
               | rewrite Qmin_left by lra | rewrite Qmin_right by lra ];
  lra.

(** The two clamping idioms of the sketches, [if (v < lo) v = lo;
    if (v > hi) v = hi;] and the same tests in the other order, compute
    [min hi (max lo v)] and [max lo (min hi v)] (stated up to [==]
    on [v], as the value clamped is usually a normalised sum). *)
Lemma clamp_lo_hi lo hi v w :
  lo <= hi -> v == w ->
  (let v := if fltb v lo then lo else v in if fltb hi v then hi else v) == Qmin hi (Qmax lo w).
Proof.
  intros Hle Hvw; cbv zeta. destruct (fltb_spec v lo); qcase; qminmax.
Qed.

Lemma clamp_hi_lo lo hi v w :
  lo <= hi -> v == w ->
  (let v := if fltb hi v then hi else v in if fltb v lo then lo else v) == Qmax lo (Qmin hi w).
Proof.
  intros Hle Hvw; cbv zeta. destruct (fltb_spec hi v); qcase; qminmax.
Qed.

Lemma cmax_spec a b : cmax a b == Qmax a b.
Proof. unfold cmax. qcase; qminmax. Qed.

Lemma cmin_spec a b : cmin a b == Qmin a b.
Proof. unfold cmin. qcase; qminmax. Qed.

Lemma inject_Z_of_nat_succ n :
  inject_Z (Z.of_nat (S n)) == inject_Z (Z.of_nat n) + 1.
Proof. rewrite Nat2Z.inj_succ, <- Z.add_1_r, inject_Z_plus. reflexivity. Qed.

(** [Qred] leaves an integer as it is. *)
Lemma Qred_inject_Z z : Qred (inject_Z z) = inject_Z z.
Proof.
  unfold Qred, inject_Z. pose proof (Z.ggcd_gcd z 1) as Hg. pose proof (Z.ggcd_correct_divisors z 1) as Hd.
  destruct (Z.ggcd z 1) as (g, (aa, bb)). cbn [fst snd] in *. rewrite Z.gcd_1_r in Hg. subst g.
  destruct Hd as [Ha Hb]. rewrite Z.mul_1_l in Ha, Hb. subst. reflexivity.
Qed.

Lemma fsub_inject_Z a b : fsub (inject_Z a) (inject_Z b) = inject_Z (a - b).
Proof.
  unfold fsub. rewrite <- (Qred_inject_Z (a - b)). apply Qred_complete.
  unfold Qminus. rewrite <- inject_Z_opp, <- inject_Z_plus. reflexivity.
Qed.

Lemma Qmax_compat a a' b b' : a == a' -> b == b' -> Qmax a b == Qmax a' b'.
Proof.
  intros Ea Eb. destruct (Q.max_spec a b) as [[? ->]|[? ->]];
    destruct (Q.max_spec a' b') as [[? ->]|[? ->]]; lra.
Qed.

Create Rewrite HintDb qfloat.
#[export] Hint Rewrite fadd_eq fsub_eq fmul_eq fdiv_eq : qfloat.

(** A loop on [float] state terminates when a rational variant is
    non-negative on every pass and drops by at least 1 per pass: fuel
    above the initial variant is enough. *)
Lemma while_rows_total_Q {St} (cond : St -> bool) (step : St -> St) (V : St -> Q) :
  (forall s, cond s = true -> 0 <= V s) ->
  (forall s, cond s = true -> V (step s) + 1 <= V s) ->
  forall fuel s, V s < inject_Z (Z.of_nat fuel) ->
  exists r, while_rows (S fuel) cond step s = Some r.
Proof.
  intros Hpos Hdec. induction fuel as [|f IH]; intros s Hs.
  - rewrite while_rows_unfold. destruct (cond s) eqn:Hc; [|eauto].
    specialize (Hpos s Hc). change (inject_Z (Z.of_nat 0)) with 0 in Hs. lra.
  - rewrite while_rows_unfold. destruct (cond s) eqn:Hc; [|eauto].
    destruct (IH (step s)) as ([l e] & Hr).
    + specialize (Hdec s Hc). rewrite inject_Z_of_nat_succ in Hs. lra.
    + rewrite Hr. cbn. eauto.
Qed.

(** The fuel [Z.to_nat (Qceiling q) + 1] is above [q]. *)
Lemma Qceiling_fuel q : q < inject_Z (Z.of_nat (Z.to_nat (Qceiling q) + 1)).
Proof.
  pose proof (Qle_ceiling q). apply Qle_lt_trans with (inject_Z (Qceiling q)); [assumption|].
  rewrite <- Zlt_Qlt, Nat2Z.inj_add. destruct (Z.le_gt_cases 0 (Qceiling q)).
  - rewrite Z2Nat.id by assumption. lia.
  - pose proof (Nat2Z.is_nonneg (Z.to_nat (Qceiling q))). lia.
Qed.

Lemma inject_Z_sub a b : inject_Z (a - b) == inject_Z a - inject_Z b.
Proof. unfold Z.sub. rewrite inject_Z_plus, inject_Z_opp. reflexivity. Qed.

Lemma inject_Z_neq a b : a <> b -> ~ inject_Z a - inject_Z b == 0.
Proof. intros H E. apply H, inject_Z_injective. lra. Qed.
