(* ===== verification/Float32.v ===== *)
(** The C++ [float] accumulators in IEEE 754 binary32.  A [float] value
    is a rational [n * 2^(e - 23)] with an integer significand
    [|n| < 2^24] and an exponent [e >= -126] (the subnormals share the
    exponent -126); an arithmetic operation returns its exact result
    rounded to the nearest such value, ties to an even significand (the
    default rounding mode), and so does a decimal literal such as
    [0.02f].  [round32] is that rounding; [f32add] and [f32sub] are
    [float + float] and [float - float] as the compiled code evaluates
    them (SSE arithmetic, no excess precision).  Overflow to infinity
    is not modelled: the values rounded here stay below 10.  The two
    facts the proofs use are that rounding keeps the sign of a
    non-negative value and that its error is at most [2^-24] of the
    value, plus [2^-150] below the normal range. *)

From S2P Require Import Prelude QFloat.
From Stdlib Require Import Qpower.

Open Scope Q_scope.

(** [2^e] for an integer [e]. *)
Definition pow2 (e : Z) : Q := Qpower 2 e.

(** [floor (log2 q)] for [q > 0]: the bit lengths of numerator and
    denominator give it up to one. *)
Definition Qlog2_floor (q : Q) : Z :=
  let c := (Z.log2 (Qnum q) - Z.log2 (Zpos (Qden q)))%Z in
  if Qle_bool (pow2 c) q then c else (c - 1)%Z.

(** Rounding to an integer, half to even. *)
Definition Zround_even (x : Q) : Z :=
  let f := Qfloor x in
  match Qcompare (x - inject_Z f) (1 # 2) with
  | Lt => f
  | Gt => (f + 1)%Z
  | Eq => if Z.even f then f else (f + 1)%Z
  end.

(** The binary32 value nearest to [q], ties to even: [q] is scaled by
    the unit in the last place of its binade (24 significant bits, the
    binade of 2^-126 below the normal range) and rounded there. *)
Definition round32 (q : Q) : Q :=
  if Qeq_bool q 0 then 0 else
  let e := Z.max (Qlog2_floor (Qabs q)) (-126) in
  let ulp := pow2 (e - 23) in
  Qred (inject_Z (Zround_even (q / ulp)) * ulp).

(** [a + b] and [a - b] on [float] operands. *)
Definition f32add (a b : Q) : Q := round32 (a + b).
Definition f32sub (a b : Q) : Q := round32 (a - b).

Arguments round32 : simpl never.
Arguments f32add : simpl never.
Arguments f32sub : simpl never.

Lemma pow2_pos e : 0 < pow2 e.
Proof. apply Qpower_0_lt. lra. Qed.

Lemma pow2_nonneg_Z e : (0 <= e)%Z -> pow2 e == inject_Z (2 ^ e).
Proof. intros He. unfold pow2. rewrite Zpower_Qpower by exact He. reflexivity. Qed.

Lemma pow2_sub a b : pow2 (a - b) == pow2 a / pow2 b.
Proof. unfold pow2. apply Qpower_minus. lra. Qed.

Lemma pow2_add a b : pow2 (a + b) == pow2 a * pow2 b.
Proof. unfold pow2. apply Qpower_plus. lra. Qed.

Lemma pow2_le a b : (a <= b)%Z -> pow2 a <= pow2 b.
Proof. intros H. unfold pow2. apply Qpower_le_compat_l; [exact H | lra]. Qed.

(** The exponent found is a lower bound: [2^(Qlog2_floor q) <= q]. *)
Lemma Qlog2_floor_le q : 0 < q -> pow2 (Qlog2_floor q) <= q.
Proof.
  intros Hq. unfold Qlog2_floor.
  set (c := (Z.log2 (Qnum q) - Z.log2 (Zpos (Qden q)))%Z).
  destruct (Qle_bool (pow2 c) q) eqn:E; [apply Qle_bool_iff, E|].
  destruct q as [a d]. unfold Qlt in Hq; cbn [Qnum Qden] in *. rewrite Z.mul_1_r in Hq.
  pose proof (Z.log2_spec a Hq) as [Ha _].
  pose proof (Z.log2_spec (Zpos d) eq_refl) as [_ Hd].
  pose proof (Z.log2_nonneg a). pose proof (Z.log2_nonneg (Zpos d)).
  replace (c - 1)%Z with (Z.log2 a - (Z.log2 (Zpos d) + 1))%Z by (unfold c; lia).
  rewrite pow2_sub, !pow2_nonneg_Z by lia.
  rewrite <- Z.add_1_r in Hd.
  set (A := (2 ^ Z.log2 a)%Z) in *. set (D := (2 ^ (Z.log2 (Zpos d) + 1))%Z) in *.
  assert (HA : (0 < A)%Z) by (apply Z.pow_pos_nonneg; lia).
  rewrite Qmake_Qdiv. apply Qle_shift_div_l; [change 0 with (inject_Z 0); rewrite <- Zlt_Qlt; lia|].
  unfold Qdiv. rewrite <- Qmult_assoc, (Qmult_comm (/ _)), Qmult_assoc.
  apply Qle_shift_div_r; [change 0 with (inject_Z 0); rewrite <- Zlt_Qlt; lia|].
  rewrite <- !inject_Z_mult, <- Zle_Qle. nia.
Qed.

(** Rounding to an integer moves [x] by at most one half. *)
Lemma Zround_even_err x : Qabs (inject_Z (Zround_even x) - x) <= 1 # 2.
Proof.
  unfold Zround_even. pose proof (Qfloor_le x) as Hf. pose proof (Qlt_floor x) as Hf1.
  rewrite inject_Z_plus in Hf1. change (inject_Z 1) with 1 in Hf1.
  set (f := Qfloor x) in *.
  destruct (Qcompare_spec (x - inject_Z f) (1 # 2)) as [E|E|E];
    [destruct (Z.even f) | |]; rewrite ?inject_Z_plus; change (inject_Z 1) with 1;
    apply Qabs_case; intros; lra.
Qed.

Lemma Zround_even_nonneg x : 0 <= x -> (0 <= Zround_even x)%Z.
Proof.
  intros Hx. assert (H0 : (0 <= Qfloor x)%Z) by (rewrite <- (Qfloor_Z 0); apply Qfloor_resp_le, Hx).
  unfold Zround_even. destruct (_ ?= _); [destruct (Z.even _)| |]; lia.
Qed.

Lemma pow2_24 : pow2 24 == 16777216.
Proof. reflexivity. Qed.

(** Rounding keeps a non-negative value non-negative. *)
Lemma round32_nonneg q : 0 <= q -> 0 <= round32 q.
Proof.
  intros Hq. unfold round32. destruct (Qeq_bool q 0); [lra|].
  rewrite Qred_correct. set (u := pow2 _). assert (Hu : 0 < u) by apply pow2_pos.
  apply Qmult_le_0_compat; [|lra]. change 0 with (inject_Z 0). rewrite <- Zle_Qle.
  apply Zround_even_nonneg. apply Qle_shift_div_l; lra.
Qed.

(** The rounding error: at most [2^-24] of the value in the normal
    range, at most [2^-150] below it. *)
Lemma round32_error q : Qabs (round32 q - q) <= Qabs q * (1 # 16777216) + pow2 (-150).
Proof.
  pose proof (pow2_pos (-150)) as Hp. pose proof (Qabs_nonneg q) as Ha.
  unfold round32. destruct (Qeq_bool q 0) eqn:Eq0.
  { apply Qeq_bool_iff in Eq0. rewrite Eq0. cbn. lra. }
  assert (Hq : 0 < Qabs q).
  { destruct (Qlt_le_dec 0 (Qabs q)) as [H|H]; [exact H|].
    exfalso. assert (E : q == 0) by (revert H; apply Qabs_case; intros; lra).
    apply Qeq_bool_iff in E. congruence. }
  rewrite Qred_correct. set (L := Qlog2_floor (Qabs q)).
  set (e := Z.max L (-126)). set (u := pow2 (e - 23)).
  assert (Hu : 0 < u) by apply pow2_pos.
  assert (E : inject_Z (Zround_even (q / u)) * u - q == (inject_Z (Zround_even (q / u)) - q / u) * u)
    by (field; lra).
  rewrite E, Qabs_Qmult, (Qabs_pos u) by lra.
  assert (Hh : Qabs (inject_Z (Zround_even (q / u)) - q / u) * u <= (1 # 2) * u)
    by (apply Qmult_le_compat_r; [apply Zround_even_err | lra]).
  assert (Hu2 : (1 # 2) * u == pow2 (e - 24)).
  { unfold u. replace (e - 24)%Z with ((e - 23) + (-1))%Z by lia. rewrite pow2_add. change (pow2 (-1)) with (1 # 2). ring. }
  destruct (Z.le_gt_cases (-126) L) as [HL|HL].
  - assert (Ee : e = L) by (unfold e; lia). rewrite Ee in Hu2.
    rewrite pow2_sub, pow2_24 in Hu2. pose proof (Qlog2_floor_le (Qabs q) Hq) as Hl. fold L in Hl.
    assert (pow2 L / 16777216 <= Qabs q * (1 # 16777216)) by (unfold Qdiv; change (/ 16777216) with (1 # 16777216); apply Qmult_le_compat_r; lra).
    lra.
  - assert (Ee : e = (-126)%Z) by (unfold e; lia). rewrite Ee in Hu2. change (-126 - 24)%Z with (-150)%Z in Hu2.
    assert (0 <= Qabs q * (1 # 16777216)) by (apply Qmult_le_0_compat; lra). lra.
Qed.

(** An upper bound of [round32 q] for [q >= 0]. *)
Definition round32_ub (x : Q) : Q := x + x * (1 # 16777216) + pow2 (-150).

(** A lower bound of [round32 q] for [q >= 0]. *)
Definition round32_lb (x : Q) : Q := x - x * (1 # 16777216) - pow2 (-150).

Lemma round32_bounds q : 0 <= q -> round32_lb q <= round32 q <= round32_ub q.
Proof.
  intros Hq. pose proof (round32_error q) as H. rewrite (Qabs_pos q) in H by exact Hq.
  unfold round32_lb, round32_ub. revert H. apply Qabs_case; intros; lra.
Qed.

Lemma round32_ub_mono x y : x <= y -> round32_ub x <= round32_ub y.
Proof. unfold round32_ub. intros. lra. Qed.

Lemma round32_lb_mono x y : x <= y -> round32_lb x <= round32_lb y.
Proof. unfold round32_lb. intros. lra. Qed.

Lemma pow2_m150 : 0 < pow2 (-150) <= 1 # 1000000000.
Proof. split; [apply pow2_pos | apply Qle_bool_iff; reflexivity]. Qed.

(** The same bounds for a value of either sign, given a bound on its
    magnitude. *)
Lemma round32_near q r :
  Qabs q <= r ->
  q - (r * (1 # 16777216) + pow2 (-150)) <= round32 q <= q + (r * (1 # 16777216) + pow2 (-150)).
Proof.
  intros Hr. pose proof (round32_error q) as H.
  assert (Qabs q * (1 # 16777216) <= r * (1 # 16777216)) by (apply Qmult_le_compat_r; lra).
  revert H. apply Qabs_case; intros; lra.
Qed.
