(* ===== verification/Console.v ===== *)
(** The [std::ostream] formatting the lab programs print their tables
    with: [os << n] for an [int], [setw(w)] (right-aligned, padded with
    spaces, never truncating), [string(n, c)], and
    [os << fixed << setprecision(p) << q] for a floating value.  A
    value is an exact rational (see QFloat); [fixed] rounds it to [p]
    decimals, ties to even, as the C library does on an exact binary
    value.  A printed table is the list of strings its output
    statements write, in order.  The lemmas give the width of each
    field, so that the table theorems can say when rows line up. *)

From S2P Require Import Prelude QFloat.
From Stdlib Require Strings.String Strings.Ascii.
Import String.StringSyntax.

Local Open Scope Z_scope.
Local Open Scope string_scope.
Local Infix "++" := String.append : string_scope.

Module Ostream.

Definition str := String.string.

(** [n] copies of one character: [std::string(n, c)]. *)
Definition rep (n : nat) (c : Ascii.ascii) : str := String.string_of_list_ascii (repeat c n).

Definition space : Ascii.ascii := Ascii.ascii_of_nat 32.
Definition zero_char : Ascii.ascii := Ascii.ascii_of_nat 48.

(** One decimal digit. *)
Definition digit (d : Z) : Ascii.ascii := Ascii.ascii_of_nat (48 + Z.to_nat d).

(** The decimal digits of [n >= 0], least significant first; [fuel]
    bounds their number. *)
Fixpoint digits_rev (fuel : nat) (n : Z) : list Ascii.ascii :=
  match fuel with
  | O => []
  | S f => digit (n mod 10) :: (if n <? 10 then [] else digits_rev f (n / 10))
  end.

(** Enough fuel for [n]: one digit more than its bits. *)
Definition digits_fuel (n : Z) : nat := S (Z.to_nat (Z.log2 n)).

(** [os << n] for an integer. *)
Definition show_int (z : Z) : str :=
  let s := String.string_of_list_ascii (rev (digits_rev (digits_fuel (Z.abs z)) (Z.abs z))) in
  if z <? 0 then "-" ++ s else s.

(** [os << setw(w) << s]: padded on the left to [w] characters. *)
Definition setw (w : nat) (s : str) : str := rep (w - String.length s)%nat space ++ s.

(** Round half to even, for a value [q >= 0]. *)
Definition round_half_even (q : Q) : Z :=
  let f := Qfloor q in
  let r := (q - inject_Z f)%Q in
  if fltb (1 # 2) r then f + 1
  else if feqb r (1 # 2) then (if Z.even f then f else f + 1) else f.

(** [os << fixed << setprecision(p) << q]: the sign of a negative value
    (kept when it rounds to zero), the integer part, and [p] decimals. *)
Definition show_fixed (p : nat) (q : Q) : str :=
  let scale := (10 ^ Z.of_nat p)%Z in
  let k := round_half_even (Qabs q * inject_Z scale)%Q in
  (if fltb q 0 then "-" else "") ++ show_int (k / scale) ++
  match p with
  | O => ""
  | S _ => "." ++ rep (p - String.length (show_int (k mod scale)))%nat zero_char ++ show_int (k mod scale)
  end.

(** The newline character and the dash of the tables' rules. *)
Definition newline : str := String.String (Ascii.ascii_of_nat 10) String.EmptyString.
Definition dash : Ascii.ascii := Ascii.ascii_of_nat 45.

(** One output statement [cout << a << b << ...]: the strings it writes,
    in order. *)
Definition cat (l : list str) : str := String.concat "" l.

End Ostream.

(** ** Widths of the printed fields *)

Module OstreamFacts.
Import Ostream.

Lemma length_append (s t : str) : String.length (s ++ t) = (String.length s + String.length t)%nat.
Proof. induction s as [|c s IH]; cbn; [reflexivity | now rewrite IH]. Qed.

Lemma length_of_list (l : list Ascii.ascii) : String.length (String.string_of_list_ascii l) = length l.
Proof. induction l as [|c l IH]; cbn; [reflexivity | now rewrite IH]. Qed.

Lemma length_rep n c : String.length (rep n c) = n.
Proof. unfold rep. now rewrite length_of_list, repeat_length. Qed.

#[export] Hint Rewrite length_append length_of_list length_rep : cg_rw.

Lemma length_cat l : String.length (cat l) = list_sum (map String.length l).
Proof.
  induction l as [|a l IH]; [reflexivity|]. unfold cat in *.
  destruct l as [|b l]; [cbn; lia|].
  change (String.concat "" (a :: b :: l)) with (a ++ "" ++ String.concat "" (b :: l)).
  rewrite !length_append, IH. reflexivity.
Qed.

#[export] Hint Rewrite length_cat : cg_rw.

(** [setw] never truncates: the field is [max w (length s)] wide. *)
Lemma length_setw w s : String.length (setw w s) = Nat.max w (String.length s).
Proof. unfold setw. autorewrite with cg_rw. lia. Qed.

#[export] Hint Rewrite length_setw : cg_rw.

(** The width of a printed line: the fields, each at least its [setw]. *)
Ltac line_length :=
  rewrite ?length_cat; cbn [map list_sum fold_right]; autorewrite with cg_rw; cbn [String.length newline].

Lemma length_setw_fit w s : (String.length s <= w)%nat -> String.length (setw w s) = w.
Proof. rewrite length_setw. lia. Qed.

(** A number below [10^d] has at most [d] digits, whatever the fuel. *)
Lemma digits_rev_le fuel n d :
  0 <= n < 10 ^ Z.of_nat d -> (1 <= d)%nat -> (length (digits_rev fuel n) <= d)%nat.
Proof.
  revert n d. induction fuel as [|f IH]; intros n d Hn Hd; cbn [digits_rev length]; [lia|].
  destruct (Z.ltb_spec n 10); cbn [length]; [lia|].
  destruct d as [|[|d]]; [lia| cbn in Hn; lia |].
  enough (length (digits_rev f (n / 10)) <= S d)%nat by lia.
  apply IH; [|lia]. rewrite Nat2Z.inj_succ, Z.pow_succ_r in Hn by lia.
  split; [apply Z.div_pos; lia | apply Z.div_lt_upper_bound; lia].
Qed.

(** A number from [10^d] on has more than [d] digits, given the fuel. *)
Lemma digits_rev_gt fuel n d :
  10 ^ Z.of_nat d <= n -> (d < fuel)%nat -> (d < length (digits_rev fuel n))%nat.
Proof.
  revert fuel n. induction d as [|d IH]; intros fuel n Hn Hf; destruct fuel as [|f]; try lia; cbn [digits_rev length]; [lia|].
  rewrite Nat2Z.inj_succ, Z.pow_succ_r in Hn by lia. pose proof (Z.pow_pos_nonneg 10 (Z.of_nat d) ltac:(lia) ltac:(lia)).
  destruct (Z.ltb_spec n 10); [lia|]. cbn [length].
  enough (d < length (digits_rev f (n / 10)))%nat by lia.
  apply IH; [|lia]. apply Z.div_le_lower_bound; lia.
Qed.

Lemma digits_fuel_enough n d : 10 ^ Z.of_nat d <= n -> (d < digits_fuel n)%nat.
Proof.
  intros Hn. unfold digits_fuel. assert (Hd : Z.of_nat d <= Z.log2 n).
  { apply Z.log2_le_pow2; [pose proof (Z.pow_pos_nonneg 10 (Z.of_nat d)); lia|].
    eapply Z.le_trans; [|exact Hn]. apply Z.pow_le_mono_l; lia. }
  lia.
Qed.

Lemma length_show_int z :
  String.length (show_int z) = ((if (z <? 0)%Z then 1 else 0) + length (digits_rev (digits_fuel (Z.abs z)) (Z.abs z)))%nat.
Proof. unfold show_int. destruct (z <? 0)%Z; rewrite ?length_append, length_of_list, length_rev; reflexivity. Qed.

(** An [int] field of width [w] holds [z] exactly when
    [-10^(w-1) < z < 10^w]. *)
Theorem show_int_fits z w :
  (1 <= w)%nat ->
  ((String.length (show_int z) <= w)%nat <-> - 10 ^ (Z.of_nat w - 1) < z < 10 ^ Z.of_nat w).
Proof.
  intros Hw. rewrite length_show_int. split.
  - intros Hl. destruct (Z.ltb_spec z 0) as [Hz|Hz].
    + split; [|pose proof (Z.pow_pos_nonneg 10 (Z.of_nat w)); lia].
      destruct (Z.lt_ge_cases (- 10 ^ (Z.of_nat w - 1)) z) as [|Hc]; [assumption|].
      replace (Z.of_nat w - 1) with (Z.of_nat (w - 1)) in Hc by lia.
      pose proof (digits_rev_gt (digits_fuel (Z.abs z)) (Z.abs z) (w - 1) ltac:(lia)
                    (digits_fuel_enough (Z.abs z) (w - 1) ltac:(lia))). lia.
    + split; [pose proof (Z.pow_pos_nonneg 10 (Z.of_nat w - 1)); lia|].
      destruct (Z.lt_ge_cases z (10 ^ Z.of_nat w)) as [|Hc]; [assumption|].
      pose proof (digits_rev_gt (digits_fuel (Z.abs z)) (Z.abs z) w ltac:(lia) (digits_fuel_enough (Z.abs z) w ltac:(lia))). lia.
  - intros [Hlo Hhi]. destruct (Z.ltb_spec z 0) as [Hz|Hz].
    + destruct w as [|[|w]]; [lia | cbn in Hlo; lia |].
      enough (length (digits_rev (digits_fuel (Z.abs z)) (Z.abs z)) <= S w)%nat by lia.
      apply digits_rev_le; [|lia]. replace (Z.of_nat (S (S w)) - 1) with (Z.of_nat (S w)) in Hlo by lia. lia.
    + enough (length (digits_rev (digits_fuel (Z.abs z)) (Z.abs z)) <= w)%nat by lia.
      apply digits_rev_le; lia.
Qed.

(** Rounding to even moves a value [x >= 0] up by at most one half. *)
Lemma round_half_even_bounds x :
  (0 <= x)%Q -> 0 <= round_half_even x /\ (inject_Z (round_half_even x) <= x + (1 # 2))%Q.
Proof.
  intros Hx. unfold round_half_even. set (f := Qfloor x).
  pose proof (Qfloor_le x) as Hlo. pose proof (Qlt_floor x) as Hhi. fold f in Hlo, Hhi.
  rewrite inject_Z_plus in Hhi. change (inject_Z 1) with 1%Q in Hhi.
  assert (Hf : 0 <= f). { assert (H0 : (inject_Z (-1) < inject_Z f)%Q) by (change (inject_Z (-1)) with (-1)%Q; lra).
    rewrite <- Zlt_Qlt in H0. lia. }
  assert (Hf1 : (inject_Z (f + 1) == inject_Z f + 1)%Q) by (rewrite inject_Z_plus; reflexivity).
  destruct (fltb_spec (1 # 2) (x - inject_Z f)); [split; [lia | rewrite Hf1; lra]|].
  destruct (feqb_spec (x - inject_Z f) (1 # 2)); [|split; [lia | lra]].
  destruct (Z.even f); (split; [lia|]); [lra | rewrite Hf1; lra].
Qed.

(** The decimals of [fixed] are exactly [p] digits. *)
Lemma length_decimals p k :
  (1 <= p)%nat -> 0 <= k < 10 ^ Z.of_nat p ->
  String.length (rep (p - String.length (show_int k))%nat zero_char ++ show_int k) = p.
Proof.
  intros Hp Hk. rewrite length_append, length_rep.
  enough (String.length (show_int k) <= p)%nat by lia.
  apply show_int_fits; [exact Hp|]. pose proof (Z.pow_pos_nonneg 10 (Z.of_nat p - 1)). lia.
Qed.

(** A [fixed] field with [p >= 1] decimals of a value below
    [10^d - 1] in magnitude takes at most [2 + d + p] characters: a
    sign, [d] integer digits, the point and the decimals. *)
Theorem show_fixed_fits p q d :
  (1 <= p)%nat -> (1 <= d)%nat -> (Qabs q + 1 <= inject_Z (10 ^ Z.of_nat d))%Q ->
  (String.length (show_fixed p q) <= 2 + d + p)%nat.
Proof.
  intros Hp Hd Hq. unfold show_fixed. set (scale := 10 ^ Z.of_nat p).
  assert (Hs : 1 <= scale) by (unfold scale; pose proof (Z.pow_le_mono_r 10 0 (Z.of_nat p)); lia).
  set (x := (Qabs q * inject_Z scale)%Q).
  assert (Hx0 : (0 <= x)%Q) by (apply Qmult_le_0_compat; [apply Qabs_nonneg | change 0%Q with (inject_Z 0); rewrite <- Zle_Qle; lia]).
  destruct (round_half_even_bounds x Hx0) as [Hk0 Hk]. set (k := round_half_even x) in *. clearbody k.
  assert (Hkd : k < 10 ^ Z.of_nat d * scale).
  { rewrite Zlt_Qlt, inject_Z_mult. apply (Qle_lt_trans _ (x + (1 # 2))); [exact Hk|].
    assert (HS : (1 <= inject_Z scale)%Q) by (change 1%Q with (inject_Z 1); rewrite <- Zle_Qle; exact Hs).
    assert (Hx : (x <= (inject_Z (10 ^ Z.of_nat d) - 1) * inject_Z scale)%Q)
      by (apply Qmult_le_compat_r; lra).
    lra. }
  assert (Hint : (String.length (show_int (k / scale)) <= d)%nat).
  { apply show_int_fits; [exact Hd|]. split.
    - pose proof (Z.pow_pos_nonneg 10 (Z.of_nat d - 1)). pose proof (Z.div_pos k scale). lia.
    - apply Z.div_lt_upper_bound; lia. }
  destruct p as [|p']; [lia|].
  assert (Hdec : String.length (rep (S p' - String.length (show_int (k mod scale)))%nat zero_char ++ show_int (k mod scale)) = S p')
    by (apply length_decimals; [exact Hp | apply Z.mod_pos_bound; lia]).
  set (dec := rep _ zero_char ++ show_int (k mod scale)) in *. clearbody dec.
  rewrite !length_append, Hdec. destruct (fltb q 0); cbn [String.length]; lia.
Qed.

End OstreamFacts.
