(* ===== verification/Beam.v ===== *)
(** The electron-beam stage machine that CRT_2D.cpp and CRT_3D.cpp both
    run: [enum BeamStage] (filament, anode, deflection, screen), the
    running branch of the timer callback (progress grows by a fixed
    step; a full stage moves the beam to the next one; on the screen the
    sweep angle turns and the progress restarts), and the [r] key's
    reset.  The two sketches differ only in three [float] constants,
    which are the [Variables] of the section: the 2D sketch uses a
    progress step of 0.02f, an angle step of 0.02f and a wrap at
    6.283f; the 3D sketch 0.015f, 0.05f and 6.28f.  Progress and angle
    are [float] accumulators and every update is rounded to binary32
    ([Float32.f32add], [Float32.f32sub]).  The invariant holds for any
    constants with a positive progress step and an angle step well
    below the wrap.  The stage timing holds when [N] ticks make a stage
    (the rounded sums after fewer than [N] steps stay below 1, the
    [N]-th reaches it), which evaluation checks for the constant of
    each sketch: 51 ticks for 0.02f, 67 for 0.015f. *)

From S2P Require Import Prelude QFloat Float32.

Open Scope Q_scope.

(** [enum BeamStage] and the [int] values of its enumerators. *)
Definition STAGE_FILAMENT : Z := 0.
Definition STAGE_ANODE : Z := 1.
Definition STAGE_DEFLECTION : Z := 2.
Definition STAGE_SCREEN : Z := 3.

(** The globals [beamStage], [beamProgress] and [screenTheta]. *)
Record Beam := mkBeam { beamStage : Z; beamProgress : Q; screenTheta : Q }.

(** Their initial values. *)
Definition beam_init : Beam := mkBeam STAGE_FILAMENT 0 0.

Section Machine.
Variables (beamSpeed thetaStep thetaWrap : Q).

(** The body of [if (!showIntro && !paused)] in the timer callback:
    clamp the progress at 1; on the screen turn the angle (wrapping
    once past [thetaWrap]) and restart a full sweep; elsewhere a full
    stage moves to [(BeamStage)(beamStage + 1)]. *)
Definition advance (b : Beam) : Beam :=
  let p := f32add (beamProgress b) beamSpeed in
  let p := if fltb 1 p then 1 else p in
  if (beamStage b =? STAGE_SCREEN)%Z then
    let th := f32add (screenTheta b) thetaStep in
    let th := if fltb thetaWrap th then f32sub th thetaWrap else th in
    mkBeam (beamStage b) (if fleb 1 p then 0 else p) th
  else if fleb 1 p then mkBeam (beamStage b + 1)%Z 0 (screenTheta b)
  else mkBeam (beamStage b) p (screenTheta b).

(** The values [beamProgress] takes within a stage: [n] rounded steps
    [beamProgress += beamSpeed] from 0. *)
Definition progress_seq (n : nat) : Q := Nat.iter n (fun p => f32add p beamSpeed) 0.

(** [N] ticks make a stage: the progress after fewer than [N] steps is
    below 1 and after [N] steps it reaches 1. *)
Definition ticks_per_stage (N : nat) : bool :=
  forallb (fun n => fltb (progress_seq n) 1) (seq 0 N) && fleb 1 (progress_seq N).

End Machine.

(** The [r] key: back to the filament with no progress; the sweep
    angle is kept. *)
Definition reset_beam (b : Beam) : Beam := mkBeam STAGE_FILAMENT 0 (screenTheta b).

(** Abstract view: the stage moves forward by at most one, never past
    the screen, or goes back to the filament on a reset. *)
Inductive stage_step : Z -> Z -> Prop :=
  | stage_stay k : stage_step k k
  | stage_next k : (k < STAGE_SCREEN)%Z -> stage_step k (k + 1)
  | stage_reset k : stage_step k STAGE_FILAMENT.

Section Proofs.
Variables (beamSpeed thetaStep thetaWrap : Q).
Hypothesis speed_pos : 0 < beamSpeed.
Hypothesis theta_step_nonneg : 0 <= thetaStep.
Hypothesis theta_wrap_nonneg : 0 <= thetaWrap.
(** A turn past the wrap, rounded, and the subtraction of the wrap,
    rounded, land back in [0, thetaWrap]. *)
Hypothesis theta_margin :
  round32_ub (round32_ub (thetaWrap + thetaStep) - thetaWrap) <= thetaWrap.

(** The beam invariant: a stage of the enum, a progress in [0, 1),
    and an angle in [0, thetaWrap]. *)
Definition beam_wf (b : Beam) : Prop :=
  (0 <= beamStage b <= STAGE_SCREEN)%Z /\
  0 <= beamProgress b < 1 /\ 0 <= screenTheta b <= thetaWrap.

Lemma beam_init_wf : beam_wf beam_init.
Proof.
  unfold beam_wf, beam_init, STAGE_FILAMENT, STAGE_SCREEN; cbn.
  split; [lia | split; lra].
Qed.

Lemma reset_beam_wf b : beam_wf b -> beam_wf (reset_beam b).
Proof.
  unfold beam_wf, reset_beam, STAGE_FILAMENT, STAGE_SCREEN; cbn.
  intros (_ & _ & Ht). split; [lia | split; [lra | exact Ht]].
Qed.

(** One turn of the angle from [0, thetaWrap], wrapped, stays there. *)
Lemma theta_turn_wf th :
  0 <= th <= thetaWrap ->
  let th' := f32add th thetaStep in
  0 <= (if fltb thetaWrap th' then f32sub th' thetaWrap else th') <= thetaWrap.
Proof.
  intros Ht th'.
  assert (H0 : 0 <= th') by (apply round32_nonneg; lra).
  destruct (fltb_spec thetaWrap th') as [Hlt|Hge]; [|lra].
  assert (H1 : th' <= round32_ub (thetaWrap + thetaStep)).
  { eapply Qle_trans; [apply round32_bounds; lra | apply round32_ub_mono; lra]. }
  unfold f32sub. split; [apply round32_nonneg; lra|].
  eapply Qle_trans; [apply round32_bounds; lra|].
  eapply Qle_trans; [apply round32_ub_mono | apply theta_margin]. lra.
Qed.

Lemma advance_wf b : beam_wf b -> beam_wf (advance beamSpeed thetaStep thetaWrap b).
Proof.
  destruct b as [k p th]. unfold beam_wf, advance, STAGE_SCREEN; cbn.
  intros (Hk & Hp & Ht). pose proof (theta_turn_wf th Ht) as Htt; cbv zeta in Htt.
  assert (H0 : 0 <= f32add p beamSpeed) by (apply round32_nonneg; lra).
  destruct (Z.eqb_spec k 3); cbn; destruct (fltb_spec 1 (f32add p beamSpeed)); qcase; cbn;
    (split; [lia | split; [lra | first [exact Htt | exact Ht]]]).
Qed.

(** One tick moves the stage as the abstract view allows, and never
    by a reset. *)
Lemma advance_stage b :
  beam_wf b ->
  beamStage (advance beamSpeed thetaStep thetaWrap b) = beamStage b \/
  ((beamStage b < STAGE_SCREEN)%Z /\
   beamStage (advance beamSpeed thetaStep thetaWrap b) = (beamStage b + 1)%Z).
Proof.
  destruct b as [k p th]. unfold beam_wf, advance, STAGE_SCREEN; cbn.
  intros (Hk & _ & _). destruct (Z.eqb_spec k 3); cbn; qcase; cbn;
    first [left; reflexivity | right; split; [lia | reflexivity]].
Qed.

Lemma advance_screen b :
  beamStage b = STAGE_SCREEN -> beamStage (advance beamSpeed thetaStep thetaWrap b) = STAGE_SCREEN.
Proof.
  destruct b as [k p th]. unfold advance; cbn. intros ->. reflexivity.
Qed.

Lemma iter_advance_wf k b :
  beam_wf b -> beam_wf (Nat.iter k (advance beamSpeed thetaStep thetaWrap) b).
Proof.
  induction k as [|k IH]; intros Hb; [exact Hb|].
  rewrite Nat.iter_succ. apply advance_wf, IH, Hb.
Qed.

Lemma iter_advance_screen k b :
  beamStage b = STAGE_SCREEN ->
  beamStage (Nat.iter k (advance beamSpeed thetaStep thetaWrap) b) = STAGE_SCREEN.
Proof.
  induction k as [|k IH]; intros Hb; [exact Hb|].
  rewrite Nat.iter_succ. apply advance_screen, IH, Hb.
Qed.
End Proofs.

Section Timing.
Variables (beamSpeed thetaStep thetaWrap : Q) (N : nat).
(** [N] ticks make a stage (checked by evaluation for each sketch). *)
Hypothesis stage_ticks : ticks_per_stage beamSpeed N = true.

Local Abbreviation adv := (advance beamSpeed thetaStep thetaWrap).
Local Abbreviation pseq := (progress_seq beamSpeed).

Lemma progress_seq_below n : (n < N)%nat -> pseq n < 1.
Proof.
  intros Hn. pose proof stage_ticks as H. apply andb_true_iff in H as [H _].
  rewrite forallb_forall in H. specialize (H n (proj2 (in_seq N 0 n) (conj (Nat.le_0_l n) Hn))).
  destruct (fltb_spec (pseq n) 1); [assumption | discriminate].
Qed.

Lemma progress_seq_reaches : 1 <= pseq N.
Proof.
  pose proof stage_ticks as H. apply andb_true_iff in H as [_ H].
  destruct (fleb_spec 1 (pseq N)); [assumption | discriminate].
Qed.

Lemma ticks_pos : (0 < N)%nat.
Proof.
  pose proof progress_seq_reaches as H. destruct N as [|n]; [cbn in H; lra | lia].
Qed.

(** The progress is one of the values a stage runs through. *)
Definition on_progress_seq (b : Beam) : Prop :=
  exists n, (n < N)%nat /\ beamProgress b = pseq n.

(** One tick from the [n]-th value of a stage: the next value, or after
    the [N]-th step a fresh stage (the same one on the screen). *)
Lemma advance_progress b n :
  beamProgress b = pseq n -> (n < N)%nat ->
  if (S n <? N)%nat then
    beamProgress (adv b) = pseq (S n) /\ beamStage (adv b) = beamStage b
  else
    beamProgress (adv b) = 0 /\
    beamStage (adv b) = if (beamStage b =? STAGE_SCREEN)%Z then beamStage b else (beamStage b + 1)%Z.
Proof.
  destruct b as [k p th]; cbn [beamProgress]. intros -> Hn. unfold advance; cbn [beamStage beamProgress].
  change (f32add (pseq n) beamSpeed) with (pseq (S n)).
  destruct (Nat.ltb_spec (S n) N) as [Hs|Hs].
  - pose proof (progress_seq_below _ Hs).
    destruct (fltb_spec 1 (pseq (S n))); [lra|]. destruct (fleb_spec 1 (pseq (S n))); [lra|].
    destruct (k =? STAGE_SCREEN)%Z; split; reflexivity.
  - replace (S n) with N by lia. pose proof progress_seq_reaches.
    destruct (fltb_spec 1 (pseq N)); qcase; try lra; destruct (k =? STAGE_SCREEN)%Z; split; reflexivity.
Qed.

Lemma advance_on_seq b : on_progress_seq b -> on_progress_seq (adv b).
Proof.
  intros (n & Hn & Hp). pose proof (advance_progress b n Hp Hn) as H.
  destruct (Nat.ltb_spec (S n) N) as [Hs|Hs]; destruct H as [H _].
  - exists (S n). auto.
  - exists 0%nat. split; [apply ticks_pos | exact H].
Qed.

Lemma reset_on_seq b : on_progress_seq (reset_beam b).
Proof. exists 0%nat. split; [apply ticks_pos | reflexivity]. Qed.

(** Within a stage, [j] ticks walk [j] values further. *)
Lemma advance_within b n j :
  beamProgress b = pseq n -> (n + j < N)%nat ->
  beamStage (Nat.iter j adv b) = beamStage b /\ beamProgress (Nat.iter j adv b) = pseq (n + j).
Proof.
  intros Hp. induction j as [|j IH]; intros Hj; [rewrite Nat.add_0_r; auto|].
  destruct IH as [Hs Hq]; [lia|]. rewrite Nat.iter_succ.
  pose proof (advance_progress _ (n + j) Hq ltac:(lia)) as H.
  destruct (Nat.ltb_spec (S (n + j)) N); [|lia]. destruct H as [H1 H2].
  rewrite H1, H2, Hs, Nat.add_succ_r. auto.
Qed.

(** Before the screen, from the [n]-th value, [N - n] ticks start the
    next stage. *)
Lemma advance_next_stage b n :
  beamProgress b = pseq n -> (n < N)%nat -> (beamStage b < STAGE_SCREEN)%Z ->
  beamStage (Nat.iter (N - n) adv b) = (beamStage b + 1)%Z /\ beamProgress (Nat.iter (N - n) adv b) = 0.
Proof.
  intros Hp Hn Hk. replace (N - n)%nat with (S (N - n - 1)) by lia. rewrite Nat.iter_succ.
  destruct (advance_within b n (N - n - 1) Hp ltac:(lia)) as [Hs Hq].
  pose proof (advance_progress _ (n + (N - n - 1)) Hq ltac:(lia)) as H.
  destruct (Nat.ltb_spec (S (n + (N - n - 1))) N); [lia|]. destruct H as [H1 H2].
  rewrite H1, H2, Hs. split; [|reflexivity].
  destruct (Z.eqb_spec (beamStage b) STAGE_SCREEN); [lia | reflexivity].
Qed.

(** From the start of a stage, [m * N + j] ticks ([j < N]) are [m]
    stages further, [j] values into the stage: the timing is exact. *)
Lemma advance_stage_timing b m j :
  beamProgress b = 0 -> (j < N)%nat -> (beamStage b + Z.of_nat m <= STAGE_SCREEN)%Z ->
  beamStage (Nat.iter (m * N + j) adv b) = (beamStage b + Z.of_nat m)%Z /\
  beamProgress (Nat.iter (m * N + j) adv b) = pseq j.
Proof.
  revert b; induction m as [|m IH]; intros b Hp Hj Hm.
  - rewrite Z.add_0_r. apply (advance_within b 0 j Hp Hj).
  - replace (S m * N + j)%nat with ((m * N + j) + (N - 0))%nat by lia. rewrite Nat.iter_add.
    destruct (advance_next_stage b 0 Hp ticks_pos ltac:(lia)) as [Hs Hq].
    destruct (IH _ Hq Hj ltac:(lia)) as [Hs' Hq']. rewrite Hs', Hs. split; [lia | exact Hq'].
Qed.

(** From any stage, at most [N] ticks per remaining stage reach the
    screen. *)
Lemma advance_reaches_screen b :
  (0 <= beamStage b <= STAGE_SCREEN)%Z -> on_progress_seq b ->
  exists k, (k <= Z.to_nat (STAGE_SCREEN - beamStage b) * N)%nat /\
    beamStage (Nat.iter k adv b) = STAGE_SCREEN.
Proof.
  remember (Z.to_nat (STAGE_SCREEN - beamStage b)) as m eqn:Em.
  revert b Em; induction m as [|m IH]; intros b Em Hk (n & Hn & Hp).
  - exists 0%nat. split; [lia|]. cbn. unfold STAGE_SCREEN in *. lia.
  - destruct (advance_next_stage b n Hp Hn ltac:(lia)) as [Hs Hq].
    destruct (IH (Nat.iter (N - n) adv b)) as (k & Hk2 & Hs2);
      [rewrite Hs; lia | rewrite Hs; lia | exists 0%nat; split; [apply ticks_pos | exact Hq]|].
    exists (k + (N - n))%nat. rewrite Nat.iter_add. split; [nia | exact Hs2].
Qed.
End Timing.
