(* ===== verification/CRT2D.v ===== *)
(** The 2D cathode-ray-tube animation (crt-simulation/CRT_2D.cpp).
    Its globals become the record [CRT2D]; each GLUT callback that
    changes them is a function on that record: [timerFunc] (intro fade
    and beam progress), [keyboardHandler] (start, pause, reset, exit),
    [display] (particle motion, beam tip and the trace history), and
    [initGL] (the particle cloud, from the values [rand() / RAND_MAX]
    it draws).  [crt_step] runs one event and [reachable] closes the
    initial states under it.  The cosine and sine of the screen sweep
    are parameters [cos] and [sin]: no theorem depends on their values. *)

From S2P Require Import Prelude QFloat Float32 Beam.

Open Scope Q_scope.

(** ** Configuration *)

Definition worldLeft : Q := 0.
Definition worldRight : Q := 450.
Definition worldBottom : Q := 0.
Definition worldTop : Q := 500.

Definition filamentY : Q := 270.
Definition filamentX0 : Q := 107.
Definition anodeX0 : Q := 120.
Definition anodeX1 : Q := 185.
Definition platesX : Q := 237.
Definition screenCX : Q := 370.
Definition screenCY : Q := 270.
Definition screenA : Q := 40.
Definition screenB : Q := 130.

(** [static const float beamSpeed = 0.02f]: the binary32 number
    nearest to 0.02, slightly below it. *)
Definition beamSpeed : Q := round32 0.02.
(** The sweep step and wrap of the timer's screen branch, [0.02f] and
    [6.283f]. *)
Definition thetaStep2D : Q := round32 0.02.
Definition thetaWrap2D : Q := round32 6.283.

Definition NUM_PARTICLES : nat := 120.
Definition PATH_HISTORY_MAX : nat := 800.

(** ** State *)

(** [struct Particle]; its [life] field is never initialised nor read. *)
Record Particle := mkParticle { t : Q; speed : Q; phase : Q }.

(** The intro globals [introAlpha], [introSlide], [introEffectsDone]. *)
Record Intro := mkIntro { introAlpha : Q; introSlide : Q; introEffectsDone : bool }.

Record CRT2D := mkCRT {
  showIntro : bool;
  paused : bool;
  beam : Beam;
  beamX : Q;
  beamY : Q;
  intro : Intro;
  particles : list Particle;
  pathHistory : list (Q * Q)
}.

(** [frand(a, b)] given the ratio [u = rand() / RAND_MAX], in [0, 1]. *)
Definition frand (a b u : Q) : Q := a + (b - a) * u.

(** [initGL]'s particle loop: particle [i] draws the ratios [rnd i]. *)
Definition initGL (rnd : nat -> Q * Q * Q) : list Particle :=
  map (fun i =>
         let '(u1, u2, u3) := rnd i in
         mkParticle (frand (-0.5) 1 u1) (0.004 + frand 0 0.012 u2) (frand 0 6.283 u3))
      (seq 0 NUM_PARTICLES).

(** The globals at program start, after [initGL]. *)
Definition init_state (rnd : nat -> Q * Q * Q) : CRT2D :=
  mkCRT true true beam_init filamentX0 filamentY (mkIntro 0 (-40) false) (initGL rnd) [].

(** ** Timer *)

(** The intro branch of [timerFunc]: fade in and slide up, each
    clamped, and mark the effects done once both are complete. *)
Definition intro_tick (i : Intro) : Intro :=
  let a := f32add (introAlpha i) (round32 0.015) in
  let s := f32add (introSlide i) (round32 0.8) in
  let a := if fleb 1 a then 1 else a in
  let s := if fleb 0 s then 0 else s in
  mkIntro a s (fleb 1 a && fleb 0 s).

(** [timerFunc]: the intro branch, then the beam branch.  The second
    test reads [showIntro] and [paused], which the first does not change. *)
Definition timerFunc (s : CRT2D) : CRT2D :=
  let i := if showIntro s && negb (introEffectsDone (intro s))
           then intro_tick (intro s) else intro s in
  let b := if negb (showIntro s) && negb (paused s)
           then advance beamSpeed thetaStep2D thetaWrap2D (beam s) else beam s in
  mkCRT (showIntro s) (paused s) b (beamX s) (beamY s) i (particles s) (pathHistory s).

(** ** Keyboard *)

(** [keyboardHandler]: [None] is [std::exit(0)] on Esc. *)
Definition keyboardHandler (key : Z) (s : CRT2D) : option CRT2D :=
  if (key =? 27)%Z then None
  else if (key =? 115)%Z || (key =? 83)%Z then
    Some (mkCRT false false (beam s) (beamX s) (beamY s) (intro s) (particles s) (pathHistory s))
  else if (key =? 112)%Z || (key =? 80)%Z then
    Some (mkCRT (showIntro s) (negb (paused s)) (beam s) (beamX s) (beamY s) (intro s)
                (particles s) (pathHistory s))
  else if (key =? 114)%Z || (key =? 82)%Z then
    Some (mkCRT (showIntro s) true (reset_beam (beam s)) (beamX s) (beamY s) (intro s)
                (particles s) [])
  else Some s.

(** ** Display *)

Section Display.
Variables (cos sin : Q -> Q).

(** [computeBeamTip]: interpolate along the current stage's segment. *)
Definition computeBeamTip (b : Beam) : Q * Q :=
  let p := beamProgress b in
  if (beamStage b =? STAGE_FILAMENT)%Z then (filamentX0 + (anodeX0 - filamentX0) * p, filamentY)
  else if (beamStage b =? STAGE_ANODE)%Z then (anodeX0 + (anodeX1 - anodeX0) * p, filamentY)
  else if (beamStage b =? STAGE_DEFLECTION)%Z then (anodeX1 + (platesX - anodeX1) * p, filamentY)
  else
    let tx := screenCX + screenA * cos (screenTheta b) in
    let ty := screenCY + screenB * sin (screenTheta b) in
    (platesX + (tx - platesX) * p, filamentY + (ty - filamentY) * p).

(** The particle update inside [drawBeamAndParticles]. *)
Definition particle_step (p : Particle) : Particle :=
  let t' := fadd (t p) (speed p) in
  mkParticle (if fltb 1.1 t' then -0.1 else t') (speed p) (phase p).

(** The state changes of [drawBeamAndParticles]: every particle moves,
    then [computeBeamTip] sets the beam tip. *)
Definition drawBeamAndParticles (s : CRT2D) : CRT2D :=
  let '(bx, by') := computeBeamTip (beam s) in
  mkCRT (showIntro s) (paused s) (beam s) bx by' (intro s)
        (map particle_step (particles s)) (pathHistory s).

(** [pathHistory.emplace_back(...)], then erase the oldest entry past
    [PATH_HISTORY_MAX]. *)
Definition push_history (h : list (Q * Q)) (p : Q * Q) : list (Q * Q) :=
  let h' := h ++ [p] in
  if Nat.ltb PATH_HISTORY_MAX (length h') then tl h' else h'.

(** [display]: nothing changes while the intro shows. *)
Definition display (s : CRT2D) : CRT2D :=
  if showIntro s then s
  else
    let s' := drawBeamAndParticles s in
    mkCRT (showIntro s') (paused s') (beam s') (beamX s') (beamY s') (intro s')
          (particles s') (push_history (pathHistory s') (beamX s', beamY s')).

(** ** Events *)

Inductive event := Tick | Redraw | Key (k : Z).

Definition crt_step (e : event) (s : CRT2D) : option CRT2D :=
  match e with
  | Tick => Some (timerFunc s)
  | Redraw => Some (display s)
  | Key k => keyboardHandler k s
  end.

(** A sequence of events; [None] once the program has exited. *)
Fixpoint run (es : list event) (s : CRT2D) : option CRT2D :=
  match es with
  | [] => Some s
  | e :: es' => match crt_step e s with Some s' => run es' s' | None => None end
  end.

(** The states the program can reach from any start of [initGL]. *)
Inductive reachable : CRT2D -> Prop :=
  | reach_init rnd :
      (forall i, let '(u1, u2, u3) := rnd i in 0 <= u1 <= 1 /\ 0 <= u2 <= 1 /\ 0 <= u3 <= 1) ->
      reachable (init_state rnd)
  | reach_step e s s' : reachable s -> crt_step e s = Some s' -> reachable s'.
End Display.

(** ** Reshape *)

(** [reshape]: the orthographic box for a [w] x [h] window, widened
    or heightened around the world so that its aspect ratio is the
    window's.  Returns (left, right, bottom, top). *)
Definition reshape (w h : Z) : Q * Q * Q * Q :=
  let h := if (h =? 0)%Z then 1%Z else h in
  let worldAspect := (worldRight - worldLeft) / (worldTop - worldBottom) in
  let windowAspect := inject_Z w / inject_Z h in
  if fltb worldAspect windowAspect then
    let newWidth := (worldTop - worldBottom) * windowAspect in
    let center := (worldLeft + worldRight) / 2 in
    (center - newWidth / 2, center + newWidth / 2, worldBottom, worldTop)
  else
    let newHeight := (worldRight - worldLeft) / windowAspect in
    let center := (worldBottom + worldTop) / 2 in
    (worldLeft, worldRight, center - newHeight / 2, center + newHeight / 2).

(** * Theorems *)

(** ** The state invariant *)

Definition intro_wf (i : Intro) : Prop :=
  0 <= introAlpha i <= 1 /\ -40 <= introSlide i <= 0.

Definition particle_ok (p : Particle) : Prop :=
  -0.5 <= t p <= 1.1 /\ 0.004 <= speed p <= 0.016.

(** The beam is in the enum with a progress in [0, 1) and an angle in
    [0, 6.283]; the intro effects stay in their ranges; the trace holds
    at most [PATH_HISTORY_MAX] points; there are [NUM_PARTICLES]
    particles, each inside its travel range with a speed from [initGL]. *)
Definition crt_wf (s : CRT2D) : Prop :=
  beam_wf thetaWrap2D (beam s) /\ intro_wf (intro s) /\
  (length (pathHistory s) <= PATH_HISTORY_MAX)%nat /\
  Forall particle_ok (particles s) /\ length (particles s) = NUM_PARTICLES.

(** The [float] constants of the beam branch, evaluated: a positive
    step, and an angle step small enough for the rounded wrap. *)
Lemma beam2D_constants :
  0 < beamSpeed /\ 0 <= thetaStep2D /\ 0 <= thetaWrap2D /\
  round32_ub (round32_ub (thetaWrap2D + thetaStep2D) - thetaWrap2D) <= thetaWrap2D.
Proof.
  split; [rewrite Qlt_alt; vm_compute; reflexivity|].
  split; [|split]; apply Qle_bool_iff; vm_compute; reflexivity.
Qed.

Lemma advance2D_wf b : beam_wf thetaWrap2D b ->
  beam_wf thetaWrap2D (advance beamSpeed thetaStep2D thetaWrap2D b).
Proof.
  destruct beam2D_constants as (H1 & H2 & H3 & H4). apply advance_wf; assumption.
Qed.

(** [0.015f] and [0.8f]: within [2^-24] of their decimal values. *)
Lemma intro_constants : 0 <= round32 0.015 <= 1 /\ 79 # 100 <= round32 0.8 <= 1.
Proof. split; split; apply Qle_bool_iff; vm_compute; reflexivity. Qed.

Lemma intro_tick_wf i : intro_wf i -> intro_wf (intro_tick i).
Proof.
  destruct i as [a sl d]. unfold intro_wf, intro_tick; cbn [introAlpha introSlide].
  intros [Ha Hs]. destruct intro_constants as [Hc1 Hc2].
  assert (H1 : 0 <= f32add a (round32 0.015)) by (apply round32_nonneg; lra).
  assert (H2 : -40 <= f32add sl (round32 0.8)).
  { pose proof pow2_m150. destruct (round32_near (sl + round32 0.8) 40) as [Hn _];
      [apply Qabs_case; intros; lra | unfold f32add; lra]. }
  qcase; cbn [introAlpha introSlide]; split; lra.
Qed.

Lemma particle_step_ok p : particle_ok p -> particle_ok (particle_step p).
Proof.
  destruct p as [tp sp ph]. unfold particle_ok, particle_step; cbn [t speed].
  intros [Ht Hs]. qcase; cbn [t speed]; qnorm; split; lra.
Qed.

Lemma push_history_length h p :
  (length h <= PATH_HISTORY_MAX)%nat -> (length (push_history h p) <= PATH_HISTORY_MAX)%nat.
Proof. apply push_capped_length. Qed.

Lemma initGL_ok rnd :
  (forall i, let '(u1, u2, u3) := rnd i in 0 <= u1 <= 1 /\ 0 <= u2 <= 1 /\ 0 <= u3 <= 1) ->
  Forall particle_ok (initGL rnd) /\ length (initGL rnd) = NUM_PARTICLES.
Proof.
  intros H. unfold initGL. rewrite length_map, length_seq. split; [|reflexivity].
  apply Forall_map, Forall_forall. intros i _. specialize (H i).
  destruct (rnd i) as [[u1 u2] u3]. destruct H as (H1 & H2 & _).
  unfold particle_ok, frand; cbn [t speed]. split; nra.
Qed.

Lemma init_wf rnd :
  (forall i, let '(u1, u2, u3) := rnd i in 0 <= u1 <= 1 /\ 0 <= u2 <= 1 /\ 0 <= u3 <= 1) ->
  crt_wf (init_state rnd).
Proof.
  intros H. destruct (initGL_ok rnd H) as [Hp Hl].
  unfold crt_wf, init_state; cbn [beam intro pathHistory particles length].
  split; [apply (beam_init_wf thetaWrap2D), beam2D_constants|].
  split; [unfold intro_wf; cbn; split; lra|]. unfold PATH_HISTORY_MAX. split; [lia|]. auto.
Qed.

Lemma timerFunc_wf s : crt_wf s -> crt_wf (timerFunc s).
Proof.
  destruct s as [si sp b bx by' i ps h]. unfold crt_wf, timerFunc; cbn.
  intros (Hb & Hi & Hh & Hps & Hl). split; [|split; [|auto]].
  - destruct (negb si && negb sp); [apply advance2D_wf|]; exact Hb.
  - destruct (si && negb (introEffectsDone i)); [apply intro_tick_wf|]; exact Hi.
Qed.

Lemma display_wf cos sin s : crt_wf s -> crt_wf (display cos sin s).
Proof.
  destruct s as [si sp b bx by' i ps h]. unfold display. destruct si; [tauto|].
  unfold drawBeamAndParticles. cbn [beam showIntro]. destruct (computeBeamTip cos sin b) as [x y].
  unfold crt_wf; cbn. intros (Hb & Hi & Hh & Hps & Hl).
  split; [exact Hb | split; [exact Hi | split; [apply push_history_length, Hh|]]].
  rewrite length_map. split; [|exact Hl]. apply Forall_map.
  eapply Forall_impl; [apply particle_step_ok | exact Hps].
Qed.

Lemma keyboard_wf k s s' : crt_wf s -> keyboardHandler k s = Some s' -> crt_wf s'.
Proof.
  destruct s as [si sp b bx by' i ps h]. unfold keyboardHandler.
  intros Hw H. unfold crt_wf in *; cbn in Hw.
  destruct (k =? 27)%Z; [discriminate|].
  destruct ((k =? 115)%Z || (k =? 83)%Z); [inv_some; exact Hw|].
  destruct ((k =? 112)%Z || (k =? 80)%Z); [inv_some; exact Hw|].
  destruct ((k =? 114)%Z || (k =? 82)%Z); inv_some; [|exact Hw].
  cbn. destruct Hw as (Hb & Hi & Hh & Hps & Hl).
  split; [apply reset_beam_wf, Hb | split; [exact Hi | split; [unfold PATH_HISTORY_MAX; cbn; lia | auto]]].
Qed.

Lemma crt_step_wf cos sin e s s' :
  crt_wf s -> crt_step cos sin e s = Some s' -> crt_wf s'.
Proof.
  destruct e; cbn; intros Hw H; [inv_some; apply timerFunc_wf, Hw | inv_some; apply display_wf, Hw |].
  eapply keyboard_wf; eauto.
Qed.

Lemma reachable_crt_wf cos sin s : reachable cos sin s -> crt_wf s.
Proof.
  induction 1 as [rnd Hr | e s s' _ IH Hstep]; [apply init_wf, Hr | eapply crt_step_wf; eauto].
Qed.

(** ** Running the timer *)

Lemma timerFunc_running s :
  showIntro s = false -> paused s = false ->
  timerFunc s = mkCRT false false (advance beamSpeed thetaStep2D thetaWrap2D (beam s))
                      (beamX s) (beamY s) (intro s) (particles s) (pathHistory s).
Proof. destruct s as [si sp b bx by' i ps h]; cbn. intros -> ->. reflexivity. Qed.

Lemma iter_timer_running k s :
  showIntro s = false -> paused s = false ->
  showIntro (Nat.iter k timerFunc s) = false /\ paused (Nat.iter k timerFunc s) = false /\
  beam (Nat.iter k timerFunc s) = Nat.iter k (advance beamSpeed thetaStep2D thetaWrap2D) (beam s).
Proof.
  intros Hi Hp. induction k as [|k (IHi & IHp & IHb)]; [auto|].
  rewrite !Nat.iter_succ, timerFunc_running by assumption. cbn. rewrite IHb. auto.
Qed.

(** A redisplay leaves the flags, the beam and the intro alone. *)
Lemma display_keeps cos sin s :
  showIntro (display cos sin s) = showIntro s /\ paused (display cos sin s) = paused s /\
  beam (display cos sin s) = beam s /\ intro (display cos sin s) = intro s.
Proof.
  unfold display, drawBeamAndParticles. destruct (showIntro s) eqn:E; [auto|].
  destruct (computeBeamTip cos sin (beam s)); cbn. auto.
Qed.

(** Ticks and redraws keep [showIntro]; among the keys only S clears it. *)
Lemma crt_step_showIntro cos sin e s s' :
  crt_step cos sin e s = Some s' -> e <> Key 115 -> e <> Key 83 -> showIntro s' = showIntro s.
Proof.
  destruct s as [si sp b bx by' i ps h].
  destruct e as [| |k]; cbn; intros H H1 H2; inv_some; [reflexivity| |].
  - apply display_keeps.
  - unfold keyboardHandler in H. cbn in H.
    destruct (Z.eqb_spec k 27); [discriminate|].
    destruct (Z.eqb_spec k 115); [subst; congruence|]. destruct (Z.eqb_spec k 83); [subst; congruence|].
    cbn in H. destruct ((k =? 112)%Z || (k =? 80)%Z); [inv_some; reflexivity|].
    destruct ((k =? 114)%Z || (k =? 82)%Z); inv_some; reflexivity.
Qed.

(** One event moves the beam stage as the abstract stage machine allows. *)
Lemma crt_step_stage cos sin e s s' :
  crt_wf s -> crt_step cos sin e s = Some s' ->
  stage_step (beamStage (beam s)) (beamStage (beam s')).
Proof.
  destruct s as [si sp b bx by' i ps h]. intros (Hb & _).
  destruct e as [| |k]; cbn; intros H; inv_some.
  - cbn. destruct (negb si && negb sp); [|constructor].
    destruct (advance_stage beamSpeed thetaStep2D thetaWrap2D b Hb) as [-> | [Hk ->]];
      constructor; auto.
  - rewrite (proj1 (proj2 (proj2 (display_keeps cos sin _)))). constructor.
  - unfold keyboardHandler in H. cbn in H.
    destruct (k =? 27)%Z; [discriminate|].
    destruct ((k =? 115)%Z || (k =? 83)%Z); [inv_some; constructor|].
    destruct ((k =? 112)%Z || (k =? 80)%Z); [inv_some; constructor|].
    destruct ((k =? 114)%Z || (k =? 82)%Z); inv_some; constructor.
Qed.

Lemma run_showIntro cos sin es s s' :
  run cos sin es s = Some s' ->
  Forall (fun e => e <> Key 115 /\ e <> Key 83) es -> showIntro s' = showIntro s.
Proof.
  revert s; induction es as [|e es IH]; intros s H Hall; cbn in H; [inv_some; reflexivity|].
  inversion Hall as [|? ? [He1 He2] Hall']; subst.
  destruct (crt_step cos sin e s) as [s1|] eqn:E; [|discriminate].
  rewrite (IH s1 H Hall'). eapply crt_step_showIntro; eauto.
Qed.

Lemma push_history_last h p : last_opt (push_history h p) = Some p.
Proof. apply push_capped_last. unfold PATH_HISTORY_MAX. lia. Qed.

Lemma push_history_length_eq h p :
  (length h <= PATH_HISTORY_MAX)%nat ->
  length (push_history h p) = Nat.min (S (length h)) PATH_HISTORY_MAX.
Proof. apply push_capped_length_eq. Qed.

(** ** Beam timing *)

(** Fifty steps of [0.02f] sum to 0.99999958 (binary32), below 1; the
    51st reaches it: a stage takes 51 ticks. *)
Lemma beam2D_ticks : ticks_per_stage beamSpeed 51 = true.
Proof. vm_compute. reflexivity. Qed.

(** Each event leaves the beam alone, advances it, or resets it. *)
Lemma crt_step_beam cos sin e s s' :
  crt_step cos sin e s = Some s' ->
  beam s' = beam s \/ beam s' = advance beamSpeed thetaStep2D thetaWrap2D (beam s) \/
  beam s' = reset_beam (beam s).
Proof.
  destruct s as [si sp b bx by' i ps h].
  destruct e as [| |k]; cbn; intros H; inv_some.
  - cbn. destruct (negb si && negb sp); auto.
  - left. apply display_keeps.
  - unfold keyboardHandler in H. cbn in H.
    destruct (k =? 27)%Z; [discriminate|].
    destruct ((k =? 115)%Z || (k =? 83)%Z); [inv_some; auto|].
    destruct ((k =? 112)%Z || (k =? 80)%Z); [inv_some; auto|].
    destruct ((k =? 114)%Z || (k =? 82)%Z); inv_some; auto.
Qed.

(** The progress of every reachable state is one of the 51 values a
    stage runs through. *)
Lemma reachable_on_progress_seq cos sin s :
  reachable cos sin s -> on_progress_seq beamSpeed 51 (beam s).
Proof.
  induction 1 as [rnd Hr | e s s' _ IH Hstep].
  - exists 0%nat. split; [lia | reflexivity].
  - destruct (crt_step_beam cos sin e s s' Hstep) as [-> | [-> | ->]];
      [exact IH | apply advance_on_seq, IH; exact beam2D_ticks | apply reset_on_seq, beam2D_ticks].
Qed.

(** ** Reshape *)

(** C38. [reshape] keeps the whole world visible and gives the
    orthographic box the window's aspect ratio: for a window of width
    w > 0 and height h >= 0 (0 read as 1), the box contains
    [0, 450] x [0, 500] and (right - left) * h = (top - bottom) * w. *)
Theorem crt2d_reshape_aspect (w h : Z) :
  (0 < w)%Z -> (0 <= h)%Z ->
  let '(l, r, b, tp) := reshape w h in
  l <= worldLeft /\ worldRight <= r /\ b <= worldBottom /\ worldTop <= tp /\
  (r - l) * inject_Z (if (h =? 0)%Z then 1 else h) == (tp - b) * inject_Z w.
Proof.
  intros Hw Hh. unfold reshape.
  set (H' := if (h =? 0)%Z then 1%Z else h).
  assert (HH : (0 < H')%Z) by (unfold H'; destruct (Z.eqb_spec h 0); lia).
  assert (Hw' : 0 < inject_Z w) by (change 0 with (inject_Z 0); rewrite <- Zlt_Qlt; exact Hw).
  assert (HH' : 0 < inject_Z H') by (change 0 with (inject_Z 0); rewrite <- Zlt_Qlt; exact HH).
  set (a := inject_Z w / inject_Z H').
  assert (Ha : a * inject_Z H' == inject_Z w) by (unfold a; field; lra).
  assert (Hpos : 0 < a) by (unfold a; apply Qlt_shift_div_l; lra).
  unfold worldLeft, worldRight, worldBottom, worldTop.
  destruct (fltb_spec ((450 - 0) / (500 - 0)) a) as [Hc|Hc].
  - split; [|split; [|split; [lra|split; [lra|]]]].
    + setoid_replace ((450 - 0) / (500 - 0)) with (9#10) in Hc by reflexivity.
      setoid_replace ((0 + 450) / 2 - (500 - 0) * a / 2) with (225 - 250 * a) by field. lra.
    + setoid_replace ((450 - 0) / (500 - 0)) with (9#10) in Hc by reflexivity.
      setoid_replace ((0 + 450) / 2 + (500 - 0) * a / 2) with (225 + 250 * a) by field. lra.
    + rewrite <- Ha. field.
  - set (c := (450 - 0) / a).
    assert (Hc2 : c * a == 450) by (unfold c; field; lra).
    setoid_replace ((450 - 0) / (500 - 0)) with (9#10) in Hc by reflexivity.
    assert (Hc3 : 500 <= c) by nra.
    split; [lra|split; [lra|split; [|split]]].
    + setoid_replace ((0 + 500) / 2 - c / 2) with (250 - c / 2) by field.
      setoid_replace (c / 2) with ((1#2) * c) by field. lra.
    + setoid_replace ((0 + 500) / 2 + c / 2) with (250 + (1#2) * c) by field. lra.
    + rewrite <- Ha. 
    setoid_replace ((0 + 500) / 2 + c / 2 - ((0 + 500) / 2 - c / 2)) with c by field.
    rewrite Qmult_assoc, Hc2. field.
Qed.

(** ** Claims *)

(** C6. Every state the 2D animation can reach satisfies the state
    invariant: the beam stage is one of the four enumerators, the
    progress lies in [0, 1) and the sweep angle in [0, 6.283]; the intro
    alpha stays in [0, 1] and its slide in [-40, 0]; the trace holds at
    most 800 points; and the 120 particles keep t in [-0.5, 1.1] and a
    speed in [0.004, 0.016]. *)
Theorem crt2d_reachable_wf cos sin s : reachable cos sin s -> crt_wf s.
Proof. apply reachable_crt_wf. Qed.

(** C7. Liveness of the beam: from any reachable state in which the
    intro is over and the animation runs, at most 153 timer ticks (51
    per stage, as [beamProgress] is a binary32 [float]) bring the beam
    to [STAGE_SCREEN], and it stays there on every later tick. *)
Theorem crt2d_beam_reaches_screen cos sin s :
  reachable cos sin s -> showIntro s = false -> paused s = false ->
  exists k, (k <= 153)%nat /\
    forall j, beamStage (beam (Nat.iter (j + k) timerFunc s)) = STAGE_SCREEN.
Proof.
  intros Hr Hi Hp. destruct (reachable_crt_wf cos sin s Hr) as ((Hst & _) & _).
  destruct (advance_reaches_screen beamSpeed thetaStep2D thetaWrap2D 51 beam2D_ticks (beam s) Hst
              (reachable_on_progress_seq cos sin s Hr)) as (k & Hk & Hs).
  exists k. split.
  - unfold STAGE_SCREEN in *. nia.
  - intros j. destruct (iter_timer_running (j + k) s Hi Hp) as (_ & _ & ->).
    rewrite Nat.iter_add. apply iter_advance_screen. exact Hs.
Qed.

(** C28. The beam's exact timing: once the S key starts the program
    from its initial state, the stage after [k] timer ticks is
    [min (k / 51) 3]: each stage takes 51 ticks, not the 50 that
    [1 / 0.02] suggests, since fifty binary32 steps of [0.02f] sum to
    0.99999958 < 1; the screen is reached at the 153rd tick. *)
Theorem crt2d_beam_stage_timing rnd s :
  keyboardHandler 115 (init_state rnd) = Some s ->
  forall k, beamStage (beam (Nat.iter k timerFunc s)) = Z.of_nat (Nat.min (k / 51) 3).
Proof.
  intros H k. injection H as <-.
  match goal with |- context [Nat.iter k timerFunc ?s0] =>
    destruct (iter_timer_running k s0 eq_refl eq_refl) as (_ & _ & ->) end.
  cbn [beam init_state].
  destruct (Nat.lt_ge_cases k 153) as [Hk|Hk].
  - assert (Hq : (k / 51 < 3)%nat) by (apply Nat.Div0.div_lt_upper_bound; lia).
    assert (Ek : k = (k / 51 * 51 + k mod 51)%nat) by (rewrite Nat.mul_comm; apply Nat.div_mod_eq).
    destruct (advance_stage_timing beamSpeed thetaStep2D thetaWrap2D 51 beam2D_ticks beam_init
                (k / 51) (k mod 51) eq_refl (Nat.mod_upper_bound k 51 ltac:(lia))) as [Hs _];
      [unfold STAGE_SCREEN, beam_init, STAGE_FILAMENT; cbn [beamStage]; lia|].
    rewrite <- Ek in Hs. rewrite Hs, Nat.min_l by lia. reflexivity.
  - assert (Hq : (3 <= k / 51)%nat) by (apply Nat.div_le_lower_bound; lia).
    rewrite Nat.min_r by exact Hq.
    replace k with ((k - 153) + (3 * 51 + 0))%nat by lia. rewrite Nat.iter_add.
    apply iter_advance_screen.
    apply (advance_stage_timing beamSpeed thetaStep2D thetaWrap2D 51 beam2D_ticks beam_init 3 0);
      [reflexivity | lia | unfold STAGE_SCREEN, beam_init, STAGE_FILAMENT; cbn [beamStage]; lia].
Qed.

(** C8. Refinement of the stage machine: every event (timer tick,
    redisplay or key) taken from a reachable state moves [beamStage] by
    an abstract [stage_step]: it stays, advances by one before the
    screen, or returns to the filament on the [r] key. *)
Theorem crt2d_stage_refinement cos sin e s s' :
  reachable cos sin s -> crt_step cos sin e s = Some s' ->
  stage_step (beamStage (beam s)) (beamStage (beam s')).
Proof. intros Hr. apply crt_step_stage, (reachable_crt_wf cos sin s Hr). Qed.

(** C9. The intro screen never ends by itself: along any sequence of
    timer ticks, redisplays and keys other than [s]/[S], [showIntro]
    keeps its value, although the constant [INTRO_AUTO_MS] is
    commented "6 sec auto start". *)
Theorem crt2d_intro_needs_start_key cos sin es s s' :
  run cos sin es s = Some s' ->
  Forall (fun e => e <> Key 115 /\ e <> Key 83) es ->
  showIntro s' = showIntro s.
Proof. apply run_showIntro. Qed.

(** C10. A redisplay after the intro records the new beam tip: the tip
    is [computeBeamTip] of the beam, it becomes the last point of the
    trace, and the trace grows by one up to [PATH_HISTORY_MAX] points. *)
Theorem crt2d_display_traces_tip cos sin s :
  showIntro s = false -> (length (pathHistory s) <= PATH_HISTORY_MAX)%nat ->
  (beamX (display cos sin s), beamY (display cos sin s)) = computeBeamTip cos sin (beam s) /\
  last_opt (pathHistory (display cos sin s)) =
    Some (beamX (display cos sin s), beamY (display cos sin s)) /\
  length (pathHistory (display cos sin s)) =
    Nat.min (S (length (pathHistory s))) PATH_HISTORY_MAX.
Proof.
  intros Hi Hl. unfold display, drawBeamAndParticles. rewrite Hi.
  destruct (computeBeamTip cos sin (beam s)) as [x y]; cbn [beamX beamY pathHistory].
  split; [reflexivity | split; [apply push_history_last | apply push_history_length_eq, Hl]].
Qed.

(** Witnesses. *)

Lemma crt2d_reachable_wf_witness :
  reachable (fun _ => 1) (fun _ => 0) (init_state (fun _ => (1#2, 1#2, 1#2))) /\
  crt_wf (init_state (fun _ => (1#2, 1#2, 1#2))).
Proof.
  assert (H : reachable (fun _ => 1) (fun _ => 0) (init_state (fun _ => (1#2, 1#2, 1#2))))
    by (apply reach_init; intros; lra).
  split; [exact H | apply (crt2d_reachable_wf (fun _ => 1) (fun _ => 0)); exact H].
Defined.

Lemma crt2d_beam_reaches_screen_witness :
  reachable (fun _ => 1) (fun _ => 0)
    (mkCRT false false beam_init filamentX0 filamentY (mkIntro 0 (-40) false)
           (initGL (fun _ => (1#2, 1#2, 1#2))) []) /\
  exists k, (k <= 153)%nat /\
    forall j, beamStage (beam (Nat.iter (j + k) timerFunc
      (mkCRT false false beam_init filamentX0 filamentY (mkIntro 0 (-40) false)
             (initGL (fun _ => (1#2, 1#2, 1#2))) []))) = STAGE_SCREEN.
Proof.
  assert (H : reachable (fun _ => 1) (fun _ => 0)
    (mkCRT false false beam_init filamentX0 filamentY (mkIntro 0 (-40) false)
           (initGL (fun _ => (1#2, 1#2, 1#2))) [])).
  { apply (reach_step _ _ (Key 115) (init_state (fun _ => (1#2, 1#2, 1#2))));
      [apply reach_init; intros; lra | reflexivity]. }
  split; [exact H | apply (crt2d_beam_reaches_screen (fun _ => 1) (fun _ => 0)); auto].
Defined.

Lemma crt2d_beam_stage_timing_witness :
  keyboardHandler 115 (init_state (fun _ => (1#2, 1#2, 1#2))) =
    Some (mkCRT false false beam_init filamentX0 filamentY (mkIntro 0 (-40) false)
                (initGL (fun _ => (1#2, 1#2, 1#2))) []) /\
  beamStage (beam (Nat.iter 152 timerFunc
    (mkCRT false false beam_init filamentX0 filamentY (mkIntro 0 (-40) false)
           (initGL (fun _ => (1#2, 1#2, 1#2))) []))) = STAGE_DEFLECTION.
Proof.
  split; [reflexivity|].
  exact (crt2d_beam_stage_timing (fun _ => (1#2, 1#2, 1#2)) _ eq_refl 152).
Defined.

Lemma crt2d_stage_refinement_witness :
  reachable (fun _ => 1) (fun _ => 0) (init_state (fun _ => (1#2, 1#2, 1#2))) /\
  crt_step (fun _ => 1) (fun _ => 0) (Key 114) (init_state (fun _ => (1#2, 1#2, 1#2))) =
    Some (mkCRT true true (reset_beam beam_init) filamentX0 filamentY (mkIntro 0 (-40) false)
                (initGL (fun _ => (1#2, 1#2, 1#2))) []) /\
  stage_step (beamStage beam_init) (beamStage (reset_beam beam_init)).
Proof.
  assert (H : reachable (fun _ => 1) (fun _ => 0) (init_state (fun _ => (1#2, 1#2, 1#2))))
    by (apply reach_init; intros; lra).
  split; [exact H | split; [reflexivity|]].
  exact (crt2d_stage_refinement (fun _ => 1) (fun _ => 0) (Key 114) _
           (mkCRT true true (reset_beam beam_init) filamentX0 filamentY (mkIntro 0 (-40) false)
                  (initGL (fun _ => (1#2, 1#2, 1#2))) []) H eq_refl).
Defined.

Lemma crt2d_intro_needs_start_key_witness :
  exists s', run (fun _ => 1) (fun _ => 0) (repeat Tick 400 ++ [Redraw; Key 112])
                 (init_state (fun _ => (1#2, 1#2, 1#2))) = Some s' /\
    Forall (fun e => e <> Key 115 /\ e <> Key 83) (repeat Tick 400 ++ [Redraw; Key 112]) /\
    showIntro s' = true.
Proof.
  eexists. split; [vm_compute; reflexivity|].
  assert (Hf : Forall (fun e => e <> Key 115 /\ e <> Key 83) (repeat Tick 400 ++ [Redraw; Key 112])).
  { apply Forall_app. split; [apply Forall_forall; intros e He; apply repeat_spec in He; subst; split; discriminate|].
    repeat constructor; discriminate. }
  split; [exact Hf|].
  apply (crt2d_intro_needs_start_key (fun _ => 1) (fun _ => 0) (repeat Tick 400 ++ [Redraw; Key 112])
           (init_state (fun _ => (1#2, 1#2, 1#2))));
    [vm_compute; reflexivity | exact Hf].
Defined.

Lemma crt2d_reshape_aspect_witness :
  (0 < 900)%Z /\ (0 <= 600)%Z /\
  let '(l, r, b, tp) := reshape 900 600 in
  l <= worldLeft /\ worldRight <= r /\ b <= worldBottom /\ worldTop <= tp /\
  (r - l) * inject_Z (if (600 =? 0)%Z then 1 else 600) == (tp - b) * inject_Z 900.
Proof. split; [lia | split; [lia | apply crt2d_reshape_aspect; lia]]. Defined.

Lemma crt2d_display_traces_tip_witness :
  let s := mkCRT false false beam_init filamentX0 filamentY (mkIntro 0 (-40) false)
                 (initGL (fun _ => (1#2, 1#2, 1#2))) [] in
  showIntro s = false /\ (length (pathHistory s) <= PATH_HISTORY_MAX)%nat /\
  (beamX (display (fun _ => 1) (fun _ => 0) s), beamY (display (fun _ => 1) (fun _ => 0) s)) =
    computeBeamTip (fun _ => 1) (fun _ => 0) (beam s) /\
  last_opt (pathHistory (display (fun _ => 1) (fun _ => 0) s)) =
    Some (beamX (display (fun _ => 1) (fun _ => 0) s), beamY (display (fun _ => 1) (fun _ => 0) s)) /\
  length (pathHistory (display (fun _ => 1) (fun _ => 0) s)) =
    Nat.min (S (length (pathHistory s))) PATH_HISTORY_MAX.
Proof.
  cbv zeta. split; [reflexivity | split; [unfold PATH_HISTORY_MAX; cbn; lia|]].
  apply crt2d_display_traces_tip; [reflexivity | unfold PATH_HISTORY_MAX; cbn; lia].
Defined.
