(* ===== verification/Draw.v ===== *)
(** The stream of OpenGL/GLUT drawing calls a display callback issues,
    shared by the frame models of the two CRT sketches.  A frame is a
    list of [cmd]s in call order: colour, line width and point size
    changes, one [glBegin]/[glEnd] block with its vertices, a bitmap
    string at a raster position in a GLUT bitmap font, and the
    projection and viewport changes of an inset.  Blending, stippling
    and the per-vertex colours inside a block are not recorded.  The file also holds
    [frange], the [for (float x = lo; x <= hi; x += step)] loop these
    callbacks use, with the lemma that a bounded fuel runs it to its own
    exit. *)

From S2P Require Import Prelude QFloat.
From Stdlib Require Strings.String.

Open Scope Q_scope.

(** The GLUT bitmap fonts the sketches use. *)
Inductive font := TIMES_ROMAN_24 | HELVETICA_18 | HELVETICA_12 | HELVETICA_10.

Inductive cmd :=
| Color (r g b a : Q)                      (* glColor3f (alpha 1) and glColor4f *)
| LineWidth (w : Q)                        (* glLineWidth *)
| PointSize (s : Q)                        (* glPointSize *)
| Prim (p : primitive) (vs : list (Q * Q)) (* glBegin(p); glVertex2f ...; glEnd() *)
| Text (x y : Q) (f : font) (s : String.string) (* glRasterPos2f(x, y); glutBitmapCharacter ... *)
| Ortho (l r b t : Q)                      (* glLoadIdentity(); gluOrtho2D(l, r, b, t) *)
| Viewport (x y w h : Z)                   (* glViewport(x, y, w, h) *)
| Prim3 (p : primitive) (vs : list (Q * Q * Q)) (* glBegin(p); glVertex3f ...; glEnd() *)
| Text3 (x y z : Q) (f : font) (s : String.string) (* glRasterPos3f(x, y, z); glutBitmapCharacter ... *)
| MatrixMode (projection : bool)          (* glMatrixMode(GL_PROJECTION) or (GL_MODELVIEW) *)
| PushMatrix | PopMatrix | LoadIdentity   (* glPushMatrix, glPopMatrix, glLoadIdentity *)
| Translate (x y z : Q)                    (* glTranslatef *)
| Scale (x y z : Q)                        (* glScalef *)
| SolidCube (size : Q) | WireCube (size : Q) (* glutSolidCube, glutWireCube *)
| Cylinder (baseR topR height : Q) (slices : Z) (fill : bool)
                                           (* gluCylinder, GLU_FILL or GLU_LINE, one stack *)
| LookAt (eye center up : Q * Q * Q)       (* gluLookAt *)
| DepthTest (on : bool).                   (* glEnable/glDisable(GL_DEPTH_TEST) *)

(** Every position a frame draws at: the vertices of its blocks and the
    raster positions of its strings. *)
Definition positions (f : list cmd) : list (Q * Q) :=
  flat_map (fun c => match c with Prim _ vs => vs | Text x y _ _ => [(x, y)] | _ => [] end) f.

(** The vertices of the blocks of one primitive mode. *)
Definition vertices_of (p : primitive) (f : list cmd) : list (Q * Q) :=
  flat_map (fun c => match c with Prim p' vs => if primitive_beq p p' then vs else [] | _ => [] end) f.

(** The vertices of the 3D blocks of one primitive mode. *)
Definition vertices3_of (p : primitive) (f : list cmd) : list (Q * Q * Q) :=
  flat_map (fun c => match c with Prim3 p' vs => if primitive_beq p p' then vs else [] | _ => [] end) f.

(** The heights of the strings of a frame, in drawing order. *)
Definition text_rows (f : list cmd) : list Q :=
  flat_map (fun c => match c with Text _ y _ _ => [y] | _ => [] end) f.

(** [for (float x = lo; x <= hi; x += step)]: the values the body sees,
    on fuel. *)
Fixpoint frange (fuel : nat) (x hi step : Q) : list Q :=
  match fuel with
  | O => []
  | S fuel' => if fleb x hi then x :: frange fuel' (fadd x step) hi step else []
  end.

(** [for (int i = lo; i < hi; i += step)]: the values the body sees,
    on fuel. *)
Fixpoint zrange (fuel : nat) (i hi step : Z) : list Z :=
  match fuel with
  | O => []
  | S fuel' => if (i <? hi)%Z then i :: zrange fuel' (i + step) hi step else []
  end.

Definition for_int (lo hi step : Z) : list Z := zrange (Z.to_nat ((hi - lo) / step) + 2) lo hi step.

(** The fuel that runs [frange] to its exit: one pass per step of the
    range, and one for the failing test. *)
Definition frange_fuel (lo hi step : Q) : nat := Z.to_nat (Qceiling ((hi - lo) / step)) + 2.

(** The loop as the program runs it. *)
Definition for_float (lo hi step : Q) : list Q := frange (frange_fuel lo hi step) lo hi step.

Module DrawFacts.

Lemma positions_app f g : positions (f ++ g) = positions f ++ positions g.
Proof. apply flat_map_app. Qed.

Lemma positions_cons c f :
  positions (c :: f) = match c with Prim _ vs => vs | Text x y _ _ => [(x, y)] | _ => [] end ++ positions f.
Proof. reflexivity. Qed.

Lemma vertices_of_app p f g : vertices_of p (f ++ g) = vertices_of p f ++ vertices_of p g.
Proof. apply flat_map_app. Qed.

Lemma text_rows_app f g : text_rows (f ++ g) = text_rows f ++ text_rows g.
Proof. apply flat_map_app. Qed.

(** A frame built element by element: its vertices of one mode are
    those of the pieces. *)
Lemma vertices_of_flat_map {A} p (k : A -> list cmd) l :
  vertices_of p (flat_map k l) = flat_map (fun a => vertices_of p (k a)) l.
Proof. induction l as [|a l IH]; [reflexivity|]. cbn [flat_map]. rewrite vertices_of_app, IH. reflexivity. Qed.

Lemma flat_map_nil {A B} (k : A -> list B) l : (forall a, k a = []) -> flat_map k l = [].
Proof. intros H. induction l as [|a l IH]; [reflexivity|]. cbn. rewrite H, IH. reflexivity. Qed.

(** Once the range is exhausted, more fuel changes nothing: the loop
    exits by its test. *)
Lemma frange_stable n x hi step :
  0 < step -> hi - x < inject_Z (Z.of_nat n) * step ->
  forall m, (n < m)%nat -> frange m x hi step = frange (S n) x hi step.
Proof.
  intros Hs. revert x. induction n as [|n IH]; intros x Hx m Hm.
  - destruct m as [|m]; [lia|]. cbn [frange].
    destruct (fleb_spec x hi); [|reflexivity]. change (inject_Z (Z.of_nat 0)) with 0 in Hx. lra.
  - destruct m as [|m]; [lia|]. cbn [frange]. destruct (fleb_spec x hi); [|reflexivity].
    f_equal. apply IH; [|lia]. rewrite fadd_eq.
    rewrite Nat2Z.inj_succ, <- Z.add_1_r, inject_Z_plus in Hx. change (inject_Z 1) with 1 in Hx. lra.
Qed.

(** [for_float] is the loop run to its exit: any larger fuel gives the
    same values. *)
Lemma for_float_total lo hi step m :
  0 < step -> (frange_fuel lo hi step <= m)%nat -> frange m lo hi step = for_float lo hi step.
Proof.
  intros Hs Hm. unfold for_float, frange_fuel.
  set (n := (Z.to_nat (Qceiling ((hi - lo) / step)) + 1)%nat).
  replace (Z.to_nat (Qceiling ((hi - lo) / step)) + 2)%nat with (S n) by (unfold n; lia).
  assert (Hn : hi - lo < inject_Z (Z.of_nat n) * step).
  { pose proof (Qceiling_fuel ((hi - lo) / step)) as Hc. unfold n.
    apply (Qmult_lt_r _ _ step) in Hc; [|exact Hs].
    setoid_replace ((hi - lo) / step * step) with (hi - lo) in Hc by (field; lra). exact Hc. }
  destruct (Nat.eq_dec m (S n)) as [->|Hne]; [reflexivity|].
  apply frange_stable; [exact Hs | exact Hn | unfold frange_fuel in Hm; lia].
Qed.

Lemma zrange_stable n i hi step :
  (0 < step)%Z -> (hi - i < Z.of_nat n * step)%Z ->
  forall m, (n < m)%nat -> zrange m i hi step = zrange (S n) i hi step.
Proof.
  intros Hs. revert i. induction n as [|n IH]; intros i Hi m Hm.
  - destruct m as [|m]; [lia|]. cbn [zrange]. destruct (Z.ltb_spec i hi); [lia | reflexivity].
  - destruct m as [|m]; [lia|]. cbn [zrange]. destruct (Z.ltb_spec i hi); [|reflexivity].
    f_equal. apply IH; lia.
Qed.

(** [for_int] is the loop run to its exit. *)
Lemma for_int_total lo hi step m :
  (0 < step)%Z -> (Z.to_nat ((hi - lo) / step) + 2 <= m)%nat -> zrange m lo hi step = for_int lo hi step.
Proof.
  intros Hs Hm. unfold for_int.
  assert (Hn : (hi - lo < Z.of_nat (Z.to_nat ((hi - lo) / step) + 1) * step)%Z).
  { pose proof (Z.div_mod (hi - lo) step ltac:(lia)) as Hd. pose proof (Z.mod_pos_bound (hi - lo) step Hs).
    destruct (Z.le_gt_cases 0 ((hi - lo) / step)) as [Hq|Hq].
    - rewrite Nat2Z.inj_add, Z2Nat.id by exact Hq. nia.
    - pose proof (Nat2Z.is_nonneg (Z.to_nat ((hi - lo) / step))). rewrite Nat2Z.inj_add. nia. }
  replace (Z.to_nat ((hi - lo) / step) + 2)%nat with (S (Z.to_nat ((hi - lo) / step) + 1)) by lia.
  destruct (Nat.eq_dec m (S (Z.to_nat ((hi - lo) / step) + 1))) as [->|Hne]; [reflexivity|].
  apply zrange_stable; [exact Hs | exact Hn | lia].
Qed.

(** Every value of the loop is in [[lo, hi]]. *)
Lemma frange_bounds fuel x hi step y :
  0 <= step -> In y (frange fuel x hi step) -> x <= y <= hi.
Proof.
  intros Hs. revert x. induction fuel as [|fuel IH]; intros x; cbn [frange]; [contradiction|].
  destruct (fleb_spec x hi); [|contradiction]. intros [<-|Hy]; [lra|].
  destruct (IH _ Hy). rewrite fadd_eq in *. lra.
Qed.

End DrawFacts.
