(* ===== verification/CRT2DFrame.v ===== *)
(** What the 2D CRT sketch draws (crt-simulation/CRT_2D.cpp): the
    [display] callback and every drawing routine it calls, as the
    [Draw.cmd] stream they issue, over the state of [CRT2D].  The
    cosine and sine of the screen outline and of the beam sweep are the
    [Section] variables [cos] and [sin]; the width in pixels that
    [glutBitmapLength] returns for a string is the variable
    [bitmapLength]; the elapsed time [glutGet(GLUT_ELAPSED_TIME)] is an
    argument. *)

From S2P Require Import Prelude QFloat Beam CRT2D Draw.
From Stdlib Require Strings.String.
Import String.StringSyntax.

Open Scope Q_scope.
Local Open Scope string_scope.

Module Frame2D.

Definition WIN_W : Z := 900.
Definition INSET_PIX : Z := 150.
Definition INSET_MARGIN : Z := 10.

(** The intro texts. *)
Definition PROJECT_TITLE : String.string := "SIMULATION OF CATHODE RAY TUBE (CRT)".
Definition COURSE_NAME : String.string := "Computer Graphics Lab".
Definition COURSE_CODE : String.string := "18B17Cl575".
Definition MEMBERS : list String.string :=
  ["Ayush Thakur (231030143)"; "Krish Monga (231030134)";
   "Shashwat Bhardwaj (231030135)"; "Imon Chaudhary (231030136)"].

Section Frame.
Variables (cos sin : Q -> Q) (bitmapLength : font -> String.string -> Z).

(** [drawStringCentered]: nothing for an empty string; otherwise the
    string starts half its width, converted to world units, left of
    [cx]. *)
Definition drawStringCentered (cx y : Q) (s : String.string) (f : font) : list cmd :=
  if String.eqb s "" then []
  else
    let lenPix := bitmapLength f s in
    let worldRatio := fdiv (fsub worldRight worldLeft) (inject_Z WIN_W) in
    let worldLen := fmul (inject_Z lenPix) worldRatio in
    [Text (fsub cx (fmul worldLen 0.5)) y f s].

Definition drawString (x y : Q) (s : String.string) (f : font) : list cmd := [Text x y f s].

(** [drawBackgroundGrid]: vertical lines every 25 units across the
    world, then horizontal ones. *)
Definition drawBackgroundGrid : list cmd :=
  [LineWidth 1; Color 0.8 0.85 0.9 0.5;
   Prim GL_LINES (flat_map (fun x => [(x, worldBottom); (x, worldTop)]) (for_float worldLeft worldRight 25) ++
                  flat_map (fun y => [(worldLeft, y); (worldRight, y)]) (for_float worldBottom worldTop 25))].

(** [drawLabelWithArrow]: the label, and a line from just right of and
    below its start to the target. *)
Definition drawLabelWithArrow (lx ly tx ty : Q) (text : String.string) : list cmd :=
  [Color 0.1 0.1 0.1 1] ++ drawString lx ly text HELVETICA_12 ++
  [Color 0.4 0.4 0.4 0.6; LineWidth 1; Prim GL_LINES [(fadd lx 10, fsub ly 4); (tx, ty)]].

(** The angle [a * 3.14159f / 180.0f] of the screen loops. *)
Definition deg (a : Q) : Q := fdiv (fmul a 3.14159) 180.

(** A point of the screen outline at angle [a] degrees. *)
Definition screen_point (a : Q) : Q * Q :=
  (fadd screenCX (fmul screenA (cos (deg a))), fadd screenCY (fmul screenB (sin (deg a)))).

(** [drawCRTStructure]: body, pins, filament, anodes, plates, screen. *)
Definition drawCRTStructure : list cmd :=
  [Color 0.05 0.05 0.05 1; LineWidth 2.5;
   Prim GL_LINES [(70, 320); (240, 320); (70, 220); (240, 220); (70, 210); (70, 330);
                  (240, 320); (370, 400); (240, 220); (370, 140); (45, 210); (45, 330);
                  (45, 210); (70, 210); (45, 330); (70, 330)];
   Color 0.2 0.2 0.2 1] ++
  map (fun pinY => Prim GL_POLYGON [(35, pinY); (45, pinY); (45, pinY + 5); (35, pinY + 5)])
      [225; 245; 267; 290; 310] ++
  [Color 0.8 0.2 0.2 1; LineWidth 2;
   Prim GL_LINES [(70, 292); (115, 292); (70, 248); (115, 248); (115, 248); (115, 292);
                  (70, 272); (95, 272); (70, 267); (95, 267)];
   Color 0.2 0.2 0.2 1;
   Prim GL_POLYGON [(95, 267); (108, 267); (108, 272); (95, 272)]] ++
  drawLabelWithArrow 60 340 95 292 "Electron Gun (Cathode)" ++
  [Color 0.1 0.1 0.1 1; LineWidth 1.5;
   Prim GL_LINES [(120, 248); (120, 292); (120, 248); (180, 248); (120, 292); (180, 292)]] ++
  map (fun xpos => Prim GL_LINES [(xpos, 248); (xpos, 265); (xpos, 274); (xpos, 292)])
      (for_float 130 170 10) ++
  [Prim GL_LINES [(185, 244); (185, 296); (175, 244); (184, 244); (175, 296); (184, 296)]] ++
  drawLabelWithArrow 130 315 150 292 "Focusing Anodes" ++
  [Color 0.3 0.3 0.3 1;
   Prim GL_POLYGON [(190, 280); (205, 280); (215, 289); (200, 289)];
   Prim GL_POLYGON [(190, 250); (205, 250); (215, 259); (200, 259)];
   Color 0.1 0.1 0.1 1;
   Prim GL_POLYGON [(230, 261); (245, 261); (245, 285); (230, 285)];
   Color 0.4 0.4 0.4 1;
   Prim GL_POLYGON [(220, 258); (235, 258); (235, 282); (220, 282)]] ++
  drawLabelWithArrow 190 340 205 289 "Y-Deflection Plates" ++
  drawLabelWithArrow 220 200 235 258 "X-Deflection Plates" ++
  [PointSize 2; Color 0.1 0.1 0.1 1;
   Prim GL_POINTS (map screen_point (for_float 0 360 0.5));
   Color 0.2 0.8 0.2 0.1;
   Prim GL_TRIANGLE_FAN ((screenCX, screenCY) :: map screen_point (for_float 0 360 5))] ++
  drawString (fadd screenCX 20) (fsub (fadd screenCY screenB) 20) "Phosphor Screen" HELVETICA_12.

(** [drawBeamSpreadRegion]: the dashed cone from the plates to the
    screen, shaded with its label once the beam is past the anodes. *)
Definition drawBeamSpreadRegion (b : Beam) : list cmd :=
  let startX := 245 in
  let startY := 270 in
  let endX := screenCX in
  let endY_Top := fsub (fadd screenCY screenB) 10 in
  let endY_Bot := fadd (fsub screenCY screenB) 10 in
  [LineWidth 1; Color 0.6 0.6 0.6 0.5;
   Prim GL_LINES [(startX, startY); (endX, endY_Top); (startX, startY); (endX, endY_Bot)]] ++
  (if (beamStage b =? STAGE_SCREEN)%Z || (beamStage b =? STAGE_DEFLECTION)%Z then
     [Color 0 0.5 1 0.05;
      Prim GL_TRIANGLES [(startX, startY); (endX, endY_Top); (endX, endY_Bot)];
      Color 0.4 0.4 0.6 1] ++
     drawString 280 420 "Deflection Region" HELVETICA_10
   else []).

(** One particle of [drawBeamAndParticles], after its update: the
    alpha it is drawn with (0 outside [0, 1]) and its position along
    filament -> plates -> screen target, wobbling on the second leg. *)
Definition particle_vertex (timeMs tx ty : Q) (p : Particle) : Q * (Q * Q) :=
  let t_mapped := t p in
  let px_start := filamentX0 in
  let px_mid := platesX in
  let px_end := tx in
  let pos :=
    if fltb t_mapped 0.3 then
      let sub_t := fdiv t_mapped 0.3 in
      (fadd px_start (fmul (fsub px_mid px_start) sub_t), filamentY)
    else
      let sub_t := fdiv (fsub t_mapped 0.3) 0.7 in
      let curX := fadd px_mid (fmul (fsub px_end px_mid) sub_t) in
      let targetY := ty in
      let curY := fadd filamentY (fmul (fsub targetY filamentY) sub_t) in
      let wobble := fmul 5 (sin (fadd (phase p) (fmul timeMs 0.005))) in
      (curX, fadd curY (fmul wobble (fsub 1 sub_t))) in
  let alpha := if fltb t_mapped 0 || fltb 1 t_mapped then 0 else 0.8 in
  (alpha, pos).

(** The screen target of the sweep, [tx] and [ty]. *)
Definition sweep_target (b : Beam) : Q * Q :=
  (fadd screenCX (fmul screenA (cos (screenTheta b))), fadd screenCY (fmul screenB (sin (screenTheta b)))).

(** What [drawBeamAndParticles] draws: every particle moved by
    [particle_step], each a point with its alpha, then the beam tip. *)
Definition drawBeamAndParticles_cmds (timeMs : Q) (s : CRT2D) : list cmd :=
  let '(tx, ty) := sweep_target (beam s) in
  [PointSize 3] ++
  flat_map (fun p => let '(alpha, v) := particle_vertex timeMs tx ty p in
                     [Color 0.2 0.2 0.9 alpha; Prim GL_POINTS [v]])
           (map particle_step (particles s)) ++
  let '(bx, by') := computeBeamTip cos sin (beam s) in
  [Color 0 0 1 1; PointSize 6; Prim GL_POINTS [(bx, by')]].

(** The inset's map of the world box [230, 420] x [130, 410] onto the
    unit square. *)
Definition mapX (wx : Q) : Q := fdiv (fsub wx 230) (fsub 420 230).
Definition mapY (wy : Q) : Q := fdiv (fsub wy 130) (fsub 410 130).

(** The [GL_LINE_STRIP] of the inset: the trace points, mapped, that
    fall in the unit square. *)
Definition inset_trace (h : list (Q * Q)) : list (Q * Q) :=
  flat_map (fun p => let mx := mapX (fst p) in
                     let my := mapY (snd p) in
                     if fleb 0 mx && fleb mx 1 && fleb 0 my && fleb my 1 then [(mx, my)] else [])
           h.

(** [drawInsetViewport] in a [W] x [H] window: a 150-pixel square 10
    pixels from the bottom-right corner, showing the trace; the pops
    restore the window's viewport and the world projection. *)
Definition drawInsetViewport (W H : Z) (pathHistory : list (Q * Q)) : list cmd :=
  let px := (W - INSET_PIX - INSET_MARGIN)%Z in
  let py := INSET_MARGIN in
  [Viewport px py INSET_PIX INSET_PIX; Ortho 0 1 0 1;
   Color 1 1 1 1; Prim GL_QUADS [(0, 0); (1, 0); (1, 1); (0, 1)];
   LineWidth 2; Color 0 0.2 0.6 1;
   Prim GL_LINE_LOOP [(0.01, 0.01); (0.99, 0.01); (0.99, 0.99); (0.01, 0.99)];
   LineWidth 1.5; Prim GL_LINE_STRIP (inset_trace pathHistory);
   Color 0.8 0.8 0.8 1; Prim GL_LINES [(0, 0.5); (1, 0.5); (0.5, 0); (0.5, 1)];
   Color 0 0 0 1; Text 0.05 0.92 HELVETICA_10 "Trace Path";
   Ortho worldLeft worldRight worldBottom worldTop; Viewport 0 0 W H].

(** The member loop of [displayIntro]: one name per row, [my] moving
    down 25 units after each. *)
Fixpoint drawMembers (a cx my : Q) (members : list String.string) : list cmd :=
  match members with
  | [] => []
  | m :: rest => [Color 0.1 0.1 0.1 a] ++ drawStringCentered cx my m HELVETICA_18 ++ drawMembers a cx (fsub my 25) rest
  end.

(** [displayIntro]: the grid, then the centred texts faded in by
    [introAlpha] (capped at 1) and slid by [introSlide]. *)
Definition displayIntro (i : Intro) : list cmd :=
  let a := if fltb 1 (introAlpha i) then 1 else introAlpha i in
  let slide := introSlide i in
  let cx := fmul (fadd worldLeft worldRight) 0.5 in
  let startY := fadd 380 slide in
  drawBackgroundGrid ++
  [Color 0 0.1 0.4 a] ++ drawStringCentered cx startY PROJECT_TITLE TIMES_ROMAN_24 ++
  [Color 0.2 0.2 0.2 a] ++ drawStringCentered cx (fsub startY 40) COURSE_NAME HELVETICA_18 ++
  drawStringCentered cx (fsub startY 65) (String.append "Course Code: " COURSE_CODE) HELVETICA_18 ++
  [Color 0 0 0 a] ++ drawStringCentered cx (fsub startY 110) "Group Members:" HELVETICA_18 ++
  drawMembers a cx (fsub startY 140) MEMBERS ++
  [Color 0.5 0 0 a] ++ drawStringCentered cx 80 "Press [S] to Start Simulation" HELVETICA_18.

(** [setupOrtho]: the world box, whatever the window. *)
Definition setupOrtho : list cmd := [Ortho worldLeft worldRight worldBottom worldTop].

(** The frame [display] draws in a [W] x [H] window at time [timeMs];
    the trace the inset shows already holds this frame's tip. *)
Definition frame (W H : Z) (timeMs : Q) (s : CRT2D) : list cmd :=
  if showIntro s then setupOrtho ++ displayIntro (intro s)
  else
    setupOrtho ++ drawBackgroundGrid ++ drawBeamSpreadRegion (beam s) ++ drawCRTStructure ++
    drawBeamAndParticles_cmds timeMs s ++
    drawInsetViewport W H (pathHistory (display cos sin s)) ++
    [Color 0.4 0.4 0.4 1] ++
    drawString 10 15 "Controls: [S] Start/Skip  [P] Pause  [R] Reset  [Esc] Exit" HELVETICA_12.

End Frame.

End Frame2D.

Import Frame2D.

(** * Properties of the frame *)

Module Frame2DFacts.

Section Trig.
Variables (cos sin : Q -> Q).
Hypothesis cos_bound : forall a, -1 <= cos a <= 1.
Hypothesis sin_bound : forall a, -1 <= sin a <= 1.

(** The box the beam moves in: from the filament to the far side of
    the screen outline. *)
Definition tube (p : Q * Q) : bool := in_box 107 410 140 400 p.

Lemma computeBeamTip_tube b : beam_wf thetaWrap2D b -> tube (computeBeamTip cos sin b) = true.
Proof.
  intros (_ & [Hp0 Hp1] & _). unfold tube, computeBeamTip. apply in_box_spec.
  pose proof (cos_bound (screenTheta b)). pose proof (sin_bound (screenTheta b)).
  unfold filamentX0, anodeX0, anodeX1, platesX, filamentY, screenCX, screenCY, screenA, screenB.
  destruct (_ =? _)%Z; [|destruct (_ =? _)%Z; [|destruct (_ =? _)%Z]]; cbn [fst snd]; split; split; nra.
Qed.

(** Every point of the trace is a beam tip, so lies in the tube. *)
Lemma reachable_history_tube s :
  reachable cos sin s -> Forall (fun p => tube p = true) (pathHistory s).
Proof.
  induction 1 as [rnd _ | e s s' Hr IH Hstep]; [constructor|].
  pose proof (reachable_crt_wf cos sin s Hr) as (Hb & _).
  destruct e as [| |k]; cbn [crt_step] in Hstep.
  - inv_some. exact IH.
  - inv_some. unfold display. destruct (showIntro s); [exact IH|].
    unfold drawBeamAndParticles. pose proof (computeBeamTip_tube _ Hb) as Ht.
    destruct (computeBeamTip cos sin (beam s)) as [x y]. cbn.
    apply push_capped_Forall; assumption.
  - destruct s as [si sp b bx by' i ps h]. unfold keyboardHandler in Hstep. cbn [pathHistory] in *.
    destruct (k =? 27)%Z; [discriminate|].
    destruct ((k =? 115)%Z || (k =? 83)%Z); [inv_some; exact IH|].
    destruct ((k =? 112)%Z || (k =? 80)%Z); [inv_some; exact IH|].
    destruct ((k =? 114)%Z || (k =? 82)%Z); inv_some; [constructor | exact IH].
Qed.

(** The inset shows a tube point exactly when it is right of x = 230. *)
Lemma inset_point_tube p :
  tube p = true ->
  (fleb 0 (mapX (fst p)) && fleb (mapX (fst p)) 1 && fleb 0 (mapY (snd p)) && fleb (mapY (snd p)) 1) =
  Qle_bool 230 (fst p).
Proof.
  destruct p as [x y]. unfold tube. rewrite in_box_spec. cbn [fst snd]. intros [[Hx0 Hx1] [Hy0 Hy1]].
  unfold mapX, mapY, fleb. qexact.
  setoid_replace ((x - 230) / (420 - 230)) with ((x - 230) * (1 # 190)) by (field; discriminate).
  setoid_replace ((y - 130) / (410 - 130)) with ((y - 130) * (1 # 280)) by (field; discriminate).
  destruct (Qle_bool 230 x) eqn:E; [apply Qle_bool_iff in E | apply Bool.not_true_iff_false in E;
    rewrite Qle_bool_iff in E]; apply Bool.eq_true_iff_eq; rewrite !andb_true_iff, !Qle_bool_iff.
  - split; [reflexivity|]. intros _. repeat split; lra.
  - split; [intros [[[? ?] ?] ?]; exfalso; apply E; lra | discriminate].
Qed.

Lemma inset_trace_tube h :
  Forall (fun p => tube p = true) h ->
  inset_trace h = map (fun p => (mapX (fst p), mapY (snd p))) (filter (fun p => Qle_bool 230 (fst p)) h).
Proof.
  induction 1 as [|p h Hp _ IH]; [reflexivity|]. cbn [inset_trace flat_map filter].
  fold (inset_trace h). rewrite IH, (inset_point_tube p Hp).
  destruct (Qle_bool 230 (fst p)); reflexivity.
Qed.

Lemma sweep_target_box b :
  330 <= fst (sweep_target cos sin b) <= 410 /\ 140 <= snd (sweep_target cos sin b) <= 400.
Proof.
  unfold sweep_target, screenCX, screenCY, screenA, screenB. cbn [fst snd]. qexact.
  pose proof (cos_bound (screenTheta b)). pose proof (sin_bound (screenTheta b)). split; split; lra.
Qed.

(** A particle point is drawn with alpha 0 (invisible) or 0.8; a
    visible one lies on the beam's way, within 5 units of wobble:
    inside [107, 410] x [135, 405]. *)
Lemma particle_vertex_tube tm tx ty p :
  330 <= tx <= 410 -> 140 <= ty <= 400 ->
  fst (particle_vertex sin tm tx ty p) == 0 \/
  (fst (particle_vertex sin tm tx ty p) == 0.8 /\ in_box 107 410 135 405 (snd (particle_vertex sin tm tx ty p)) = true).
Proof.
  intros Htx Hty. unfold particle_vertex. cbn [fst snd].
  destruct (fltb_spec (t p) 0) as [|H0]; [left; reflexivity|].
  destruct (fltb_spec 1 (t p)) as [|H1]; [left; reflexivity|]. cbn [orb]. right. split; [reflexivity|].
  apply in_box_spec. pose proof (sin_bound (fadd (phase p) (fmul tm 0.005))) as Hs.
  set (w := sin (fadd (phase p) (fmul tm 0.005))) in *. clearbody w.
  unfold filamentX0, platesX, filamentY in *.
  destruct (fltb_spec (t p) 0.3); cbn [fst snd]; qexact.
  - set (u := t p / 0.3). assert (Hu : u * 0.3 == t p) by (unfold u; field; discriminate).
    clearbody u. split; split; lra.
  - set (u := (t p - 0.3) / 0.7). assert (Hu : u * 0.7 == t p - 0.3) by (unfold u; field; discriminate).
    clearbody u. assert (0 <= u <= 1) by (split; lra).
    assert (0 <= (tx - 330) * u) by (apply Qmult_le_0_compat; lra).
    assert (0 <= (410 - tx) * u) by (apply Qmult_le_0_compat; lra).
    assert (0 <= (ty - 140) * u) by (apply Qmult_le_0_compat; lra).
    assert (0 <= (400 - ty) * u) by (apply Qmult_le_0_compat; lra).
    assert (0 <= (1 + w) * (1 - u)) by (apply Qmult_le_0_compat; lra).
    assert (0 <= (1 - w) * (1 - u)) by (apply Qmult_le_0_compat; lra).
    split; split; nra.
Qed.

(** The screen outline: every point the loops draw lies on the ellipse
    of semi-axes [screenA], [screenB] around the screen centre, the
    ellipse the sweep targets, when cos^2 + sin^2 = 1. *)
Definition on_screen_ellipse (p : Q * Q) : Prop :=
  ((fst p - screenCX) / screenA) ^ 2 + ((snd p - screenCY) / screenB) ^ 2 == 1.

Lemma screen_point_on_ellipse a :
  (forall x, cos x * cos x + sin x * sin x == 1) -> on_screen_ellipse (screen_point cos sin a).
Proof.
  intros Hu. unfold on_screen_ellipse, screen_point, screenCX, screenCY, screenA, screenB. cbn [fst snd].
  qexact. rewrite <- (Hu (deg a)). field.
Qed.

Lemma sweep_target_on_ellipse b :
  (forall x, cos x * cos x + sin x * sin x == 1) -> on_screen_ellipse (sweep_target cos sin b).
Proof.
  intros Hu. unfold on_screen_ellipse, sweep_target, screenCX, screenCY, screenA, screenB. cbn [fst snd].
  qexact. rewrite <- (Hu (screenTheta b)). field.
Qed.

(** Every vertex of the inset strip passed its unit-square test. *)
Lemma inset_trace_unit h : Forall (fun p => in_box 0 1 0 1 p = true) (inset_trace h).
Proof.
  apply Forall_flat_map. intros [x y] _. cbv zeta.
  destruct (fleb 0 (mapX (fst (x, y))) && fleb (mapX (fst (x, y))) 1 && fleb 0 (mapY (snd (x, y))) &&
            fleb (mapY (snd (x, y))) 1) eqn:E; [|constructor].
  constructor; [|constructor]. exact E.
Qed.

End Trig.

(** The outline loop runs 721 times, for a = 0, 0.5, ..., 360, and the
    fan loop 73 times. *)
Lemma screen_loops : length (for_float 0 360 0.5) = 721%nat /\ length (for_float 0 360 5) = 73%nat /\
  nth 720 (for_float 0 360 0.5) 0 = 360.
Proof. vm_compute. auto. Qed.

(** The intro screen's rows, for a slide in [-40, 0]: nine strings
    from the title at [380 + slide] down to the start prompt at 80, each
    at least 25 units below the previous one. *)
Lemma intro_rows bl i :
  intro_wf i ->
  length (text_rows (displayIntro bl i)) = 9%nat /\
  chain (fun a b => b + 25 <= a) (text_rows (displayIntro bl i)) /\
  Forall (fun y => 80 <= y <= 380) (text_rows (displayIntro bl i)).
Proof.
  intros [_ [Hs0 Hs1]].
  assert (Hc : forall cx y m f, String.eqb m "" = false -> text_rows (drawStringCentered bl cx y m f) = [y]).
  { intros cx y m f Hm. unfold drawStringCentered. rewrite Hm. reflexivity. }
  unfold displayIntro, MEMBERS. cbn [drawMembers]. rewrite !DrawFacts.text_rows_app.
  replace (text_rows drawBackgroundGrid) with (@nil Q) by reflexivity.
  cbn [text_rows flat_map app].
  rewrite !Hc by reflexivity.
  set (sl := introSlide i) in *. clearbody sl. cbn [app].
  split; [reflexivity|]. split.
  - cbn [chain]. qexact. repeat split; lra.
  - repeat constructor; qexact; lra.
Qed.

(** The frame's blocks other than the inset trace are no line strips. *)
Lemma frame_line_strip cos sin bl W H tm s :
  showIntro s = false ->
  vertices_of GL_LINE_STRIP (frame cos sin bl W H tm s) = inset_trace (pathHistory (display cos sin s)).
Proof.
  intros Hs. unfold frame. rewrite Hs. rewrite !DrawFacts.vertices_of_app.
  assert (Hp : vertices_of GL_LINE_STRIP (drawBeamAndParticles_cmds cos sin tm s) = []).
  { unfold drawBeamAndParticles_cmds. destruct (sweep_target cos sin (beam s)) as [tx ty].
    destruct (computeBeamTip cos sin (beam s)) as [bx by'].
    rewrite !DrawFacts.vertices_of_app, DrawFacts.vertices_of_flat_map, DrawFacts.flat_map_nil; [reflexivity|].
    intros p. destruct (particle_vertex sin tm tx ty p). reflexivity. }
  assert (Hr : vertices_of GL_LINE_STRIP (drawBeamSpreadRegion (beam s)) = []).
  { unfold drawBeamSpreadRegion. destruct (_ || _); reflexivity. }
  set (h := pathHistory (display cos sin s)).
  replace (vertices_of GL_LINE_STRIP (drawInsetViewport W H h)) with (inset_trace h ++ []) by reflexivity.
  assert (Hc : vertices_of GL_LINE_STRIP (drawCRTStructure cos sin) = []) by reflexivity.
  rewrite Hp, Hr, Hc. clearbody h. cbn -[inset_trace]. rewrite !app_nil_r. reflexivity.
Qed.

End Frame2DFacts.

Import Frame2DFacts.

(** C22. The trace inset of CRT_2D shows only the part of the trace
    right of x = 230: in every reachable state after the intro, with
    cos and sin in [-1, 1], the line strip of the frame [display] draws
    is exactly the trace (this frame's tip included) with the points
    left of x = 230 removed, mapped by [mapX] and [mapY]; all of it lies
    in the inset's unit square.  The filament and anode stages (x from
    107 to 185) and the first part of the deflection stage never show
    in the inset. *)
Theorem crt2d_inset_trace cos sin bl W H tm s :
  (forall a, -1 <= cos a <= 1) -> (forall a, -1 <= sin a <= 1) ->
  reachable cos sin s -> showIntro s = false ->
  vertices_of GL_LINE_STRIP (frame cos sin bl W H tm s) =
    map (fun p => (mapX (fst p), mapY (snd p))) (filter (fun p => Qle_bool 230 (fst p)) (pathHistory (display cos sin s))) /\
  Forall (fun p => in_box 0 1 0 1 p = true) (vertices_of GL_LINE_STRIP (frame cos sin bl W H tm s)).
Proof.
  intros Hc Hs Hr Hi. rewrite (frame_line_strip cos sin bl W H tm s Hi).
  split; [|apply inset_trace_unit].
  apply inset_trace_tube, (reachable_history_tube cos sin Hc Hs).
  apply (reach_step cos sin Redraw s); [exact Hr | reflexivity].
Qed.

(** C23. [display] undoes [reshape]: every frame starts with
    [setupOrtho], the world box [0, 450] x [0, 500], whatever the window,
    while [reshape] sets that box only for a window of aspect ratio
    exactly 0.9; for every other window the projection [reshape]
    computes to keep the aspect ratio is never used, and the drawing is
    stretched. *)
Theorem crt2d_display_ignores_reshape cos sin bl W H tm s w h :
  (0 < w)%Z -> (0 < h)%Z ->
  hd_error (frame cos sin bl W H tm s) = Some (Ortho worldLeft worldRight worldBottom worldTop) /\
  ((let '(l, r, b, t) := reshape w h in l == worldLeft /\ r == worldRight /\ b == worldBottom /\ t == worldTop)
   <-> inject_Z w / inject_Z h == 9 # 10).
Proof.
  intros Hw Hh. split; [unfold frame; destruct (showIntro s); reflexivity|].
  unfold reshape. replace (h =? 0)%Z with false by (symmetry; apply Z.eqb_neq; lia).
  assert (Ha : 0 < inject_Z w / inject_Z h).
  { apply Qlt_shift_div_l; [unfold Qlt; cbn; lia|]. rewrite Qmult_0_l. unfold Qlt; cbn; lia. }
  set (a := inject_Z w / inject_Z h) in *. clearbody a.
  unfold worldLeft, worldRight, worldBottom, worldTop.
  destruct (fltb_spec ((450 - 0) / (500 - 0)) a) as [Hlt|Hle].
  - split.
    + intros (Hl & _). exfalso. assert (Hn : (500 - 0) * a > 450) by
        (setoid_replace ((450 - 0) / (500 - 0)) with (9 # 10) in Hlt by reflexivity; lra).
      revert Hl. setoid_replace ((0 + 450) / 2 - (500 - 0) * a / 2) with (225 - 250 * a) by field. lra.
    + intros E. setoid_replace ((450 - 0) / (500 - 0)) with (9 # 10) in Hlt by reflexivity. lra.
  - split.
    + intros (_ & _ & Hb & _).
      assert (Hq : (450 - 0) / a * a == 450) by (field; lra).
      set (q := (450 - 0) / a) in *. clearbody q.
      setoid_replace ((0 + 500) / 2 - q / 2) with (250 - q * (1 # 2)) in Hb by field.
      assert (E : q == 500) by lra. rewrite E in Hq. lra.
    + intros E. rewrite E. repeat split; reflexivity.
Qed.

(** Witnesses. *)

Lemma crt2d_inset_trace_witness :
  let cs := fun _ : Q => 0 in
  let s := mkCRT false false beam_init filamentX0 filamentY (mkIntro 0 (-40) false)
                 (initGL (fun _ => (0, 0, 0))) [] in
  (forall a, -1 <= cs a <= 1) /\ reachable cs cs s /\ showIntro s = false /\
  vertices_of GL_LINE_STRIP (frame cs cs (fun _ _ => 0%Z) 900 600 0 s) =
    map (fun p => (mapX (fst p), mapY (snd p)))
        (filter (fun p => Qle_bool 230 (fst p)) (pathHistory (display cs cs s))) /\
  Forall (fun p => in_box 0 1 0 1 p = true) (vertices_of GL_LINE_STRIP (frame cs cs (fun _ _ => 0%Z) 900 600 0 s)).
Proof.
  intros cs s.
  assert (Hb : forall a, -1 <= cs a <= 1) by (intros a; unfold cs; split; discriminate).
  assert (Hr : reachable cs cs s).
  { apply (reach_step cs cs (Key 115) (init_state (fun _ => (0, 0, 0)))); [|reflexivity].
    constructor. intros i. repeat split; discriminate. }
  split; [exact Hb|]. split; [exact Hr|]. split; [reflexivity|].
  exact (crt2d_inset_trace cs cs (fun _ _ => 0%Z) 900 600 0 s Hb Hb Hr eq_refl).
Defined.

Lemma crt2d_display_ignores_reshape_witness :
  (0 < 900)%Z /\ (0 < 600)%Z /\
  hd_error (frame (fun _ => 0) (fun _ => 0) (fun _ _ => 0%Z) 900 600 0
                  (init_state (fun _ => (0, 0, 0)))) = Some (Ortho worldLeft worldRight worldBottom worldTop) /\
  ((let '(l, r, b, t) := reshape 900 600 in l == worldLeft /\ r == worldRight /\ b == worldBottom /\ t == worldTop)
   <-> inject_Z 900 / inject_Z 600 == 9 # 10).
Proof.
  assert (H1 : (0 < 900)%Z) by lia. assert (H2 : (0 < 600)%Z) by lia.
  split; [exact H1|]. split; [exact H2|].
  exact (crt2d_display_ignores_reshape (fun _ => 0) (fun _ => 0) (fun _ _ => 0%Z) 900 600 0
           (init_state (fun _ => (0, 0, 0))) 900 600 H1 H2).
Defined.
