(* ===== verification/Circle.v ===== *)
(** Circle rasterisers of Exp-04 (Bresenham) and Exp-05 (midpoint).
    Each program walks the second octant from (0, r) (Y-axis variant)
    or the first octant from (r, 0) (X-axis variant), prints one
    decision-table row per iteration and plots the eight reflections of
    the current pixel.  The loops are written once against the
    [IntOps] interface, so that the same definition runs on exact
    integers and on 32-bit [int]. *)

From S2P Require Import Prelude MachineInt.

Open Scope cg_scope.
Open Scope Z_scope.

(** One printed line of the decision table: the current pixel, the
    decision parameter after the update, and the next pixel
    ([cout << curr_x << curr_y << P << xInc << yInc]). *)
Record row := mkRow { xk : Z; yk : Z; pk : Z; xInc : Z; yInc : Z }.

(** The pixel a row plots, and the pixel it moves to. *)
Definition row_pt (r : row) : pt := (xk r, yk r).
Definition row_next (r : row) : pt := (xInc r, yInc r).

(** The same row with the roles of x and y exchanged. *)
Definition swap_row (r : row) : row :=
  mkRow (yk r) (xk r) (pk r) (yInc r) (xInc r).

(** How the C++ [main] of an exercise ends: [return code] before the
    window opens, or the window runs and shows a frame. *)
Inductive outcome (A : Type) := Exited (code : Z) | Runs (frame : A).
Arguments Exited {A} code.
Arguments Runs {A} frame.

(** ** Exp-04: Bresenham circle *)
Module Bresenham.

(** [plot8Points]: the eight reflections, in the order of the
    [glVertex2i] calls. *)
Definition plot8Points (x y : Z) : list pt :=
  [(x, y); (y, x); (-x, y); (-y, x); (-x, -y); (-y, -x); (x, -y); (y, -x)].

Section Loops.
Context {ops : IntOps}.

(** The [while (x <= y)] loop of [bresenham_Yaxis]. *)
Fixpoint bres_y_loop (fuel : nat) (x y P : Z) : option (list row) :=
  match fuel with
  | O => None
  | S fuel' =>
      if x <=? y then
        let xInc := x +! 1 in
        let '(yInc, P') :=
          if P <? 0 then (y, P +! 4 *! x +! 6)
          else (y -! 1, P +! 4 *! (x -! y) +! 10) in
        option_map (cons (mkRow x y P' xInc yInc))
                   (bres_y_loop fuel' xInc yInc P')
      else Some []
  end.

(** [bresenham_Yaxis]: start at (0, r) with P = 3 - 2r. *)
Definition bresenham_Yaxis (radius : Z) : option (list row) :=
  bres_y_loop (Z.to_nat radius + 2) 0 radius (3 -! 2 *! radius).

(** The [while (y <= x)] loop of [bresenham_Xaxis]. *)
Fixpoint bres_x_loop (fuel : nat) (x y P : Z) : option (list row) :=
  match fuel with
  | O => None
  | S fuel' =>
      if y <=? x then
        let yInc := y +! 1 in
        let '(xInc, P') :=
          if P <? 0 then (x, P +! 4 *! y +! 6)
          else (x -! 1, P +! 4 *! (y -! x) +! 10) in
        option_map (cons (mkRow x y P' xInc yInc))
                   (bres_x_loop fuel' xInc yInc P')
      else Some []
  end.

(** [bresenham_Xaxis]: start at (r, 0) with P = 3 - 2r. *)
Definition bresenham_Xaxis (radius : Z) : option (list row) :=
  bres_x_loop (Z.to_nat radius + 2) radius 0 (3 -! 2 *! radius).

(** The vertices one run plots: [plot8Points(curr_x, curr_y)] once
    per row, in order. *)
Definition pixels (rows : list row) : list pt :=
  flat_map (fun r => plot8Points (xk r) (yk r)) rows.

(** [display]: [axis_choice == 1] selects the Y-axis variant, any
    other value the X-axis variant. *)
Definition display (axis_choice radius : Z) : option (list pt) :=
  option_map pixels
    (if axis_choice =? 1 then bresenham_Yaxis radius
     else bresenham_Xaxis radius).

(** [main]: a choice other than 1 or 2 ends with [return 1]. *)
Definition main (radius axis_choice : Z) : outcome (option (list pt)) :=
  if negb (axis_choice =? 1) && negb (axis_choice =? 2) then Exited 1
  else Runs (display axis_choice radius).
End Loops.
End Bresenham.

(** ** Exp-05: midpoint circle *)
Module Midpoint.

Definition plot8Points (x y : Z) : list pt :=
  [(x, y); (y, x); (-x, y); (-y, x); (-x, -y); (-y, -x); (x, -y); (y, -x)].

Section Loops.
Context {ops : IntOps}.

(** The [while (x <= y)] loop of [midpoint_Yaxis]. *)
Fixpoint mid_y_loop (fuel : nat) (x y P : Z) : option (list row) :=
  match fuel with
  | O => None
  | S fuel' =>
      if x <=? y then
        let xInc := x +! 1 in
        let '(yInc, P') :=
          if P <? 0 then (y, P +! 2 *! x +! 3)
          else (y -! 1, P +! 2 *! (x -! y) +! 5) in
        option_map (cons (mkRow x y P' xInc yInc))
                   (mid_y_loop fuel' xInc yInc P')
      else Some []
  end.

(** [midpoint_Yaxis]: start at (0, r) with P = 1 - r. *)
Definition midpoint_Yaxis (radius : Z) : option (list row) :=
  mid_y_loop (Z.to_nat radius + 2) 0 radius (1 -! radius).

(** The [while (y <= x)] loop of [midpoint_Xaxis]. *)
Fixpoint mid_x_loop (fuel : nat) (x y P : Z) : option (list row) :=
  match fuel with
  | O => None
  | S fuel' =>
      if y <=? x then
        let yInc := y +! 1 in
        let '(xInc, P') :=
          if P <? 0 then (x, P +! 2 *! y +! 3)
          else (x -! 1, P +! 2 *! (y -! x) +! 5) in
        option_map (cons (mkRow x y P' xInc yInc))
                   (mid_x_loop fuel' xInc yInc P')
      else Some []
  end.

(** [midpoint_Xaxis]: start at (r, 0) with P = 1 - r. *)
Definition midpoint_Xaxis (radius : Z) : option (list row) :=
  mid_x_loop (Z.to_nat radius + 2) radius 0 (1 -! radius).

Definition pixels (rows : list row) : list pt :=
  flat_map (fun r => plot8Points (xk r) (yk r)) rows.

(** [display] with its [static bool printed]: the algorithm, and
    with it every [plot8Points] call, runs only while [printed] is
    false.  Returns the frame drawn and the new flag. *)
Definition display (axis_choice radius : Z) (printed : bool)
  : option (list pt) * bool :=
  if negb printed then
    (option_map pixels
       (if axis_choice =? 1 then midpoint_Yaxis radius
        else midpoint_Xaxis radius), true)
  else (Some [], printed).

(** [main]: a choice other than 1 or 2 ends with [return 1]; otherwise
    the window opens and the first [display] runs with the flag clear. *)
Definition main (radius axis_choice : Z) : outcome (option (list pt) * bool) :=
  if negb (axis_choice =? 1) && negb (axis_choice =? 2) then Exited 1
  else Runs (display axis_choice radius false).

(** The frames of [n] successive redisplays from program start. *)
Fixpoint frames (axis_choice radius : Z) (printed : bool) (n : nat)
  : list (option (list pt)) :=
  match n with
  | O => []
  | S n' =>
      let '(f, printed') := display axis_choice radius printed in
      f :: frames axis_choice radius printed' n'
  end.
End Loops.
End Midpoint.

(** * Theorems *)

(** Relations and predicates the statements use. *)

(** The geometry of a row: the pixel it plots and the one it moves to. *)
Definition row_geom (w : row) : pt * pt := (row_pt w, row_next w).

(** A Bresenham row and a midpoint row of the same iteration. *)
Definition bres_mid_rel (b m : row) : Prop :=
  row_geom b = row_geom m /\ pk b = 2 * pk m + 1.

(** The midpoint loop invariant: x is non-negative, P is the circle
    function at the next midpoint (x+1, y-1/2), shifted by 1/4 to stay
    integral, and while the loop runs the current pixel is within y of
    the circle. *)
Definition mid_inv (r x y P : Z) : Prop :=
  0 <= x /\ P = (x + 1) * (x + 1) + y * y - y - r * r /\
  (x <= y -> - y <= err[r] (x, y) <= y).

(** What a printed row of the Y-axis walk guarantees. *)
Definition row_ok (r : Z) (w : row) : Prop :=
  0 <= xk w <= yk w /\ - yk w <= err[r] (row_pt w) <= yk w /\
  xInc w = xk w + 1 /\ (yInc w = yk w \/ yInc w = yk w - 1).

(** Consecutive rows: the next pixel of one is the pixel of the other. *)
Definition linked (a b : row) : Prop := row_next a = row_pt b.

(** The walk from (x, y): empty exactly when it starts past the
    diagonal, its first row plots (x, y), its rows are linked, and its
    last row moves past the diagonal. *)
Definition walk_shape (x y : Z) (rows : list row) : Prop :=
  (rows = [] <-> y < x) /\
  (forall w, hd_error rows = Some w -> row_pt w = (x, y)) /\
  chain linked rows /\
  (forall w, last_opt rows = Some w -> yInc w < xInc w).

(** Two pixels of an octant walk are 8-adjacent: one step right, and
    at most one step down. *)
Definition adj8_step (p q : pt) : Prop :=
  fst q = fst p + 1 /\ (snd q = snd p \/ snd q = snd p - 1).

(** A drawn vertex is within max(|x|, |y|) of the circle, measured on
    the squared radius. *)
Definition pixel_ok (r : Z) (p : pt) : Prop :=
  Z.abs (err[r] p) <= Z.max (Z.abs (fst p)) (Z.abs (snd p)).

(** ** Shape of a walk *)

Lemma walk_shape_nil x y : y < x -> walk_shape x y [].
Proof. unfold walk_shape; simpl; intuition (try discriminate; lia). Qed.

Lemma walk_shape_cons x y w tl :
  row_pt w = (x, y) -> x <= y -> walk_shape (xInc w) (yInc w) tl ->
  walk_shape x y (w :: tl).
Proof.
  unfold walk_shape. intros Hw Hxy (Hnil & Hhd & Hch & Hlast).
  split; [split; [discriminate | lia] |].
  split; [simpl; intros w' Hw'; inv_some; exact Hw |].
  destruct tl as [|w' tl].
  - split; [exact I|]. simpl. intros w' Hw'; inv_some. apply Hnil; reflexivity.
  - split; [split; [symmetry; apply Hhd; reflexivity | exact Hch] | exact Hlast].
Qed.

(** ** Symmetry of the two start axes (any arithmetic) *)

Section AnyOps.
Context {ops : IntOps}.

Lemma bres_x_loop_swap fuel x y P :
  Bresenham.bres_x_loop fuel y x P =
  option_map (map swap_row) (Bresenham.bres_y_loop fuel x y P).
Proof.
  revert x y P; induction fuel as [|fuel IH]; intros x y P; [reflexivity|].
  simpl. destruct (x <=? y); [|reflexivity].
  destruct (P <? 0); rewrite IH, option_map_map_cons; reflexivity.
Qed.

Lemma mid_x_loop_swap fuel x y P :
  Midpoint.mid_x_loop fuel y x P =
  option_map (map swap_row) (Midpoint.mid_y_loop fuel x y P).
Proof.
  revert x y P; induction fuel as [|fuel IH]; intros x y P; [reflexivity|].
  simpl. destruct (x <=? y); [|reflexivity].
  destruct (P <? 0); rewrite IH, option_map_map_cons; reflexivity.
Qed.

(** The shape of any midpoint walk: it plots its start pixel first,
    each row links to the next, and it stops past the diagonal. *)
Lemma mid_loop_shape fuel x y P rows :
  Midpoint.mid_y_loop fuel x y P = Some rows -> walk_shape x y rows.
Proof.
  revert x y P rows; induction fuel as [|fuel IH]; intros x y P rows H;
    [discriminate|].
  simpl in H. destruct (Z.leb_spec x y) as [Hxy|Hxy];
    [|inv_some; apply walk_shape_nil; lia].
  destruct (P <? 0); destruct (Midpoint.mid_y_loop fuel _ _ _) as [tl|] eqn:E;
    simpl in H; inv_some; apply walk_shape_cons; eauto.
Qed.
End AnyOps.

#[local] Existing Instance exact_ops.

(** ** Termination *)

Lemma mid_loop_total fuel x y P :
  (Z.to_nat (y - x + 1) < fuel)%nat ->
  exists rows, Midpoint.mid_y_loop fuel x y P = Some rows.
Proof.
  revert x y P; induction fuel as [|fuel IH]; intros x y P Hf; [lia|].
  cbn -[Z.add Z.sub Z.mul]. destruct (Z.leb_spec x y); [|eauto].
  destruct (P <? 0);
    (edestruct IH as [tl ->]; [lia | eexists; reflexivity]).
Qed.

(** ** The Bresenham loop simulates the midpoint loop *)

Lemma bres_mid_sim fuel x y P Q :
  P = 2 * Q + 1 ->
  option_rel (Forall2 bres_mid_rel)
    (Bresenham.bres_y_loop fuel x y P) (Midpoint.mid_y_loop fuel x y Q).
Proof.
  revert x y P Q; induction fuel as [|fuel IH]; intros x y P Q HPQ; [exact I|].
  cbn -[Z.add Z.sub Z.mul]. destruct (x <=? y); [|constructor].
  destruct (Z.ltb_spec P 0), (Z.ltb_spec Q 0); try lia;
    (apply option_rel_cons; [split; [reflexivity | cbn [pk]; lia] | apply IH; lia]).
Qed.

(** ** The midpoint invariant *)

Lemma mid_inv_init r : 0 <= r -> mid_inv r 0 r (1 - r).
Proof. unfold mid_inv, circle_err; cbn [fst snd]. intros Hr. split; [lia | split; [lia | intros _; nia]]. Qed.

Lemma mid_inv_neg r x y Q :
  mid_inv r x y Q -> x <= y -> Q < 0 -> mid_inv r (x + 1) y (Q + 2 * x + 3).
Proof.
  unfold mid_inv, circle_err; cbn [fst snd]. intros (H0 & HQ & Hb) Hxy HQn.
  specialize (Hb Hxy). split; [lia | split; [lia | intros; lia]].
Qed.

Lemma mid_inv_nonneg r x y Q :
  mid_inv r x y Q -> x <= y -> 0 <= Q ->
  mid_inv r (x + 1) (y - 1) (Q + 2 * (x - y) + 5).
Proof.
  unfold mid_inv, circle_err; cbn [fst snd]. intros (H0 & HQ & Hb) Hxy HQn.
  specialize (Hb Hxy). split; [lia | split; [lia | intros; lia]].
Qed.

Lemma row_ok_of_inv r x y Q P' y' :
  mid_inv r x y Q -> x <= y -> (y' = y \/ y' = y - 1) ->
  row_ok r (mkRow x y P' (x + 1) y').
Proof.
  unfold mid_inv, row_ok, row_pt. cbn [xk yk xInc yInc].
  intros (Hx & _ & Hb) Hxy Hy'. specialize (Hb Hxy). lia.
Qed.

(** Every row of a midpoint walk started in the invariant is accurate,
    and the invariant holds again at the pixel it moves to. *)
Lemma mid_loop_inv r fuel x y Q rows :
  mid_inv r x y Q -> Midpoint.mid_y_loop fuel x y Q = Some rows ->
  Forall (fun w => row_ok r w /\ mid_inv r (xInc w) (yInc w) (pk w)) rows.
Proof.
  revert x y Q rows; induction fuel as [|fuel IH]; intros x y Q rows HI H;
    [discriminate|].
  cbn [Midpoint.mid_y_loop iadd isub imul exact_ops] in H.
  destruct (Z.leb_spec x y) as [Hxy|Hxy]; [|inv_some; constructor].
  destruct (Z.ltb_spec Q 0) as [HQ|HQ];
    destruct (Midpoint.mid_y_loop fuel _ _ _) as [tl|] eqn:E; simpl in H; inv_some.
  - pose proof (mid_inv_neg _ _ _ _ HI Hxy HQ) as HI'.
    constructor; [split; [apply (row_ok_of_inv _ _ _ Q); auto | exact HI'] | eapply IH; eauto].
  - pose proof (mid_inv_nonneg _ _ _ _ HI Hxy HQ) as HI'.
    constructor; [split; [apply (row_ok_of_inv _ _ _ Q); auto | exact HI'] | eapply IH; eauto].
Qed.

Lemma midpoint_Yaxis_some r : exists rows, Midpoint.midpoint_Yaxis r = Some rows.
Proof. apply mid_loop_total. lia. Qed.

Lemma chain_adj8 r rows :
  chain linked rows -> Forall (row_ok r) rows -> chain adj8_step (map row_pt rows).
Proof.
  induction rows as [|a [|b rows] IH]; intros Hch Hok; simpl; auto.
  destruct Hch as [Hab Hch]. inversion Hok as [|? ? Ha Hok']; subst.
  split; [|apply IH; auto].
  unfold linked, row_next, row_pt in Hab. unfold row_ok in Ha. injection Hab as H1 H2.
  unfold adj8_step, row_pt; cbn [fst snd]. lia.
Qed.

(** All eight reflections of an accurate octant pixel are accurate,
    whichever coordinate comes first. *)
Lemma plot8_ok r x y :
  0 <= x <= y -> - y <= err[r] (x, y) <= y ->
  Forall (pixel_ok r) (Bresenham.plot8Points x y) /\
  Forall (pixel_ok r) (Bresenham.plot8Points y x).
Proof.
  unfold pixel_ok, circle_err, Bresenham.plot8Points. cbn [fst snd]. intros Hxy Hb.
  split; repeat constructor; cbn [fst snd]; lia.
Qed.

(** ** The two walks together *)

(** Exp-04's Bresenham walk and Exp-05's midpoint walk, both started
    at (0, r), return for every radius, plot the same pixels and move
    to the same next pixels row by row, and their decision parameters
    are related by P_bres = 2 * P_mid + 1 at every iteration. *)
Lemma bres_mid_walk (r : Z) :
  exists rb rm,
    Bresenham.bresenham_Yaxis r = Some rb /\
    Midpoint.midpoint_Yaxis r = Some rm /\
    Forall2 bres_mid_rel rb rm.
Proof.
  destruct (midpoint_Yaxis_some r) as [rm Hm].
  pose proof (bres_mid_sim (Z.to_nat r + 2) 0 r (3 - 2 * r) (1 - r) ltac:(lia)) as Hs.
  unfold Midpoint.midpoint_Yaxis in Hm. cbn [isub imul exact_ops] in Hm. rewrite Hm in Hs.
  unfold Bresenham.bresenham_Yaxis. cbn [isub imul exact_ops].
  destruct (Bresenham.bres_y_loop _ _ _ _) as [rb|]; [|contradiction]. eauto.
Qed.

(** The midpoint walk of Exp-05 started at (0, r): every printed
    row plots a pixel of the second octant (0 <= x <= y) whose squared
    radius is within y of r^2, moves one step right and at most one
    down, and prints as Pk the circle function at the next midpoint,
    (x+1)^2 + y^2 - y - r^2 for the next pixel (x, y). *)
Lemma mid_walk_accurate (r : Z) :
  exists rows, Midpoint.midpoint_Yaxis r = Some rows /\
    Forall (fun w => row_ok r w /\ mid_inv r (xInc w) (yInc w) (pk w)) rows.
Proof.
  destruct (midpoint_Yaxis_some r) as [rows H]. exists rows. split; [exact H|].
  destruct (Z.leb_spec 0 r) as [Hr|Hr].
  - eapply mid_loop_inv; [apply mid_inv_init; exact Hr | exact H].
  - unfold Midpoint.midpoint_Yaxis in H. replace (Z.to_nat r + 2)%nat with 2%nat in H by lia.
    cbn [Midpoint.mid_y_loop] in H. destruct (Z.leb_spec 0 r); [lia|]. inv_some. constructor.
Qed.

Lemma row_ok_geom r a b : row_geom a = row_geom b -> row_ok r b -> row_ok r a.
Proof.
  destruct a, b. unfold row_geom, row_pt, row_next. cbn. intros H. injection H as <- <- <- <-.
  unfold row_ok, row_pt. cbn. tauto.
Qed.

(** Every row of the Exp-04 Bresenham walk is accurate. *)
Lemma bres_rows_ok r rb :
  Bresenham.bresenham_Yaxis r = Some rb -> Forall (row_ok r) rb.
Proof.
  intros Hb. destruct (bres_mid_walk r) as (rb' & rm & Hb' & Hm & H2).
  rewrite Hb in Hb'. inv_some. destruct (mid_walk_accurate r) as (rm' & Hm' & Hok).
  rewrite Hm in Hm'. inv_some.
  apply (Forall2_Forall_l _ _ _ _ _ (fun a b Hab Hb => row_ok_geom r a b (proj1 Hab) (proj1 Hb)) H2 Hok).
Qed.

Lemma bres_x_swap_walk {ops : IntOps} r :
  Bresenham.bresenham_Xaxis r = option_map (map swap_row) (Bresenham.bresenham_Yaxis r).
Proof. apply bres_x_loop_swap. Qed.

Lemma pixels_swap rows :
  Bresenham.pixels (map swap_row rows) =
  flat_map (fun w => Bresenham.plot8Points (yk w) (xk w)) rows.
Proof. unfold Bresenham.pixels. rewrite flat_map_concat_map, map_map. rewrite <- flat_map_concat_map. reflexivity. Qed.

(** ** 32-bit arithmetic *)

(** While the midpoint invariant holds and the radius is at most 2^26,
    no intermediate value of the Bresenham loop leaves the [int] range,
    so wrap-around never changes a result. *)
Lemma bres_int32_loop r fuel x y P Q :
  0 <= r <= 2 ^ 26 -> y <= r -> P = 2 * Q + 1 -> mid_inv r x y Q ->
  @Bresenham.bres_y_loop int32_ops fuel x y P =
  @Bresenham.bres_y_loop exact_ops fuel x y P.
Proof.
  revert x y P Q; induction fuel as [|fuel IH]; intros x y P Q Hr Hy HPQ HI;
    [reflexivity|].
  cbn [Bresenham.bres_y_loop]. destruct (Z.leb_spec x y) as [Hxy|]; [|reflexivity].
  pose proof HI as (Hx & HQ & Hb). specialize (Hb Hxy).
  unfold circle_err in Hb; cbn [fst snd] in Hb.
  assert (2 * x + 1 - 2 * y <= Q <= 2 * x + 1) by lia.
  cbn [iadd isub imul int32_ops exact_ops].
  rewrite (wrap32_small (x + 1)) by (apply in_int32_of_abs; lia).
  destruct (Z.ltb_spec P 0) as [HP|HP]; cbv beta iota zeta.
  - rewrite (wrap32_small (4 * x)), (wrap32_small (P + 4 * x)),
      (wrap32_small (P + 4 * x + 6)) by (apply in_int32_of_abs; lia).
    f_equal. apply (IH _ _ _ (Q + 2 * x + 3)); try lia.
    apply mid_inv_neg; auto; lia.
  - rewrite (wrap32_small (y - 1)), (wrap32_small (x - y)), (wrap32_small (4 * (x - y))),
      (wrap32_small (P + 4 * (x - y))), (wrap32_small (P + 4 * (x - y) + 10))
      by (apply in_int32_of_abs; lia).
    f_equal. apply (IH _ _ _ (Q + 2 * (x - y) + 5)); try lia.
    apply mid_inv_nonneg; auto; lia.
Qed.

Lemma bres_int32_Yaxis r :
  0 <= r <= 2 ^ 26 ->
  @Bresenham.bresenham_Yaxis int32_ops r = @Bresenham.bresenham_Yaxis exact_ops r.
Proof.
  intros Hr. unfold Bresenham.bresenham_Yaxis. cbn [isub imul int32_ops exact_ops].
  rewrite (wrap32_small (2 * r)), (wrap32_small (3 - 2 * r)) by (apply in_int32_of_abs; lia).
  apply (bres_int32_loop r _ _ _ _ (1 - r)); try lia. apply mid_inv_init; lia.
Qed.

(** ** Claims *)

(** C1. Exp-04's Bresenham walk and Exp-05's midpoint walk, both
    started at (0, r), return for every radius, plot the same pixels and
    move to the same next pixels row by row, and their decision
    parameters satisfy P_bres = 2 * P_mid + 1 at every iteration. *)
Theorem bresenham_midpoint_same_walk (r : Z) :
  exists rb rm,
    Bresenham.bresenham_Yaxis r = Some rb /\
    Midpoint.midpoint_Yaxis r = Some rm /\
    Forall2 bres_mid_rel rb rm.
Proof. exact (bres_mid_walk r). Qed.

(** C2. Exp-05's midpoint walk from (0, r) returns for every radius;
    every printed row plots a second-octant pixel (0 <= x <= y) whose
    squared radius is within y of r^2, moves one step right and at
    most one step down, and prints as Pk the circle function at the
    next midpoint, (x+1)^2 + y^2 - y - r^2 for the next pixel (x, y). *)
Theorem midpoint_Yaxis_accurate (r : Z) :
  exists rows, Midpoint.midpoint_Yaxis r = Some rows /\
    Forall (fun w => row_ok r w /\ mid_inv r (xInc w) (yInc w) (pk w)) rows.
Proof. exact (mid_walk_accurate r). Qed.

(** C3. Every vertex Exp-04's [display] emits, for either start axis,
    lies within max(|x|, |y|) of the circle: |x^2 + y^2 - r^2| <= max(|x|, |y|). *)
Theorem bresenham_display_accurate (axis_choice r : Z) :
  exists pts, Bresenham.display axis_choice r = Some pts /\ Forall (pixel_ok r) pts.
Proof.
  destruct (bres_mid_walk r) as (rb & rm & Hb & _ & _).
  pose proof (bres_rows_ok r rb Hb) as Hok. rewrite Forall_forall in Hok.
  unfold Bresenham.display. destruct (axis_choice =? 1).
  - rewrite Hb. eexists; split; [reflexivity|].
    apply Forall_flat_map. intros w Hw. destruct (Hok w Hw) as (H1 & H2 & _).
    exact (proj1 (plot8_ok r _ _ H1 H2)).
  - rewrite bres_x_swap_walk, Hb. eexists; split; [reflexivity|]. simpl.
    rewrite pixels_swap. apply Forall_flat_map. intros w Hw.
    destruct (Hok w Hw) as (H1 & H2 & _). exact (proj2 (plot8_ok r _ _ H1 H2)).
Qed.

(** For r >= 0, Exp-04's Bresenham walk starts at (0, r), moves
    between 8-adjacent pixels (one step right, at most one step down),
    and its last row moves past the diagonal: the second octant is
    covered without gaps. *)
Theorem bresenham_octant_walk (r : Z) :
  0 <= r ->
  exists rows, Bresenham.bresenham_Yaxis r = Some rows /\
    hd_error (map row_pt rows) = Some (0, r) /\
    chain adj8_step (map row_pt rows) /\
    (forall w, last_opt rows = Some w -> yInc w < xInc w).
Proof.
  intros Hr. destruct (bres_mid_walk r) as (rb & rm & Hb & Hm & H2).
  destruct (mid_walk_accurate r) as (rm' & Hm' & Hok). rewrite Hm in Hm'. injection Hm' as <-.
  pose proof Hm as Hs. unfold Midpoint.midpoint_Yaxis in Hs. cbn [isub exact_ops] in Hs.
  destruct (mid_loop_shape _ _ _ _ _ Hs) as (Hnil & Hhd & Hch & Hlast).
  assert (Hpt : map row_pt rb = map row_pt rm)
    by (apply (Forall2_map_eq _ _ bres_mid_rel); [intros a b [Hab _]; exact (f_equal fst Hab) | exact H2]).
  assert (Hnx : map row_next rb = map row_next rm)
    by (apply (Forall2_map_eq _ _ bres_mid_rel); [intros a b [Hab _]; exact (f_equal snd Hab) | exact H2]).
  exists rb. split; [exact Hb|]. rewrite Hpt. split; [|split].
  - destruct rm as [|w rm]; [pose proof (proj1 Hnil eq_refl); lia|]. simpl. f_equal. apply Hhd. reflexivity.
  - apply (chain_adj8 r); [exact Hch|]. eapply Forall_impl; [|exact Hok]. tauto.
  - intros w Hw. assert (Hl : last_opt (map row_next rb) = Some (row_next w))
      by (rewrite last_opt_map, Hw; reflexivity).
    rewrite Hnx, last_opt_map in Hl. destruct (last_opt rm) as [w'|] eqn:E; [|discriminate].
    cbn [option_map] in Hl. unfold row_next in Hl. injection Hl as Hx Hy.
    specialize (Hlast w' eq_refl). lia.
Qed.

(** C4. Exp-04 as compiled: with 32-bit wrap-around arithmetic,
    [display] emits exactly the vertices of the exact-integer model for
    every radius 0 <= r <= 2^26, so no intermediate value overflows. *)
Theorem bresenham_int32_exact (axis_choice r : Z) :
  0 <= r <= 2 ^ 26 ->
  @Bresenham.display int32_ops axis_choice r = @Bresenham.display exact_ops axis_choice r.
Proof.
  intros Hr. unfold Bresenham.display. destruct (axis_choice =? 1).
  - rewrite bres_int32_Yaxis by exact Hr. reflexivity.
  - rewrite !bres_x_swap_walk, bres_int32_Yaxis by exact Hr. reflexivity.
Qed.

(** The X-axis variants of Exp-04 and Exp-05, started at (r, 0),
    print exactly the rows of the Y-axis variants with x and y
    exchanged, on any integer arithmetic. *)
Theorem xaxis_mirrors_yaxis (ops : IntOps) (r : Z) :
  Bresenham.bresenham_Xaxis r = option_map (map swap_row) (Bresenham.bresenham_Yaxis r) /\
  Midpoint.midpoint_Xaxis r = option_map (map swap_row) (Midpoint.midpoint_Yaxis r).
Proof. split; [apply bres_x_loop_swap | apply mid_x_loop_swap]. Qed.

Lemma frames_printed {ops : IntOps} a r n :
  Midpoint.frames a r true n = repeat (Some []) n.
Proof. induction n as [|n IH]; simpl; [reflexivity | rewrite IH; reflexivity]. Qed.

(** The first frame of Exp-05 contains the top pixel (0, r). *)
Lemma midpoint_first_frame a r :
  0 <= r ->
  exists pts, fst (Midpoint.display a r false) = Some pts /\ In (0, r) pts.
Proof.
  intros Hr. destruct (midpoint_Yaxis_some r) as [rm Hm].
  pose proof Hm as Hs. unfold Midpoint.midpoint_Yaxis in Hs. cbn [isub exact_ops] in Hs.
  destruct (mid_loop_shape _ _ _ _ _ Hs) as (Hnil & Hhd & _ & _).
  destruct rm as [|w rm]; [pose proof (proj1 Hnil eq_refl); lia|].
  specialize (Hhd w eq_refl). unfold row_pt in Hhd. injection Hhd as Hx Hy.
  unfold Midpoint.display; cbn [negb fst]. destruct (a =? 1).
  - rewrite Hm. eexists; split; [reflexivity|]. simpl. rewrite Hx, Hy. left; reflexivity.
  - unfold Midpoint.midpoint_Xaxis. rewrite (mid_x_loop_swap _ 0 r). cbn [isub exact_ops].
    rewrite Hs. eexists; split; [reflexivity|]. simpl. rewrite Hx, Hy. right; left; reflexivity.
Qed.

(** C5. Exp-05's [display] plots only on its first call: the [static
    bool printed] flag meant to print the decision table once also
    skips every [plot8Points] call, so for r >= 0 the first frame holds
    the top pixel (0, r) and every later redisplay draws nothing. *)
Theorem midpoint_display_only_first_frame (axis_choice r : Z) (n : nat) :
  0 <= r ->
  exists pts,
    Midpoint.frames axis_choice r false (S n) = Some pts :: repeat (Some []) n /\
    In (0, r) pts.
Proof.
  intros Hr. destruct (midpoint_first_frame axis_choice r Hr) as (pts & Hf & Hin).
  exists pts. split; [|exact Hin]. cbn [Midpoint.frames].
  destruct (Midpoint.display axis_choice r false) as [f p] eqn:E.
  cbn [fst] in Hf. subst f. unfold Midpoint.display in E. cbn [negb] in E.
  injection E as _ <-. rewrite frames_printed. reflexivity.
Qed.

(** Witnesses: the claims with hypotheses, at concrete inputs. *)

Lemma bresenham_octant_walk_witness :
  0 <= 10 /\
  exists rows, Bresenham.bresenham_Yaxis 10 = Some rows /\
    hd_error (map row_pt rows) = Some (0, 10) /\
    chain adj8_step (map row_pt rows) /\
    (forall w, last_opt rows = Some w -> yInc w < xInc w).
Proof. split; [lia | apply (bresenham_octant_walk 10); lia]. Defined.

Lemma bresenham_int32_exact_witness :
  0 <= 250 <= 2 ^ 26 /\
  @Bresenham.display int32_ops 1 250 = @Bresenham.display exact_ops 1 250.
Proof. split; [lia | apply (bresenham_int32_exact 1 250); lia]. Defined.

Lemma midpoint_display_only_first_frame_witness :
  0 <= 7 /\
  exists pts,
    Midpoint.frames 2 7 false 3 = Some pts :: repeat (Some []) 2 /\ In (0, 7) pts.
Proof. split; [lia | apply (midpoint_display_only_first_frame 2 7 2); lia]. Defined.
