(* ===== verification/DDA.v ===== *)
(** The DDA line of CG LAB/Exp-03: [class DDA], its [computeDDA], and
    the [normalizePoints] step of [display].  The [float]s are exact
    rationals ([QFloat]); the arrays [pointsX], [pointsY] are one list of
    points of length [pointCount]; both loops stop at [MAX_POINTS]
    points, so they are [Fixpoint]s on the room left in the arrays and
    need no further fuel. *)

From S2P Require Import Prelude QFloat.

Open Scope Q_scope.

Module DDA.

Definition MAX_POINTS : nat := 1000.

(** The members of [class DDA]; [pointsX[i]], [pointsY[i]] are the
    [i]-th element of [points]. *)
Record DDA := mkDDA {
  x1 : Q; y1 : Q; x2 : Q; y2 : Q;
  delX : Q; delY : Q; m : Q;
  xInc : Q; yInc : Q;
  pointCount : nat;
  points : list (Q * Q)
}.

(** The constructor; the members it leaves unset start at 0. *)
Definition make (x_start y_start x_end y_end : Q) : DDA :=
  mkDDA x_start y_start x_end y_end 0 0 0 0 0 0 [].

(** The conversion [(int)] of a [float]: truncation towards zero. *)
Definition to_int (q : Q) : Z := Z.quot (Qnum q) (Zpos (Qden q)).

(** [(d > 0) ? 1 : -1]. *)
Definition sgn (d : Q) : Q := if fltb 0 d then 1 else -1.

(** The loop of the vertical case: [y] from [yStart] while [y <= yEnd]
    and there is room in the arrays. *)
Fixpoint vertical_loop (room : nat) (x y yEnd : Q) : list (Q * Q) :=
  match room with
  | O => []
  | S room' => if fleb y yEnd then (x, y) :: vertical_loop room' x (fadd y 1) yEnd else []
  end.

(** The choice of [xInc] and [yInc] from the slope. *)
Definition increments (delX delY m : Q) : Q * Q :=
  let absDelX := fabs delX in
  let absDelY := fabs delY in
  if fltb (fabs m) 1 && fleb absDelY absDelX then (sgn delX, fmul m (sgn delX))
  else if fltb 1 (fabs m) && fltb absDelX absDelY then (fmul (fdiv 1 m) (sgn delY), sgn delY)
  else if feqb (fabs m) 1 then (sgn delX, sgn delY)
  else (sgn delX, fmul m (sgn delX)).

(** The loop [for (i = 0; i <= steps && pointCount < MAX_POINTS; i++)]. *)
Fixpoint step_loop (room : nat) (i steps : Z) (x y xInc yInc : Q) : list (Q * Q) :=
  match room with
  | O => []
  | S room' =>
      if (i <=? steps)%Z
      then (x, y) :: step_loop room' (i + 1) steps (fadd x xInc) (fadd y yInc) xInc yInc
      else []
  end.

(** [computeDDA] (its console output aside). *)
Definition computeDDA (d : DDA) : DDA :=
  let delX := fsub (x2 d) (x1 d) in
  let delY := fsub (y2 d) (y1 d) in
  let room := (MAX_POINTS - pointCount d)%nat in
  if feqb delX 0 then
    let yStart := cmin (y1 d) (y2 d) in
    let yEnd := cmax (y1 d) (y2 d) in
    let pts := vertical_loop room (x1 d) yStart yEnd in
    mkDDA (x1 d) (y1 d) (x2 d) (y2 d) delX delY (m d) (xInc d) (yInc d)
          (pointCount d + length pts) (points d ++ pts)
  else
    let m := fdiv delY delX in
    let '(xInc, yInc) := increments delX delY m in
    let steps := Z.max (to_int (fabs delX)) (to_int (fabs delY)) in
    let pts := step_loop room 0 steps (x1 d) (y1 d) xInc yInc in
    mkDDA (x1 d) (y1 d) (x2 d) (y2 d) delX delY m xInc yInc
          (pointCount d + length pts) (points d ++ pts).

(** [std::min] and [std::max] folded over the array, from element 0. *)
Definition min_of (xs : list Q) (x0 : Q) : Q := fold_left cmin xs x0.
Definition max_of (xs : list Q) (x0 : Q) : Q := fold_left cmax xs x0.

(** [normalizePoints]: map each coordinate into [-1, 1] with a margin
    of 0.1 on each side; a zero range counts as 1. *)
Definition normalize1 (lo hi v : Q) : Q :=
  let range := if feqb (fsub hi lo) 0 then 1 else fsub hi lo in
  let n := fadd (fmul (fdiv (fsub v lo) range) (fsub 1 (fmul 2 0.1))) 0.1 in
  fsub (fmul n 2) 1.

Definition normalizePoints (pts : list (Q * Q)) : list (Q * Q) :=
  match pts with
  | [] => []
  | (x0, y0) :: rest =>
      let minX := min_of (map fst rest) x0 in
      let maxX := max_of (map fst rest) x0 in
      let minY := min_of (map snd rest) y0 in
      let maxY := max_of (map snd rest) y0 in
      map (fun p => (normalize1 minX maxX (fst p), normalize1 minY maxY (snd p))) pts
  end.

(** [display]: nothing without a computed line; otherwise the
    normalised points joined by [GL_LINES] segments, the start and end
    points, and the intermediate points when there are more than two
    ([normX]/[normY] read as [nth] of the normalised list). *)
Definition display (globalDDA : option DDA) : list (primitive * list (Q * Q)) :=
  match globalDDA with
  | None => []
  | Some d =>
      let count := pointCount d in
      if Nat.eqb count 0 then []
      else
        let norm := normalizePoints (firstn count (points d)) in
        let nrm i := nth i norm (0, 0) in
        [(GL_LINES, flat_map (fun i => [nrm i; nrm (S i)]) (seq 0 (count - 1)));
         (GL_POINTS, [nrm 0%nat]);
         (GL_POINTS, [nrm (count - 1)%nat])] ++
        (if Nat.ltb 2 count then [(GL_POINTS, map nrm (seq 1 (count - 2)))] else [])
  end.

(** [main]: the object built from the input and its [computeDDA],
    which [globalDDA] points to while [display] runs. *)
Definition main (x_start y_start x_end y_end : Q) : list (primitive * list (Q * Q)) :=
  let dda := computeDDA (make x_start y_start x_end y_end) in
  display (Some dda).

End DDA.

Import DDA.

(** * Theorems *)

(** ** The stepping loop *)

Section StepLoop.
Variables (steps : Z) (xi yi : Q).

Lemma step_loop_length room i x y :
  length (step_loop room i steps x y xi yi) = Nat.min room (Z.to_nat (steps - i + 1)).
Proof.
  revert i x y; induction room as [|room IH]; intros i x y; [reflexivity|].
  cbn [step_loop]. destruct (Z.leb_spec i steps).
  - cbn [length]. rewrite IH. replace (Z.to_nat (steps - i + 1)) with (S (Z.to_nat (steps - (i + 1) + 1))) by lia.
    reflexivity.
  - replace (Z.to_nat (steps - i + 1)) with 0%nat by lia. rewrite Nat.min_0_r. reflexivity.
Qed.

(** The [k]-th point is the start moved [k] times by the increments. *)
Lemma step_loop_nth room i x y k p :
  nth_error (step_loop room i steps x y xi yi) k = Some p ->
  qpt_eq p (x + inject_Z (Z.of_nat k) * xi, y + inject_Z (Z.of_nat k) * yi).
Proof.
  revert i x y k; induction room as [|room IH]; intros i x y k H; [destruct k; discriminate|].
  cbn [step_loop] in H. destruct (i <=? steps)%Z; [|destruct k; discriminate].
  destruct k as [|k]; cbn [nth_error] in H.
  - inv_some. unfold qpt_eq; cbn. split; ring.
  - destruct (IH _ _ _ _ H) as [Hx Hy]. unfold qpt_eq; cbn [fst snd] in *.
    rewrite inject_Z_of_nat_succ. rewrite Hx, Hy. qnorm. split; ring.
Qed.

End StepLoop.

(** ** The increments *)

Lemma sgn_div d : ~ d == 0 -> sgn d == d / Qabs d.
Proof.
  unfold sgn. intros Hd. destruct (fltb_spec 0 d).
  - rewrite Qabs_pos by lra. field. lra.
  - rewrite Qabs_neg by lra. field. lra.
Qed.

Lemma abs_slope dX dY : ~ dX == 0 -> fabs (fdiv dY dX) == fabs dY / fabs dX.
Proof.
  intros Hd. unfold fabs. rewrite fdiv_eq. unfold Qdiv. rewrite Qabs_Qmult, Qabs_Qinv. reflexivity.
Qed.

Lemma div_lt_1 b a : 0 < a -> (b / a < 1 <-> b < a).
Proof.
  intros Ha. assert (E : b == b / a * a) by (field; lra).
  split; intros H; [rewrite E; nra | rewrite E in H; nra].
Qed.

Lemma one_lt_div b a : 0 < a -> (1 < b / a <-> a < b).
Proof.
  intros Ha. assert (E : b == b / a * a) by (field; lra).
  split; intros H; [rewrite E; nra | rewrite E in H; nra].
Qed.

Lemma div_le_1 b a : 0 < a -> (b / a <= 1 <-> b <= a).
Proof.
  intros Ha. assert (E : b == b / a * a) by (field; lra).
  split; intros H; [rewrite E; nra | rewrite E in H; nra].
Qed.

Lemma one_le_div b a : 0 < a -> (1 <= b / a <-> a <= b).
Proof.
  intros Ha. assert (E : b == b / a * a) by (field; lra).
  split; intros H; [rewrite E; nra | rewrite E in H; nra].
Qed.

Lemma div_eq_1 b a : 0 < a -> (b / a == 1 <-> b == a).
Proof.
  intros Ha. assert (E : b == b / a * a) by (field; lra).
  split; intros H; [rewrite E, H; ring | rewrite H; field; lra].
Qed.

Lemma Qabs_pos_nz d : 0 < Qabs d -> ~ d == 0.
Proof. intros H E. rewrite E in H. cbn in H. lra. Qed.

Lemma Qabs_nz_pos d : ~ d == 0 -> 0 < Qabs d.
Proof.
  intros H. destruct (Qlt_le_dec 0 d); [rewrite Qabs_pos by lra; lra|].
  rewrite Qabs_neg by lra. destruct (Qeq_dec d 0); [contradiction | lra].
Qed.

(** Whatever branch it takes, [increments] moves by [dX / N] and
    [dY / N] with [N = max |dX| |dY|]: one unit along the major axis. *)
Lemma increments_spec dX dY :
  ~ dX == 0 ->
  qpt_eq (increments dX dY (fdiv dY dX))
         (dX / Qmax (Qabs dX) (Qabs dY), dY / Qmax (Qabs dX) (Qabs dY)).
Proof.
  intros Hd. pose proof (Qabs_nz_pos dX Hd) as HA. pose proof (Qabs_nonneg dY) as HB.
  pose proof (abs_slope dX dY Hd) as Hm. unfold fabs in Hm.
  unfold increments, fabs, qpt_eq. qcase; cbn [andb fst snd]; rewrite Hm in *;
    rewrite ?(div_lt_1 _ _ HA), ?(one_lt_div _ _ HA), ?(div_le_1 _ _ HA), ?(one_le_div _ _ HA),
      ?(div_eq_1 _ _ HA) in *; try lra.
  - rewrite Qmax_left by lra. qnorm. rewrite sgn_div by exact Hd. split; field; lra.
  - assert (HdY : ~ dY == 0) by (apply Qabs_pos_nz; lra).
    rewrite Qmax_right by lra. qnorm. rewrite sgn_div by exact HdY. split; field; repeat split; lra.
  - assert (HdY : ~ dY == 0) by (apply Qabs_pos_nz; lra).
    rewrite Qmax_left by lra. rewrite !sgn_div by assumption. split; [field; lra|].
    match goal with H : Qabs dY == Qabs dX |- _ => rewrite H end. field; lra.
Qed.

(** ** Integer endpoints *)

Lemma to_int_inject_Z z : to_int (inject_Z z) = z.
Proof. unfold to_int. cbn. apply Z.quot_1_r. Qed.

Lemma fabs_inject_Z z : fabs (inject_Z z) = inject_Z (Z.abs z).
Proof. reflexivity. Qed.

Lemma Qminus_inject_Z u v : inject_Z u - inject_Z v == inject_Z (u - v).
Proof. unfold Qminus. rewrite <- inject_Z_opp, <- inject_Z_plus. reflexivity. Qed.

Lemma Qmax_inject_Z u v : Qmax (inject_Z u) (inject_Z v) == inject_Z (Z.max u v).
Proof.
  destruct (Z.max_spec u v) as [[H ->]|[H ->]].
  - apply Qmax_right. rewrite <- Zle_Qle. lia.
  - apply Qmax_left. rewrite <- Zle_Qle. lia.
Qed.

(** ** Normalisation *)

Lemma fold_cmin_le l acc : fold_left cmin l acc <= acc /\ Forall (fun v => fold_left cmin l acc <= v) l.
Proof.
  revert acc; induction l as [|v l IH]; intros acc; cbn [fold_left]; [split; [lra | constructor]|].
  destruct (IH (cmin acc v)) as [H1 H2]. assert (Hc : cmin acc v <= acc /\ cmin acc v <= v)
    by (unfold cmin; qcase; lra).
  split; [lra | constructor; [lra | exact H2]].
Qed.

Lemma fold_cmax_ge l acc : acc <= fold_left cmax l acc /\ Forall (fun v => v <= fold_left cmax l acc) l.
Proof.
  revert acc; induction l as [|v l IH]; intros acc; cbn [fold_left]; [split; [lra | constructor]|].
  destruct (IH (cmax acc v)) as [H1 H2]. assert (Hc : acc <= cmax acc v /\ v <= cmax acc v)
    by (unfold cmax; qcase; lra).
  split; [lra | constructor; [lra | exact H2]].
Qed.

(** A coordinate between the minimum and the maximum lands in
    [-0.8, 0.8]. *)
Lemma normalize1_bounds lo hi v : lo <= v <= hi -> -0.8 <= normalize1 lo hi v <= 0.8.
Proof.
  intros Hv. unfold normalize1. destruct (feqb_spec (fsub hi lo) 0) as [E|E]; qnorm.
  - assert (v - lo == 0) by lra. setoid_replace (v - lo) with 0 by lra.
    setoid_replace (0 / 1) with 0 by reflexivity. lra.
  - assert (Hr : 0 < hi - lo) by (destruct (Qeq_dec (hi - lo) 0); [contradiction | lra]).
    assert (Ht : 0 <= (v - lo) / (hi - lo) <= 1).
    { split; [apply Qle_shift_div_l; lra | apply Qle_shift_div_r; lra]. }
    set (t := (v - lo) / (hi - lo)) in *. lra.
Qed.

Lemma normalizePoints_bounds pts q :
  In q (normalizePoints pts) -> -0.8 <= fst q <= 0.8 /\ -0.8 <= snd q <= 0.8.
Proof.
  destruct pts as [|[x0 y0] rest]; [intros []|]. unfold normalizePoints.
  intros Hq. apply in_map_iff in Hq as ([px py] & <- & Hin). cbn [fst snd].
  destruct (fold_cmin_le (map fst rest) x0) as [Hx1 Hx2].
  destruct (fold_cmax_ge (map fst rest) x0) as [Hx3 Hx4].
  destruct (fold_cmin_le (map snd rest) y0) as [Hy1 Hy2].
  destruct (fold_cmax_ge (map snd rest) y0) as [Hy3 Hy4].
  unfold min_of, max_of.
  destruct Hin as [E|Hin].
  - injection E as <- <-. split; apply normalize1_bounds; lra.
  - rewrite Forall_forall in Hx2, Hx4, Hy2, Hy4.
    pose proof (Hx2 px (in_map fst _ _ Hin)). pose proof (Hx4 px (in_map fst _ _ Hin)).
    pose proof (Hy2 py (in_map snd _ _ Hin)). pose proof (Hy4 py (in_map snd _ _ Hin)).
    cbn [fst snd] in *. split; apply normalize1_bounds; lra.
Qed.

(** ** Properties of the DDA program *)

(** C21. [computeDDA] on a non-vertical segment from (xs, ys) to
    (xe, ye) stores [min(MAX_POINTS, steps + 1)] points, where [steps]
    is the larger of the truncated |dx| and |dy|, and its [k]-th point
    is exactly the point (xs, ys) + k (dx, dy) / N of the segment's
    line, with N = max(|dx|, |dy|): the major coordinate moves by one
    unit per step. *)
Theorem dda_points_on_line xs ys xe ye :
  ~ xe - xs == 0 ->
  pointCount (computeDDA (make xs ys xe ye)) =
    Nat.min MAX_POINTS
      (Z.to_nat (Z.max (to_int (fabs (fsub xe xs))) (to_int (fabs (fsub ye ys))) + 1)) /\
  length (points (computeDDA (make xs ys xe ye))) = pointCount (computeDDA (make xs ys xe ye)) /\
  forall k p, nth_error (points (computeDDA (make xs ys xe ye))) k = Some p ->
    qpt_eq p (xs + inject_Z (Z.of_nat k) * ((xe - xs) / Qmax (Qabs (xe - xs)) (Qabs (ye - ys))),
              ys + inject_Z (Z.of_nat k) * ((ye - ys) / Qmax (Qabs (xe - xs)) (Qabs (ye - ys)))).
Proof.
  intros Hd. assert (Hd' : ~ fsub xe xs == 0) by (rewrite fsub_eq; exact Hd).
  unfold computeDDA, make. cbn [x1 y1 x2 y2 pointCount points].
  destruct (feqb_spec (fsub xe xs) 0) as [E|_]; [contradiction|].
  pose proof (increments_spec _ (fsub ye ys) Hd') as Hi.
  destruct (increments (fsub xe xs) (fsub ye ys) (fdiv (fsub ye ys) (fsub xe xs))) as [xi yi].
  cbn [pointCount points app Nat.add]. rewrite step_loop_length, Z.sub_0_r, Nat.sub_0_r.
  split; [reflexivity|]. split; [reflexivity|].
  intros k p Hk. destruct (step_loop_nth _ _ _ _ _ _ _ _ _ Hk) as [Hx Hy].
  destruct Hi as [Hxi Hyi]; cbn [fst snd] in *. unfold qpt_eq; cbn [fst snd].
  assert (EN : Qmax (Qabs (fsub xe xs)) (Qabs (fsub ye ys)) == Qmax (Qabs (xe - xs)) (Qabs (ye - ys)))
    by (apply Qmax_compat; rewrite fsub_eq; reflexivity).
  rewrite Hx, Hy, Hxi, Hyi, EN, !fsub_eq. split; reflexivity.
Qed.

(** With integer endpoints, a non-vertical segment whose longer
    side is below [MAX_POINTS] gets N + 1 points, N = max(|dx|, |dy|):
    the first is the start point and the last is exactly the end point. *)
Theorem dda_integer_endpoints a b c e :
  a <> c -> (Z.max (Z.abs (c - a)) (Z.abs (e - b)) < 1000)%Z ->
  pointCount (computeDDA (make (inject_Z a) (inject_Z b) (inject_Z c) (inject_Z e))) =
    S (Z.to_nat (Z.max (Z.abs (c - a)) (Z.abs (e - b)))) /\
  (exists p, nth_error (points (computeDDA (make (inject_Z a) (inject_Z b) (inject_Z c) (inject_Z e)))) 0
             = Some p /\ qpt_eq p (inject_Z a, inject_Z b)) /\
  (exists p, nth_error (points (computeDDA (make (inject_Z a) (inject_Z b) (inject_Z c) (inject_Z e))))
               (Z.to_nat (Z.max (Z.abs (c - a)) (Z.abs (e - b)))) = Some p /\
             qpt_eq p (inject_Z c, inject_Z e)).
Proof.
  intros Hac HN. set (N := Z.max (Z.abs (c - a)) (Z.abs (e - b))) in *.
  assert (Hd : ~ inject_Z c - inject_Z a == 0).
  { rewrite Qminus_inject_Z. change 0 with (inject_Z 0). rewrite inject_Z_injective. lia. }
  destruct (dda_points_on_line (inject_Z a) (inject_Z b) (inject_Z c) (inject_Z e) Hd) as (Hc & Hl & Hp).
  rewrite !fsub_inject_Z, !fabs_inject_Z, !to_int_inject_Z in Hc. fold N in Hc.
  assert (EN : Qmax (Qabs (inject_Z c - inject_Z a)) (Qabs (inject_Z e - inject_Z b)) == inject_Z N).
  { unfold N. rewrite <- Qmax_inject_Z. apply Qmax_compat; rewrite Qminus_inject_Z; reflexivity. }
  assert (HN0 : ~ inject_Z N == 0).
  { change 0 with (inject_Z 0). rewrite inject_Z_injective. unfold N. lia. }
  assert (Hlen : pointCount (computeDDA (make (inject_Z a) (inject_Z b) (inject_Z c) (inject_Z e))) =
                 S (Z.to_nat N)) by (rewrite Hc; unfold MAX_POINTS, N in *; lia).
  split; [exact Hlen|].
  split.
  - destruct (nth_error (points (computeDDA (make (inject_Z a) (inject_Z b) (inject_Z c) (inject_Z e)))) 0)
      as [p|] eqn:E.
    + exists p. split; [reflexivity|]. destruct (Hp 0%nat p E) as [Hx Hy].
      unfold qpt_eq; cbn [fst snd] in *. rewrite Hx, Hy. split; ring.
    + apply nth_error_None in E. lia.
  - destruct (nth_error (points (computeDDA (make (inject_Z a) (inject_Z b) (inject_Z c) (inject_Z e))))
                        (Z.to_nat N)) as [p|] eqn:E.
    + exists p. split; [reflexivity|]. destruct (Hp _ p E) as [Hx Hy].
      unfold qpt_eq; cbn [fst snd] in *. rewrite Hx, Hy, EN.
      rewrite Z2Nat.id by (unfold N; lia). split; field; exact HN0.
    + apply nth_error_None in E. lia.
Qed.

(** The arrays cap a long line: from (0, 0) to (2000, 0) the loop
    stops at [MAX_POINTS] points, and the last point stored is
    (999, 0), half way along the segment. *)
Example dda_long_line_truncated :
  pointCount (computeDDA (make 0 0 2000 0)) = MAX_POINTS /\
  nth_error (points (computeDDA (make 0 0 2000 0))) 999 = Some (999, 0).
Proof. split; vm_compute; reflexivity. Qed.

(** [(int)] truncates the step count: from (0, 0) to (2.5, 1)
    there are two steps, and the last point is (2, 0.8), not the end
    point (2.5, 1). *)
Example dda_fractional_end_missed :
  pointCount (computeDDA (make 0 0 (5 # 2) 1)) = 3%nat /\
  nth_error (points (computeDDA (make 0 0 (5 # 2) 1))) 2 = Some (2, 4 # 5).
Proof. split; vm_compute; reflexivity. Qed.

(** [normalizePoints] maps every point into [-0.8, 0.8] x
    [-0.8, 0.8], inside the [-1, 1] square of the window with the 0.1
    margin on each side. *)
Theorem dda_normalized_in_view pts q :
  In q (normalizePoints pts) -> -0.8 <= fst q <= 0.8 /\ -0.8 <= snd q <= 0.8.
Proof. apply normalizePoints_bounds. Qed.

(** Everything Exp-03 draws lies in [-0.8, 0.8] x [-0.8, 0.8]: the
    segments and the three groups of points all read normalised
    points. *)
Theorem dda_display_in_view g :
  Forall (fun d => Forall (fun p => in_box (-0.8) 0.8 (-0.8) 0.8 p = true) (snd d)) (DDA.display g).
Proof.
  assert (Hn : forall l i, in_box (-0.8) 0.8 (-0.8) 0.8 (nth i (normalizePoints l) (0, 0)) = true).
  { intros l i. apply in_box_spec. destruct (Nat.lt_ge_cases i (length (normalizePoints l))) as [Hi|Hi].
    - apply normalizePoints_bounds with (pts := l). apply nth_In; exact Hi.
    - rewrite nth_overflow by exact Hi. cbn. split; split; discriminate. }
  destruct g as [d|]; [|constructor]. unfold DDA.display.
  destruct (Nat.eqb (pointCount d) 0); [constructor|].
  assert (Hl : forall ix, Forall (fun p => in_box (-0.8) 0.8 (-0.8) 0.8 p = true)
                                 (map (fun i => nth i (normalizePoints (firstn (pointCount d) (points d))) (0, 0)) ix))
    by (intros ix; apply Forall_forall; intros p Hp; apply in_map_iff in Hp as (i & <- & _); apply Hn).
  apply Forall_app; split; [|destruct (Nat.ltb 2 _); repeat constructor; apply Hl].
  repeat constructor; try apply Hn. cbn [snd].
  apply Forall_flat_map. intros i _. repeat constructor; apply Hn.
Qed.

(** Witnesses. *)

Lemma dda_points_on_line_witness :
  ~ 7 - 1 == 0 /\
  pointCount (computeDDA (make 1 2 7 5)) = 7%nat /\
  forall k p, nth_error (points (computeDDA (make 1 2 7 5))) k = Some p ->
    qpt_eq p (1 + inject_Z (Z.of_nat k) * ((7 - 1) / Qmax (Qabs (7 - 1)) (Qabs (5 - 2))),
              2 + inject_Z (Z.of_nat k) * ((5 - 2) / Qmax (Qabs (7 - 1)) (Qabs (5 - 2)))).
Proof.
  assert (H : ~ 7 - 1 == 0) by (vm_compute; discriminate).
  destruct (dda_points_on_line 1 2 7 5 H) as (Hc & _ & Hp).
  split; [exact H | split; [rewrite Hc; vm_compute; reflexivity | exact Hp]].
Defined.

Lemma dda_integer_endpoints_witness :
  (1 <> 7)%Z /\ (Z.max (Z.abs (7 - 1)) (Z.abs (5 - 2)) < 1000)%Z /\
  pointCount (computeDDA (make (inject_Z 1) (inject_Z 2) (inject_Z 7) (inject_Z 5))) = 7%nat.
Proof.
  assert (H1 : (1 <> 7)%Z) by lia. assert (H2 : (Z.max (Z.abs (7 - 1)) (Z.abs (5 - 2)) < 1000)%Z) by lia.
  split; [exact H1 | split; [exact H2|]].
  exact (proj1 (dda_integer_endpoints 1 2 7 5 H1 H2)).
Defined.

Lemma dda_normalized_in_view_witness :
  In (- (4 # 5), - (4 # 5)) (normalizePoints (points (computeDDA (make 1 2 7 5)))) /\
  -0.8 <= fst (- (4 # 5), - (4 # 5)) <= 0.8 /\ -0.8 <= snd (- (4 # 5), - (4 # 5)) <= 0.8.
Proof.
  assert (H : In (- (4 # 5), - (4 # 5)) (normalizePoints (points (computeDDA (make 1 2 7 5)))))
    by (vm_compute; left; reflexivity).
  split; [exact H | apply (dda_normalized_in_view _ _ H)].
Defined.
