(* ===== verification/CircleDrawer.v ===== *)
(** The customised shape of CG LAB/Exp-08: [class CircleDrawer] (a
    midpoint and a Bresenham circle that plot eight reflections around a
    centre), [class Rectangle] with the centres of its four circles, and
    the radius and placement [main] computes, and the frame [display]
    draws (the background quad, the rectangle's outline and the circles'
    pixels) in [initGL]'s 800 x 600 projection.  Integers are exact (the
    coordinates are a few times the window size).  Each [while] loop
    advances [x] by one per pass, so [r + 2] passes of fuel are enough;
    the totality lemmas below show it. *)

From S2P Require Import Prelude MachineInt Circle.

Open Scope Z_scope.

Module CircleDrawer.

(** [plotCirclePoints]: the eight [putPixel] calls, in order. *)
Definition plotCirclePoints (xc yc x y : Z) : list pt :=
  [(xc + x, yc + y); (xc - x, yc + y); (xc + x, yc - y); (xc - x, yc - y);
   (xc + y, yc + x); (xc - y, yc + x); (xc + y, yc - x); (xc - y, yc - x)].

(** The [while (x < y)] loop of [midpointCircle]: the octant points
    plotted after each update. *)
Fixpoint mc_loop (fuel : nat) (x y d : Z) : option (list pt) :=
  match fuel with
  | O => None
  | S fuel' =>
      if x <? y then
        let '(d', y') := if d <? 0 then (d + 2 * x + 3, y) else (d + 2 * (x - y) + 5, y - 1) in
        option_map (cons (x + 1, y')) (mc_loop fuel' (x + 1) y' d')
      else Some []
  end.

Definition midpointCircle (xc yc r : Z) : option (list pt) :=
  option_map (fun l => flat_map (fun p => plotCirclePoints xc yc (fst p) (snd p)) ((0, r) :: l))
             (mc_loop (Z.to_nat r + 2) 0 r (1 - r)).

(** The [while (y >= x)] loop of [bresenhamCircle]: [x] is incremented
    before [d] is updated. *)
Fixpoint bc_loop (fuel : nat) (x y d : Z) : option (list pt) :=
  match fuel with
  | O => None
  | S fuel' =>
      if x <=? y then
        let x' := x + 1 in
        let '(y', d') := if 0 <? d then (y - 1, d + 4 * (x' - (y - 1)) + 10) else (y, d + 4 * x' + 6) in
        option_map (cons (x', y')) (bc_loop fuel' x' y' d')
      else Some []
  end.

Definition bresenhamCircle (xc yc r : Z) : option (list pt) :=
  option_map (fun l => flat_map (fun p => plotCirclePoints xc yc (fst p) (snd p)) ((0, r) :: l))
             (bc_loop (Z.to_nat r + 2) 0 r (3 - 2 * r)).

(** [drawCircle]: algorithm 1 or 2; any other choice prints "Invalid
    algorithm choice" and draws nothing. *)
Definition drawCircle (algo xc yc r : Z) : option (list pt) :=
  if algo =? 1 then midpointCircle xc yc r
  else if algo =? 2 then bresenhamCircle xc yc r
  else Some [].

End CircleDrawer.

Module Shape.

(** [class Rectangle]: corner, [length] (horizontal), [width] (vertical). *)
Record Rectangle := mkRect { x : Z; y : Z; length : Z; width : Z }.

(** [getCircleCenters]: bottom, right, top and left circle centres,
    [radius] away from the midpoint of each side ([/] truncates). *)
Definition getCircleCenters (rc : Rectangle) (radius : Z) : list pt :=
  [(x rc + Z.quot (length rc) 2, y rc - radius);
   (x rc + length rc + radius, y rc + Z.quot (width rc) 2);
   (x rc + Z.quot (length rc) 2, y rc + width rc + radius);
   (x rc - radius, y rc + Z.quot (width rc) 2)].

(** [allocateCircleRadius]. *)
Definition allocateCircleRadius (width : Z) : Z := Z.max 8 (Z.quot width 4).

(** The rectangle [main] builds, centred in the 800 x 600 window. *)
Definition centered_rect (length width : Z) : Rectangle :=
  mkRect (Z.quot (800 - length) 2) (Z.quot (600 - width) 2) length width.

(** The circles of [display]: one [drawCircle] per centre. *)
Definition display (algo : Z) (rc : Rectangle) (radius : Z) : list (option (list pt)) :=
  map (fun c => CircleDrawer.drawCircle algo (fst c) (snd c) radius) (getCircleCenters rc radius).

(** [main] after reading [length], [width] and the algorithm: the frame
    [display] draws. *)
Definition main (length width algoChoice : Z) : list (option (list pt)) :=
  let circleRadius := allocateCircleRadius width in
  display algoChoice (centered_rect length width) circleRadius.

(** [Rectangle::draw]: its outline as a [GL_LINE_LOOP]. *)
Definition draw (rc : Rectangle) : primitive * list pt :=
  (GL_LINE_LOOP, [(x rc, y rc); (x rc + length rc, y rc); (x rc + length rc, y rc + width rc); (x rc, y rc + width rc)]).

(** [drawGradientBackground]: one quad over the whole 800 x 600 window
    (its per-vertex colours are not recorded). *)
Definition drawGradientBackground : primitive * list pt := (GL_QUADS, [(0, 0); (800, 0); (800, 600); (0, 600)]).

(** The frame [display] draws: the background, the rectangle, then the
    pixels of the four circles ([putPixel] draws one [GL_POINTS] vertex
    per pixel; a circle whose loop has not returned draws nothing). *)
Definition frame (algo : Z) (rc : Rectangle) (radius : Z) : list (primitive * list pt) :=
  [drawGradientBackground; draw rc] ++
  map (fun o => (GL_POINTS, match o with Some l => l | None => [] end)) (display algo rc radius).

(** [initGL]: [gluOrtho2D(0, 800, 0, 600)], the box a vertex must lie in
    to be drawn. *)
Definition initGL : Z * Z * Z * Z := (0, 800, 0, 600).

Definition in_view (p : pt) : Prop :=
  let '(l, r, b, t) := initGL in l <= fst p <= r /\ b <= snd p <= t.

(** A pixel strictly inside the rectangle. *)
Definition strictly_inside (rc : Rectangle) (p : pt) : Prop :=
  x rc < fst p < x rc + length rc /\ y rc < snd p < y rc + width rc.

End Shape.

Import CircleDrawer.

#[local] Existing Instance exact_ops.

(** * Theorems *)

(** ** The midpoint loop of Exp-08 and the walk of Exp-05 *)

(** Exp-08's loop plots, after its start point, the next pixel of
    every row of Exp-05's walk taken strictly above the diagonal. *)
Lemma mc_mid fuel x y d rows :
  Midpoint.mid_y_loop fuel x y d = Some rows ->
  mc_loop fuel x y d = Some (map row_next (filter (fun w => xk w <? yk w) rows)).
Proof.
  revert x y d rows; induction fuel as [|fuel IH]; intros x y d rows H; [discriminate|].
  pose proof (mid_loop_shape _ _ _ _ _ H) as Hs.
  cbn [Midpoint.mid_y_loop iadd isub imul exact_ops] in H. cbn [mc_loop].
  destruct (Z.leb_spec x y) as [Hxy|Hxy]; [|inv_some; destruct (Z.ltb_spec x y); [lia | reflexivity]].
  destruct (Z.ltb_spec d 0) as [Hd|Hd];
    destruct (Midpoint.mid_y_loop fuel _ _ _) as [tl|] eqn:E; cbn [option_map] in H; inv_some;
    destruct (Z.ltb_spec x y) as [Hlt|Hge]; cbn [filter xk yk map row_next xInc yInc].
  - rewrite (IH _ _ _ _ E). destruct (Z.ltb_spec x y); [reflexivity | lia].
  - pose proof (mid_loop_shape _ _ _ _ _ E) as [Hn _]. replace tl with (@nil row) by (symmetry; apply Hn; lia).
    destruct (Z.ltb_spec x y); [lia | reflexivity].
  - rewrite (IH _ _ _ _ E). destruct (Z.ltb_spec x y); [reflexivity | lia].
  - pose proof (mid_loop_shape _ _ _ _ _ E) as [Hn _]. replace tl with (@nil row) by (symmetry; apply Hn; lia).
    destruct (Z.ltb_spec x y); [lia | reflexivity].
Qed.

Lemma plot8_swap x y p : In p (Midpoint.plot8Points x y) <-> In p (Midpoint.plot8Points y x).
Proof. unfold Midpoint.plot8Points. cbn [In]. tauto. Qed.

(** The eight [putPixel]s around a centre are the translated
    reflections of Exp-05's [plot8Points]. *)
Lemma plotCirclePoints_translate xc yc x y p :
  In p (plotCirclePoints xc yc x y) <->
  exists q, In q (Midpoint.plot8Points x y) /\ p = (xc + fst q, yc + snd q).
Proof.
  unfold plotCirclePoints, Midpoint.plot8Points. cbn [In]. split.
  - intros H. repeat destruct H as [H|H]; subst; [
      exists (x, y) | exists (- x, y) | exists (x, - y) | exists (- x, - y) |
      exists (y, x) | exists (- y, x) | exists (y, - x) | exists (- y, - x) | contradiction ];
      (split; [repeat (first [left; reflexivity | right]) | cbn [fst snd]; f_equal; ring]).
  - intros (q & Hq & ->). repeat destruct Hq as [Hq|Hq]; subst; cbn [fst snd];
      first [ contradiction | repeat (first [left; f_equal; ring | right]) ].
Qed.

(** The pixels of the octant points Exp-08 plots are those of the
    pixels of Exp-05's rows: a next pixel above the diagonal is the
    pixel of the following row, and the last one, past the diagonal, is
    the reflection of the last row's pixel. *)
Lemma walk_sets r w rows :
  chain linked (w :: rows) -> Forall (row_ok r) (w :: rows) ->
  (forall v, last_opt (w :: rows) = Some v -> yInc v < xInc v) ->
  forall p,
    In p (flat_map (fun q => Midpoint.plot8Points (fst q) (snd q))
                   (row_pt w :: map row_next (filter (fun v => xk v <? yk v) (w :: rows)))) <->
    In p (Midpoint.pixels (w :: rows)).
Proof.
  unfold Midpoint.pixels. revert w; induction rows as [|w' rows IH]; intros w Hch Hok Hlast p.
  - specialize (Hlast w eq_refl). inversion Hok as [|? ? Hw _]; subst.
    destruct w as [a b c xi yi]; unfold row_ok, row_pt, row_next in *; cbn in Hw, Hlast |- *.
    destruct Hw as (H1 & _ & H3 & H4). destruct (Z.ltb_spec a b); cbn [map flat_map fst snd].
    + replace xi with b by lia. replace yi with a by lia. rewrite !in_app_iff, (plot8_swap b a). tauto.
    + tauto.
  - destruct Hch as [Hl Hch]. inversion Hok as [|? ? Hw Hok']; subst.
    inversion Hok' as [|? ? Hw' _]; subst.
    assert (Hlt : xk w < yk w).
    { unfold linked, row_next, row_pt in Hl. injection Hl as E1 E2. unfold row_ok, row_pt in Hw, Hw'.
      cbn [fst snd] in *. lia. }
    specialize (IH w' Hch Hok' Hlast p).
    cbn [filter]. destruct (Z.ltb_spec (xk w) (yk w)); [|lia].
    cbn [map flat_map] in IH |- *. rewrite Hl. unfold row_pt at 1. cbn [fst snd].
    rewrite !in_app_iff in *. rewrite <- IH. tauto.
Qed.

(** ** Termination *)

Lemma mc_loop_total r : exists l, mc_loop (Z.to_nat r + 2) 0 r (1 - r) = Some l.
Proof.
  destruct (midpoint_Yaxis_some r) as [rows H]. unfold Midpoint.midpoint_Yaxis in H.
  eexists. exact (mc_mid _ _ _ _ _ H).
Qed.

Lemma bc_loop_total fuel x y d :
  (Z.to_nat (y - x + 1) < fuel)%nat -> exists l, bc_loop fuel x y d = Some l.
Proof.
  revert x y d; induction fuel as [|fuel IH]; intros x y d Hf; [lia|].
  cbn [bc_loop]. destruct (Z.leb_spec x y); [|eauto].
  destruct (Z.ltb_spec 0 d); (edestruct IH as [l ->]; [lia | eexists; reflexivity]).
Qed.

(** ** Properties of Exp-08 *)

(** C24. Exp-08's [midpointCircle], started from (0, r) with its
    [while (x < y)] loop, returns for every radius r >= 0 and plots
    around the centre (xc, yc) exactly the pixels of Exp-05's midpoint
    walk translated to that centre: the two programs draw the same
    circle. *)
Theorem exp08_midpoint_matches_exp05 xc yc r :
  0 <= r ->
  exists pts rows, midpointCircle xc yc r = Some pts /\ Midpoint.midpoint_Yaxis r = Some rows /\
    forall p, In p pts <-> exists q, In q (Midpoint.pixels rows) /\ p = (xc + fst q, yc + snd q).
Proof.
  intros Hr. destruct (mid_walk_accurate r) as (rows & Hrows & Hok).
  pose proof Hrows as Hrows'. unfold Midpoint.midpoint_Yaxis in Hrows'.
  destruct (mid_loop_shape _ _ _ _ _ Hrows') as (Hnil & Hhd & Hch & Hlast).
  destruct rows as [|w rows]; [destruct Hnil as [H _]; specialize (H eq_refl); lia|].
  specialize (Hhd w eq_refl).
  assert (Hok' : Forall (row_ok r) (w :: rows)) by (eapply Forall_impl; [|exact Hok]; cbn; tauto).
  unfold midpointCircle. change (1 - r) with (1 -! r). rewrite (mc_mid _ _ _ _ _ Hrows').
  eexists _, _. split; [reflexivity|]. split; [exact Hrows|].
  intros p. cbn [option_map]. rewrite in_flat_map. setoid_rewrite plotCirclePoints_translate.
  split.
  - intros (q0 & Hq0 & q & Hq & ->). exists q. split; [|reflexivity].
    apply (walk_sets r w rows Hch Hok' Hlast). apply in_flat_map. exists q0.
    split; [|exact Hq]. rewrite Hhd. exact Hq0.
  - intros (q & Hq & ->). apply (walk_sets r w rows Hch Hok' Hlast) in Hq.
    apply in_flat_map in Hq as (q0 & Hq0 & Hq). exists q0. rewrite <- Hhd. split; [exact Hq0|].
    exists q. split; [exact Hq | reflexivity].
Qed.

(** Exp-08's [bresenhamCircle] drifts off the circle: it adds
    [4 * x + 6] with the already incremented [x], so for r = 10 around
    the origin it plots (7, 6), whose squared distance 85 is 15 below
    r^2 = 100, more than the max(|x|, |y|) = 7 that Exp-04's Bresenham
    keeps; for r = 0 it plots (1, -1). *)
Example exp08_bresenham_off_circle :
  (exists pts, bresenhamCircle 0 0 10 = Some pts /\ In (7, 6) pts /\ ~ pixel_ok 10 (7, 6)) /\
  (exists pts, bresenhamCircle 0 0 0 = Some pts /\ In (1, -1) pts).
Proof.
  split; eexists; (split; [vm_compute; reflexivity|]).
  - split; [vm_compute; tauto | unfold pixel_ok, circle_err; cbn; lia].
  - vm_compute. tauto.
Qed.

Import Shape.

(** The layout of [main]: for a rectangle that fits the 800 x 600
    window it is centred to within one pixel, the radius is at least 8,
    and each of the four circles touches its side of the rectangle: its
    centre lies [radius] away from a point of that side, straight out
    from it. *)
Theorem exp08_layout (L W : Z) :
  0 <= L <= 800 -> 0 <= W <= 600 ->
  let rc := centered_rect L W in
  let radius := allocateCircleRadius W in
  Z.abs (2 * x rc + L - 800) <= 1 /\ Z.abs (2 * y rc + W - 600) <= 1 /\ 8 <= radius /\
  exists t0 t1 t2 t3,
    getCircleCenters rc radius =
      [(t0, y rc - radius); (x rc + L + radius, t1); (t2, y rc + W + radius); (x rc - radius, t3)] /\
    x rc <= t0 <= x rc + L /\ y rc <= t1 <= y rc + W /\ x rc <= t2 <= x rc + L /\ y rc <= t3 <= y rc + W.
Proof.
  intros HL HW. cbv zeta. unfold centered_rect, allocateCircleRadius, getCircleCenters; cbn [x y length width].
  rewrite !Z.quot_div_nonneg by lia. Z.div_mod_to_equations. split; [lia|]. split; [lia|]. split; [lia|].
  eexists _, _, _, _. split; [reflexivity|]. lia.
Qed.

Lemma exp08_layout_witness :
  0 <= 300 <= 800 /\ 0 <= 200 <= 600 /\
  let rc := centered_rect 300 200 in
  let radius := allocateCircleRadius 200 in
  Z.abs (2 * x rc + 300 - 800) <= 1 /\ Z.abs (2 * y rc + 200 - 600) <= 1 /\ 8 <= radius /\
  exists t0 t1 t2 t3,
    getCircleCenters rc radius =
      [(t0, y rc - radius); (x rc + 300 + radius, t1); (t2, y rc + 200 + radius); (x rc - radius, t3)] /\
    x rc <= t0 <= x rc + 300 /\ y rc <= t1 <= y rc + 200 /\ x rc <= t2 <= x rc + 300 /\
    y rc <= t3 <= y rc + 200.
Proof. split; [lia | split; [lia | apply exp08_layout; lia]]. Defined.

Lemma exp08_midpoint_matches_exp05_witness :
  0 <= 5 /\
  exists pts rows, midpointCircle 100 50 5 = Some pts /\ Midpoint.midpoint_Yaxis 5 = Some rows /\
    forall p, In p pts <-> exists q, In q (Midpoint.pixels rows) /\ p = (100 + fst q, 50 + snd q).
Proof. split; [lia | apply exp08_midpoint_matches_exp05; lia]. Defined.

(** ** The circles around the rectangle *)

Module Exp08Facts.

(** The midpoint loop plots octant points with both coordinates in
    [0, r]. *)
Lemma mc_loop_bounds r fuel x y d l :
  0 <= x -> 0 <= y <= r -> mc_loop fuel x y d = Some l ->
  Forall (fun p => 0 <= fst p <= r /\ 0 <= snd p <= r) l.
Proof.
  revert x y d l; induction fuel as [|fuel IH]; intros x y d l Hx Hy; cbn [mc_loop]; [discriminate|].
  destruct (Z.ltb_spec x y) as [Hlt|Hge]; [|intros H; injection H as <-; constructor].
  destruct (d <? 0); cbn -[mc_loop]; destruct (mc_loop fuel _ _ _) as [l'|] eqn:E; cbn; try discriminate;
    intros H; injection H as <-; constructor; cbn; try lia; refine (IH _ _ _ _ _ _ E); lia.
Qed.

Lemma plotCirclePoints_bounds xc yc a b r p :
  0 <= a <= r -> 0 <= b <= r -> In p (plotCirclePoints xc yc a b) ->
  Z.abs (fst p - xc) <= r /\ Z.abs (snd p - yc) <= r.
Proof. intros Ha Hb Hp. cbn in Hp. repeat destruct Hp as [<-|Hp]; cbn; try contradiction; lia. Qed.

Lemma midpointCircle_bounds xc yc r pts :
  0 <= r -> midpointCircle xc yc r = Some pts ->
  Forall (fun p => Z.abs (fst p - xc) <= r /\ Z.abs (snd p - yc) <= r) pts.
Proof.
  intros Hr. unfold midpointCircle. destruct (mc_loop _ 0 r (1 - r)) as [l|] eqn:E; [|discriminate].
  pose proof (mc_loop_bounds r _ 0 r _ l ltac:(lia) ltac:(lia) E) as Hl.
  assert (Hl0 : Forall (fun p => 0 <= fst p <= r /\ 0 <= snd p <= r) ((0, r) :: l)) by (constructor; [cbn; lia | exact Hl]).
  cbn [option_map]. remember ((0, r) :: l) as l0 eqn:El0. clear El0 Hl. intros H; injection H as <-.
  apply Forall_flat_map. intros [a b] Hin.
  apply (proj2 (Forall_forall _ _)). intros p Hp. rewrite Forall_forall in Hl0.
  destruct (Hl0 _ Hin) as [Ha Hb]. exact (plotCirclePoints_bounds _ _ _ _ _ p Ha Hb Hp).
Qed.

(** The midpoint circle starts with the four points at distance [r]
    straight up, down, left and right of the centre. *)
Lemma midpointCircle_axes xc yc r pts :
  midpointCircle xc yc r = Some pts ->
  In (xc, yc + r) pts /\ In (xc, yc - r) pts /\ In (xc + r, yc) pts /\ In (xc - r, yc) pts.
Proof.
  unfold midpointCircle. destruct (mc_loop _ 0 r (1 - r)); [|discriminate]. intros H; injection H as <-.
  cbn [flat_map fst snd plotCirclePoints]. rewrite !Z.add_0_r, !Z.sub_0_r.
  repeat split; cbn; tauto.
Qed.

End Exp08Facts.

(** With the midpoint algorithm [main] draws the four midpoint circles
    around the centres of [getCircleCenters]. *)
Lemma exp08_main_midpoint L W :
  let rc := centered_rect L W in
  let r := allocateCircleRadius W in
  exists p0 p1 p2 p3, main L W 1 = [Some p0; Some p1; Some p2; Some p3] /\
    midpointCircle (x rc + Z.quot L 2) (y rc - r) r = Some p0 /\
    midpointCircle (x rc + L + r) (y rc + Z.quot W 2) r = Some p1 /\
    midpointCircle (x rc + Z.quot L 2) (y rc + W + r) r = Some p2 /\
    midpointCircle (x rc - r) (y rc + Z.quot W 2) r = Some p3.
Proof.
  intros rc r. unfold main. fold r. fold rc. unfold display, getCircleCenters. cbn [map fst snd].
  unfold CircleDrawer.drawCircle. cbn [Z.eqb Pos.eqb].
  destruct (mc_loop_total r) as [l E].
  assert (Hm : forall xc yc, exists pts, midpointCircle xc yc r = Some pts).
  { intros xc yc. unfold midpointCircle. rewrite E. eexists; reflexivity. }
  destruct (Hm (x rc + Z.quot (length rc) 2) (y rc - r)) as [p0 E0], (Hm (x rc + length rc + r) (y rc + Z.quot (width rc) 2)) as [p1 E1],
    (Hm (x rc + Z.quot (length rc) 2) (y rc + width rc + r)) as [p2 E2], (Hm (x rc - r) (y rc + Z.quot (width rc) 2)) as [p3 E3].
  rewrite E0, E1, E2, E3. exists p0, p1, p2, p3. split; [reflexivity|]. repeat split; assumption.
Qed.

(** With the midpoint algorithm, each of Exp-08's four circles touches
    its side of the rectangle at that side's midpoint pixel and draws
    no pixel strictly inside the rectangle, for every rectangle that
    fits the window. *)
Theorem exp08_midpoint_circles_touch L W :
  0 <= L <= 800 -> 0 <= W <= 600 ->
  let rc := centered_rect L W in
  exists p0 p1 p2 p3, main L W 1 = [Some p0; Some p1; Some p2; Some p3] /\
    In (x rc + Z.quot L 2, y rc) p0 /\ In (x rc + L, y rc + Z.quot W 2) p1 /\
    In (x rc + Z.quot L 2, y rc + W) p2 /\ In (x rc, y rc + Z.quot W 2) p3 /\
    Forall (fun pts => Forall (fun p => ~ strictly_inside rc p) pts) [p0; p1; p2; p3].
Proof.
  intros HL HW rc. set (r := allocateCircleRadius W).
  assert (Hr : 8 <= r) by (unfold r, allocateCircleRadius; lia).
  destruct (exp08_main_midpoint L W) as (p0 & p1 & p2 & p3 & Em & E0 & E1 & E2 & E3). fold rc r in E0, E1, E2, E3.
  exists p0, p1, p2, p3. split; [exact Em|].
  assert (HlL : length rc = L) by reflexivity. assert (HwW : width rc = W) by reflexivity.
  destruct (Exp08Facts.midpointCircle_axes _ _ _ _ E0) as (A0 & _), (Exp08Facts.midpointCircle_axes _ _ _ _ E1) as (_ & _ & _ & A1),
    (Exp08Facts.midpointCircle_axes _ _ _ _ E2) as (_ & A2 & _), (Exp08Facts.midpointCircle_axes _ _ _ _ E3) as (_ & _ & A3 & _).
  replace (y rc - r + r) with (y rc) in A0 by lia. replace (x rc + L + r - r) with (x rc + L) in A1 by lia.
  replace (y rc + W + r - r) with (y rc + W) in A2 by lia. replace (x rc - r + r) with (x rc) in A3 by lia.
  split; [exact A0|]. split; [exact A1|]. split; [exact A2|]. split; [exact A3|].
  pose proof (Exp08Facts.midpointCircle_bounds _ _ r _ ltac:(lia) E0) as B0.
  pose proof (Exp08Facts.midpointCircle_bounds _ _ r _ ltac:(lia) E1) as B1.
  pose proof (Exp08Facts.midpointCircle_bounds _ _ r _ ltac:(lia) E2) as B2.
  pose proof (Exp08Facts.midpointCircle_bounds _ _ r _ ltac:(lia) E3) as B3.
  unfold strictly_inside. repeat constructor;
    match goal with B : Forall _ ?l |- Forall _ ?l => eapply Forall_impl; [|exact B]; cbn; intros p Hp; lia end.
Qed.

(** C20. Exp-08's circles stay in [initGL]'s 800 x 600 view exactly when
    each one fits between its side of the rectangle and the window edge:
    two radii below and left of the rectangle, two radii above and right
    of it.  [main] checks nothing, so a rectangle higher than about 300
    pixels (or with [L + W] above about 800) has circles drawn partly
    outside the window. *)
Theorem exp08_circles_in_view L W :
  0 <= L <= 800 -> 0 <= W <= 600 ->
  let rc := centered_rect L W in
  let r := allocateCircleRadius W in
  exists p0 p1 p2 p3, main L W 1 = [Some p0; Some p1; Some p2; Some p3] /\
    (Forall (Forall in_view) [p0; p1; p2; p3] <->
     2 * r <= x rc /\ x rc + L + 2 * r <= 800 /\ 2 * r <= y rc /\ y rc + W + 2 * r <= 600).
Proof.
  intros HL HW rc r. assert (Hr : 8 <= r) by (unfold r, allocateCircleRadius; lia).
  destruct (exp08_main_midpoint L W) as (p0 & p1 & p2 & p3 & Em & E0 & E1 & E2 & E3). fold rc r in E0, E1, E2, E3.
  exists p0, p1, p2, p3. split; [exact Em|].
  assert (Hq : 0 <= Z.quot L 2 <= L /\ 0 <= Z.quot W 2 <= W)
    by (rewrite !Z.quot_div_nonneg by lia; split; split; Z.div_mod_to_equations; lia).
  destruct (Exp08Facts.midpointCircle_axes _ _ _ _ E0) as (_ & A0 & _), (Exp08Facts.midpointCircle_axes _ _ _ _ E1) as (_ & _ & A1 & _),
    (Exp08Facts.midpointCircle_axes _ _ _ _ E2) as (A2 & _), (Exp08Facts.midpointCircle_axes _ _ _ _ E3) as (_ & _ & _ & A3).
  pose proof (Exp08Facts.midpointCircle_bounds _ _ r _ ltac:(lia) E0) as B0.
  pose proof (Exp08Facts.midpointCircle_bounds _ _ r _ ltac:(lia) E1) as B1.
  pose proof (Exp08Facts.midpointCircle_bounds _ _ r _ ltac:(lia) E2) as B2.
  pose proof (Exp08Facts.midpointCircle_bounds _ _ r _ ltac:(lia) E3) as B3.
  clearbody rc r. unfold in_view, initGL. rewrite !Forall_cons_iff. split.
  - intros (F0 & F1 & F2 & F3 & _). rewrite Forall_forall in F0, F1, F2, F3.
    specialize (F0 _ A0). specialize (F1 _ A1). specialize (F2 _ A2). specialize (F3 _ A3). cbn in F0, F1, F2, F3. lia.
  - intros (C1 & C2 & C3 & C4). repeat split; try constructor;
      match goal with B : Forall _ ?l |- Forall _ ?l => eapply Forall_impl; [|exact B]; cbn; intros p Hp; lia end.
Qed.

Lemma exp08_circles_in_view_witness :
  0 <= 300 <= 800 /\ 0 <= 200 <= 600 /\
  let rc := centered_rect 300 200 in
  let r := allocateCircleRadius 200 in
  exists p0 p1 p2 p3, main 300 200 1 = [Some p0; Some p1; Some p2; Some p3] /\
    (Forall (Forall in_view) [p0; p1; p2; p3] <->
     2 * r <= x rc /\ x rc + 300 + 2 * r <= 800 /\ 2 * r <= y rc /\ y rc + 200 + 2 * r <= 600).
Proof. split; [lia | split; [lia | apply exp08_circles_in_view; lia]]. Defined.
