(* ===== verification/CRT3D.v ===== *)
(** The 3D cathode-ray-tube animation (crt-simulation/CRT_3D.cpp), in
    [Module Sim3D].  The globals become the record [CRT3D], with the
    orbit camera of the mouse callbacks in its own record [Camera].  Each
    callback that changes them is a function on that record: [timer]
    (intro fade; [calculateBeam] and the shared beam machine of
    [Beam.advance] with the 3D constants; the screen trace), [keyboard],
    [mouse] (drag start and the zoom wheel), [motion] (orbit), [display]
    (the particle motion inside [drawBeam]) and [init] (the particle
    cloud).  The cosine and sine are parameters [cos] and [sin]; the
    invariant on the trace assumes only that they lie in [-1, 1]. *)

From S2P Require Import Prelude QFloat Float32 Beam.

Open Scope Q_scope.

Module Sim3D.

(** ** Configuration *)

Definition SCREEN_W : Q := 4.
Definition SCREEN_H : Q := 3.
Definition NUM_PARTICLES : nat := 150.

(** The [float] literals of [timer]: progress step [0.015f], angle
    step [0.05f] and wrap [6.28f], and the length of the trace. *)
Definition beamSpeed : Q := round32 0.015.
Definition thetaStep : Q := round32 0.05.
Definition thetaWrap : Q := round32 6.28.
Definition TRACE_MAX : nat := 500.

(** [GLUT_LEFT_BUTTON] and [GLUT_DOWN]; the wheel reports buttons 3 and 4. *)
Definition GLUT_LEFT_BUTTON : Z := 0.
Definition GLUT_DOWN : Z := 0.

(** The [mapMin], [mapMax] of the inset trace in [drawHUD]. *)
Definition mapMin : Q := -2.5.
Definition mapMax : Q := 2.5.

(** ** State *)

Record Particle := mkParticle { t : Q; speed : Q; offsetR : Q; offsetA : Q }.

(** [camTheta], [camPhi], [camDist], [lastMouseX], [lastMouseY], [isDragging]. *)
Record Camera := mkCamera {
  camTheta : Q; camPhi : Q; camDist : Q;
  lastMouseX : Z; lastMouseY : Z; isDragging : bool
}.

Definition camera_init : Camera := mkCamera 45 20 28 (-1) (-1) false.

Record CRT3D := mkCRT3 {
  showIntro : bool;
  paused : bool;
  beam : Beam;
  beamTipX : Q; beamTipY : Q; beamTipZ : Q;
  introAlpha : Q;
  introEffectsDone : bool;
  traceHistory : list (Q * Q);
  particles : list Particle;
  camera : Camera
}.

(** [frand(a, b)] given the ratio [u = rand() / RAND_MAX]. *)
Definition frand (a b u : Q) : Q := a + (b - a) * u.

(** [init]'s particle loop: particle [i] draws the four ratios [rnd i]. *)
Definition init (rnd : nat -> Q * Q * Q * Q) : list Particle :=
  map (fun i =>
         let '(u1, u2, u3, u4) := rnd i in
         mkParticle (frand (-0.5) 1 u1) (0.005 + frand 0 0.01 u2)
                    (frand 0 0.05 u3) (frand 0 6.28 u4))
      (seq 0 NUM_PARTICLES).

Definition init_state (rnd : nat -> Q * Q * Q * Q) : CRT3D :=
  mkCRT3 true true beam_init 0 0 0 0 false [] (init rnd) camera_init.

Section Trig.
Variables (cos sin : Q -> Q).

(** [calculateBeam]: the beam tip (x, y, z) for the current stage. *)
Definition calculateBeam (b : Beam) : Q * Q * Q :=
  let st := beamStage b in
  let p := beamProgress b in
  let '(finalX, finalY) :=
    if (st =? STAGE_SCREEN)%Z || (st =? STAGE_DEFLECTION)%Z
    then (SCREEN_W / 2.5 * cos (screenTheta b), SCREEN_H / 2.5 * sin (screenTheta b * 2))
    else (0, 0) in
  if (st =? STAGE_FILAMENT)%Z then (0, 0, 2.5 * p)
  else if (st =? STAGE_ANODE)%Z then (0, 0, 2.5 + (5.5 - 2.5) * p)
  else if (st =? STAGE_DEFLECTION)%Z then
    (finalX * 0.1 * p, finalY * 0.1 * p, 5.5 + (8.5 - 5.5) * p)
  else
    let startX := finalX * 0.1 in
    let startY := finalY * 0.1 in
    (startX + (finalX - startX) * p, startY + (finalY - startY) * p, 8.5 + (12.5 - 8.5) * p).

(** [traceHistory.push_back({beamTipX, beamTipY})], then erase the
    oldest point past 500. *)
Definition push_trace (h : list (Q * Q)) (p : Q * Q) : list (Q * Q) :=
  let h' := h ++ [p] in
  if Nat.ltb TRACE_MAX (length h') then tl h' else h'.

(** [timer]: the intro fade, then, when running, [calculateBeam] on
    the beam as it is, the beam step, and on the screen a trace point. *)
Definition timer (s : CRT3D) : CRT3D :=
  let '(a, d) :=
    if showIntro s && negb (introEffectsDone s) then
      let a := f32add (introAlpha s) (round32 0.02) in
      if fleb 1 a then (1, true) else (a, introEffectsDone s)
    else (introAlpha s, introEffectsDone s) in
  if negb (showIntro s) && negb (paused s) then
    let '(x, y, z) := calculateBeam (beam s) in
    let h := if (beamStage (beam s) =? STAGE_SCREEN)%Z
             then push_trace (traceHistory s) (x, y) else traceHistory s in
    mkCRT3 (showIntro s) (paused s) (advance beamSpeed thetaStep thetaWrap (beam s))
           x y z a d h (particles s) (camera s)
  else
    mkCRT3 (showIntro s) (paused s) (beam s) (beamTipX s) (beamTipY s) (beamTipZ s)
           a d (traceHistory s) (particles s) (camera s).

End Trig.

(** [keyboard]: its four independent tests in order; [None] is [exit(0)]. *)
Definition keyboard (key : Z) (s : CRT3D) : option CRT3D :=
  if (key =? 27)%Z then None
  else
    let s := if (key =? 115)%Z || (key =? 83)%Z then
               mkCRT3 false false (beam s) (beamTipX s) (beamTipY s) (beamTipZ s)
                      (introAlpha s) (introEffectsDone s) (traceHistory s) (particles s) (camera s)
             else s in
    let s := if (key =? 112)%Z || (key =? 80)%Z then
               mkCRT3 (showIntro s) (negb (paused s)) (beam s) (beamTipX s) (beamTipY s)
                      (beamTipZ s) (introAlpha s) (introEffectsDone s) (traceHistory s)
                      (particles s) (camera s)
             else s in
    let s := if (key =? 114)%Z || (key =? 82)%Z then
               mkCRT3 (showIntro s) true (reset_beam (beam s)) (beamTipX s) (beamTipY s)
                      (beamTipZ s) (introAlpha s) (introEffectsDone s) [] (particles s) (camera s)
             else s in
    Some s.

(** [mouse]: the left button starts or ends a drag; the wheel zooms by
    one unit; [camDist] is then clamped to [5, 60]. *)
Definition mouse (button state x y : Z) (c : Camera) : Camera :=
  let c := if (button =? GLUT_LEFT_BUTTON)%Z then
             if (state =? GLUT_DOWN)%Z
             then mkCamera (camTheta c) (camPhi c) (camDist c) x y true
             else mkCamera (camTheta c) (camPhi c) (camDist c) (lastMouseX c) (lastMouseY c) false
           else c in
  let d := camDist c in
  let d := if (button =? 3)%Z then fsub d 1 else d in
  let d := if (button =? 4)%Z then fadd d 1 else d in
  let d := if fltb d 5 then 5 else d in
  let d := if fltb 60 d then 60 else d in
  mkCamera (camTheta c) (camPhi c) d (lastMouseX c) (lastMouseY c) (isDragging c).

(** [motion]: while dragging, orbit by half a degree per pixel, with
    the elevation clamped to [-89, 89]. *)
Definition motion (x y : Z) (c : Camera) : Camera :=
  if isDragging c then
    let dx := (x - lastMouseX c)%Z in
    let dy := (y - lastMouseY c)%Z in
    let th := fsub (camTheta c) (fmul (inject_Z dx) 0.5) in
    let ph := fadd (camPhi c) (fmul (inject_Z dy) 0.5) in
    let ph := if fltb 89 ph then 89 else ph in
    let ph := if fltb ph (-89) then -89 else ph in
    mkCamera th ph (camDist c) x y (isDragging c)
  else c.

(** The particle update at the top of [drawBeam]'s loop. *)
Definition particle_step (p : Particle) : Particle :=
  let t' := fadd (t p) (speed p) in
  mkParticle (if fltb 1 t' then -0.2 else t') (speed p) (offsetR p) (offsetA p).

(** [display]: after the intro, [drawBeam] moves every particle; the
    rest of the frame only draws. *)
Definition display (s : CRT3D) : CRT3D :=
  if showIntro s then s
  else mkCRT3 (showIntro s) (paused s) (beam s) (beamTipX s) (beamTipY s) (beamTipZ s)
              (introAlpha s) (introEffectsDone s) (traceHistory s)
              (map particle_step (particles s)) (camera s).

(** The eye position [display] passes to [gluLookAt]: the camera orbits
    the point (0, 0, 6) at distance [camDist]. *)
Definition lookAt (cos sin : Q -> Q) (c : Camera) : (Q * Q * Q) * (Q * Q * Q) :=
  let radPhi := camPhi c * 3.14159 / 180 in
  let radTheta := camTheta c * 3.14159 / 180 in
  let eyeX := camDist c * cos radPhi * sin radTheta in
  let eyeY := camDist c * sin radPhi in
  let eyeZ := camDist c * cos radPhi * cos radTheta in
  ((eyeX, eyeY, eyeZ + 6), (0, 0, 6)).

(** [drawHUD]'s map of a trace coordinate into the inset square. *)
Definition inset_coord (v : Q) : Q := (v - mapMin) / (mapMax - mapMin).

(** [reshape]: the aspect ratio given to [gluPerspective]. *)
Definition reshape (w h : Z) : Q :=
  let h := if (h =? 0)%Z then 1%Z else h in
  inject_Z w / inject_Z h.

(** ** Events *)

Inductive event :=
  | Tick
  | Redraw
  | Key (k : Z)
  | Mouse (button state x y : Z)
  | Motion (x y : Z).

Definition with_camera (s : CRT3D) (c : Camera) : CRT3D :=
  mkCRT3 (showIntro s) (paused s) (beam s) (beamTipX s) (beamTipY s) (beamTipZ s)
         (introAlpha s) (introEffectsDone s) (traceHistory s) (particles s) c.

Definition crt_step (cos sin : Q -> Q) (e : event) (s : CRT3D) : option CRT3D :=
  match e with
  | Tick => Some (timer cos sin s)
  | Redraw => Some (display s)
  | Key k => keyboard k s
  | Mouse b st x y => Some (with_camera s (mouse b st x y (camera s)))
  | Motion x y => Some (with_camera s (motion x y (camera s)))
  end.

Fixpoint run (cos sin : Q -> Q) (es : list event) (s : CRT3D) : option CRT3D :=
  match es with
  | [] => Some s
  | e :: es' => match crt_step cos sin e s with Some s' => run cos sin es' s' | None => None end
  end.

(** The ratios [rand() / RAND_MAX] lie in [0, 1]. *)
Definition rnd_ok (rnd : nat -> Q * Q * Q * Q) : Prop :=
  forall i, let '(u1, u2, u3, u4) := rnd i in
            0 <= u1 <= 1 /\ 0 <= u2 <= 1 /\ 0 <= u3 <= 1 /\ 0 <= u4 <= 1.

Inductive reachable (cos sin : Q -> Q) : CRT3D -> Prop :=
  | reach_init rnd : rnd_ok rnd -> reachable cos sin (init_state rnd)
  | reach_step e s s' :
      reachable cos sin s -> crt_step cos sin e s = Some s' -> reachable cos sin s'.

End Sim3D.

Import Sim3D.

(** * Theorems *)

(** ** The state invariant *)

Section Invariant.
Variables (cos sin : Q -> Q).
Hypothesis cos_bound : forall x, -1 <= cos x <= 1.
Hypothesis sin_bound : forall x, -1 <= sin x <= 1.

Definition particle_ok (p : Particle) : Prop := -0.5 <= t p <= 1 /\ 0.005 <= speed p <= 0.015.

Definition camera_ok (c : Camera) : Prop := 5 <= camDist c <= 60 /\ -89 <= camPhi c <= 89.

(** A trace point lies in [-1.6, 1.6] x [-1.2, 1.2], the extent of the
    sweep [SCREEN_W / 2.5 * cos], [SCREEN_H / 2.5 * sin]. *)
Definition trace_ok (p : Q * Q) : Prop := -1.6 <= fst p <= 1.6 /\ -1.2 <= snd p <= 1.2.

Definition crt3_wf (s : CRT3D) : Prop :=
  beam_wf thetaWrap (beam s) /\ 0 <= introAlpha s <= 1 /\
  (length (traceHistory s) <= TRACE_MAX)%nat /\ Forall trace_ok (traceHistory s) /\
  Forall particle_ok (particles s) /\ length (particles s) = NUM_PARTICLES /\
  camera_ok (camera s).

(** The keys that start or unpause the animation. *)
Definition resumes (e : event) : bool :=
  match e with
  | Key k => (k =? 115)%Z || (k =? 83)%Z || (k =? 112)%Z || (k =? 80)%Z
  | _ => false
  end.

(** The [float] constants of the beam branch, evaluated. *)
Lemma beam3D_constants :
  0 < beamSpeed /\ 0 <= thetaStep /\ 0 <= thetaWrap /\
  round32_ub (round32_ub (thetaWrap + thetaStep) - thetaWrap) <= thetaWrap.
Proof.
  split; [rewrite Qlt_alt; vm_compute; reflexivity|].
  split; [|split]; apply Qle_bool_iff; vm_compute; reflexivity.
Qed.

Lemma advance3D_wf b : beam_wf thetaWrap b -> beam_wf thetaWrap (advance beamSpeed thetaStep thetaWrap b).
Proof. destruct beam3D_constants as (H1 & H2 & H3 & H4). apply advance_wf; assumption. Qed.

(** A point between 1/10 of the way and the whole way to [k * c], with
    [c] in [-1, 1], stays in [-k, k]. *)
Lemma sweep_bound k c p :
  0 <= k -> -1 <= c <= 1 -> 0 <= p <= 1 ->
  -k <= k * c * 0.1 + (k * c - k * c * 0.1) * p <= k.
Proof.
  intros Hk Hc Hp. assert (Hm : -1 <= c * (0.1 + 0.9 * p) <= 1) by nra.
  setoid_replace (k * c * 0.1 + (k * c - k * c * 0.1) * p) with (k * (c * (0.1 + 0.9 * p))) by ring.
  nra.
Qed.

(** On the screen the tip lies between 1/10 of the sweep point and the
    sweep point itself, so inside the sweep's extent. *)
Lemma calculateBeam_screen_ok b :
  beam_wf thetaWrap b -> beamStage b = STAGE_SCREEN ->
  trace_ok (fst (fst (calculateBeam cos sin b)), snd (fst (calculateBeam cos sin b))).
Proof.
  destruct b as [st p th]. unfold beam_wf, calculateBeam; cbn [beamStage beamProgress screenTheta].
  intros (_ & Hp & _) ->. cbn -[Qmult Qplus Qminus Qdiv].
  pose proof (cos_bound th). pose proof (sin_bound (th * 2)).
  unfold trace_ok, SCREEN_W, SCREEN_H; cbn [fst snd].
  setoid_replace (4 / 2.5) with 1.6 by reflexivity. setoid_replace (3 / 2.5) with 1.2 by reflexivity.
  pose proof (sweep_bound 1.6 (cos th) p ltac:(lra) H ltac:(lra)).
  pose proof (sweep_bound 1.2 (sin (th * 2)) p ltac:(lra) H0 ltac:(lra)). split; lra.
Qed.

Lemma push_trace_wf h p :
  (length h <= TRACE_MAX)%nat -> Forall trace_ok h -> trace_ok p ->
  (length (push_trace h p) <= TRACE_MAX)%nat /\ Forall trace_ok (push_trace h p).
Proof. intros Hl Hh Hp. split; [apply push_capped_length, Hl | apply push_capped_Forall; assumption]. Qed.

(** The intro branch of [timer] keeps the alpha in [0, 1]. *)
Lemma timer_intro_ok si a d a' d' :
  0 <= a <= 1 ->
  (if si && negb d then
     let a := f32add a (round32 0.02) in if fleb 1 a then (1, true) else (a, d)
   else (a, d)) = (a', d') ->
  0 <= a' <= 1.
Proof.
  intros Ha. destruct (si && negb d); [|intros E; injection E as <- <-; exact Ha].
  assert (H0 : 0 <= f32add a (round32 0.02)).
  { assert (0 <= round32 0.02) by (apply round32_nonneg; lra). apply round32_nonneg; lra. }
  cbv zeta. qcase; intros E; injection E as <- <-; lra.
Qed.

Lemma timer_wf s : crt3_wf s -> crt3_wf (timer cos sin s).
Proof.
  destruct s as [si sp b x y z a d h ps c]. unfold crt3_wf, timer.
  cbn [showIntro paused beam introAlpha introEffectsDone traceHistory particles camera].
  intros (Hb & Ha & Hh & Ht & Hp & Hl & Hc).
  match goal with |- context [let '(_, _) := ?e in _] => destruct e as [a' d'] eqn:E end.
  apply timer_intro_ok in E; [|exact Ha].
  destruct (negb si && negb sp); [|cbn; tauto].
  pose proof (calculateBeam_screen_ok b Hb) as Hs.
  destruct (calculateBeam cos sin b) as [[bx by'] bz]; cbn in Hs |- *.
  split; [apply advance3D_wf, Hb|]. split; [exact E|].
  destruct (Z.eqb_spec (beamStage b) STAGE_SCREEN) as [Es|Es].
  - destruct (push_trace_wf h (bx, by') Hh Ht (Hs Es)). tauto.
  - tauto.
Qed.

Lemma particle3_step_ok p : particle_ok p -> particle_ok (particle_step p).
Proof.
  destruct p as [tp sp r o]. unfold particle_ok, particle_step; cbn [t speed].
  intros [Ht Hs]. qcase; cbn [t speed]; qnorm; split; lra.
Qed.

Lemma display3_wf s : crt3_wf s -> crt3_wf (display s).
Proof.
  unfold display. destruct (showIntro s); [tauto|].
  unfold crt3_wf; cbn. rewrite length_map. intros (Hb & Ha & Hh & Ht & Hp & Hl & Hc).
  repeat split; try assumption; try apply Hb; try apply Ha; try apply Hc.
  eapply Forall_map, Forall_impl; [apply particle3_step_ok | exact Hp].
Qed.

Lemma keyboard3_wf k s s' : crt3_wf s -> keyboard k s = Some s' -> crt3_wf s'.
Proof.
  unfold keyboard. intros Hw H. destruct (k =? 27)%Z; [discriminate|]. inv_some.
  destruct ((k =? 114)%Z || (k =? 82)%Z);
    destruct ((k =? 112)%Z || (k =? 80)%Z); destruct ((k =? 115)%Z || (k =? 83)%Z);
    unfold crt3_wf in *; cbn in *; try exact Hw;
    destruct Hw as (Hb & Ha & Hh & Ht & Hp & Hl & Hc);
    (split; [apply reset_beam_wf, Hb | split; [exact Ha | split; [unfold TRACE_MAX; lia | auto]]]).
Qed.

Lemma mouse_ok b st x y c : camera_ok c -> camera_ok (mouse b st x y c).
Proof.
  unfold camera_ok, mouse. intros [_ Hp].
  destruct (b =? GLUT_LEFT_BUTTON)%Z; [destruct (st =? GLUT_DOWN)%Z|]; cbn [camDist camPhi];
    (split; [|exact Hp]); qcase; qnorm; lra.
Qed.

Lemma motion_ok x y c : camera_ok c -> camera_ok (motion x y c).
Proof.
  unfold camera_ok, motion. intros [Hd Hp].
  destruct (isDragging c); [|split; assumption]. cbn [camDist camPhi].
  split; [exact Hd|]. qcase; qnorm; lra.
Qed.

Lemma with_camera_wf s c : crt3_wf s -> camera_ok c -> crt3_wf (with_camera s c).
Proof. unfold crt3_wf, with_camera; cbn. tauto. Qed.

Lemma init3_wf rnd : rnd_ok rnd -> crt3_wf (init_state rnd).
Proof.
  intros H. unfold crt3_wf, init_state; cbn [beam introAlpha traceHistory particles camera length].
  split; [apply (beam_init_wf thetaWrap), beam3D_constants|].
  split; [lra|]. split; [unfold TRACE_MAX; lia|]. split; [constructor|].
  unfold init. rewrite length_map, length_seq. split; [|split; [reflexivity|]].
  - apply Forall_map, Forall_forall. intros i _. specialize (H i).
    destruct (rnd i) as [[[u1 u2] u3] u4]. destruct H as (H1 & H2 & _).
    unfold particle_ok, frand; cbn [t speed]. split; nra.
  - unfold camera_ok, camera_init; cbn. split; lra.
Qed.

Lemma crt3_step_wf e s s' : crt3_wf s -> crt_step cos sin e s = Some s' -> crt3_wf s'.
Proof.
  intros Hw. destruct e; cbn; intros H; [inv_some..|eapply keyboard3_wf; eauto| |];
    inv_some.
  - apply timer_wf, Hw.
  - apply display3_wf, Hw.
  - apply with_camera_wf; [exact Hw | apply mouse_ok, Hw].
  - apply with_camera_wf; [exact Hw | apply motion_ok, Hw].
Qed.

Lemma reachable_crt3_wf s : reachable cos sin s -> crt3_wf s.
Proof. induction 1; [apply init3_wf; assumption | eapply crt3_step_wf; eauto]. Qed.

End Invariant.

Lemma reachable_run cos sin es s s' :
  reachable cos sin s -> run cos sin es s = Some s' -> reachable cos sin s'.
Proof.
  revert s; induction es as [|e es IH]; intros s Hr H; cbn in H; [inv_some; exact Hr|].
  destruct (crt_step cos sin e s) as [s1|] eqn:E; [|discriminate].
  exact (IH s1 (reach_step cos sin e s s1 Hr E) H).
Qed.

(** ** Running, pausing and resetting *)

Lemma timer_running cos sin s :
  showIntro s = false -> paused s = false ->
  showIntro (timer cos sin s) = false /\ paused (timer cos sin s) = false /\
  beam (timer cos sin s) = advance beamSpeed thetaStep thetaWrap (beam s).
Proof.
  destruct s as [si sp b x y z a d h ps c]; cbn. intros -> ->. cbn.
  destruct (calculateBeam cos sin b) as [[bx by'] bz]. auto.
Qed.

Lemma iter_timer3_running cos sin k s :
  showIntro s = false -> paused s = false ->
  showIntro (Nat.iter k (timer cos sin) s) = false /\ paused (Nat.iter k (timer cos sin) s) = false /\
  beam (Nat.iter k (timer cos sin) s) = Nat.iter k (advance beamSpeed thetaStep thetaWrap) (beam s).
Proof.
  intros Hi Hp. induction k as [|k (IHi & IHp & IHb)]; [auto|].
  rewrite !Nat.iter_succ. destruct (timer_running cos sin _ IHi IHp) as (-> & -> & ->).
  rewrite IHb. auto.
Qed.

Lemma timer_paused cos sin s :
  paused s = true ->
  paused (timer cos sin s) = true /\ beam (timer cos sin s) = beam s /\
  (beamTipX (timer cos sin s), beamTipY (timer cos sin s), beamTipZ (timer cos sin s)) =
  (beamTipX s, beamTipY s, beamTipZ s).
Proof.
  destruct s as [si sp b x y z a d h ps c]; cbn [paused]. intros ->. unfold timer; cbn.
  match goal with |- context [let '(_, _) := ?e in _] => destruct e end.
  rewrite andb_false_r. auto.
Qed.

(** While paused with a reset beam, any event but a resuming key keeps
    the beam reset and the tip [beamTipX], [beamTipY], [beamTipZ] as
    they were. *)
Lemma step_paused_reset cos sin e s s' b0 :
  paused s = true -> beam s = reset_beam b0 -> resumes e = false ->
  crt_step cos sin e s = Some s' ->
  paused s' = true /\ beam s' = reset_beam b0 /\
  (beamTipX s', beamTipY s', beamTipZ s') = (beamTipX s, beamTipY s, beamTipZ s).
Proof.
  destruct s as [si sp b x y z a d h ps c]; cbn [paused beam]. intros -> -> He.
  destruct e as [| |k|bt st mx my|mx my]; cbn; intros H; inv_some.
  - apply timer_paused. reflexivity.
  - destruct si; auto.
  - unfold keyboard in H. cbn in He. rewrite !orb_false_iff in He.
    destruct He as [[[E1 E2] E3] E4]. rewrite E1, E2, E3, E4 in H. cbn in H.
    destruct (k =? 27)%Z; [discriminate|]. inv_some.
    destruct ((k =? 114)%Z || (k =? 82)%Z); auto.
  - auto.
  - auto.
Qed.

Lemma run_paused_reset cos sin es s s' b0 :
  paused s = true -> beam s = reset_beam b0 ->
  forallb (fun e => negb (resumes e)) es = true -> run cos sin es s = Some s' ->
  beam s' = reset_beam b0 /\
  (beamTipX s', beamTipY s', beamTipZ s') = (beamTipX s, beamTipY s, beamTipZ s).
Proof.
  revert s; induction es as [|e es IH]; intros s Hp Hb Hall H; cbn in H; [inv_some; auto|].
  cbn in Hall. apply andb_true_iff in Hall as [He Hall]. apply negb_true_iff in He.
  destruct (crt_step cos sin e s) as [s1|] eqn:E; [|discriminate].
  destruct (step_paused_reset cos sin e s s1 b0 Hp Hb He E) as (Hp1 & Hb1 & Ht1).
  rewrite <- Ht1. exact (IH s1 Hp1 Hb1 Hall H).
Qed.

Lemma keyboard_reset s s' :
  keyboard 114 s = Some s' ->
  paused s' = true /\ beam s' = reset_beam (beam s) /\ traceHistory s' = [] /\
  (beamTipX s', beamTipY s', beamTipZ s') = (beamTipX s, beamTipY s, beamTipZ s).
Proof. unfold keyboard; cbn. intros H; inv_some. cbn. auto. Qed.

(** ** Camera *)

Lemma trig_bound (cos sin : Q -> Q) :
  (forall x, cos x * cos x + sin x * sin x == 1) ->
  forall x, -1 <= cos x <= 1 /\ -1 <= sin x <= 1.
Proof. intros H x. specialize (H x). split; split; nra. Qed.

(** The eye of [gluLookAt] lies at distance [camDist] from its target. *)
Lemma lookAt_dist (cos sin : Q -> Q) c :
  (forall x, cos x * cos x + sin x * sin x == 1) ->
  let '((ex, ey, ez), (cx, cy, cz)) := lookAt cos sin c in
  (ex - cx) * (ex - cx) + (ey - cy) * (ey - cy) + (ez - cz) * (ez - cz) == camDist c * camDist c.
Proof.
  intros H. unfold lookAt; cbv zeta.
  set (ph := camPhi c * 3.14159 / 180). set (th := camTheta c * 3.14159 / 180). set (d := camDist c).
  setoid_replace
    ((d * cos ph * sin th - 0) * (d * cos ph * sin th - 0) + (d * sin ph - 0) * (d * sin ph - 0) +
     (d * cos ph * cos th + 6 - 6) * (d * cos ph * cos th + 6 - 6))
    with (d * d * (cos ph * cos ph * (cos th * cos th + sin th * sin th) + sin ph * sin ph)) by ring.
  rewrite (H th). setoid_replace (cos ph * cos ph * 1 + sin ph * sin ph) with
    (cos ph * cos ph + sin ph * sin ph) by ring. rewrite (H ph). ring.
Qed.

Lemma inset_coord_ok v : -2.5 <= v <= 2.5 -> 0 <= inset_coord v <= 1.
Proof.
  unfold inset_coord, mapMin, mapMax. intros Hv.
  setoid_replace ((v - -2.5) / (2.5 - -2.5)) with ((v + 2.5) * (1 # 5)) by field. lra.
Qed.

(** ** Properties of the 3D sketch *)

(** C11. Every reachable state of the 3D sketch is well formed: the
    beam stage is in the enum, its progress in [0, 1) and its angle in
    [0, 6.28]; the intro alpha stays in [0, 1]; the trace holds at most
    500 points, each inside the sweep's extent [-1.6, 1.6] x [-1.2, 1.2];
    the 150 particles keep t in [-0.5, 1] and a speed in [0.005, 0.015];
    the zoom distance stays in [5, 60] and the elevation in [-89, 89]. *)
Theorem crt3d_reachable_wf cos sin s :
  (forall x, -1 <= cos x <= 1) -> (forall x, -1 <= sin x <= 1) ->
  reachable cos sin s -> crt3_wf s.
Proof. intros Hc Hs. apply reachable_crt3_wf; assumption. Qed.

(** ** Beam timing *)

(** Sixty-six steps of [0.015f] stay below 1 and the 67th reaches it. *)
Lemma beam3D_ticks : ticks_per_stage beamSpeed 67 = true.
Proof. vm_compute. reflexivity. Qed.

(** A tick advances the beam exactly when the animation runs. *)
Lemma timer_beam cos sin s :
  beam (timer cos sin s) =
  if negb (showIntro s) && negb (paused s) then advance beamSpeed thetaStep thetaWrap (beam s) else beam s.
Proof.
  destruct s as [si sp b x y z a d h ps c]. unfold timer; cbn [showIntro paused beam introAlpha introEffectsDone].
  match goal with |- context [let '(_, _) := ?e in _] => destruct e as [a' d'] end.
  destruct (negb si && negb sp); [|reflexivity]. destruct (calculateBeam cos sin b) as [[bx by'] bz]. reflexivity.
Qed.

(** Each event leaves the beam alone, advances it, or resets it. *)
Lemma crt3_step_beam cos sin e s s' :
  crt_step cos sin e s = Some s' ->
  beam s' = beam s \/ beam s' = advance beamSpeed thetaStep thetaWrap (beam s) \/
  beam s' = reset_beam (beam s).
Proof.
  destruct e as [| |k|bt st mx my|mx my]; cbn; intros H.
  - inv_some. rewrite timer_beam. destruct (_ && _); auto.
  - inv_some. unfold display. destruct (showIntro s); auto.
  - unfold keyboard in H. destruct (k =? 27)%Z; [discriminate|]. inv_some.
    destruct (_ || _); destruct (_ || _); destruct (_ || _); cbn; auto.
  - inv_some. auto.
  - inv_some. auto.
Qed.

(** The progress of every reachable state is one of the 67 values a
    stage runs through. *)
Lemma reachable3_on_progress_seq cos sin s :
  reachable cos sin s -> on_progress_seq beamSpeed 67 (beam s).
Proof.
  induction 1 as [rnd Hr | e s s' _ IH Hstep].
  - exists 0%nat. split; [lia | reflexivity].
  - destruct (crt3_step_beam cos sin e s s' Hstep) as [-> | [-> | ->]];
      [exact IH | apply advance_on_seq, IH; exact beam3D_ticks | apply reset_on_seq, beam3D_ticks].
Qed.

(** C29. Liveness of the 3D beam: from any reachable running state, at
    most 201 timer ticks (67 ticks of 0.015f per stage) bring the beam to
    [STAGE_SCREEN], and it stays there on every later tick. *)
Theorem crt3d_beam_reaches_screen cos sin s :
  (forall x, -1 <= cos x <= 1) -> (forall x, -1 <= sin x <= 1) ->
  reachable cos sin s -> showIntro s = false -> paused s = false ->
  exists k, (k <= 201)%nat /\
    forall j, beamStage (beam (Nat.iter (j + k) (timer cos sin) s)) = STAGE_SCREEN.
Proof.
  intros Hc Hs Hr Hi Hp. destruct (reachable_crt3_wf cos sin Hc Hs s Hr) as ((Hb & _) & _).
  destruct (advance_reaches_screen beamSpeed thetaStep thetaWrap 67 beam3D_ticks (beam s) Hb
              (reachable3_on_progress_seq cos sin s Hr)) as (k & Hk & Hst).
  exists k. split.
  - unfold STAGE_SCREEN in *. nia.
  - intros j. destruct (iter_timer3_running cos sin (j + k) s Hi Hp) as (_ & _ & ->).
    rewrite Nat.iter_add. apply iter_advance_screen. exact Hst.
Qed.

(** Every point of the screen trace of a reachable state lands
    inside the HUD's inset square: [drawHUD] maps both coordinates into
    [0, 1] before scaling them by the inset size. *)
Theorem crt3d_trace_in_inset cos sin s :
  (forall x, -1 <= cos x <= 1) -> (forall x, -1 <= sin x <= 1) ->
  reachable cos sin s ->
  Forall (fun p => 0 <= inset_coord (fst p) <= 1 /\ 0 <= inset_coord (snd p) <= 1) (traceHistory s).
Proof.
  intros Hc Hs Hr. destruct (reachable_crt3_wf cos sin Hc Hs s Hr) as (_ & _ & _ & Ht & _).
  eapply Forall_impl; [|exact Ht]. intros [px py] [Hx Hy]; cbn in *.
  split; apply inset_coord_ok; lra.
Qed.

(** C13. A running tick on the screen records the tip of the beam as it
    was before the tick: [timer] calls [calculateBeam] before it moves
    the beam, stores that tip in [beamTipX/Y/Z], appends it to the trace
    (which grows by one up to 500 points), and only then advances. *)
Theorem crt3d_timer_records_tip_before_step cos sin s :
  showIntro s = false -> paused s = false -> beamStage (beam s) = STAGE_SCREEN ->
  (length (traceHistory s) <= TRACE_MAX)%nat ->
  (beamTipX (timer cos sin s), beamTipY (timer cos sin s), beamTipZ (timer cos sin s)) =
    calculateBeam cos sin (beam s) /\
  beam (timer cos sin s) = advance beamSpeed thetaStep thetaWrap (beam s) /\
  last_opt (traceHistory (timer cos sin s)) =
    Some (beamTipX (timer cos sin s), beamTipY (timer cos sin s)) /\
  length (traceHistory (timer cos sin s)) = Nat.min (S (length (traceHistory s))) TRACE_MAX.
Proof.
  destruct s as [si sp b x y z a d h ps c]; cbn [showIntro paused beam traceHistory].
  intros -> -> Hst Hl. unfold timer; cbn [showIntro paused beam introAlpha introEffectsDone andb negb].
  rewrite Hst, Z.eqb_refl.
  destruct (calculateBeam cos sin b) as [[bx by'] bz]; cbn [beamTipX beamTipY beamTipZ beam traceHistory].
  split; [reflexivity | split; [reflexivity | split]].
  - apply push_capped_last. unfold TRACE_MAX. lia.
  - apply push_capped_length_eq, Hl.
Qed.

(** C14. The [r] key leaves the drawn beam behind: it resets the stage
    and empties the trace, but does not recompute [beamTipX/Y/Z]; until a
    key starts or unpauses the animation, no tick, redisplay or mouse
    event moves the beam or the tip, so [drawBeam] keeps drawing the
    beam line and glow spot where they were before the reset. *)
Theorem crt3d_reset_keeps_stale_tip cos sin s s1 es s2 :
  keyboard 114 s = Some s1 -> forallb (fun e => negb (resumes e)) es = true ->
  run cos sin es s1 = Some s2 ->
  beam s2 = reset_beam (beam s) /\ traceHistory s1 = [] /\
  (beamTipX s2, beamTipY s2, beamTipZ s2) = (beamTipX s, beamTipY s, beamTipZ s).
Proof.
  intros Hk Hall Hrun. destruct (keyboard_reset s s1 Hk) as (Hp & Hb & Ht & Htip).
  destruct (run_paused_reset cos sin es s1 s2 (beam s) Hp Hb Hall Hrun) as [Hb2 Htip2].
  rewrite Htip2, Htip. auto.
Qed.

(** C15. The orbit camera: in every reachable state the eye that
    [display] passes to [gluLookAt] lies at distance [camDist] from the
    target (0, 0, 6), and that distance stays in [5, 60]. *)
Theorem crt3d_camera_orbit cos sin s :
  (forall x, cos x * cos x + sin x * sin x == 1) -> reachable cos sin s ->
  5 <= camDist (camera s) <= 60 /\
  let '((ex, ey, ez), (cx, cy, cz)) := lookAt cos sin (camera s) in
  (ex - cx) * (ex - cx) + (ey - cy) * (ey - cy) + (ez - cz) * (ez - cz) ==
    camDist (camera s) * camDist (camera s).
Proof.
  intros H Hr. pose proof (trig_bound cos sin H) as Hb.
  destruct (reachable_crt3_wf cos sin (fun x => proj1 (Hb x)) (fun x => proj2 (Hb x)) s Hr)
    as (_ & _ & _ & _ & _ & _ & Hc & _).
  split; [exact Hc | apply lookAt_dist, H].
Qed.

(** The mouse callback on every branch: the wheel (buttons 3 and
    4) moves [camDist] by one unit, any button leaves it clamped to
    [min 60 (max 5 d)]; the left button starts a drag (recording the
    cursor) when pressed and ends it when released. *)
Theorem crt3d_mouse_zoom b st x y c :
  camDist (mouse b st x y c) ==
    Qmin 60 (Qmax 5 (if (b =? 3)%Z then camDist c - 1
                     else if (b =? 4)%Z then camDist c + 1 else camDist c)) /\
  isDragging (mouse b st x y c) =
    (if (b =? GLUT_LEFT_BUTTON)%Z then (st =? GLUT_DOWN)%Z else isDragging c) /\
  ((b =? GLUT_LEFT_BUTTON)%Z && (st =? GLUT_DOWN)%Z = true ->
   lastMouseX (mouse b st x y c) = x /\ lastMouseY (mouse b st x y c) = y).
Proof.
  unfold mouse, GLUT_LEFT_BUTTON, GLUT_DOWN.
  destruct (Z.eqb_spec b 0); [subst; destruct (Z.eqb_spec st 0)|]; cbn [camDist isDragging lastMouseX lastMouseY];
    (split; [apply clamp_lo_hi; [lra|] | split; [reflexivity | try discriminate; auto]]);
    repeat match goal with |- context [Z.eqb ?u ?v] => destruct (Z.eqb_spec u v); try lia end;
    qnorm; try reflexivity; subst; lra.
Qed.

(** Dragging orbits the camera: while a drag is on, [motion] turns
    [camTheta] by half a degree per pixel of horizontal motion and
    [camPhi] by half a degree per pixel of vertical motion, clamped to
    [-89, 89], and records the cursor; without a drag nothing changes. *)
Theorem crt3d_motion_orbit x y c :
  (isDragging c = true ->
   camTheta (motion x y c) == camTheta c - inject_Z (x - lastMouseX c) * (1 # 2) /\
   camPhi (motion x y c) == Qmax (-89) (Qmin 89 (camPhi c + inject_Z (y - lastMouseY c) * (1 # 2))) /\
   camDist (motion x y c) = camDist c /\ lastMouseX (motion x y c) = x /\ lastMouseY (motion x y c) = y) /\
  (isDragging c = false -> motion x y c = c).
Proof.
  unfold motion. split; intros ->; [|reflexivity]. cbn [camTheta camPhi camDist lastMouseX lastMouseY].
  split; [qnorm; lra|]. split; [apply clamp_hi_lo; [lra | qnorm; lra] | auto].
Qed.

(** Witnesses, with cosine 1, sine 0 and every ratio [rand() / RAND_MAX]
    equal to 1/2. *)

Lemma crt3d_reachable_wf_witness :
  (forall x : Q, -1 <= (fun _ => 1) x <= 1) /\ (forall x : Q, -1 <= (fun _ => 0) x <= 1) /\
  reachable (fun _ => 1) (fun _ => 0) (init_state (fun _ => (1#2, 1#2, 1#2, 1#2))) /\
  crt3_wf (init_state (fun _ => (1#2, 1#2, 1#2, 1#2))).
Proof.
  assert (Hc : forall x : Q, -1 <= (fun _ => 1) x <= 1) by (intros; lra).
  assert (Hs : forall x : Q, -1 <= (fun _ => 0) x <= 1) by (intros; lra).
  assert (H : reachable (fun _ => 1) (fun _ => 0) (init_state (fun _ => (1#2, 1#2, 1#2, 1#2))))
    by (apply reach_init; intros i; cbn; lra).
  split; [exact Hc | split; [exact Hs | split; [exact H|]]].
  exact (crt3d_reachable_wf _ _ _ Hc Hs H).
Defined.

Lemma crt3d_beam_reaches_screen_witness :
  reachable (fun _ => 1) (fun _ => 0)
    (mkCRT3 false false beam_init 0 0 0 0 false [] (init (fun _ => (1#2, 1#2, 1#2, 1#2))) camera_init) /\
  exists k, (k <= 201)%nat /\
    forall j, beamStage (beam (Nat.iter (j + k) (timer (fun _ => 1) (fun _ => 0))
      (mkCRT3 false false beam_init 0 0 0 0 false [] (init (fun _ => (1#2, 1#2, 1#2, 1#2)))
              camera_init))) = STAGE_SCREEN.
Proof.
  assert (H : reachable (fun _ => 1) (fun _ => 0)
    (mkCRT3 false false beam_init 0 0 0 0 false [] (init (fun _ => (1#2, 1#2, 1#2, 1#2))) camera_init)).
  { apply (reach_step _ _ (Key 115) (init_state (fun _ => (1#2, 1#2, 1#2, 1#2))));
      [apply reach_init; intros i; cbn; lra | reflexivity]. }
  split; [exact H|].
  apply (crt3d_beam_reaches_screen (fun _ => 1) (fun _ => 0)); [intros; lra | intros; lra | exact H | reflexivity | reflexivity].
Defined.

Lemma crt3d_trace_in_inset_witness :
  exists s, run (fun _ => 1) (fun _ => 0) (Key 115 :: repeat Tick 210)
              (init_state (fun _ => (1#2, 1#2, 1#2, 1#2))) = Some s /\
    traceHistory s <> [] /\
    Forall (fun p => 0 <= inset_coord (fst p) <= 1 /\ 0 <= inset_coord (snd p) <= 1) (traceHistory s).
Proof.
  eexists. split; [vm_compute; reflexivity|]. split; [vm_compute; discriminate|].
  apply (crt3d_trace_in_inset (fun _ => 1) (fun _ => 0)); [intros; lra | intros; lra|].
  apply (reachable_run _ _ (Key 115 :: repeat Tick 210) (init_state (fun _ => (1#2, 1#2, 1#2, 1#2))));
    [apply reach_init; intros i; cbn; lra | vm_compute; reflexivity].
Defined.

Lemma crt3d_timer_records_tip_before_step_witness :
  let s := mkCRT3 false false (mkBeam STAGE_SCREEN (1#2) 0) 0 0 0 1 true [] [] camera_init in
  showIntro s = false /\ paused s = false /\ beamStage (beam s) = STAGE_SCREEN /\
  (length (traceHistory s) <= TRACE_MAX)%nat /\
  (beamTipX (timer (fun _ => 1) (fun _ => 0) s), beamTipY (timer (fun _ => 1) (fun _ => 0) s),
   beamTipZ (timer (fun _ => 1) (fun _ => 0) s)) = calculateBeam (fun _ => 1) (fun _ => 0) (beam s) /\
  beam (timer (fun _ => 1) (fun _ => 0) s) = advance beamSpeed thetaStep thetaWrap (beam s) /\
  last_opt (traceHistory (timer (fun _ => 1) (fun _ => 0) s)) =
    Some (beamTipX (timer (fun _ => 1) (fun _ => 0) s), beamTipY (timer (fun _ => 1) (fun _ => 0) s)) /\
  length (traceHistory (timer (fun _ => 1) (fun _ => 0) s)) =
    Nat.min (S (length (traceHistory s))) TRACE_MAX.
Proof.
  cbv zeta. do 3 (split; [reflexivity|]). split; [unfold TRACE_MAX; cbn; lia|].
  apply crt3d_timer_records_tip_before_step; [reflexivity | reflexivity | reflexivity | unfold TRACE_MAX; cbn; lia].
Defined.

Lemma crt3d_reset_keeps_stale_tip_witness :
  let s := mkCRT3 false false (mkBeam STAGE_SCREEN (1#2) 0) 1 0 10 1 true [(1, 0)] [] camera_init in
  exists s1 s2,
    keyboard 114 s = Some s1 /\
    forallb (fun e => negb (resumes e)) [Tick; Redraw; Mouse 3 0 0 0; Key 114] = true /\
    run (fun _ => 1) (fun _ => 0) [Tick; Redraw; Mouse 3 0 0 0; Key 114] s1 = Some s2 /\
    beam s2 = reset_beam (beam s) /\ traceHistory s1 = [] /\
    (beamTipX s2, beamTipY s2, beamTipZ s2) = (beamTipX s, beamTipY s, beamTipZ s).
Proof.
  cbv zeta. do 2 eexists.
  split; [reflexivity|]. split; [reflexivity|]. split; [vm_compute; reflexivity|].
  apply (crt3d_reset_keeps_stale_tip (fun _ => 1) (fun _ => 0) _ _ [Tick; Redraw; Mouse 3 0 0 0; Key 114]); [reflexivity | reflexivity | vm_compute; reflexivity].
Defined.

Lemma crt3d_camera_orbit_witness :
  (forall x : Q, (fun _ => 1) x * (fun _ => 1) x + (fun _ => 0) x * (fun _ => 0) x == 1) /\
  reachable (fun _ => 1) (fun _ => 0) (init_state (fun _ => (1#2, 1#2, 1#2, 1#2))) /\
  5 <= camDist camera_init <= 60 /\
  let '((ex, ey, ez), (cx, cy, cz)) := lookAt (fun _ => 1) (fun _ => 0) camera_init in
  (ex - cx) * (ex - cx) + (ey - cy) * (ey - cy) + (ez - cz) * (ez - cz) ==
    camDist camera_init * camDist camera_init.
Proof.
  assert (Ht : forall x : Q, (fun _ => 1) x * (fun _ => 1) x + (fun _ => 0) x * (fun _ => 0) x == 1)
    by (intros; reflexivity).
  assert (H : reachable (fun _ => 1) (fun _ => 0) (init_state (fun _ => (1#2, 1#2, 1#2, 1#2))))
    by (apply reach_init; intros i; cbn; lra).
  split; [exact Ht | split; [exact H|]].
  exact (crt3d_camera_orbit _ _ _ Ht H).
Defined.

Lemma crt3d_mouse_zoom_witness :
  camDist (mouse 3 0 0 0 (mkCamera 45 20 5 0 0 false)) == 5 /\
  camDist (mouse 4 0 0 0 (mkCamera 45 20 30 0 0 false)) == 31 /\
  isDragging (mouse 0 0 7 9 camera_init) = true /\ lastMouseX (mouse 0 0 7 9 camera_init) = 7%Z.
Proof.
  split; [rewrite (proj1 (crt3d_mouse_zoom 3 0 0 0 (mkCamera 45 20 5 0 0 false))); reflexivity|].
  split; [rewrite (proj1 (crt3d_mouse_zoom 4 0 0 0 (mkCamera 45 20 30 0 0 false))); reflexivity|].
  split; [exact (proj1 (proj2 (crt3d_mouse_zoom 0 0 7 9 camera_init)))|].
  exact (proj1 (proj2 (proj2 (crt3d_mouse_zoom 0 0 7 9 camera_init)) eq_refl)).
Defined.

Lemma crt3d_motion_orbit_witness :
  isDragging (mkCamera 45 88 28 0 0 true) = true /\
  camPhi (motion 10 10 (mkCamera 45 88 28 0 0 true)) == 89 /\
  camTheta (motion 10 10 (mkCamera 45 88 28 0 0 true)) == 40.
Proof.
  destruct (proj1 (crt3d_motion_orbit 10 10 (mkCamera 45 88 28 0 0 true)) eq_refl) as (Ht & Hp & _).
  split; [reflexivity|]. split; [rewrite Hp; reflexivity | rewrite Ht; reflexivity].
Defined.
