(* ===== verification/CRT3DFrame.v ===== *)
(** What the 3D CRT sketch draws (crt-simulation/CRT_3D.cpp): [display]
    and the routines it calls, as the [Draw.cmd] stream they issue, over
    the state of [CRT3D.Sim3D].  The tube is modelled as the GLUT cubes,
    GLU cylinders, matrix operations and vertex blocks the code submits;
    the HUD and the intro as 2D blocks and strings in window pixels.
    [cos] and [sin] are [Section] variables; [bitmapLength] gives the
    width in pixels of a string in a bitmap font; the window size read
    with [glutGet] is an argument. *)

From S2P Require Import Prelude QFloat Beam CRT3D Draw.
From Stdlib Require Strings.String.
Import String.StringSyntax.

Open Scope Q_scope.
Local Open Scope string_scope.

Module Frame3D.
Import Sim3D.

Definition PROJECT_TITLE : String.string := "SIMULATION OF CATHODE RAY TUBE (3D)".
Definition COURSE_NAME : String.string := "Computer Graphics Lab".
Definition COURSE_CODE : String.string := "18B17Cl575".
Definition MEMBERS : list String.string :=
  ["Ayush Thakur (231030143)"; "Krish Monga (231030134)";
   "Shashwat Bhardwaj (231030135)"; "Imon Chaudhary (231030136)"].

Section Frame.
Variables (cos sin : Q -> Q) (bitmapLength : font -> String.string -> Z).

(** [drawStringCentered]: in window pixels, the string starts half its
    width left of [cx]. *)
Definition drawStringCentered (cx y : Q) (s : String.string) (f : font) : list cmd :=
  if String.eqb s "" then []
  else [Text (fsub cx (fdiv (inject_Z (bitmapLength f s)) 2)) y f s].

Definition drawString (x y : Q) (s : String.string) : list cmd := [Text x y HELVETICA_12 s].

(** [drawLabelWithLeader]: a grey line from just below the text to the
    target, then the text in black. *)
Definition drawLabelWithLeader (textX textY textZ targetX targetY targetZ : Q) (text : String.string) : list cmd :=
  [Color 0.4 0.4 0.4 0.6; LineWidth 1;
   Prim3 GL_LINES [(textX, fsub textY 0.2, textZ); (targetX, targetY, targetZ)];
   Color 0 0 0 1; Text3 textX textY textZ HELVETICA_12 text].

(** [drawTechBox]: a unit cube scaled to [w] x [h] x [d], filled and
    outlined. *)
Definition drawTechBox (w h d r g b : Q) : list cmd :=
  [PushMatrix; Scale w h d; Color r g b 0.8; SolidCube 1;
   Color 0.1 0.1 0.1 1; LineWidth 1.5; WireCube 1.002; PopMatrix].

(** [drawCylinderPart]: a filled cylinder and a slightly larger wire one. *)
Definition drawCylinderPart (baseR topR height r g b alpha : Q) : list cmd :=
  [Color r g b alpha; Cylinder baseR topR height 32 true;
   Color 0.2 0.2 0.2 0.5; Cylinder (fmul baseR 1.001) (fmul topR 1.001) height 16 false].

(** The screen rectangle at z = 0 of its frame. *)
Definition screen_rect : list (Q * Q * Q) :=
  [(- (SCREEN_W / 2), - (SCREEN_H / 2), 0); (SCREEN_W / 2, - (SCREEN_H / 2), 0);
   (SCREEN_W / 2, SCREEN_H / 2, 0); (- (SCREEN_W / 2), SCREEN_H / 2, 0)].

(** [drawCRT]: gun, anodes, deflection plates, glass funnel, screen. *)
Definition drawCRT : list cmd :=
  [PushMatrix; Translate 0 0 (-0.5)] ++ drawTechBox 0.4 0.4 0.5 0.8 0.4 0.1 ++ [PopMatrix] ++
  drawLabelWithLeader 0 (-2) (-0.5) 0 (-0.2) (-0.5) "Heater / Filament" ++
  [PushMatrix; Translate 0 0 0.5] ++ drawTechBox 0.8 0.8 1 0.8 0.3 0.3 ++ [PopMatrix] ++
  drawLabelWithLeader (-2.5) 1.5 0.5 (-0.4) 0.4 0.5 "Cathode (Negative Potential)" ++
  [PushMatrix; Translate 0 0 2.5] ++ drawCylinderPart 0.5 0.5 2 0.7 0.7 0.7 0.9 ++ [PopMatrix] ++
  drawLabelWithLeader 2 2 3.5 0.5 0.5 3.5 "Focusing & Accelerating Anodes" ++
  [PushMatrix; Translate 0 0 5.5;
   PushMatrix; Translate 0 0.6 0] ++ drawTechBox 1 0.1 1.5 0.4 0.4 0.4 ++ [PopMatrix;
   PushMatrix; Translate 0 (-0.6) 0] ++ drawTechBox 1 0.1 1.5 0.4 0.4 0.4 ++ [PopMatrix;
   PopMatrix] ++
  drawLabelWithLeader 2.5 1 5.5 0.5 0.6 5.5 "Vertical Deflection Plates (Y-Plates)" ++
  [PushMatrix; Translate 0 0 7.5;
   PushMatrix; Translate (-0.6) 0 0] ++ drawTechBox 0.1 1 1.5 0.3 0.3 0.3 ++ [PopMatrix;
   PushMatrix; Translate 0.6 0 0] ++ drawTechBox 0.1 1 1.5 0.3 0.3 0.3 ++ [PopMatrix;
   PopMatrix] ++
  drawLabelWithLeader (-3) (-1.5) 7.5 (-0.6) 0 7.5 "Horizontal Deflection Plates (X-Plates)" ++
  [PushMatrix; Translate 0 0 8.5] ++ drawCylinderPart 0.6 2.5 4 0.8 0.9 1 0.15 ++ [PopMatrix] ++
  [PushMatrix; Translate 0 0 12.5;
   Color 0.9 0.95 0.9 0.9; Prim3 GL_QUADS screen_rect;
   Color 0.1 0.1 0.1 1; LineWidth 3; Prim3 GL_LINE_LOOP screen_rect;
   PopMatrix] ++
  drawLabelWithLeader 0 2.5 12.5 0 1.5 12.5 "Phosphor Coated Screen".

(** One particle of [drawBeam], after its update: no vertex when it is
    past the beam tip; otherwise its point on the axis, bent towards the
    sweep past the anodes and offset by its jitter. *)
Definition particle_point (b : Beam) (beamTipZ : Q) (p : Particle) : list (Q * Q * Q) :=
  let tGlobal := t p in
  let curZ := fmul tGlobal 12.5 in
  if fltb beamTipZ curZ then []
  else
    let tx := fmul (fdiv SCREEN_W 2.5) (cos (screenTheta b)) in
    let ty := fmul (fdiv SCREEN_H 2.5) (sin (fmul (screenTheta b) 2)) in
    let '(curX, curY) :=
      if fltb 5.5 curZ then
        let factor := fdiv (fsub curZ 5.5) (fsub 12.5 5.5) in
        (fmul tx factor, fmul ty factor)
      else (0, 0) in
    let curX := fadd curX (fmul (cos (fadd (offsetA p) curZ)) (offsetR p)) in
    let curY := fadd curY (fmul (sin (fadd (offsetA p) curZ)) (offsetR p)) in
    [(curX, curY, curZ)].

(** [drawBeam] on the state before [display] moves the particles: the
    deflection envelope past the anodes, the particles, the beam line
    through the tip, the glow spot, and the label once the tip is past
    z = 2. *)
Definition drawBeam (s : CRT3D) : list cmd :=
  let b := beam s in
  let tip := (beamTipX s, beamTipY s, beamTipZ s) in
  (if (beamStage b =? STAGE_SCREEN)%Z || (beamStage b =? STAGE_DEFLECTION)%Z then
     [PushMatrix; Color 0 0.5 1 0.05;
      Prim3 GL_TRIANGLE_FAN
        [(0, 0, 8.5); (- (SCREEN_W / 2), - (SCREEN_H / 2), 12.5); (SCREEN_W / 2, - (SCREEN_H / 2), 12.5);
         (SCREEN_W / 2, SCREEN_H / 2, 12.5); (- (SCREEN_W / 2), SCREEN_H / 2, 12.5);
         (- (SCREEN_W / 2), - (SCREEN_H / 2), 12.5)];
      PopMatrix]
   else []) ++
  [PointSize 4;
   Prim3 GL_POINTS (flat_map (particle_point b (beamTipZ s)) (map particle_step (particles s)));
   LineWidth 2; Color 0 0 1 0.6;
   Prim3 GL_LINE_STRIP [(0, 0, 0); (0, 0, 5.5); tip];
   PointSize 8; Color 0 1 1 1;
   Prim3 GL_POINTS [tip]] ++
  (if fltb 2 (beamTipZ s) then drawLabelWithLeader 2 (-2) 4 0 0 4 "Electron Beam" else []).

(** The inset of [drawHUD] in a [w]-pixel-wide window: its corner and
    the pixel position of a trace point. *)
Definition insetSize : Z := 150.
Definition margin : Z := 20.

Definition hud_point (w : Z) (p : Q * Q) : Q * Q :=
  let px := inject_Z (w - insetSize - margin) in
  let py := inject_Z margin in
  let nx := fdiv (fsub (fst p) mapMin) (fsub mapMax mapMin) in
  let ny := fdiv (fsub (snd p) mapMin) (fsub mapMax mapMin) in
  (fadd px (fmul nx (inject_Z insetSize)), fadd py (fmul ny (inject_Z insetSize))).

(** [drawHUD] in a [w] x [h] window: the help lines and the trace inset
    in window pixels, inside pushed projection and modelview matrices. *)
Definition drawHUD (w h : Z) (traceHistory : list (Q * Q)) : list cmd :=
  let px := inject_Z (w - insetSize - margin) in
  let py := inject_Z margin in
  let sz := inject_Z insetSize in
  [MatrixMode true; PushMatrix; Ortho 0 (inject_Z w) 0 (inject_Z h);
   MatrixMode false; PushMatrix; LoadIdentity; DepthTest false;
   Color 0.3 0.3 0.3 1] ++
  drawString 20 40 "Orbit: Left Mouse Drag  |  Zoom: Scroll" ++
  drawString 20 20 "Controls: [S] Start/Skip  [P] Pause  [R] Reset" ++
  [Color 1 1 1 1; Prim GL_QUADS [(px, py); (px + sz, py); (px + sz, py + sz); (px, py + sz)];
   LineWidth 2; Color 0.1 0.2 0.5 1;
   Prim GL_LINE_LOOP [(px, py); (px + sz, py); (px + sz, py + sz); (px, py + sz)];
   Color 0 0 0 1] ++
  drawString (px + 5) (py + sz - 15) "Screen Trace" ++
  [LineWidth 1.5; Prim GL_LINE_STRIP (map (hud_point w) traceHistory);
   DepthTest true; PopMatrix; MatrixMode true; PopMatrix; MatrixMode false].

(** [drawIntro] in a [w] x [h] window: a 40-pixel grid, then the texts
    centred on the window's middle column, placed from its centre row,
    with the start prompt 50 pixels above the bottom. *)
Definition drawIntro (w h : Z) (a : Q) : list cmd :=
  let cx := fdiv (inject_Z w) 2 in
  let cy := fdiv (inject_Z h) 2 in
  [MatrixMode true; PushMatrix; Ortho 0 (inject_Z w) 0 (inject_Z h);
   MatrixMode false; PushMatrix; LoadIdentity; DepthTest false;
   Color 0.9 0.9 0.95 1;
   Prim GL_LINES (flat_map (fun i => [(inject_Z i, 0); (inject_Z i, inject_Z h)]) (for_int 0 w 40) ++
                  flat_map (fun i => [(0, inject_Z i); (inject_Z w, inject_Z i)]) (for_int 0 h 40));
   Color 0 0.1 0.5 a] ++
  drawStringCentered cx (fadd cy 100) PROJECT_TITLE TIMES_ROMAN_24 ++
  [Color 0.2 0.2 0.2 a] ++
  drawStringCentered cx (fadd cy 60) COURSE_NAME HELVETICA_18 ++
  drawStringCentered cx (fadd cy 35) (String.append "Code: " COURSE_CODE) HELVETICA_18 ++
  drawStringCentered cx (fsub cy 20) "Group Members:" HELVETICA_18 ++
  flat_map (fun i => drawStringCentered cx (fsub (fsub cy 50) (inject_Z (Z.of_nat i * 25))) (nth i MEMBERS "")
                                        HELVETICA_18)
           (seq 0 (length MEMBERS)) ++
  [Color 0.6 0 0 a] ++
  drawStringCentered cx 50 "Press [S] to Start Simulation" HELVETICA_18 ++
  [DepthTest true; PopMatrix; MatrixMode true; PopMatrix; MatrixMode false].

(** The frame [display] draws in a [w] x [h] window: the intro, or the
    scene seen from the orbit camera with the HUD on top. *)
Definition frame (w h : Z) (s : CRT3D) : list cmd :=
  if showIntro s then drawIntro w h (introAlpha s)
  else
    let '(eye, center) := lookAt cos sin (camera s) in
    [LoadIdentity; LookAt eye center (0, 1, 0)] ++ drawCRT ++ drawBeam s ++ drawHUD w h (traceHistory s).

End Frame.

End Frame3D.

Import Frame3D Sim3D.

Module Frame3DFacts.

Lemma drawStringCentered_rows bl cx y m f :
  String.eqb m "" = false -> text_rows (drawStringCentered bl cx y m f) = [y].
Proof. intros Hm. unfold drawStringCentered. rewrite Hm. reflexivity. Qed.

(** The rows of the intro, from the centre row [cy = h / 2]. *)
Lemma drawIntro_rows bl w h a :
  text_rows (drawIntro bl w h a) =
  [fadd (fdiv (inject_Z h) 2) 100; fadd (fdiv (inject_Z h) 2) 60; fadd (fdiv (inject_Z h) 2) 35;
   fsub (fdiv (inject_Z h) 2) 20;
   fsub (fsub (fdiv (inject_Z h) 2) 50) 0; fsub (fsub (fdiv (inject_Z h) 2) 50) 25;
   fsub (fsub (fdiv (inject_Z h) 2) 50) 50; fsub (fsub (fdiv (inject_Z h) 2) 50) 75; 50].
Proof.
  unfold drawIntro, MEMBERS. cbn [seq length flat_map nth]. rewrite !DrawFacts.text_rows_app.
  rewrite !drawStringCentered_rows by reflexivity. reflexivity.
Qed.

(** The HUD's trace strip is the only 2D line strip of a frame. *)
Lemma frame3_line_strip cos sin bl w h s :
  showIntro s = false -> vertices_of GL_LINE_STRIP (frame cos sin bl w h s) = map (hud_point w) (traceHistory s).
Proof.
  intros Hs. unfold frame. rewrite Hs. destruct (lookAt cos sin (camera s)) as [eye center].
  rewrite !DrawFacts.vertices_of_app.
  assert (Hb : vertices_of GL_LINE_STRIP (drawBeam cos sin s) = []).
  { unfold drawBeam. rewrite !DrawFacts.vertices_of_app.
    destruct (_ || _); destruct (fltb 2 (beamTipZ s)); reflexivity. }
  assert (Hc : vertices_of GL_LINE_STRIP drawCRT = []) by reflexivity.
  rewrite Hb, Hc. unfold drawHUD. rewrite !DrawFacts.vertices_of_app. cbn -[hud_point].
  rewrite app_nil_r. reflexivity.
Qed.

(** A trace point of the sweep lands inside the inset square. *)
Lemma hud_point_inset w p :
  trace_ok p ->
  in_box (inject_Z (w - insetSize - margin)) (inject_Z (w - insetSize - margin) + inject_Z insetSize)
         (inject_Z margin) (inject_Z margin + inject_Z insetSize) (hud_point w p) = true.
Proof.
  destruct p as [x y]. unfold trace_ok, hud_point, mapMin, mapMax. cbn [fst snd]. intros [[? ?] [? ?]].
  apply in_box_spec. cbn [fst snd]. qexact.
  set (px := inject_Z (w - insetSize - margin)). clearbody px.
  setoid_replace ((x - -2.5) / (2.5 - -2.5)) with ((x + 2.5) * (1 # 5)) by (field; discriminate).
  setoid_replace ((y - -2.5) / (2.5 - -2.5)) with ((y + 2.5) * (1 # 5)) by (field; discriminate).
  unfold insetSize, margin. change (inject_Z 150) with 150. change (inject_Z 20) with 20.
  split; split; lra.
Qed.

(** Every 3D point of the beam frame that is not the glow spot is a
    particle at most as far down the tube as the tip. *)
Lemma particle_point_behind cos sin b z p v : In v (particle_point cos sin b z p) -> snd v <= z.
Proof.
  unfold particle_point. destruct (fltb_spec z (fmul (t p) 12.5)) as [|Hle]; [contradiction|].
  destruct (fltb 5.5 _); cbn; intros [<-|[]]; exact Hle.
Qed.

End Frame3DFacts.

(** C25. The 3D intro lays its text out from the window's centre row but
    puts the start prompt at a fixed 50 pixels: its nine rows run top
    to bottom at least 25 pixels apart exactly when the window is at
    least 400 pixels high.  In a lower window the last group member is
    printed onto or below the prompt (at 350 pixels, on the same row). *)
Theorem crt3d_intro_rows_iff bl w h a :
  length (text_rows (drawIntro bl w h a)) = 9%nat /\
  (chain (fun y1 y2 => y2 + 25 <= y1) (text_rows (drawIntro bl w h a)) <-> (400 <= h)%Z).
Proof.
  rewrite Frame3DFacts.drawIntro_rows. split; [reflexivity|].
  cbn [chain]. qexact. rewrite Zle_Qle.
  setoid_replace (inject_Z h / 2) with (inject_Z h * (1 # 2)) by field.
  change (inject_Z 400) with 400.
  split; [intros (_ & _ & _ & _ & _ & _ & _ & H & _); lra | intros H; repeat split; lra].
Qed.

(** Every trace point the HUD draws in a reachable state lies inside the
    150-pixel inset square in the bottom-right corner of the window. *)
Theorem crt3d_hud_trace_in_inset cos sin bl w h s :
  (forall a, -1 <= cos a <= 1) -> (forall a, -1 <= sin a <= 1) ->
  reachable cos sin s -> showIntro s = false ->
  vertices_of GL_LINE_STRIP (frame cos sin bl w h s) = map (hud_point w) (traceHistory s) /\
  Forall (fun p => in_box (inject_Z (w - 170)) (inject_Z (w - 20)) 20 170 p = true)
         (vertices_of GL_LINE_STRIP (frame cos sin bl w h s)).
Proof.
  intros Hc Hs Hr Hi. rewrite (Frame3DFacts.frame3_line_strip cos sin bl w h s Hi). split; [reflexivity|].
  destruct (reachable_crt3_wf cos sin Hc Hs s Hr) as (_ & _ & _ & Ht & _).
  apply Forall_map. eapply Forall_impl; [|exact Ht]. intros p Hp.
  pose proof (Frame3DFacts.hud_point_inset w p Hp) as H. unfold insetSize, margin in H.
  rewrite in_box_spec in H |- *. rewrite <- !inject_Z_plus in H.
  replace (w - 150 - 20 + 150)%Z with (w - 20)%Z in H by lia.
  replace (w - 150 - 20)%Z with (w - 170)%Z in H by lia. exact H.
Qed.

(** No particle is drawn ahead of the beam: every point of the frame's
    3D [GL_POINTS] blocks (the particles and the glow spot) lies at most
    as far down the tube as the beam tip. *)
Theorem crt3d_particles_behind_tip cos sin bl w h s :
  showIntro s = false ->
  Forall (fun v => snd v <= beamTipZ s) (vertices3_of GL_POINTS (frame cos sin bl w h s)).
Proof.
  intros Hi. unfold frame. rewrite Hi. destruct (lookAt cos sin (camera s)) as [eye center].
  unfold vertices3_of. rewrite !flat_map_app.
  apply Forall_app; split; [constructor|]. apply Forall_app; split; [apply Forall_nil|].
  apply Forall_app; split.
  - unfold drawBeam. rewrite !flat_map_app. apply Forall_app; split; [destruct (_ || _); repeat constructor|].
    apply Forall_app; split; [|destruct (fltb 2 _); repeat constructor].
    cbn [flat_map primitive_beq app]. apply Forall_app; split.
    + apply Forall_forall. intros v Hv. apply in_flat_map in Hv as (p & _ & Hp).
      exact (Frame3DFacts.particle_point_behind cos sin _ _ _ _ Hp).
    + repeat constructor. apply Qle_refl.
  - apply Forall_nil.
Qed.
