(* ===== verification/Clip.v ===== *)
(** Line clipping against an axis-aligned window: Cohen-Sutherland
    (CG LAB/Exp-13) and Liang-Barsky (CG LAB/Exp-14).  Coordinates are
    [double]s, modelled as exact rationals ([QFloat]).  The [while (true)]
    loop of Cohen-Sutherland may not terminate, so it runs on fuel:
    [None] means that the loop has not returned within the fuel.  The
    line Exp-13's [main] prints uses the [Console] model of
    [fixed << setprecision(2)]. *)

From S2P Require Import Prelude QFloat Console.
From Stdlib Require Strings.String.
Import String.StringSyntax.

Open Scope Q_scope.

Module CohenSutherland.

(** The region-code bits of the [#define]s. *)
Definition INSIDE : Z := 0.
Definition LEFT : Z := 1.
Definition RIGHT : Z := 2.
Definition BOTTOM : Z := 4.
Definition TOP : Z := 8.

Record Point := mkPoint { x : Q; y : Q }.
Record Rectangle := mkRect { xMin : Q; yMin : Q; xMax : Q; yMax : Q }.

(** [computeCode], reading the global [clipWindow] as [w]. *)
Definition computeCode (w : Rectangle) (p : Point) : Z :=
  let code := INSIDE in
  let code := if fltb (x p) (xMin w) then Z.lor code LEFT
              else if fltb (xMax w) (x p) then Z.lor code RIGHT else code in
  let code := if fltb (y p) (yMin w) then Z.lor code BOTTOM
              else if fltb (yMax w) (y p) then Z.lor code TOP else code in
  code.

(** The slope of the loop body, with [1e10] for a segment whose [dx]
    is below [1e-10]. *)
Definition slope (p1 p2 : Point) : Q :=
  let dx := fsub (x p2) (x p1) in
  let dy := fsub (y p2) (y p1) in
  if fltb (fabs dx) (1 # 10000000000) then 10000000000 else fdiv dy dx.

(** One pass of the [while (true)] body: [inl] is a [return] of the
    function, [inr] the endpoints and codes for the next pass. *)
Definition cs_iter (w : Rectangle) (p1 p2 : Point) (code1 code2 : Z)
  : bool + (Point * Point * Z * Z) :=
  if (Z.lor code1 code2 =? 0)%Z then inl true
  else if negb (Z.land code1 code2 =? 0)%Z then inl false
  else
    let codeOut := if negb (code1 =? 0)%Z then code1 else code2 in
    let m := slope p1 p2 in
    let '(xi, yi) :=
      if negb (Z.land codeOut TOP =? 0)%Z then
        (fadd (x p1) (fmul (fdiv 1 m) (fsub (yMax w) (y p1))), yMax w)
      else if negb (Z.land codeOut BOTTOM =? 0)%Z then
        (fadd (x p1) (fmul (fdiv 1 m) (fsub (yMin w) (y p1))), yMin w)
      else if negb (Z.land codeOut RIGHT =? 0)%Z then
        (xMax w, fadd (y p1) (fmul m (fsub (xMax w) (x p1))))
      else
        (xMin w, fadd (y p1) (fmul m (fsub (xMin w) (x p1)))) in
    if (codeOut =? code1)%Z
    then inr (mkPoint xi yi, p2, computeCode w (mkPoint xi yi), code2)
    else inr (p1, mkPoint xi yi, code1, computeCode w (mkPoint xi yi)).

(** The loop, on at most [fuel] passes; the result is the returned
    [bool] and the endpoints [p1], [p2] that the function updates by
    reference. *)
Fixpoint cs_loop (fuel : nat) (w : Rectangle) (p1 p2 : Point) (code1 code2 : Z)
  : option (bool * Point * Point) :=
  match fuel with
  | O => None
  | S fuel' =>
      match cs_iter w p1 p2 code1 code2 with
      | inl b => Some (b, p1, p2)
      | inr (p1', p2', c1, c2) => cs_loop fuel' w p1' p2' c1 c2
      end
  end.

Definition cohenSutherlandClip (fuel : nat) (w : Rectangle) (p1 p2 : Point)
  : option (bool * Point * Point) :=
  cs_loop fuel w p1 p2 (computeCode w p1) (computeCode w p2).

(** A point of the closed window, the region of code [INSIDE]. *)
Definition inside (w : Rectangle) (p : Point) : Prop :=
  xMin w <= x p <= xMax w /\ yMin w <= y p <= yMax w.

(** The point [a + t (b - a)] of the segment. *)
Definition lerp (a b : Point) (t : Q) : Point :=
  mkPoint (x a + t * (x b - x a)) (y a + t * (y b - y a)).

(** [main] after reading the window and the segment: [clippedA],
    [clippedB] start as copies of [A], [B] and [visible] is the result
    of the clip; [None] while the loop has not returned. *)
Definition main (fuel : nat) (clipWindow : Rectangle) (A B : Point) : option (bool * Point * Point) :=
  let clippedA := A in
  let clippedB := B in
  cohenSutherlandClip fuel clipWindow clippedA clippedB.

Local Open Scope string_scope.

(** What [main] prints once the clip has returned: the clipped
    endpoints with two decimals, or the rejection. *)
Definition main_output (fuel : nat) (clipWindow : Rectangle) (A B : Point) : option Ostream.str :=
  option_map (fun r : bool * Point * Point =>
                let '(visible, clippedA, clippedB) := r in
                if visible then
                  Ostream.cat ["Clipped line: ("; Ostream.show_fixed 2 (x clippedA); ","; Ostream.show_fixed 2 (y clippedA);
                               ") to ("; Ostream.show_fixed 2 (x clippedB); ","; Ostream.show_fixed 2 (y clippedB);
                               ")"; Ostream.newline]
                else Ostream.cat ["Line rejected (completely outside)."; Ostream.newline])
             (main fuel clipWindow A B).

Local Close Scope string_scope.

(** The endpoint that [p1 = (xMin, y1)] becomes after its [TOP] pass on
    a vertical segment at [x = xMin]. *)
Definition hangB (w : Rectangle) (y1 : Q) : Point :=
  mkPoint (fadd (xMin w) (fmul (fdiv 1 10000000000) (fsub (yMax w) y1))) (yMax w).

(** [normalizeX], [normalizeY]: world coordinates over [0, 15] to the
    [gluOrtho2D(0, 1, 0, 1)] view. *)
Definition normalizeX (x : Q) : Q := fdiv (fsub x 0) (fsub 15 0).
Definition normalizeY (y : Q) : Q := fdiv (fsub y 0) (fsub 15 0).
Definition normalize (p : Point) : Q * Q := (normalizeX (x p), normalizeY (y p)).

(** [display]: the clip window's outline, the original segment, and the
    clipped segment when [visible]. *)
Definition display (clipWindow : Rectangle) (A B : Point) (visible : bool) (clippedA clippedB : Point)
  : list (primitive * list (Q * Q)) :=
  [(GL_LINE_LOOP,
    [(normalizeX (xMin clipWindow), normalizeY (yMin clipWindow));
     (normalizeX (xMax clipWindow), normalizeY (yMin clipWindow));
     (normalizeX (xMax clipWindow), normalizeY (yMax clipWindow));
     (normalizeX (xMin clipWindow), normalizeY (yMax clipWindow))]);
   (GL_LINES, [normalize A; normalize B])] ++
  (if visible then [(GL_LINES, [normalize clippedA; normalize clippedB])] else []).

End CohenSutherland.

Module LiangBarsky.

(** [class LiangBarsky]: the window, the segment, the clipped segment
    and [isClipped].  The constructor leaves [cx1 .. cy2] unset; they
    are read only once [clipLine] has set [isClipped], and start at 0
    here. *)
Record LiangBarsky := mkLB {
  xMin : Q; xMax : Q; yMin : Q; yMax : Q;
  x1 : Q; y1 : Q; x2 : Q; y2 : Q;
  cx1 : Q; cy1 : Q; cx2 : Q; cy2 : Q;
  isClipped : bool
}.

Definition make (xmin xmax ymin ymax X1 Y1 X2 Y2 : Q) : LiangBarsky :=
  mkLB xmin xmax ymin ymax X1 Y1 X2 Y2 0 0 0 0 false.

(** The tolerance [1e-9] of the parallel test. *)
Definition EPS : Q := 1 # 1000000000.

(** One pass of the [for] loop on the pair [(p[i], q[i])]: [None] is
    [accept = false; break;]. *)
Definition lb_edge (pq : Q * Q) (t : Q * Q) : option (Q * Q) :=
  let '(p, q) := pq in
  let '(t1, t2) := t in
  if fltb (fabs p) EPS && fltb q 0 then None
  else if fltb EPS (fabs p) then
    let r := fdiv q p in
    if fltb p 0 then Some (cmax t1 r, t2) else Some (t1, cmin t2 r)
  else Some (t1, t2).

Fixpoint lb_loop (pqs : list (Q * Q)) (t : Q * Q) : option (Q * Q) :=
  match pqs with
  | [] => Some t
  | pq :: rest => match lb_edge pq t with Some t' => lb_loop rest t' | None => None end
  end.

(** The arrays [p] and [q] of [clipLine], paired. *)
Definition lb_pq (lb : LiangBarsky) : list (Q * Q) :=
  let dx := fsub (x2 lb) (x1 lb) in
  let dy := fsub (y2 lb) (y1 lb) in
  [(- dx, fsub (x1 lb) (xMin lb)); (dx, fsub (xMax lb) (x1 lb));
   (- dy, fsub (y1 lb) (yMin lb)); (dy, fsub (yMax lb) (y1 lb))].

Definition clipLine (lb : LiangBarsky) : LiangBarsky :=
  let dx := fsub (x2 lb) (x1 lb) in
  let dy := fsub (y2 lb) (y1 lb) in
  let rejected := mkLB (xMin lb) (xMax lb) (yMin lb) (yMax lb) (x1 lb) (y1 lb) (x2 lb) (y2 lb)
                       (cx1 lb) (cy1 lb) (cx2 lb) (cy2 lb) false in
  match lb_loop (lb_pq lb) (0, 1) with
  | None => rejected
  | Some (t1, t2) =>
      if fltb t2 t1 then rejected
      else mkLB (xMin lb) (xMax lb) (yMin lb) (yMax lb) (x1 lb) (y1 lb) (x2 lb) (y2 lb)
                (fadd (x1 lb) (fmul t1 dx)) (fadd (y1 lb) (fmul t1 dy))
                (fadd (x1 lb) (fmul t2 dx)) (fadd (y1 lb) (fmul t2 dy)) true
  end.

(** The projection box of [main]: the window and both endpoints, with
    a margin of one unit ([std::min] and [std::max] of three values). *)
Definition viewBox (lb : LiangBarsky) : Q * Q * Q * Q :=
  let minX := cmin (cmin (xMin lb) (x1 lb)) (x2 lb) - 1 in
  let maxX := cmax (cmax (xMax lb) (x1 lb)) (x2 lb) + 1 in
  let minY := cmin (cmin (yMin lb) (y1 lb)) (y2 lb) - 1 in
  let maxY := cmax (cmax (yMax lb) (y1 lb)) (y2 lb) + 1 in
  (minX, maxX, minY, maxY).

(** [main]: the object built from the input, clipped, and the
    projection box of the window that shows it. *)
Definition main (xmin xmax ymin ymax x1 y1 x2 y2 : Q) : LiangBarsky * (Q * Q * Q * Q) :=
  let lb := clipLine (make xmin xmax ymin ymax x1 y1 x2 y2) in
  (lb, viewBox lb).

(** [drawRectangle] and [drawLine]: the window outline and a segment. *)
Definition drawRectangle (xmin xmax ymin ymax : Q) : primitive * list (Q * Q) :=
  (GL_LINE_LOOP, [(xmin, ymin); (xmax, ymin); (xmax, ymax); (xmin, ymax)]).

Definition drawLine (x1 y1 x2 y2 : Q) : primitive * list (Q * Q) := (GL_LINES, [(x1, y1); (x2, y2)]).

(** [display]: the window, the original segment, and the clipped one
    when [isClipped]. *)
Definition display (lb : LiangBarsky) : list (primitive * list (Q * Q)) :=
  [drawRectangle (xMin lb) (xMax lb) (yMin lb) (yMax lb); drawLine (x1 lb) (y1 lb) (x2 lb) (y2 lb)] ++
  (if isClipped lb then [drawLine (cx1 lb) (cy1 lb) (cx2 lb) (cy2 lb)] else []).

(** The point of parameter [t] on the segment, and the closed window. *)
Definition at_param (lb : LiangBarsky) (t : Q) : Q * Q :=
  (x1 lb + t * (x2 lb - x1 lb), y1 lb + t * (y2 lb - y1 lb)).

Definition in_window (lb : LiangBarsky) (pt : Q * Q) : Prop :=
  xMin lb <= fst pt <= xMax lb /\ yMin lb <= snd pt <= yMax lb.

(** A direction component the loop classifies correctly: exactly zero
    (parallel to the edges it concerns) or above the tolerance. *)
Definition resolved (d : Q) : Prop := d == 0 \/ EPS < Qabs d.

End LiangBarsky.

Module CSProofs.

(** [normalizeX] and [normalizeY] put exactly [[0, 15]] in the view. *)
Lemma in_unit_normalize a b :
  in_box 0 1 0 1 (CohenSutherland.normalizeX a, CohenSutherland.normalizeY b) = true <-> (0 <= a <= 15 /\ 0 <= b <= 15).
Proof.
  rewrite in_box_spec. unfold CohenSutherland.normalizeX, CohenSutherland.normalizeY. cbn [fst snd]. qexact.
  setoid_replace ((a - 0) / (15 - 0)) with (a * (1 # 15)) by (field; discriminate).
  setoid_replace ((b - 0) / (15 - 0)) with (b * (1 # 15)) by (field; discriminate).
  split; intros [[? ?] [? ?]]; repeat split; lra.
Qed.
Import CohenSutherland.

(** * Cohen-Sutherland *)

Section Window.
Variable w : Rectangle.

(** Each bit of the region code records a strict violation of one
    edge; code [INSIDE] is the closed window. *)
Lemma computeCode_inside p : computeCode w p = INSIDE -> inside w p.
Proof.
  unfold computeCode, inside, INSIDE, LEFT, RIGHT, BOTTOM, TOP.
  qcase; cbn; intros Hc; try discriminate Hc; split; split; lra.
Qed.

(** Two codes that share a bit put both endpoints strictly beyond the
    same edge. *)
Lemma computeCode_common p1 p2 :
  Z.land (computeCode w p1) (computeCode w p2) <> 0%Z ->
  (x p1 < xMin w /\ x p2 < xMin w) \/ (xMax w < x p1 /\ xMax w < x p2) \/
  (y p1 < yMin w /\ y p2 < yMin w) \/ (yMax w < y p1 /\ yMax w < y p2).
Proof.
  unfold computeCode, INSIDE, LEFT, RIGHT, BOTTOM, TOP.
  destruct (fltb_spec (x p1) (xMin w)); destruct (fltb_spec (xMax w) (x p1));
  destruct (fltb_spec (y p1) (yMin w)); destruct (fltb_spec (yMax w) (y p1));
  destruct (fltb_spec (x p2) (xMin w)); destruct (fltb_spec (xMax w) (x p2));
  destruct (fltb_spec (y p2) (yMin w)); destruct (fltb_spec (yMax w) (y p2));
  cbn; intros Hc; first [ exfalso; apply Hc; reflexivity | tauto ].
Qed.

(** The points of a segment between two points beyond an edge are
    beyond it too. *)
Lemma lerp_lt a b c t : a < c -> b < c -> 0 <= t <= 1 -> a + t * (b - a) < c.
Proof.
  intros Ha Hb Ht. assert (H2 : 0 <= (1 - t) * (c - a)) by nra.
  destruct (Qlt_le_dec 0 t); [assert (0 < t * (c - b)) by nra | assert (t == 0) by lra]; nra.
Qed.

Lemma lerp_gt a b c t : c < a -> c < b -> 0 <= t <= 1 -> c < a + t * (b - a).
Proof.
  intros Ha Hb Ht. assert (H2 : 0 <= (1 - t) * (a - c)) by nra.
  destruct (Qlt_le_dec 0 t); [assert (0 < t * (b - c)) by nra | assert (t == 0) by lra]; nra.
Qed.

(** Every pass keeps [code1], [code2] the codes of [p1], [p2]. *)
Lemma cs_iter_codes p1 p2 p1' p2' c1' c2' :
  cs_iter w p1 p2 (computeCode w p1) (computeCode w p2) = inr (p1', p2', c1', c2') ->
  c1' = computeCode w p1' /\ c2' = computeCode w p2'.
Proof.
  unfold cs_iter. destruct (Z.lor _ _ =? 0)%Z; [discriminate|].
  destruct (negb _); [discriminate|].
  match goal with |- context [let '(_, _) := ?e in _] => destruct e as [xi yi] end.
  destruct (_ =? computeCode w p1)%Z; intros H; injection H as <- <- <- <-; auto.
Qed.

Lemma cs_loop_accept fuel p1 p2 q1 q2 :
  cs_loop fuel w p1 p2 (computeCode w p1) (computeCode w p2) = Some (true, q1, q2) ->
  inside w q1 /\ inside w q2.
Proof.
  revert p1 p2; induction fuel as [|fuel IH]; intros p1 p2 H; [discriminate|].
  cbn in H. destruct (cs_iter w p1 p2 _ _) as [b|[[[p1' p2'] c1'] c2']] eqn:E.
  - inv_some. unfold cs_iter in E. destruct (Z.eqb_spec (Z.lor (computeCode w q1) (computeCode w q2)) 0) as [Hz|_].
    + apply Z.lor_eq_0_iff in Hz as [H1 H2]. split; apply computeCode_inside; assumption.
    + destruct (negb _); [discriminate|].
      match goal with E : context [let '(_, _) := ?e in _] |- _ => destruct e end.
      destruct (_ =? _)%Z; discriminate.
  - destruct (cs_iter_codes p1 p2 p1' p2' c1' c2' E) as [-> ->]. exact (IH _ _ H).
Qed.

Lemma cs_reject_outside p1 p2 t :
  Z.land (computeCode w p1) (computeCode w p2) <> 0%Z -> 0 <= t <= 1 ->
  ~ inside w (lerp p1 p2 t).
Proof.
  intros Hc Ht. unfold inside, lerp; cbn [x y]. intros [[Hx1 Hx2] [Hy1 Hy2]].
  destruct (computeCode_common p1 p2 Hc) as [[H1 H2]|[[H1 H2]|[[H1 H2]|[H1 H2]]]].
  - pose proof (lerp_lt _ _ _ t H1 H2 Ht). lra.
  - pose proof (lerp_gt _ _ _ t H1 H2 Ht). lra.
  - pose proof (lerp_lt _ _ _ t H1 H2 Ht). lra.
  - pose proof (lerp_gt _ _ _ t H1 H2 Ht). lra.
Qed.

(** ** The left-edge cycle *)

Lemma fdiv_1_1e10 : fdiv 1 10000000000 = 1 # 10000000000.
Proof. reflexivity. Qed.

(** A segment with no horizontal extent takes the slope [1e10]; so does
    one whose [dx] is positive and below [1e-10]. *)
Lemma slope_small p1 p2 :
  0 <= x p2 - x p1 < 1 # 10000000000 -> slope p1 p2 = 10000000000.
Proof.
  intros Hd. unfold slope, fabs. destruct (fltb_spec (Qabs (fsub (x p2) (x p1))) (1 # 10000000000));
    [reflexivity|].
  exfalso. rewrite fsub_eq in *. rewrite Qabs_pos in * by lra. lra.
Qed.

Hypothesis Hx : xMin w <= xMax w.
Hypothesis Hy : yMin w <= yMax w.

Lemma hang_code_top y1 : yMax w < y1 -> computeCode w (mkPoint (xMin w) y1) = TOP.
Proof. intros H1. unfold computeCode; cbn [x y]. qcase; try lra; reflexivity. Qed.

Lemma hang_code_inside y2 : yMin w <= y2 <= yMax w -> computeCode w (mkPoint (xMin w) y2) = INSIDE.
Proof. intros H2. unfold computeCode; cbn [x y]. qcase; try lra; reflexivity. Qed.

Lemma hang_code_left y1 : yMax w < y1 -> computeCode w (hangB w y1) = LEFT.
Proof.
  intros H1. unfold computeCode, hangB; cbn [x y]. rewrite fdiv_1_1e10.
  qcase; qnorm; try lra; reflexivity.
Qed.

Lemma hang_stepA y1 y2 :
  yMax w < y1 -> yMin w <= y2 <= yMax w ->
  cs_iter w (mkPoint (xMin w) y1) (mkPoint (xMin w) y2) TOP INSIDE =
  inr (hangB w y1, mkPoint (xMin w) y2, LEFT, INSIDE).
Proof.
  intros H1 H2. unfold cs_iter. rewrite slope_small by (cbn [x]; lra).
  cbn -[fadd fsub fmul fdiv computeCode]. rewrite <- (hang_code_left y1 H1). reflexivity.
Qed.

Lemma hang_stepB y1 y2 :
  yMax w < y1 < yMax w + 1 -> yMin w <= y2 <= yMax w ->
  exists y1', y1' == y1 /\
    cs_iter w (hangB w y1) (mkPoint (xMin w) y2) LEFT INSIDE =
    inr (mkPoint (xMin w) y1', mkPoint (xMin w) y2, TOP, INSIDE).
Proof.
  intros H1 H2. unfold cs_iter.
  rewrite slope_small by (unfold hangB; cbn [x]; rewrite fdiv_1_1e10; qnorm; lra).
  cbn -[fadd fsub fmul fdiv computeCode hangB].
  eexists. split; [|rewrite hang_code_top; [reflexivity|]];
    unfold hangB; cbn [x y]; rewrite fdiv_1_1e10; qnorm; lra.
Qed.

(** From the top endpoint or from its [LEFT] image, the loop never
    returns. *)
Lemma hang_loop fuel y1 y2 :
  yMax w < y1 < yMax w + 1 -> yMin w <= y2 <= yMax w ->
  cs_loop fuel w (mkPoint (xMin w) y1) (mkPoint (xMin w) y2) TOP INSIDE = None /\
  cs_loop fuel w (hangB w y1) (mkPoint (xMin w) y2) LEFT INSIDE = None.
Proof.
  revert y1; induction fuel as [|fuel IH]; intros y1 H1 H2; [split; reflexivity|].
  destruct (hang_stepB y1 y2 H1 H2) as (y1' & Hy1 & EB).
  cbn [cs_loop]. rewrite hang_stepA, EB by lra. split.
  - apply (IH y1 H1 H2).
  - apply (IH y1'); lra.
Qed.

End Window.

End CSProofs.

Module LBProofs.
Import LiangBarsky.

(** * Liang-Barsky *)

(** The constraint [p t <= q] of an edge, as a bound on [t]. *)
Lemma edge_neg p q t : p < 0 -> (p * t <= q <-> q / p <= t).
Proof.
  intros Hp. assert (E : q == q / p * p) by (field; lra).
  split; intros H.
  - rewrite E in H. nra.
  - rewrite E. nra.
Qed.

Lemma edge_pos p q t : 0 < p -> (p * t <= q <-> t <= q / p).
Proof.
  intros Hp. assert (E : q == q / p * p) by (field; lra).
  split; intros H.
  - rewrite E in H. nra.
  - rewrite E. nra.
Qed.

(** One pass of the loop intersects the parameter interval with the
    edge's half-plane, or rejects when no parameter satisfies it. *)
Lemma lb_edge_spec p q t1 t2 :
  resolved p ->
  match lb_edge (p, q) (t1, t2) with
  | None => forall t, ~ p * t <= q
  | Some (t1', t2') => forall t, (t1 <= t <= t2 /\ p * t <= q) <-> t1' <= t <= t2'
  end.
Proof.
  unfold lb_edge, fabs, resolved, EPS. intros Hr.
  destruct (fltb_spec (Qabs p) (1 # 1000000000)) as [Ha|Ha];
    destruct (fltb_spec q 0) as [Hq|Hq]; cbn [andb].
  - intros t. destruct Hr as [Hp|Hp]; [|lra]. rewrite Hp. lra.
  - destruct (fltb_spec (1 # 1000000000) (Qabs p)); [lra|].
    intros t. destruct Hr as [Hp|Hp]; [|lra]. rewrite Hp. lra.
  - destruct (fltb_spec (1 # 1000000000) (Qabs p)) as [Hb|Hb]; [|destruct Hr as [Hp0|Hp0]; [rewrite Hp0 in Ha; cbn in Ha; lra | lra]].
    destruct (fltb_spec p 0) as [Hp|Hp]; intros t.
    + rewrite edge_neg by lra. rewrite cmax_spec, fdiv_eq. 
      destruct (Q.max_spec t1 (q / p)) as [[? ->]|[? ->]]; lra.
    + assert (Hp' : 0 < p) by (destruct (Qlt_le_dec 0 p); [lra|];
        rewrite Qabs_neg in Hb by lra; lra).
      rewrite edge_pos by lra. rewrite cmin_spec, fdiv_eq.
      destruct (Q.min_spec t2 (q / p)) as [[? ->]|[? ->]]; lra.
  - destruct (fltb_spec (1 # 1000000000) (Qabs p)) as [Hb|Hb]; [|destruct Hr as [Hp0|Hp0]; [rewrite Hp0 in Ha; cbn in Ha; lra | lra]].
    destruct (fltb_spec p 0) as [Hp|Hp]; intros t.
    + rewrite edge_neg by lra. rewrite cmax_spec, fdiv_eq.
      destruct (Q.max_spec t1 (q / p)) as [[? ->]|[? ->]]; lra.
    + assert (Hp' : 0 < p) by (destruct (Qlt_le_dec 0 p); [lra|];
        rewrite Qabs_neg in Hb by lra; lra).
      rewrite edge_pos by lra. rewrite cmin_spec, fdiv_eq.
      destruct (Q.min_spec t2 (q / p)) as [[? ->]|[? ->]]; lra.
Qed.

(** The parameters [t] that satisfy every edge constraint [p t <= q]. *)
Definition sat (pqs : list (Q * Q)) (t : Q) : Prop := Forall (fun pq => fst pq * t <= snd pq) pqs.

Lemma lb_loop_spec pqs t1 t2 :
  Forall (fun pq => resolved (fst pq)) pqs ->
  match lb_loop pqs (t1, t2) with
  | None => forall t, ~ sat pqs t
  | Some (T1, T2) => forall t, (t1 <= t <= t2 /\ sat pqs t) <-> T1 <= t <= T2
  end.
Proof.
  unfold sat. revert t1 t2; induction pqs as [|[p q] pqs IH]; intros t1 t2 Hr.
  - cbn. intros t. split; [tauto | intros H; split; [exact H | constructor]].
  - inversion Hr as [|? ? Hp Hr']; subst. cbn [lb_loop].
    pose proof (lb_edge_spec p q t1 t2 Hp) as He.
    destruct (lb_edge (p, q) (t1, t2)) as [[t1' t2']|].
    + specialize (IH t1' t2' Hr'). destruct (lb_loop pqs (t1', t2')) as [[T1 T2]|].
      * intros t. rewrite <- IH, <- He, Forall_cons_iff. cbn [fst snd]. tauto.
      * intros t Hs. apply Forall_cons_iff in Hs as [_ Hs]. exact (IH t Hs).
    + intros t Hs. apply Forall_cons_iff in Hs as [Hs _]. exact (He t Hs).
Qed.

Lemma resolved_compat d d' : d == d' -> resolved d -> resolved d'.
Proof. unfold resolved. intros E [H|H]; [left; lra | right; rewrite <- E; exact H]. Qed.

Lemma resolved_opp d : resolved d -> resolved (- d).
Proof. unfold resolved. rewrite Qabs_opp. intros [H|H]; [left; lra | right; exact H]. Qed.

(** The four constraints of [clipLine] describe the window. *)
Lemma sat_window lb t : sat (lb_pq lb) t <-> in_window lb (at_param lb t).
Proof.
  unfold sat, lb_pq, in_window, at_param. rewrite !Forall_cons_iff. cbn [fst snd].
  qnorm. split.
  - intros (H1 & H2 & H3 & H4 & _). split; split; lra.
  - intros [[H1 H2] [H3 H4]]. repeat split; try constructor; lra.
Qed.

Lemma lb_pq_resolved lb :
  resolved (x2 lb - x1 lb) -> resolved (y2 lb - y1 lb) ->
  Forall (fun pq => resolved (fst pq)) (lb_pq lb).
Proof.
  intros Hx Hy. unfold lb_pq.
  assert (Hx' : resolved (fsub (x2 lb) (x1 lb))) by (eapply resolved_compat; [symmetry; apply fsub_eq | exact Hx]).
  assert (Hy' : resolved (fsub (y2 lb) (y1 lb))) by (eapply resolved_compat; [symmetry; apply fsub_eq | exact Hy]).
  repeat apply Forall_cons; try apply Forall_nil; cbn [fst]; auto using resolved_opp.
Qed.

(** Every pass only narrows the parameter interval [[t1, t2]]. *)
Lemma lb_edge_mono pq t1 t2 t1' t2' :
  lb_edge pq (t1, t2) = Some (t1', t2') -> t1 <= t1' /\ t2' <= t2.
Proof.
  destruct pq as [p q]; unfold lb_edge.
  destruct (_ && _); [discriminate|].
  destruct (fltb EPS (fabs p)); [destruct (fltb p 0)|]; intros H; injection H as <- <-;
    rewrite ?cmax_spec, ?cmin_spec; split; try apply Qle_refl; [apply Q.le_max_l | apply Q.le_min_l].
Qed.

Lemma lb_loop_mono pqs t1 t2 T1 T2 :
  lb_loop pqs (t1, t2) = Some (T1, T2) -> t1 <= T1 /\ T2 <= t2.
Proof.
  revert t1 t2; induction pqs as [|pq pqs IH]; intros t1 t2; cbn [lb_loop].
  - intros H; injection H as <- <-; split; apply Qle_refl.
  - destruct (lb_edge pq (t1, t2)) as [[t1' t2']|] eqn:E; [|discriminate].
    intros H. destruct (lb_edge_mono _ _ _ _ _ E), (IH _ _ H). split; eapply Qle_trans; eassumption.
Qed.

(** [clipLine] keeps the window and the segment, and a clipped segment
    runs between parameters [0 <= t1 <= t2 <= 1], tolerance or not. *)
Lemma clipLine_frame lb :
  xMin (clipLine lb) = xMin lb /\ xMax (clipLine lb) = xMax lb /\
  yMin (clipLine lb) = yMin lb /\ yMax (clipLine lb) = yMax lb /\
  x1 (clipLine lb) = x1 lb /\ y1 (clipLine lb) = y1 lb /\ x2 (clipLine lb) = x2 lb /\ y2 (clipLine lb) = y2 lb.
Proof.
  unfold clipLine. destruct (lb_loop _ _) as [[t1 t2]|]; [destruct (fltb t2 t1)|]; cbn; tauto.
Qed.

Lemma clipLine_clipped lb :
  isClipped (clipLine lb) = true ->
  exists t1 t2, 0 <= t1 /\ t1 <= t2 /\ t2 <= 1 /\
    (cx1 (clipLine lb), cy1 (clipLine lb)) = (fadd (x1 lb) (fmul t1 (fsub (x2 lb) (x1 lb))),
                                               fadd (y1 lb) (fmul t1 (fsub (y2 lb) (y1 lb)))) /\
    (cx2 (clipLine lb), cy2 (clipLine lb)) = (fadd (x1 lb) (fmul t2 (fsub (x2 lb) (x1 lb))),
                                               fadd (y1 lb) (fmul t2 (fsub (y2 lb) (y1 lb)))).
Proof.
  unfold clipLine. destruct (lb_loop _ _) as [[t1 t2]|] eqn:E; [|discriminate].
  destruct (fltb_spec t2 t1) as [|Hle]; [discriminate|]. intros _.
  destruct (lb_loop_mono _ _ _ _ _ E). exists t1, t2. cbn. auto.
Qed.

(** A point of parameter [t] in [[0, 1]] lies between the endpoints. *)
Lemma lerp_between a b t m M :
  0 <= t <= 1 -> m <= a <= M -> m <= b <= M -> m <= fadd a (fmul t (fsub b a)) <= M.
Proof. intros Ht Ha Hb. qexact. split; nra. Qed.

(** The three-way [std::min] and [std::max] of [main]'s box. *)
Lemma cmin3_le a b c : cmin (cmin a b) c <= a /\ cmin (cmin a b) c <= b /\ cmin (cmin a b) c <= c.
Proof. rewrite !cmin_spec. pose proof (Q.le_min_l (Qmin a b) c). pose proof (Q.le_min_r (Qmin a b) c).
  pose proof (Q.le_min_l a b). pose proof (Q.le_min_r a b). repeat split; lra. Qed.

Lemma cmax3_ge a b c : a <= cmax (cmax a b) c /\ b <= cmax (cmax a b) c /\ c <= cmax (cmax a b) c.
Proof. rewrite !cmax_spec. pose proof (Q.le_max_l (Qmax a b) c). pose proof (Q.le_max_r (Qmax a b) c).
  pose proof (Q.le_max_l a b). pose proof (Q.le_max_r a b). repeat split; lra. Qed.

End LBProofs.

(** * Properties of the clipping programs *)

Import CohenSutherland.

Lemma land_lor_nonzero a b : Z.land a b <> 0%Z -> Z.lor a b <> 0%Z.
Proof. intros H E. apply Z.lor_eq_0_iff in E as [-> ->]. apply H. reflexivity. Qed.

(** C16. Cohen-Sutherland does not terminate on a vertical segment that
    runs along the left edge of the window and ends less than one unit
    above its top: the [1e10] used as the slope of a vertical segment
    moves the top endpoint 1e-10 * (y1 - yMax) left of the window, and
    the [LEFT] pass, whose [dx] is now below [1e-10], again uses the
    slope [1e10] and puts it back at height [y1]; for every fuel the
    loop is still running. *)
Theorem cohen_sutherland_left_edge_hangs w y1 y2 fuel :
  xMin w <= xMax w -> yMin w <= y2 <= yMax w -> yMax w < y1 < yMax w + 1 ->
  cohenSutherlandClip fuel w (mkPoint (xMin w) y1) (mkPoint (xMin w) y2) = None.
Proof.
  intros Hx H2 H1. assert (Hy : yMin w <= yMax w) by lra.
  unfold cohenSutherlandClip.
  rewrite CSProofs.hang_code_top, CSProofs.hang_code_inside by (assumption || lra).
  eapply proj1, CSProofs.hang_loop; (assumption || lra).
Qed.

(** C17. When Cohen-Sutherland accepts, both clipped endpoints lie in
    the closed window (whatever the fuel, so on every run that
    returns). *)
Theorem cohen_sutherland_accept_inside fuel w p1 p2 q1 q2 :
  cohenSutherlandClip fuel w p1 p2 = Some (true, q1, q2) -> inside w q1 /\ inside w q2.
Proof. apply CSProofs.cs_loop_accept. Qed.

(** C18. The trivial reject is sound: when the region codes of the
    endpoints share a bit, the first pass returns [false] with the
    endpoints unchanged, and no point of the segment lies in the window. *)
Theorem cohen_sutherland_trivial_reject fuel w p1 p2 :
  Z.land (computeCode w p1) (computeCode w p2) <> 0%Z ->
  cohenSutherlandClip (S fuel) w p1 p2 = Some (false, p1, p2) /\
  forall t, 0 <= t <= 1 -> ~ inside w (lerp p1 p2 t).
Proof.
  intros H. split; [|intros t Ht; apply CSProofs.cs_reject_outside; assumption].
  unfold cohenSutherlandClip. cbn [cs_loop]. unfold cs_iter.
  destruct (Z.eqb_spec (Z.lor (computeCode w p1) (computeCode w p2)) 0) as [E|_];
    [exfalso; exact (land_lor_nonzero _ _ H E)|].
  destruct (Z.eqb_spec (Z.land (computeCode w p1) (computeCode w p2)) 0); [contradiction | reflexivity].
Qed.

(** A visible segment is rejected: in the window [0, 10] x [0, 10]
    the segment from (0, 15) to (0, -5) runs along the left edge and
    its point (0, 5) is in the window, yet the [1e10] slope makes the
    second pass jump to (0, -5) and the function returns [false]. *)
Example cohen_sutherland_rejects_visible_edge :
  inside (mkRect 0 0 10 10) (lerp (mkPoint 0 15) (mkPoint 0 (-5)) (1 # 2)) /\
  exists q1 q2, cohenSutherlandClip 10 (mkRect 0 0 10 10) (mkPoint 0 15) (mkPoint 0 (-5)) =
                Some (false, q1, q2).
Proof.
  split; [unfold inside, lerp; cbn [x y xMin xMax yMin yMax]; split; split; lra|].
  do 2 eexists. vm_compute. reflexivity.
Qed.

(** Witnesses, in the window [0, 10] x [0, 10]. *)

Lemma cohen_sutherland_left_edge_hangs_witness :
  xMin (mkRect 0 0 10 10) <= xMax (mkRect 0 0 10 10) /\
  yMin (mkRect 0 0 10 10) <= 5 <= yMax (mkRect 0 0 10 10) /\
  yMax (mkRect 0 0 10 10) < 21 # 2 < yMax (mkRect 0 0 10 10) + 1 /\
  cohenSutherlandClip 1000 (mkRect 0 0 10 10) (mkPoint 0 (21 # 2)) (mkPoint 0 5) = None.
Proof.
  cbn [xMin xMax yMin yMax]. split; [lra | split; [lra | split; [lra|]]].
  apply (cohen_sutherland_left_edge_hangs (mkRect 0 0 10 10)); cbn [xMin xMax yMin yMax]; lra.
Defined.

Lemma cohen_sutherland_accept_inside_witness :
  exists q1 q2,
    cohenSutherlandClip 10 (mkRect 0 0 10 10) (mkPoint (-5) 5) (mkPoint 15 5) = Some (true, q1, q2) /\
    inside (mkRect 0 0 10 10) q1 /\ inside (mkRect 0 0 10 10) q2.
Proof.
  do 2 eexists. split; [vm_compute; reflexivity|].
  apply (cohen_sutherland_accept_inside 10 (mkRect 0 0 10 10) (mkPoint (-5) 5) (mkPoint 15 5)).
  vm_compute. reflexivity.
Defined.

Lemma cohen_sutherland_trivial_reject_witness :
  Z.land (computeCode (mkRect 0 0 10 10) (mkPoint (-5) (-5)))
         (computeCode (mkRect 0 0 10 10) (mkPoint (-3) 20)) <> 0%Z /\
  cohenSutherlandClip 1 (mkRect 0 0 10 10) (mkPoint (-5) (-5)) (mkPoint (-3) 20) =
    Some (false, mkPoint (-5) (-5), mkPoint (-3) 20) /\
  forall t, 0 <= t <= 1 -> ~ inside (mkRect 0 0 10 10) (lerp (mkPoint (-5) (-5)) (mkPoint (-3) 20) t).
Proof.
  assert (H : Z.land (computeCode (mkRect 0 0 10 10) (mkPoint (-5) (-5)))
                     (computeCode (mkRect 0 0 10 10) (mkPoint (-3) 20)) <> 0%Z)
    by (vm_compute; discriminate).
  split; [exact H | apply (cohen_sutherland_trivial_reject 0 (mkRect 0 0 10 10)); exact H].
Defined.

Import LiangBarsky.

(** C19. Liang-Barsky computes the visible part exactly: when each
    component of the direction is 0 or above the 1e-9 tolerance,
    [clipLine] sets [isClipped] exactly when some point of the segment
    lies in the window, and then the clipped endpoints are the points of
    parameters t1 <= t2 in [0, 1] such that the points of the segment
    in the window are exactly those with a parameter in [t1, t2]. *)
Theorem liang_barsky_exact lb :
  resolved (x2 lb - x1 lb) -> resolved (y2 lb - y1 lb) ->
  (isClipped (clipLine lb) = true <-> exists t, 0 <= t <= 1 /\ in_window lb (at_param lb t)) /\
  (isClipped (clipLine lb) = true ->
   exists t1 t2, 0 <= t1 <= t2 /\ t2 <= 1 /\
     cx1 (clipLine lb) == fst (at_param lb t1) /\ cy1 (clipLine lb) == snd (at_param lb t1) /\
     cx2 (clipLine lb) == fst (at_param lb t2) /\ cy2 (clipLine lb) == snd (at_param lb t2) /\
     forall t, 0 <= t <= 1 -> (in_window lb (at_param lb t) <-> t1 <= t <= t2)).
Proof.
  intros Hx Hy. pose proof (LBProofs.lb_loop_spec (lb_pq lb) 0 1 (LBProofs.lb_pq_resolved lb Hx Hy)) as Hs.
  setoid_rewrite <- LBProofs.sat_window.
  unfold clipLine. destruct (lb_loop (lb_pq lb) (0, 1)) as [[T1 T2]|].
  - destruct (fltb_spec T2 T1) as [Hlt|Hle]; cbn [isClipped].
    + split; [|discriminate]. split; [discriminate|]. intros (t & Ht & Hw).
      destruct (proj1 (Hs t) (conj Ht Hw)). lra.
    + assert (H1 : (0 <= T1 <= 1 /\ LBProofs.sat (lb_pq lb) T1)) by (apply Hs; lra).
      assert (H2 : (0 <= T2 <= 1 /\ LBProofs.sat (lb_pq lb) T2)) by (apply Hs; lra).
      split; [split; [intros _; exists T1; exact H1 | reflexivity]|].
      intros _. exists T1, T2. unfold at_param; cbn [cx1 cy1 cx2 cy2 fst snd]. qnorm.
      split; [lra|]. split; [lra|]. do 4 (split; [reflexivity|]).
      intros t Ht. rewrite <- Hs. tauto.
  - cbn [isClipped]. split; [|discriminate]. split; [discriminate|].
    intros (t & _ & Hw). destruct (Hs t Hw).
Qed.

(** The tolerance lets a clipped endpoint leave the window: the
    segment from (10, 0) to (10 + 5e-10, 10) has a horizontal extent
    below 1e-9, so the loop treats it as vertical; it is clipped, and
    its clipped end lies 5e-10 to the right of [xMax = 10]. *)
Example liang_barsky_near_vertical_escapes :
  isClipped (clipLine (make 0 10 0 10 10 0 (10 + (1 # 2000000000)) 10)) = true /\
  xMax (make 0 10 0 10 10 0 (10 + (1 # 2000000000)) 10) <
    cx2 (clipLine (make 0 10 0 10 10 0 (10 + (1 # 2000000000)) 10)).
Proof. split; vm_compute; reflexivity. Qed.

Lemma liang_barsky_exact_witness :
  resolved (x2 (make 0 10 0 10 (-5) 5 15 5) - x1 (make 0 10 0 10 (-5) 5 15 5)) /\
  resolved (y2 (make 0 10 0 10 (-5) 5 15 5) - y1 (make 0 10 0 10 (-5) 5 15 5)) /\
  isClipped (clipLine (make 0 10 0 10 (-5) 5 15 5)) = true /\
  exists t1 t2, 0 <= t1 <= t2 /\ t2 <= 1 /\
    cx1 (clipLine (make 0 10 0 10 (-5) 5 15 5)) == fst (at_param (make 0 10 0 10 (-5) 5 15 5) t1) /\
    cy1 (clipLine (make 0 10 0 10 (-5) 5 15 5)) == snd (at_param (make 0 10 0 10 (-5) 5 15 5) t1) /\
    cx2 (clipLine (make 0 10 0 10 (-5) 5 15 5)) == fst (at_param (make 0 10 0 10 (-5) 5 15 5) t2) /\
    cy2 (clipLine (make 0 10 0 10 (-5) 5 15 5)) == snd (at_param (make 0 10 0 10 (-5) 5 15 5) t2) /\
    forall t, 0 <= t <= 1 ->
      (in_window (make 0 10 0 10 (-5) 5 15 5) (at_param (make 0 10 0 10 (-5) 5 15 5) t) <-> t1 <= t <= t2).
Proof.
  assert (Hx : resolved (x2 (make 0 10 0 10 (-5) 5 15 5) - x1 (make 0 10 0 10 (-5) 5 15 5)))
    by (right; vm_compute; reflexivity).
  assert (Hy : resolved (y2 (make 0 10 0 10 (-5) 5 15 5) - y1 (make 0 10 0 10 (-5) 5 15 5)))
    by (left; vm_compute; reflexivity).
  destruct (liang_barsky_exact _ Hx Hy) as [_ H].
  split; [exact Hx | split; [exact Hy | split; [vm_compute; reflexivity|]]].
  apply H. vm_compute. reflexivity.
Defined.

Import CohenSutherland.

(** Exp-13 draws inside its [gluOrtho2D(0, 1, 0, 1)] view exactly the
    inputs within [[0, 15]^2]: [normalizeX] and [normalizeY] divide by a
    fixed 15, so a window corner or an endpoint outside that square is
    drawn off-screen, although [main] accepts any [double]; the
    clipped segment, when accepted, is always inside the window. *)
Theorem cs_display_in_view_iff fuel w A B vis cA cB :
  CohenSutherland.main fuel w A B = Some (vis, cA, cB) ->
  (Forall (fun d => Forall (fun p => in_box 0 1 0 1 p = true) (snd d))
          (CohenSutherland.display w A B vis cA cB) <->
   ((0 <= xMin w <= 15 /\ 0 <= yMin w <= 15) /\ (0 <= xMax w <= 15 /\ 0 <= yMax w <= 15)) /\
   (0 <= x A <= 15 /\ 0 <= y A <= 15) /\ (0 <= x B <= 15 /\ 0 <= y B <= 15)).
Proof.
  intros Hm.
  assert (Hin : vis = true -> inside w cA /\ inside w cB)
    by (intros ->; eapply CSProofs.cs_loop_accept; exact Hm).
  unfold CohenSutherland.display, normalize.
  destruct vis; cbn [app]; rewrite !Forall_cons_iff, !Forall_nil_iff; cbn [snd];
    rewrite !Forall_cons_iff, !Forall_nil_iff, !CSProofs.in_unit_normalize.
  - destruct (Hin eq_refl) as [[? ?] [? ?]]. split; [tauto|]. intros (([? ?] & [? ?]) & ? & ?).
    repeat split; lra.
  - tauto.
Qed.

Import LiangBarsky.

(** Exp-14's projection box shows everything [display] draws, with a
    margin of at least one unit on every side: the window (when its
    bounds are entered in order), the original segment, and the clipped
    segment, whose ends lie between the original ones even where the
    tolerance lets them leave the window. *)
Theorem lb_display_in_box xmin xmax ymin ymax X1 Y1 X2 Y2 :
  xmin <= xmax -> ymin <= ymax ->
  let '(lb, (minX, maxX, minY, maxY)) := LiangBarsky.main xmin xmax ymin ymax X1 Y1 X2 Y2 in
  Forall (fun d => Forall (fun p => in_box (minX + 1) (maxX - 1) (minY + 1) (maxY - 1) p = true) (snd d))
         (LiangBarsky.display lb).
Proof.
  intros Hx Hy. unfold LiangBarsky.main, viewBox.
  destruct (LBProofs.clipLine_frame (make xmin xmax ymin ymax X1 Y1 X2 Y2)) as (E1 & E2 & E3 & E4 & E5 & E6 & E7 & E8).
  pose proof (LBProofs.clipLine_clipped (make xmin xmax ymin ymax X1 Y1 X2 Y2)) as Hc.
  set (lb := clipLine (make xmin xmax ymin ymax X1 Y1 X2 Y2)) in *. cbn [make xMin xMax yMin yMax x1 y1 x2 y2] in *.
  unfold LiangBarsky.display, drawRectangle, drawLine. rewrite E1, E2, E3, E4, E5, E6, E7, E8.
  destruct (LBProofs.cmin3_le xmin X1 X2) as (? & ? & ?), (LBProofs.cmax3_ge xmax X1 X2) as (? & ? & ?),
    (LBProofs.cmin3_le ymin Y1 Y2) as (? & ? & ?), (LBProofs.cmax3_ge ymax Y1 Y2) as (? & ? & ?).
  destruct (isClipped lb); cbn [app snd].
  - destruct (Hc eq_refl) as (t1 & t2 & ? & ? & ? & Ec1 & Ec2).
    injection Ec1 as -> ->. injection Ec2 as -> ->.
    repeat constructor; apply in_box_spec; cbn [fst snd];
      split; first [split; lra | apply LBProofs.lerp_between; lra].
  - repeat constructor; apply in_box_spec; cbn [fst snd]; split; split; lra.
Qed.
