(* ===== verification/PolygonClip.v ===== *)
(** Sutherland-Hodgman polygon clipping, CG LAB/Exp-17.  [class Polygon]
    is a list of at most [MAX_POINTS] vertices ([addPoint] ignores the
    rest); [class Clipper] holds the window and the intersection points
    it records for display, so [intersection] and [clipPolygon] pass the
    clipper as explicit state.  The four clipping edges are the
    characters 'L', 'R', 'B', 'T' of [edges]. *)

From S2P Require Import Prelude QFloat.

Open Scope Q_scope.

Module SutherlandHodgman.

Definition MAX_POINTS : nat := 50.

Record Point := mkPoint { x : Q; y : Q }.

(** [Polygon::addPoint]: append while there is room. *)
Definition addPoint (p : Point) (pts : list Point) : list Point :=
  if Nat.ltb (length pts) MAX_POINTS then pts ++ [p] else pts.

Record Clipper := mkClipper {
  xmin : Q; ymin : Q; xmax : Q; ymax : Q;
  intersections : list Point
}.

(** The constructor [Clipper(left, bottom, right, top)]. *)
Definition make (left bottom right top : Q) : Clipper := mkClipper left bottom right top [].

(** The edge characters of [edges]. *)
Inductive edge := EL | ER | EB | ET.

Definition inside (c : Clipper) (p : Point) (e : edge) : bool :=
  match e with
  | EL => fleb (xmin c) (x p)
  | ER => fleb (x p) (xmax c)
  | EB => fleb (ymin c) (y p)
  | ET => fleb (y p) (ymax c)
  end.

(** [intersection]: the crossing point with the edge's line, with the
    slope [1e6] for a vertical segment; the point is also stored in
    [intersections] while there is room. *)
Definition intersection (c : Clipper) (p1 p2 : Point) (e : edge) : Clipper * Point :=
  let m := if negb (feqb (fsub (x p2) (x p1)) 0)
           then fdiv (fsub (y p2) (y p1)) (fsub (x p2) (x p1)) else 1000000 in
  let Ipt := match e with
           | EL => mkPoint (xmin c) (fadd (y p1) (fmul m (fsub (xmin c) (x p1))))
           | ER => mkPoint (xmax c) (fadd (y p1) (fmul m (fsub (xmax c) (x p1))))
           | EB => mkPoint (fadd (x p1) (fdiv (fsub (ymin c) (y p1)) m)) (ymin c)
           | ET => mkPoint (fadd (x p1) (fdiv (fsub (ymax c) (y p1)) m)) (ymax c)
           end in
  let c' := if Nat.ltb (length (intersections c)) MAX_POINTS
            then mkClipper (xmin c) (ymin c) (xmax c) (ymax c) (intersections c ++ [Ipt]) else c in
  (c', Ipt).

(** The pairs [(points[i], points[(i + 1) % n])] of the inner loop. *)
Definition edges_of (pts : list Point) : list (Point * Point) :=
  combine pts (tl pts ++ firstn 1 pts).

(** The body of the inner loop ([Ipt] is the C++ [Point I]). *)
Definition clip_step (e : edge) (st : Clipper * list Point) (cn : Point * Point) : Clipper * list Point :=
  let '(c, temp) := st in
  let '(curr, next) := cn in
  let currIn := inside c curr e in
  let nextIn := inside c next e in
  if currIn && nextIn then (c, addPoint next temp)
  else if currIn && negb nextIn then
    let '(c', Ipt) := intersection c curr next e in (c', addPoint Ipt temp)
  else if negb currIn && nextIn then
    let '(c', Ipt) := intersection c curr next e in (c', addPoint next (addPoint Ipt temp))
  else (c, temp).

(** One pass of the outer loop: clip against one edge into a fresh
    [Polygon temp]. *)
Definition clip_edge (c : Clipper) (e : edge) (pts : list Point) : Clipper * list Point :=
  fold_left (clip_step e) (edges_of pts) (c, []).

(** [clipPolygon]: the edges 'L', 'R', 'B', 'T' in turn. *)
Definition clipPolygon (c : Clipper) (input : list Point) : Clipper * list Point :=
  fold_left (fun st e => clip_edge (fst st) e (snd st)) [EL; ER; EB; ET] (c, input).

(** [main]: the window [150, 350] x [150, 350], the vertices read one
    by one through [addPoint], and the clipped polygon. *)
Definition main (vertices : list Point) : Clipper * list Point * list Point :=
  let subject := fold_left (fun pts p => addPoint p pts) vertices [] in
  let '(c, clipped) := clipPolygon (make 150 150 350 350) subject in
  (c, subject, clipped).

(** The window, as a predicate. *)
Definition in_window (c : Clipper) (p : Point) : Prop :=
  xmin c <= x p <= xmax c /\ ymin c <= y p <= ymax c.

(** The list rotated left by one: the order the inner loop emits the
    vertices of a polygon that lies inside the edge. *)
Definition rotate1 (pts : list Point) : list Point := tl pts ++ firstn 1 pts.

(** [Polygon::drawOutline] and [Polygon::fill]: the vertices in order. *)
Definition drawOutline (pts : list Point) : primitive * list (Q * Q) :=
  (GL_LINE_LOOP, map (fun p => (x p, y p)) pts).

Definition fill (pts : list Point) : primitive * list (Q * Q) :=
  (GL_POLYGON, map (fun p => (x p, y p)) pts).

(** [Clipper::drawWindow] and [Clipper::drawIntersections]. *)
Definition drawWindow (c : Clipper) : primitive * list (Q * Q) :=
  (GL_LINE_LOOP, [(xmin c, ymin c); (xmax c, ymin c); (xmax c, ymax c); (xmin c, ymax c)]).

Definition drawIntersections (c : Clipper) : primitive * list (Q * Q) :=
  (GL_POINTS, map (fun p => (x p, y p)) (intersections c)).

(** [display]: the window, the subject and the clipped polygon (each
    filled, then outlined), and the recorded intersections. *)
Definition display (clipper : Clipper) (subjectPolygon clippedPolygon : list Point) : list (primitive * list (Q * Q)) :=
  [drawWindow clipper; fill subjectPolygon; drawOutline subjectPolygon;
   fill clippedPolygon; drawOutline clippedPolygon; drawIntersections clipper].

End SutherlandHodgman.

Import SutherlandHodgman.

(** * Theorems *)

(** The window of a clipper, which recording intersections leaves alone. *)
Definition window (c : Clipper) : Q * Q * Q * Q := (xmin c, ymin c, xmax c, ymax c).

Lemma inside_window c c' p e : window c = window c' -> inside c p e = inside c' p e.
Proof. destruct c, c'; unfold window; cbn. intros E; injection E as -> -> -> ->. reflexivity. Qed.

Lemma intersection_window c p1 p2 e : window (fst (intersection c p1 p2 e)) = window c.
Proof. unfold intersection. destruct (Nat.ltb _ _); reflexivity. Qed.

Lemma intersection_count c p1 p2 e :
  (length (intersections c) <= MAX_POINTS)%nat ->
  (length (intersections (fst (intersection c p1 p2 e))) <= MAX_POINTS)%nat.
Proof.
  unfold intersection. intros H. destruct (Nat.ltb_spec (length (intersections c)) MAX_POINTS); [|exact H].
  cbn. rewrite length_app. cbn. lia.
Qed.

(** The crossing point lies on the edge's line, so inside its half-plane. *)
Lemma intersection_inside c p1 p2 e : inside c (snd (intersection c p1 p2 e)) e = true.
Proof. unfold intersection, inside; destruct e; cbn; apply Qle_bool_iff; lra. Qed.

Lemma addPoint_length p pts : (length pts <= MAX_POINTS)%nat -> (length (addPoint p pts) <= MAX_POINTS)%nat.
Proof. unfold addPoint. destruct (Nat.ltb_spec (length pts) MAX_POINTS); [rewrite length_app; cbn; lia | auto]. Qed.

Lemma addPoint_Forall (P : Point -> Prop) p pts : Forall P pts -> P p -> Forall P (addPoint p pts).
Proof. unfold addPoint. destruct (Nat.ltb _ _); [intros; apply Forall_app; auto | auto]. Qed.

(** What one pass keeps: the window, at most [MAX_POINTS] recorded
    intersections and output vertices, and output vertices inside the
    pass's edge. *)
Definition pass_inv (c0 : Clipper) (e : edge) (st : Clipper * list Point) : Prop :=
  window (fst st) = window c0 /\ (length (intersections (fst st)) <= MAX_POINTS)%nat /\
  (length (snd st) <= MAX_POINTS)%nat /\ Forall (fun p => inside c0 p e = true) (snd st).

Lemma clip_step_inv c0 e st cn : pass_inv c0 e st -> pass_inv c0 e (clip_step e st cn).
Proof.
  destruct st as [c temp], cn as [curr next]. unfold pass_inv, clip_step; cbn [fst snd].
  intros (Hw & Hi & Hl & Hf).
  destruct (inside c curr e) eqn:Ec; destruct (inside c next e) eqn:En; cbn [andb negb];
    try (split; [exact Hw | split; [exact Hi | split; [apply addPoint_length, Hl | apply addPoint_Forall; [exact Hf|]]]];
         rewrite <- (inside_window c c0) by exact Hw; exact En);
    try (destruct (intersection c curr next e) as [c' Ipt] eqn:EI;
         pose proof (intersection_window c curr next e) as Hw'; pose proof (intersection_count c curr next e Hi) as Hi';
         pose proof (intersection_inside c curr next e) as Hin; rewrite EI in Hw', Hi', Hin; cbn [fst snd] in *);
    try (split; [congruence | split; [exact Hi' | split]]);
    try (repeat apply addPoint_length; exact Hl);
    try (repeat apply addPoint_Forall; try exact Hf; rewrite <- (inside_window c c0) by exact Hw; assumption);
    try (split; [exact Hw | split; [exact Hi | split; [exact Hl | exact Hf]]]).
Qed.

Lemma clip_edge_inv c e pts :
  (length (intersections c) <= MAX_POINTS)%nat -> pass_inv c e (clip_edge c e pts).
Proof.
  intros Hi. unfold clip_edge. generalize (edges_of pts). intros l.
  assert (H0 : pass_inv c e (c, [])) by (unfold pass_inv; cbn; repeat split; auto; unfold MAX_POINTS; lia).
  revert H0. generalize (c, @nil Point) as st. induction l as [|cn l IH]; intros st Hst; [exact Hst|].
  cbn [fold_left]. apply IH, clip_step_inv, Hst.
Qed.

(** ** The recorded intersections *)

(** A point on one of the four lines that bound the window. *)
Definition on_line (c0 : Clipper) (p : Point) : Prop :=
  x p = xmin c0 \/ x p = xmax c0 \/ y p = ymin c0 \/ y p = ymax c0.

Definition rec_ok (c0 c : Clipper) : Prop := window c = window c0 /\ Forall (on_line c0) (intersections c).

Lemma intersection_rec c0 c p1 p2 e : rec_ok c0 c -> rec_ok c0 (fst (intersection c p1 p2 e)).
Proof.
  destruct c as [a b c' d l]. unfold rec_ok, window. cbn [xmin ymin xmax ymax intersections].
  intros [Hw Hf]. injection Hw as -> -> -> ->. unfold intersection. cbn [intersections].
  destruct (Nat.ltb (length l) MAX_POINTS); cbn [fst xmin ymin xmax ymax intersections]; split; auto.
  apply Forall_app; split; [exact Hf|]. constructor; [|constructor]. unfold on_line; destruct e; cbn; tauto.
Qed.

Lemma clip_step_rec c0 e st cn : rec_ok c0 (fst st) -> rec_ok c0 (fst (clip_step e st cn)).
Proof.
  destruct st as [c temp], cn as [curr next]. unfold clip_step. cbn [fst]. intros H.
  pose proof (intersection_rec c0 c curr next e H) as Hi.
  destruct (inside c curr e), (inside c next e); cbn [andb negb fst]; try exact H;
    destruct (intersection c curr next e); exact Hi.
Qed.

Lemma fold_clip_step_rec c0 e l st : rec_ok c0 (fst st) -> rec_ok c0 (fst (fold_left (clip_step e) l st)).
Proof. revert st; induction l as [|cn l IH]; intros st H; cbn [fold_left]; [exact H | apply IH, clip_step_rec, H]. Qed.

Lemma clipPolygon_rec c pts : rec_ok c c -> rec_ok c (fst (clipPolygon c pts)).
Proof.
  intros H. unfold clipPolygon. generalize [EL; ER; EB; ET] as es. intros es.
  assert (Hst : rec_ok c (fst (c, pts))) by exact H. revert Hst. generalize (c, pts) as st.
  induction es as [|e es IH]; intros st Hst; cbn [fold_left]; [exact Hst|].
  apply IH. unfold clip_edge. apply fold_clip_step_rec. exact Hst.
Qed.

(** ** Polygons inside the window *)

(** When every pair lies inside the edge and nothing is capped, a pass
    appends the second point of every pair. *)
Lemma fold_all_inside e c pairs acc :
  Forall (fun cn => inside c (fst cn) e = true /\ inside c (snd cn) e = true) pairs ->
  (length acc + length pairs <= MAX_POINTS)%nat ->
  fold_left (clip_step e) pairs (c, acc) = (c, acc ++ map snd pairs).
Proof.
  revert acc; induction pairs as [|[curr next] pairs IH]; intros acc Hall Hl; cbn [fold_left map];
    [rewrite app_nil_r; reflexivity|].
  inversion Hall as [|? ? [Hc Hn] Hall']; subst. cbn [fst snd] in *.
  unfold clip_step at 2. rewrite Hc, Hn. cbn [andb].
  unfold addPoint. cbn [length] in Hl. destruct (Nat.ltb_spec (length acc) MAX_POINTS); [|lia].
  rewrite IH; [rewrite <- app_assoc; reflexivity | exact Hall' | rewrite length_app; cbn; lia].
Qed.

Lemma rotate1_length pts : length (rotate1 pts) = length pts.
Proof. destruct pts; cbn; [reflexivity | rewrite length_app; cbn; lia]. Qed.

Lemma rotate1_Forall (P : Point -> Prop) pts : Forall P pts -> Forall P (rotate1 pts).
Proof.
  destruct pts as [|p pts]; [auto|]. intros H. inversion H; subst. cbn. apply Forall_app. auto.
Qed.

Lemma edges_of_snd pts : map snd (edges_of pts) = rotate1 pts.
Proof. unfold edges_of. apply map_snd_combine. symmetry. apply rotate1_length. Qed.

Lemma edges_of_fst pts : map fst (edges_of pts) = pts.
Proof. unfold edges_of. apply map_fst_combine. symmetry. apply rotate1_length. Qed.

Lemma edges_of_length pts : length (edges_of pts) = length pts.
Proof. rewrite <- (edges_of_fst pts) at 2. rewrite length_map. reflexivity. Qed.

(** A pass over a polygon inside its edge emits the polygon rotated by
    one vertex and records no intersection. *)
Lemma clip_edge_all_inside c e pts :
  Forall (fun p => inside c p e = true) pts -> (length pts <= MAX_POINTS)%nat ->
  clip_edge c e pts = (c, rotate1 pts).
Proof.
  intros Hall Hl. unfold clip_edge. rewrite fold_all_inside.
  - rewrite edges_of_snd. reflexivity.
  - apply Forall_forall. intros [curr next] Hin. rewrite Forall_forall in Hall. split.
    + apply Hall. rewrite <- (edges_of_fst pts). apply (in_map fst _ _ Hin).
    + pose proof (rotate1_Forall _ _ (proj2 (Forall_forall _ _) Hall)) as Hr.
      rewrite Forall_forall in Hr. apply Hr. rewrite <- edges_of_snd. apply (in_map snd _ _ Hin).
  - rewrite edges_of_length. cbn. exact Hl.
Qed.

Lemma in_window_inside c p e : in_window c p -> inside c p e = true.
Proof. unfold in_window, inside. intros [[H1 H2] [H3 H4]]. destruct e; apply Qle_bool_iff; assumption. Qed.

(** ** Properties of the clipping program *)

(** C26. A polygon inside the window comes out of [clipPolygon] with the
    same vertices: each of the four passes emits [points[(i + 1) % n]]
    for every [i], so the vertex list is rotated by four places, and no
    intersection is recorded. *)
Theorem sh_inside_polygon_rotated c pts :
  Forall (in_window c) pts -> (length pts <= MAX_POINTS)%nat ->
  clipPolygon c pts = (c, rotate1 (rotate1 (rotate1 (rotate1 pts)))).
Proof.
  intros Hw Hl. assert (Hin : forall e l, Forall (in_window c) l -> Forall (fun p => inside c p e = true) l)
    by (intros e l; apply Forall_impl; intros p; apply in_window_inside).
  unfold clipPolygon. cbn [fold_left fst snd].
  rewrite (clip_edge_all_inside c EL pts) by auto; cbn [fst snd].
  rewrite (clip_edge_all_inside c ER) by (first [solve [auto using rotate1_Forall] | rewrite rotate1_length; exact Hl]);
    cbn [fst snd].
  rewrite (clip_edge_all_inside c EB) by (first [solve [auto using rotate1_Forall] | rewrite !rotate1_length; exact Hl]);
    cbn [fst snd].
  rewrite (clip_edge_all_inside c ET) by (first [solve [auto using rotate1_Forall] | rewrite !rotate1_length; exact Hl]).
  reflexivity.
Qed.

(** C30. Whatever the input, [clipPolygon] keeps the window, returns at
    most [MAX_POINTS] vertices and records at most [MAX_POINTS]
    intersections, and every vertex it returns satisfies the last
    edge: y <= ymax. *)
Theorem sh_output_bounds c pts :
  (length (intersections c) <= MAX_POINTS)%nat ->
  window (fst (clipPolygon c pts)) = window c /\
  (length (snd (clipPolygon c pts)) <= MAX_POINTS)%nat /\
  (length (intersections (fst (clipPolygon c pts))) <= MAX_POINTS)%nat /\
  Forall (fun p => y p <= ymax c) (snd (clipPolygon c pts)).
Proof.
  intros Hi. unfold clipPolygon. cbn [fold_left fst snd].
  destruct (clip_edge_inv c EL pts Hi) as (Hw1 & Hi1 & _).
  destruct (clip_edge_inv _ ER (snd (clip_edge c EL pts)) Hi1) as (Hw2 & Hi2 & _).
  destruct (clip_edge_inv _ EB (snd (clip_edge (fst (clip_edge c EL pts)) ER (snd (clip_edge c EL pts)))) Hi2)
    as (Hw3 & Hi3 & _).
  match goal with |- context [clip_edge ?c3 ET ?l3] =>
    destruct (clip_edge_inv c3 ET l3 Hi3) as (Hw4 & Hi4 & Hl4 & Hf4) end.
  assert (Hw : window c = window (fst (clip_edge (fst (clip_edge (fst (clip_edge c EL pts)) ER
                 (snd (clip_edge c EL pts)))) EB (snd (clip_edge (fst (clip_edge c EL pts)) ER
                 (snd (clip_edge c EL pts))))))) by congruence.
  split; [congruence|]. split; [exact Hl4|]. split; [exact Hi4|].
  eapply Forall_impl; [|exact Hf4]. intros p Hp. cbn in Hp. apply Qle_bool_iff in Hp.
  unfold window in Hw. injection Hw as _ _ _ ->. exact Hp.
Qed.


(** Witnesses. *)

Lemma sh_inside_polygon_rotated_witness :
  Forall (in_window (make 150 150 350 350)) [mkPoint 200 200; mkPoint 300 200; mkPoint 250 300] /\
  (length [mkPoint 200 200; mkPoint 300 200; mkPoint 250 300] <= MAX_POINTS)%nat /\
  clipPolygon (make 150 150 350 350) [mkPoint 200 200; mkPoint 300 200; mkPoint 250 300] =
    (make 150 150 350 350, [mkPoint 300 200; mkPoint 250 300; mkPoint 200 200]).
Proof.
  assert (Hw : Forall (in_window (make 150 150 350 350)) [mkPoint 200 200; mkPoint 300 200; mkPoint 250 300])
    by (repeat constructor; unfold in_window; cbn; lra).
  assert (Hl : (length [mkPoint 200 200; mkPoint 300 200; mkPoint 250 300] <= MAX_POINTS)%nat)
    by (cbn; unfold MAX_POINTS; lia).
  split; [exact Hw | split; [exact Hl|]]. rewrite (sh_inside_polygon_rotated _ _ Hw Hl). reflexivity.
Defined.


Lemma sh_output_bounds_witness :
  (length (intersections (make 150 150 350 350)) <= MAX_POINTS)%nat /\
  Forall (fun p => y p <= ymax (make 150 150 350 350))
    (snd (clipPolygon (make 150 150 350 350) [mkPoint 100 100; mkPoint 400 100; mkPoint 100 400])).
Proof.
  assert (H : (length (intersections (make 150 150 350 350)) <= MAX_POINTS)%nat) by (cbn; unfold MAX_POINTS; lia).
  split; [exact H | apply (sh_output_bounds _ [mkPoint 100 100; mkPoint 400 100; mkPoint 100 400] H)].
Defined.

(** Every red point of Exp-17's display lies on one of the four lines
    x = 150, x = 350, y = 150, y = 350 that bound the window: each is a
    crossing computed by [intersection] for the edge being clipped
    (not necessarily on the window's side itself, see
    [sh_vertical_edge_cut_off]). *)
Theorem sh_display_intersections_on_lines vertices :
  let '(c, subject, clipped) := SutherlandHodgman.main vertices in
  nth 5 (SutherlandHodgman.display c subject clipped) (GL_POINTS, []) = drawIntersections c /\
  Forall (fun p => fst p = 150 \/ fst p = 350 \/ snd p = 150 \/ snd p = 350) (snd (drawIntersections c)).
Proof.
  unfold SutherlandHodgman.main.
  destruct (clipPolygon_rec (make 150 150 350 350) (fold_left (fun pts p => addPoint p pts) vertices []))
    as [_ Hf]; [split; [reflexivity | constructor]|].
  destruct (clipPolygon _ _) as [c clipped]. cbn [fst] in Hf. split; [reflexivity|].
  cbn [snd drawIntersections]. apply Forall_map. eapply Forall_impl; [|exact Hf]. intros p Hp. exact Hp.
Qed.
