(* ===== verification/Transforms2D.v ===== *)
(** Integer transformations of a polygon: CG LAB/Exp-11 (translation)
    and CG LAB/Exp-12 (scaling).  The two programs share [class Point]
    and the shape of [main]: read [n], read [n] points into
    [Point shape[50]], read the transformation, print the points,
    transform each in place, print them again.  [main] never checks [n]
    against 50, so [n > 50] writes past the array; the model returns
    [ShapeOverflow] there.  The [int] arithmetic is written against
    [IntOps]; the compiled program is [int32_ops] (wrap-around).  Points
    are read from [input], a list of at least [n] pairs (what [cin]
    supplies).  Each program only applies [x += tx] or [x *= sx] per
    point, so the file keeps the model and one evaluated run that shows
    a silent overflow. *)

From S2P Require Import Prelude MachineInt.

Open Scope Z_scope.
Open Scope cg_scope.

Module Shape2D.

(** [class Point] of both programs. *)
Record Point := mkPoint { x : Z; y : Z }.

(** The capacity of [Point shape[50]]. *)
Definition SHAPE_MAX : Z := 50.

(** [Point::display(index)]: the line ["P" index+1 " (" x ", " y ")"],
    as its three numbers. *)
Definition display (index : Z) (p : Point) : Z * Z * Z := (index + 1, x p, y p).

(** [for (int i = 0; i < n; i++) shape[i].display(i);] *)
Fixpoint display_from (i : Z) (ps : list Point) : list (Z * Z * Z) :=
  match ps with
  | [] => []
  | p :: ps' => display i p :: display_from (i + 1) ps'
  end.

(** The end of a run of [main]: the two printed tables, or a write past
    [shape] when [n > 50]. *)
Inductive outcome :=
| Printed (before after : list (Z * Z * Z))
| ShapeOverflow.

(** [main] of either program, given its per-point transformation.  The
    input loop reads [n] points ([Point::input]); for [n <= 0] every loop
    is empty. *)
Definition shape_main (transform : Point -> Point) (n : Z) (input : list (Z * Z)) : outcome :=
  if SHAPE_MAX <? n then ShapeOverflow
  else
    let shape := map (fun '(a, b) => mkPoint a b) (firstn (Z.to_nat n) input) in
    Printed (display_from 0 shape) (display_from 0 (map transform shape)).

End Shape2D.

Module Translation.
Import Shape2D.

Section Ops.
Context {ops : IntOps}.

(** [Point::translate(tx, ty)]: [x += tx; y += ty;] *)
Definition translate (tx ty : Z) (p : Point) : Point := mkPoint (x p +! tx) (y p +! ty).

(** [main] of Exp-11. *)
Definition main (n : Z) (input : list (Z * Z)) (tx ty : Z) : outcome :=
  shape_main (translate tx ty) n input.

End Ops.
End Translation.

Module Scaling.
Import Shape2D.

Section Ops.
Context {ops : IntOps}.

(** [Point::scale(sx, sy)]: [x *= sx; y *= sy;] *)
Definition scale (sx sy : Z) (p : Point) : Point := mkPoint (x p *! sx) (y p *! sy).

(** [main] of Exp-12. *)
Definition main (n : Z) (input : list (Z * Z)) (sx sy : Z) : outcome :=
  shape_main (scale sx sy) n input.

End Ops.
End Scaling.

(** ** Overflow *)

Import Shape2D.

(** A scaled coordinate wraps around silently: scaling the point
    (50000, 3) by (50000, 1) prints x = -1794967296, which is
    2500000000 - 2^32. *)
Example scale_main_overflow :
  @Scaling.main int32_ops 1 [(50000, 3)] 50000 1 =
  Printed [(1, 50000, 3)] [(1, -1794967296, 3)].
Proof. vm_compute. reflexivity. Qed.
