(* ===== verification/Transforms3D.v ===== *)
(** 3D transformations of a cube: CG LAB/Exp-15 (translation or scaling
    along one axis, chosen on the console) and CG LAB/Exp-16 (rotation
    about one axis, chosen on the console and then from a right-click
    menu).  The globals of each program are a record; [getUserInput] and
    [menu] are functions on it.  [display] is modelled up to the vertices
    it submits: the axes, the unit cube of [glutSolidCube(1.0)] and the
    cube under the modelview transformation ([glTranslatef], [glScalef],
    [glRotatef]), which is written out as a map on points.  [float]s are
    exact rationals ([QFloat]); the cosine and sine of an angle given in
    degrees are parameters of a [Section].  Exp-16's axes, solid cube and
    [reshape] are Exp-15's, line for line. *)

From S2P Require Import Prelude QFloat.
From Stdlib Require Strings.String Strings.Ascii.
Import String.StringSyntax Ascii.AsciiSyntax.

Module Space3D.

(** A vertex passed to [glVertex3f]. *)
Record V3 := mkV3 { vx : Q; vy : Q; vz : Q }.

Definition v3_eq (v w : V3) : Prop := vx v == vx w /\ vy v == vy w /\ vz v == vz w.

(** The corners of [glutSolidCube(size)] / [glutWireCube(size)],
    centred at the origin. *)
Definition cube_vertices (size : Q) : list V3 :=
  let h := fdiv size 2 in
  let m := fsub 0 h in
  [mkV3 m m m; mkV3 h m m; mkV3 h h m; mkV3 m h m;
   mkV3 m m h; mkV3 h m h; mkV3 h h h; mkV3 m h h].

(** [drawAxes]: the three axis segments from -2 to 2 (the same in both
    programs). *)
Definition drawAxes : list V3 :=
  [mkV3 (-2) 0 0; mkV3 2 0 0; mkV3 0 (-2) 0; mkV3 0 2 0; mkV3 0 0 (-2); mkV3 0 0 2].

(** The modelview matrices the programs multiply in, as maps on points. *)
Definition glTranslatef (tx ty tz : Q) (v : V3) : V3 :=
  mkV3 (fadd (vx v) tx) (fadd (vy v) ty) (fadd (vz v) tz).

Definition glScalef (sx sy sz : Q) (v : V3) : V3 :=
  mkV3 (fmul (vx v) sx) (fmul (vy v) sy) (fmul (vz v) sz).

(** [reshape(w, h)] of both programs: a zero height is replaced by 1;
    the result is the viewport and the aspect ratio [(float)w / h] handed
    to [gluPerspective(60.0, aspect, 1.0, 100.0)]. *)
Definition reshape (w h : Z) : Z * Z * Q :=
  let h := if Z.eqb h 0 then 1%Z else h in
  (w, h, fdiv (inject_Z w) (inject_Z h)).

End Space3D.

Module Cube15.
Import Space3D.

(** [enum TransformType { SCALE, TRANSLATE }]. *)
Inductive TransformType := SCALE | TRANSLATE.

(** The globals of Exp-15. *)
Record Cube15 := mkCube15 {
  transformChoice : TransformType;
  scaleX : Q; scaleY : Q; scaleZ : Q;
  transX : Q; transY : Q; transZ : Q }.

(** Initial values.  [transformChoice] has no initialiser: as a global
    it is zero-initialised, which is [SCALE]. *)
Definition init15 : Cube15 := mkCube15 SCALE 1 1 1 0 0 0.

(** The messages [getUserInput] prints. *)
Inductive message := InvalidAxis | InvalidChoice.

(** [getUserInput], given what [cin] reads: the choice string, then
    (only for "1" or "2") the axis character and the value. *)
Definition getUserInput (choice : String.string) (axis : Ascii.ascii) (value : Q) (s : Cube15)
  : Cube15 * option message :=
  let '(mkCube15 _ sx sy sz tx ty tz) := s in
  if String.eqb choice "1" then
    if Ascii.eqb axis "x" then (mkCube15 TRANSLATE sx sy sz value ty tz, None)
    else if Ascii.eqb axis "y" then (mkCube15 TRANSLATE sx sy sz tx value tz, None)
    else if Ascii.eqb axis "z" then (mkCube15 TRANSLATE sx sy sz tx ty value, None)
    else (mkCube15 TRANSLATE sx sy sz tx ty tz, Some InvalidAxis)
  else if String.eqb choice "2" then
    if Ascii.eqb axis "x" then (mkCube15 SCALE value sy sz tx ty tz, None)
    else if Ascii.eqb axis "y" then (mkCube15 SCALE sx value sz tx ty tz, None)
    else if Ascii.eqb axis "z" then (mkCube15 SCALE sx sy value tx ty tz, None)
    else (mkCube15 SCALE sx sy sz tx ty tz, Some InvalidAxis)
  else (s, Some InvalidChoice).

(** The modelview transformation of [drawTransformedCube]. *)
Definition modelview (s : Cube15) : V3 -> V3 :=
  match transformChoice s with
  | TRANSLATE => glTranslatef (transX s) (transY s) (transZ s)
  | SCALE => glScalef (scaleX s) (scaleY s) (scaleZ s)
  end.

(** [drawTransformedCube]: the wire cube of size 1 under [modelview]. *)
Definition drawTransformedCube (s : Cube15) : list V3 := map (modelview s) (cube_vertices 1).

(** [display]: axes, the original cube, the transformed cube. *)
Definition display (s : Cube15) : list V3 * list V3 * list V3 :=
  (drawAxes, cube_vertices 1, drawTransformedCube s).

(** [main] up to the first frame: [getUserInput] on the initial globals,
    then [display]. *)
Definition main (choice : String.string) (axis : Ascii.ascii) (value : Q)
  : list V3 * list V3 * list V3 * option message :=
  let '(s, msg) := getUserInput choice axis value init15 in (display s, msg).

(** The specification of Exp-15's choice: move or stretch the cube
    along the chosen axis, or leave it alone. *)
Definition on_axis (axis : Ascii.ascii) (f : Q -> Q) (v : V3) : V3 :=
  if Ascii.eqb axis "x" then mkV3 (f (vx v)) (vy v) (vz v)
  else if Ascii.eqb axis "y" then mkV3 (vx v) (f (vy v)) (vz v)
  else if Ascii.eqb axis "z" then mkV3 (vx v) (vy v) (f (vz v))
  else v.

Definition user_transform (choice : String.string) (axis : Ascii.ascii) (value : Q) : V3 -> V3 :=
  if String.eqb choice "1" then on_axis axis (fun c => c + value)
  else if String.eqb choice "2" then on_axis axis (fun c => c * value)
  else fun v => v.

End Cube15.

Module Rot16.
Import Space3D.

(** The globals of Exp-16: [angle] in degrees and the axis. *)
Record Rot16 := mkRot16 { angle : Q; rotX : Q; rotY : Q; rotZ : Q }.

Definition init16 : Rot16 := mkRot16 0 0 0 0.

(** [drawAxes], [drawOriginalCube] and [reshape] of Exp-16 are those of
    Exp-15 line for line. *)
Definition drawAxes16 : list V3 := drawAxes.
Definition drawOriginalCube16 : list V3 := cube_vertices 1.
Definition reshape16 : Z -> Z -> Z * Z * Q := reshape.

(** The result of a console or menu choice: [exit(0)], or the new
    globals and whether "Invalid choice." was printed. *)
Inductive outcome := Exit | Continue (s : Rot16) (invalid : bool).

(** [getUserInput], given the [int] choice and (unless it is 4) the
    angle read. *)
Definition getUserInput (choice : Z) (value : Q) : outcome :=
  if Z.eqb choice 4 then Exit
  else if Z.eqb choice 1 then Continue (mkRot16 value 1 0 0) false
  else if Z.eqb choice 2 then Continue (mkRot16 value 0 1 0) false
  else if Z.eqb choice 3 then Continue (mkRot16 value 0 0 1) false
  else Continue (mkRot16 value 0 0 0) true.

(** [menu(option)], the option being [choice]: every field is reset before the switch, so the
    old globals are not read. *)
Definition menu (choice : Z) (s : Rot16) : option Rot16 :=
  if Z.eqb choice 4 then None
  else if Z.eqb choice 1 then Some (mkRot16 (fadd 0 30) 1 0 0)
  else if Z.eqb choice 2 then Some (mkRot16 (fadd 0 30) 0 1 0)
  else if Z.eqb choice 3 then Some (mkRot16 (fadd 0 30) 0 0 1)
  else Some (mkRot16 0 0 0 0).

(** The globals reachable in a run: after a [getUserInput] that does
    not exit, and after every menu choice that does not exit. *)
Inductive reachable : Rot16 -> Prop :=
| reach_input choice value s b : getUserInput choice value = Continue s b -> reachable s
| reach_menu o s s' : reachable s -> menu o s = Some s' -> reachable s'.

Section Trig.
(** [cosd a] and [sind a]: cosine and sine of [a] degrees. *)
Variables cosd sind : Q -> Q.

(** [glRotatef(a, x, y, z)] as a map on points, for an axis of length 1
    (the only non-zero axes the program passes, see [axis_ok]); a zero
    axis leaves the matrix unchanged, as the GL implementations do. *)
Definition glRotatef (a x y z : Q) (v : V3) : V3 :=
  if feqb x 0 && feqb y 0 && feqb z 0 then v
  else
    let c := cosd a in
    let s := sind a in
    let t := fsub 1 c in
    let '(mkV3 px py pz) := v in
    mkV3 (fadd (fadd (fmul (fadd (fmul (fmul x x) t) c) px)
                     (fmul (fsub (fmul (fmul x y) t) (fmul z s)) py))
               (fmul (fadd (fmul (fmul x z) t) (fmul y s)) pz))
         (fadd (fadd (fmul (fadd (fmul (fmul y x) t) (fmul z s)) px)
                     (fmul (fadd (fmul (fmul y y) t) c) py))
               (fmul (fsub (fmul (fmul y z) t) (fmul x s)) pz))
         (fadd (fadd (fmul (fsub (fmul (fmul x z) t) (fmul y s)) px)
                     (fmul (fadd (fmul (fmul y z) t) (fmul x s)) py))
               (fmul (fadd (fmul (fmul z z) t) c) pz)).

(** [drawRotatedCube]: the wire cube under [glRotatef(angle, rotX, rotY, rotZ)]. *)
Definition drawRotatedCube (s : Rot16) : list V3 :=
  map (glRotatef (angle s) (rotX s) (rotY s) (rotZ s)) (cube_vertices 1).

Definition display (s : Rot16) : list V3 * list V3 * list V3 :=
  (drawAxes16, drawOriginalCube16, drawRotatedCube s).

End Trig.

(** The axis is zero or a unit coordinate vector. *)
Definition axis_ok (s : Rot16) : Prop :=
  (rotX s, rotY s, rotZ s) = (0, 0, 0) \/ (rotX s, rotY s, rotZ s) = (1, 0, 0) \/
  (rotX s, rotY s, rotZ s) = (0, 1, 0) \/ (rotX s, rotY s, rotZ s) = (0, 0, 1).

Definition norm2 (v : V3) : Q := vx v * vx v + vy v * vy v + vz v * vz v.

(** The specification of a rotation about a coordinate axis, by an
    angle of cosine [c] and sine [s]. *)
Definition rot_x (c s : Q) (v : V3) : V3 := mkV3 (vx v) (c * vy v - s * vz v) (s * vy v + c * vz v).
Definition rot_y (c s : Q) (v : V3) : V3 := mkV3 (c * vx v + s * vz v) (vy v) (- s * vx v + c * vz v).
Definition rot_z (c s : Q) (v : V3) : V3 := mkV3 (c * vx v - s * vy v) (s * vx v + c * vy v) (vz v).

End Rot16.

(** ** Lemmas *)

Module Space3DFacts.
Import Space3D.

Lemma Forall2_map_map {A B C} (R : B -> C -> Prop) (f : A -> B) (g : A -> C) l :
  (forall a, R (f a) (g a)) -> Forall2 R (map f l) (map g l).
Proof. intros H. induction l; constructor; auto. Qed.

Lemma v3_eq_refl v : v3_eq v v.
Proof. repeat split; reflexivity. Qed.

End Space3DFacts.

Module Rot16Facts.
Import Space3D Rot16.

Lemma reachable_axis_ok s : reachable s -> axis_ok s.
Proof.
  unfold axis_ok. induction 1 as [c v s b H | o s s' _ _ H].
  - unfold getUserInput in H.
    repeat match type of H with context [Z.eqb ?a ?b] => destruct (Z.eqb a b) end;
      try discriminate; injection H as <- _; cbn; auto.
  - unfold menu in H.
    repeat match type of H with context [Z.eqb ?a ?b] => destruct (Z.eqb a b) end;
      try discriminate; injection H as <-; cbn; auto.
Qed.

Section Trig.
Variables cosd sind : Q -> Q.

Ltac rot_ring :=
  unfold glRotatef; cbn [feqb andb]; vm_compute Qeq_bool; cbv beta iota;
  unfold v3_eq; cbn; rewrite ?fadd_eq, ?fsub_eq, ?fmul_eq;
  repeat split; ring.

Lemma glRotatef_x a v : v3_eq (glRotatef cosd sind a 1 0 0 v) (rot_x (cosd a) (sind a) v).
Proof. destruct v as [px py pz]. rot_ring. Qed.

Lemma glRotatef_y a v : v3_eq (glRotatef cosd sind a 0 1 0 v) (rot_y (cosd a) (sind a) v).
Proof. destruct v as [px py pz]. rot_ring. Qed.

Lemma glRotatef_z a v : v3_eq (glRotatef cosd sind a 0 0 1 v) (rot_z (cosd a) (sind a) v).
Proof. destruct v as [px py pz]. rot_ring. Qed.

Lemma glRotatef_zero a v : glRotatef cosd sind a 0 0 0 v = v.
Proof. reflexivity. Qed.

End Trig.

Lemma norm2_compat v w : v3_eq v w -> norm2 v == norm2 w.
Proof. intros (H1 & H2 & H3). unfold norm2. now rewrite H1, H2, H3. Qed.

Lemma plane_norm c s p q : c * c + s * s == 1 ->
  (c * p - s * q) * (c * p - s * q) + (s * p + c * q) * (s * p + c * q) == p * p + q * q.
Proof.
  intros H. transitivity ((c * c + s * s) * (p * p + q * q)); [ring|]. rewrite H. ring.
Qed.

Lemma rot_x_norm c s v : c * c + s * s == 1 -> norm2 (rot_x c s v) == norm2 v.
Proof. intros H. unfold norm2; cbn. pose proof (plane_norm c s (vy v) (vz v) H). lra. Qed.

Lemma rot_y_norm c s v : c * c + s * s == 1 -> norm2 (rot_y c s v) == norm2 v.
Proof.
  intros H. unfold norm2; cbn. pose proof (plane_norm c s (vz v) (vx v) H). lra.
Qed.

Lemma rot_z_norm c s v : c * c + s * s == 1 -> norm2 (rot_z c s v) == norm2 v.
Proof. intros H. unfold norm2; cbn. pose proof (plane_norm c s (vx v) (vy v) H). lra. Qed.

End Rot16Facts.

(** ** Properties of Exp-15 and Exp-16 *)

Import Space3D.

(** C31. Exp-15 draws what was asked: after [getUserInput] on the
    initial globals, the transformed cube is the unit cube with the
    chosen coordinate moved by the value ("1") or multiplied by it
    ("2"), and the cube itself for an invalid axis or choice. *)
Theorem cube15_draws_user_transform choice axis value :
  Forall2 v3_eq (Cube15.drawTransformedCube (fst (Cube15.getUserInput choice axis value Cube15.init15)))
                (map (Cube15.user_transform choice axis value) (cube_vertices 1)).
Proof.
  unfold Cube15.drawTransformedCube. apply Space3DFacts.Forall2_map_map. intros [px py pz].
  unfold Cube15.getUserInput, Cube15.init15, Cube15.user_transform, Cube15.on_axis.
  destruct (String.eqb choice "1"); [|destruct (String.eqb choice "2")];
    repeat match goal with |- context [Ascii.eqb axis ?c] => destruct (Ascii.eqb axis c) end;
    unfold Cube15.modelview, glTranslatef, glScalef, v3_eq; cbn;
    rewrite ?fadd_eq, ?fmul_eq; repeat split; ring.
Qed.

(** C32. Exp-16 only ever rotates rigidly: in every state reachable by
    the console choice and the right-click menu, the axis is zero or a
    unit coordinate axis, and (cosine and sine satisfying
    c^2 + s^2 = 1) every drawn vertex of the rotated cube is at the
    same distance from the origin as the cube vertex it comes from. *)
Theorem rot16_reachable_rigid (cosd sind : Q -> Q) s :
  (forall a, cosd a * cosd a + sind a * sind a == 1) ->
  Rot16.reachable s ->
  Rot16.axis_ok s /\
  Forall2 (fun v w => Rot16.norm2 v == Rot16.norm2 w) (Rot16.drawRotatedCube cosd sind s) (cube_vertices 1).
Proof.
  intros Htrig Hr. pose proof (Rot16Facts.reachable_axis_ok s Hr) as Hax. split; [exact Hax|].
  unfold Rot16.drawRotatedCube. rewrite <- (map_id (cube_vertices 1)) at 2.
  apply Space3DFacts.Forall2_map_map. intros v.
  destruct s as [a x y z]. unfold Rot16.axis_ok in Hax; cbn in *.
  destruct Hax as [H|[H|[H|H]]]; injection H as -> -> ->.
  - rewrite Rot16Facts.glRotatef_zero. reflexivity.
  - rewrite (Rot16Facts.norm2_compat _ _ (Rot16Facts.glRotatef_x cosd sind a v)).
    apply Rot16Facts.rot_x_norm, Htrig.
  - rewrite (Rot16Facts.norm2_compat _ _ (Rot16Facts.glRotatef_y cosd sind a v)).
    apply Rot16Facts.rot_y_norm, Htrig.
  - rewrite (Rot16Facts.norm2_compat _ _ (Rot16Facts.glRotatef_z cosd sind a v)).
    apply Rot16Facts.rot_z_norm, Htrig.
Qed.

(** The right-click menu of Exp-16 always shows a 30 degree turn:
    options 1, 2 and 3 draw the cube rotated by 30 degrees about x, y
    and z whatever the state before (the angle is reset to 0 before
    [angle += 30], so repeated choices do not accumulate), any other
    option but 4 draws the cube unrotated, and 4 exits. *)
Theorem rot16_menu_turn (cosd sind : Q -> Q) o s :
  match Rot16.menu o s with
  | None => o = 4%Z
  | Some s' =>
      Forall2 v3_eq (Rot16.drawRotatedCube cosd sind s')
        (map (if Z.eqb o 1 then Rot16.rot_x (cosd 30) (sind 30)
              else if Z.eqb o 2 then Rot16.rot_y (cosd 30) (sind 30)
              else if Z.eqb o 3 then Rot16.rot_z (cosd 30) (sind 30)
              else fun v => v) (cube_vertices 1))
  end.
Proof.
  unfold Rot16.menu, Rot16.drawRotatedCube.
  destruct (Z.eqb_spec o 4); [assumption|].
  assert (E : fadd 0 30 = 30) by reflexivity. rewrite E. clear E.
  destruct (Z.eqb o 1); [|destruct (Z.eqb o 2); [|destruct (Z.eqb o 3)]];
    apply Space3DFacts.Forall2_map_map; intros v; cbn [Rot16.angle Rot16.rotX Rot16.rotY Rot16.rotZ].
  - apply Rot16Facts.glRotatef_x.
  - apply Rot16Facts.glRotatef_y.
  - apply Rot16Facts.glRotatef_z.
  - rewrite Rot16Facts.glRotatef_zero. apply Space3DFacts.v3_eq_refl.
Qed.

Lemma rot16_reachable_rigid_witness :
  Rot16.reachable (Rot16.mkRot16 45 1 0 0) /\
  Rot16.axis_ok (Rot16.mkRot16 45 1 0 0) /\
  Forall2 (fun v w => Rot16.norm2 v == Rot16.norm2 w)
    (Rot16.drawRotatedCube (fun _ => 3 # 5) (fun _ => 4 # 5) (Rot16.mkRot16 45 1 0 0)) (cube_vertices 1).
Proof.
  assert (Hr : Rot16.reachable (Rot16.mkRot16 45 1 0 0)).
  { apply (Rot16.reach_input 1 45 _ false). reflexivity. }
  split; [exact Hr|].
  apply (rot16_reachable_rigid (fun _ => 3 # 5) (fun _ => 4 # 5)); [|exact Hr].
  intros _. vm_compute. reflexivity.
Defined.
