(* ===== verification/Ellipse.v ===== *)
(** The midpoint ellipse of CG LAB/Exp-09: [class EllipseDrawer] and its
    [drawEllipse].  The centre and radii are [float]s read from the
    console, modelled as exact rationals ([QFloat]).  Each region is a
    [while] loop that plots the four reflections of the current point and
    prints one table row per pass; both are instances of [while_rows]
    over the loop state [(x, y, dx, dy, p)].  Region 1 runs while
    [dx < dy]: [dx] grows by [2 ry^2] per pass and [dy] never grows, so
    [ceil(rx^2 / ry) + 2] tests are enough; region 2 runs while [y >= 0]
    and [y] drops by 1 per pass, so [floor(y) + 2] tests are enough.
    [ellipse_total] below shows that these fuels never run out.  The
    printed table is built with the [Console] model of [setw]. *)

From S2P Require Import Prelude QFloat DDA Console.
From Stdlib Require Strings.String.
Import String.StringSyntax.

Module EllipseDrawer.

(** The members of [class EllipseDrawer]. *)
Record EllipseDrawer := mkEllipse { xc : Q; yc : Q; rx : Q; ry : Q }.

(** The loop variables of [drawEllipse]: [x], [y], [dx], [dy] and the
    decision parameter ([p1] in region 1, [p2] in region 2). *)
Record state := mkSt { ex : Q; ey : Q; edx : Q; edy : Q; ep : Q }.

(** [plotPoints(x, y)]: the four reflections about the centre. *)
Definition plotPoints (e : EllipseDrawer) (x y : Q) : list (Q * Q) :=
  [(fadd (xc e) x, fadd (yc e) y); (fsub (xc e) x, fadd (yc e) y);
   (fadd (xc e) x, fsub (yc e) y); (fsub (xc e) x, fsub (yc e) y)].

(** [printTableRow(region, x, y, p, dx, dy)]: the six numbers printed,
    each [float] through [(int)]. *)
Definition printTableRow (region : Z) (s : state) : Z * Z * Z * Z * Z * Z :=
  (region, DDA.to_int (ex s), DDA.to_int (ey s), DDA.to_int (ep s),
   DDA.to_int (edx s), DDA.to_int (edy s)).

(** The body of the region-1 loop after the row is printed. *)
Definition step1 (e : EllipseDrawer) (s : state) : state :=
  let '(mkSt x y dx dy p1) := s in
  if fltb p1 0 then
    let x := fadd x 1 in
    let dx := fadd dx (fmul (fmul 2 (ry e)) (ry e)) in
    mkSt x y dx dy (fadd p1 (fadd dx (fmul (ry e) (ry e))))
  else
    let x := fadd x 1 in
    let y := fsub y 1 in
    let dx := fadd dx (fmul (fmul 2 (ry e)) (ry e)) in
    let dy := fsub dy (fmul (fmul 2 (rx e)) (rx e)) in
    mkSt x y dx dy (fadd p1 (fadd (fsub dx dy) (fmul (ry e) (ry e)))).

(** [while (dx < dy)]. *)
Definition cond1 (s : state) : bool := fltb (edx s) (edy s).

(** The body of the region-2 loop after the row is printed. *)
Definition step2 (e : EllipseDrawer) (s : state) : state :=
  let '(mkSt x y dx dy p2) := s in
  if fltb 0 p2 then
    let y := fsub y 1 in
    let dy := fsub dy (fmul (fmul 2 (rx e)) (rx e)) in
    mkSt x y dx dy (fadd p2 (fsub (fmul (rx e) (rx e)) dy))
  else
    let y := fsub y 1 in
    let x := fadd x 1 in
    let dx := fadd dx (fmul (fmul 2 (ry e)) (ry e)) in
    let dy := fsub dy (fmul (fmul 2 (rx e)) (rx e)) in
    mkSt x y dx dy (fadd p2 (fadd (fsub dx dy) (fmul (rx e) (rx e)))).

(** [while (y >= 0)]. *)
Definition cond2 (s : state) : bool := fleb 0 (ey s).

(** The initial values: [x = 0], [y = ry], [dx], [dy] and [p1]. *)
Definition init1 (e : EllipseDrawer) : state :=
  let x := 0 in
  let y := ry e in
  mkSt x y (fmul (fmul (fmul 2 (ry e)) (ry e)) x) (fmul (fmul (fmul 2 (rx e)) (rx e)) y)
       (fadd (fsub (fmul (ry e) (ry e)) (fmul (fmul (rx e) (rx e)) (ry e)))
             (fmul (fmul (1 # 4) (rx e)) (rx e))).

(** [p2], computed from the state at the end of region 1. *)
Definition init2 (e : EllipseDrawer) (s : state) : state :=
  let '(mkSt x y dx dy _) := s in
  mkSt x y dx dy
    (fsub (fadd (fmul (fmul (ry e) (ry e)) (fmul (fadd x (1 # 2)) (fadd x (1 # 2))))
                (fmul (fmul (rx e) (rx e)) (fmul (fsub y 1) (fsub y 1))))
          (fmul (fmul (fmul (rx e) (rx e)) (ry e)) (ry e))).

(** Fuel of the two loops. *)
Definition fuel1 (e : EllipseDrawer) : nat := Z.to_nat (Qceiling (rx e * rx e / ry e)) + 2.
Definition fuel2 (s : state) : nat := Z.to_nat (Qceiling (ey s)) + 2.

(** [drawEllipse]: the rows of both regions, in the order printed, and
    the vertices submitted to [GL_POINTS]. *)
Definition drawEllipse (e : EllipseDrawer) : option (list (Z * state) * list (Q * Q)) :=
  match while_rows (fuel1 e) cond1 (step1 e) (init1 e) with
  | None => None
  | Some (rows1, s1) =>
      match while_rows (fuel2 (init2 e s1)) cond2 (step2 e) (init2 e s1) with
      | None => None
      | Some (rows2, _) =>
          let rows := map (pair 1%Z) rows1 ++ map (pair 2%Z) rows2 in
          Some (rows, flat_map (fun r => plotPoints e (ex (snd r)) (ey (snd r))) rows)
      end
  end.

(** ** The printed table *)

Import Ostream.
Local Open Scope string_scope.

Definition border : str := "+--------+--------+--------+------------+----------+----------+".

(** [printTableHeader]: the border (after a newline), the column names
    and the border again. *)
Definition printTableHeader : list str :=
  [cat [newline; border; newline];
   cat ["| Region |   x    |   y    |     p      |   dx     |   dy     |"; newline];
   cat [border; newline]].

(** The line [printTableRow] writes for a row. *)
Definition printTableLine (region : Z) (s : state) : str :=
  let '(r, x, y, p, dx, dy) := printTableRow region s in
  cat ["|"; setw 7 (show_int r); " |"; setw 7 (show_int x); " |"; setw 7 (show_int y);
       " |"; setw 11 (show_int p); " |"; setw 9 (show_int dx); " |"; setw 9 (show_int dy); " |"; newline].

(** What [drawEllipse] prints: the header, a line per pass of both
    loops, and the closing border. *)
Definition drawEllipse_output (e : EllipseDrawer) : option (list str) :=
  option_map (fun '(rows, _) =>
                printTableHeader ++ map (fun '(r, s) => printTableLine r s) rows ++ [cat [border; newline]])
             (drawEllipse e).

Close Scope string_scope.

(** The ellipse function [F(X, Y) = ry^2 X^2 + rx^2 Y^2 - rx^2 ry^2]. *)
Definition ellipse_fn (e : EllipseDrawer) (X Y : Q) : Q :=
  ry e * ry e * (X * X) + rx e * rx e * (Y * Y) - rx e * rx e * (ry e * ry e).

(** The loop invariants: [dx = 2 ry^2 x], [dy = 2 rx^2 y], and the
    decision parameter is [F] at the midpoint the next choice tests:
    [(x + 1, y - 1/2)] in region 1, [(x + 1/2, y - 1)] in region 2. *)
Definition inv1 (e : EllipseDrawer) (s : state) : Prop :=
  edx s == 2 * ry e * ry e * ex s /\ edy s == 2 * rx e * rx e * ey s /\
  ep s == ellipse_fn e (ex s + 1) (ey s - (1 # 2)).

Definition inv2 (e : EllipseDrawer) (s : state) : Prop :=
  edx s == 2 * ry e * ry e * ex s /\ edy s == 2 * rx e * rx e * ey s /\
  ep s == ellipse_fn e (ex s + (1 # 2)) (ey s - 1).

Definition row_ok (e : EllipseDrawer) (r : Z * state) : Prop :=
  if Z.eqb (fst r) 1 then inv1 e (snd r) else inv2 e (snd r).

(** The plotted point of a pass, and the moves of an 8-connected walk
    that goes right, down, or both. *)
Definition pos (s : state) : Q * Q := (ex s, ey s).

Definition ell_move (a b : Q * Q) : Prop :=
  (fst b == fst a + 1 /\ (snd b == snd a \/ snd b == snd a - 1)) \/
  (fst b == fst a /\ snd b == snd a - 1).

End EllipseDrawer.

(** ** Lemmas *)

Module EllipseFacts.
Import EllipseDrawer.

Section Drawer.
Variable e : EllipseDrawer.

Ltac ell_norm :=
  cbn [ex ey edx edy ep] in *; rewrite ?fadd_eq, ?fsub_eq, ?fmul_eq in *.

Lemma step1_inv s : inv1 e s -> inv1 e (step1 e s).
Proof.
  destruct s as [x y dx dy p]. unfold inv1, ellipse_fn, step1. intros (Hdx & Hdy & Hp).
  destruct (fltb p 0); ell_norm; rewrite Hdx, Hdy, Hp;
    repeat split; ring.
Qed.

Lemma init1_inv : inv1 e (init1 e).
Proof. unfold inv1, init1, ellipse_fn. ell_norm. repeat split; ring. Qed.

Lemma init2_inv s :
  edx s == 2 * ry e * ry e * ex s -> edy s == 2 * rx e * rx e * ey s -> inv2 e (init2 e s).
Proof.
  destruct s as [x y dx dy p]. unfold inv2, init2, ellipse_fn. ell_norm. intros Hdx Hdy.
  rewrite Hdx, Hdy. repeat split; ring.
Qed.

Lemma step2_inv s : inv2 e s -> inv2 e (step2 e s).
Proof.
  destruct s as [x y dx dy p]. unfold inv2, ellipse_fn, step2. intros (Hdx & Hdy & Hp).
  destruct (fltb 0 p); ell_norm; rewrite Hdx, Hdy, Hp;
    repeat split; ring.
Qed.

(** Both bodies add [2 ry^2] to [dx] and do not increase [dy]. *)
Lemma step1_dx_dy s :
  edx (step1 e s) == edx s + 2 * ry e * ry e /\ edy (step1 e s) <= edy s.
Proof.
  destruct s as [x y dx dy p]. unfold step1.
  assert (0 <= rx e * rx e) by nra.
  destruct (fltb p 0); ell_norm; split; try ring; nra.
Qed.

Lemma step2_y s : ey (step2 e s) == ey s - 1.
Proof. destruct s as [x y dx dy p]. unfold step2. destruct (fltb 0 p); ell_norm; ring. Qed.

(** Region 1 returns within [fuel1] tests. *)
Lemma region1_total : exists r, while_rows (fuel1 e) cond1 (step1 e) (init1 e) = Some r.
Proof.
  destruct (Qeq_dec (ry e) 0) as [H0|H0].
  - exists ([], init1 e). unfold fuel1. rewrite Nat.add_succ_r, while_rows_unfold.
    unfold cond1. destruct (fltb_spec (edx (init1 e)) (edy (init1 e))) as [Hc|Hc]; [|reflexivity].
    exfalso. unfold init1 in Hc. ell_norm. rewrite H0 in Hc. lra.
  - assert (Hd : 0 < 2 * ry e * ry e).
    { assert (~ ry e * ry e == 0) by (intros Hz; apply H0; nra). nra. }
    unfold fuel1. rewrite Nat.add_succ_r.
    apply (while_rows_total_Q cond1 (step1 e) (fun s => (edy s - edx s) / (2 * ry e * ry e))).
    + intros s Hc. unfold cond1 in Hc. destruct (fltb_spec (edx s) (edy s)); [|discriminate].
      apply Qle_shift_div_l; lra.
    + intros s _. destruct (step1_dx_dy s) as [Hx Hy]. rewrite Hx.
      apply Qmult_le_r with (2 * ry e * ry e); [assumption|].
      field_simplify; [lra | intros Hz; lra | intros Hz; lra].
    + eapply Qle_lt_trans; [|apply Qceiling_fuel]. unfold init1. ell_norm.
      apply Qle_lteq. right. field. exact H0.
Qed.

(** Region 2 returns within [fuel2] tests. *)
Lemma region2_total s : exists r, while_rows (fuel2 s) cond2 (step2 e) s = Some r.
Proof.
  unfold fuel2. rewrite Nat.add_succ_r.
  apply (while_rows_total_Q cond2 (step2 e) ey).
  - intros t Hc. unfold cond2 in Hc. destruct (fleb_spec 0 (ey t)); [assumption | discriminate].
  - intros t _. rewrite step2_y. lra.
  - apply Qceiling_fuel.
Qed.

Lemma step1_move s : ell_move (pos s) (pos (step1 e s)).
Proof.
  destruct s as [x y dx dy p]. unfold ell_move, pos, step1.
  destruct (fltb p 0); cbn [fst snd]; ell_norm; left; (split; [ring|]); [left|right]; ring.
Qed.

Lemma step2_move s : ell_move (pos s) (pos (step2 e s)).
Proof.
  destruct s as [x y dx dy p]. unfold ell_move, pos, step2.
  destruct (fltb 0 p); cbn [fst snd]; ell_norm; [right | left]; repeat split; try ring. right. ring.
Qed.

Lemma init2_pos s : pos (init2 e s) = pos s.
Proof. now destruct s. Qed.

Definition is_int (q : Q) : Prop := exists k, q == inject_Z k.

(** With an integer [ry >= 0], region 1 keeps [x >= 0] and an integer
    [y >= 0]. *)
Definition P1 (s : state) : Prop := inv1 e s /\ 0 <= ex s /\ 0 <= ey s /\ is_int (ey s).

Lemma is_int_pred q : is_int q -> is_int (q - 1).
Proof.
  intros [k Hk]. exists (k - 1)%Z. rewrite Hk. unfold Z.sub.
  rewrite inject_Z_plus, inject_Z_opp. reflexivity.
Qed.

Lemma is_int_ge1 q : is_int q -> 0 < q -> 1 <= q.
Proof.
  intros [k Hk] Hq. rewrite Hk in *. change 0 with (inject_Z 0) in Hq.
  change 1 with (inject_Z 1). rewrite <- Zlt_Qlt in Hq. rewrite <- Zle_Qle. lia.
Qed.

Lemma step1_P1 s : P1 s -> cond1 s = true -> P1 (step1 e s).
Proof.
  intros (Hinv & Hx & Hy & Hk) Hc. split; [apply step1_inv, Hinv|].
  destruct Hinv as (Hdx & Hdy & _). unfold cond1 in Hc.
  destruct (fltb_spec (edx s) (edy s)) as [Hlt|]; [|discriminate].
  assert (Hypos : 0 < ey s).
  { rewrite Hdx, Hdy in Hlt.
    assert (0 <= ry e * ry e * ex s) by (apply Qmult_le_0_compat; [nra | assumption]).
    destruct (Qlt_le_dec 0 (ey s)) as [|Hle]; [assumption|].
    assert (0 <= rx e * rx e * (- ey s)) by (apply Qmult_le_0_compat; [nra | lra]). lra. }
  pose proof (is_int_ge1 _ Hk Hypos) as H1.
  destruct (step1_move s) as [(Hx' & [Hy'|Hy'])|(Hx' & Hy')]; cbn [pos fst snd] in *;
    repeat split; try lra.
  - destruct Hk as [k Hk]. exists k. rewrite Hy'. exact Hk.
  - destruct (is_int_pred _ Hk) as [k Hk']. exists k. rewrite Hy'. exact Hk'.
  - destruct (is_int_pred _ Hk) as [k Hk']. exists k. rewrite Hy'. exact Hk'.
Qed.

Lemma step2_int s : is_int (ey s) -> cond2 s = true -> is_int (ey (step2 e s)).
Proof.
  intros Hk _. destruct (is_int_pred _ Hk) as [k Hk']. exists k. rewrite step2_y. exact Hk'.
Qed.

Lemma is_int_zero q : is_int q -> 0 <= q -> q < 1 -> q == 0.
Proof.
  intros [k Hk] H0 H1. rewrite Hk in *. change 0 with (inject_Z 0) in *.
  change 1 with (inject_Z 1) in H1. rewrite <- Zle_Qle in H0. rewrite <- Zlt_Qlt in H1.
  assert (k = 0%Z) as -> by lia. reflexivity.
Qed.

(** The points of the passes of a loop whose body makes one move, with
    the point at exit, form a walk. *)
Lemma walk_of_trace (step : state -> state) (cond : state -> bool) fuel s rows s' :
  (forall t, ell_move (pos t) (pos (step t))) ->
  while_rows fuel cond step s = Some (rows, s') ->
  exists tl, rows ++ [s'] = s :: tl /\ chain ell_move (map pos rows ++ [pos s']).
Proof.
  intros Hm H. destruct (while_rows_trace _ _ _ _ _ _ H) as (tl & Htl & Hch).
  exists tl. split; [exact Htl|].
  replace (map pos rows ++ [pos s']) with (map pos (rows ++ [s'])) by (rewrite map_app; reflexivity).
  apply chain_map. revert Hch. apply chain_impl. intros a b [_ ->]. apply Hm.
Qed.

(** With an integer [y >= 0] at entry, region 2 runs at least once and
    its last pass is on [y = 0]. *)
Lemma region2_last_on_axis fuel s rows s' :
  is_int (ey s) -> 0 <= ey s ->
  while_rows fuel cond2 (step2 e) s = Some (rows, s') ->
  exists l r, rows = l ++ [r] /\ ey r == 0.
Proof.
  intros Hk Hy H.
  destruct (while_rows_inv cond2 (step2 e) (fun t => is_int (ey t)) _ _ _ _
              step2_int H Hk) as (Hall & _ & Hc').
  destruct (while_rows_trace _ _ _ _ _ _ H) as (tl & Htl & Hch).
  destruct (list_last_view rows) as [->|(l & r & ->)].
  - injection Htl as Hs _. subst s'. unfold cond2 in Hc'. destruct (fleb_spec 0 (ey s)); [discriminate|lra].
  - exists l, r. split; [reflexivity|]. rewrite <- app_assoc in Hch. cbn [app] in Hch.
    destruct (chain_last2 _ _ _ _ Hch) as (Hcr & ->).
    unfold cond2 in Hcr, Hc'. rewrite step2_y in Hc'.
    destruct (fleb_spec 0 (ey r)); [|discriminate]. destruct (fleb_spec 0 (ey r - 1)); [discriminate|].
    apply is_int_zero; [|lra|lra]. rewrite Forall_forall in Hall. apply Hall, in_elt.
Qed.

End Drawer.
End EllipseFacts.

(** ** Properties of Exp-09 *)

Import EllipseDrawer.

(** C33. [drawEllipse] returns for every centre and pair of radii, and
    every row it prints carries the textbook decision variables:
    [dx = 2 ry^2 x], [dy = 2 rx^2 y], and the printed [p] is the ellipse
    function at the midpoint the next step tests, [(x + 1, y - 1/2)] in
    region 1 and [(x + 1/2, y - 1)] in region 2. *)
Theorem ellipse_total_decision e :
  exists rows pts, drawEllipse e = Some (rows, pts) /\ Forall (row_ok e) rows.
Proof.
  destruct (EllipseFacts.region1_total e) as ([rows1 s1] & H1).
  destruct (EllipseFacts.region2_total e (init2 e s1)) as ([rows2 s2] & H2).
  destruct (while_rows_inv _ _ (inv1 e) _ _ _ _ (fun s Hs _ => EllipseFacts.step1_inv e s Hs) H1
              (EllipseFacts.init1_inv e)) as (Hr1 & (Hdx & Hdy & _) & _).
  destruct (while_rows_inv _ _ (inv2 e) _ _ _ _ (fun s Hs _ => EllipseFacts.step2_inv e s Hs) H2
              (EllipseFacts.init2_inv e s1 Hdx Hdy)) as (Hr2 & _).
  unfold drawEllipse. rewrite H1, H2. do 2 eexists. split; [reflexivity|].
  apply Forall_app. split; apply Forall_map; [revert Hr1 | revert Hr2]; apply Forall_impl; auto.
Qed.

(** C34. With an integer semi-axis [ry >= 0] (any [rx]), the plotted
    quarter is a connected walk: it starts at (0, ry), every next point
    is one step right, down, or diagonally right-down, and the last row
    lies on the axis [y = 0], so the four reflections close the
    ellipse. *)
Theorem ellipse_integer_walk e n :
  ry e == inject_Z n -> (0 <= n)%Z ->
  exists rows pts, drawEllipse e = Some (rows, pts) /\
    hd_error (map (fun r => pos (snd r)) rows) = Some (0, ry e) /\
    chain ell_move (map (fun r => pos (snd r)) rows) /\
    exists r, last_opt rows = Some r /\ ey (snd r) == 0.
Proof.
  intros Hn Hn0.
  assert (HP0 : EllipseFacts.P1 e (init1 e)).
  { split; [apply EllipseFacts.init1_inv|]. unfold init1; cbn [ex ey].
    split; [apply Qle_refl|]. split; [|exists n; exact Hn].
    rewrite Hn. change 0 with (inject_Z 0). rewrite <- Zle_Qle. exact Hn0. }
  destruct (EllipseFacts.region1_total e) as ([rows1 s1] & H1).
  destruct (while_rows_inv _ _ _ _ _ _ _ (EllipseFacts.step1_P1 e) H1 HP0) as (_ & (_ & _ & Hy1 & Hk1) & _).
  destruct (EllipseFacts.region2_total e (init2 e s1)) as ([rows2 s2] & H2).
  destruct (EllipseFacts.walk_of_trace _ _ _ _ _ _ (EllipseFacts.step1_move e) H1) as (tl1 & Ht1 & Hc1).
  destruct (EllipseFacts.walk_of_trace _ _ _ _ _ _ (EllipseFacts.step2_move e) H2) as (tl2 & Ht2 & Hc2).
  assert (Hy2 : ey (init2 e s1) = ey s1) by now destruct s1.
  rewrite <- Hy2 in Hk1, Hy1.
  destruct (EllipseFacts.region2_last_on_axis e _ _ _ _ Hk1 Hy1 H2) as (l & r & Hrows2 & Hr).
  unfold drawEllipse. rewrite H1, H2. do 2 eexists. split; [reflexivity|].
  rewrite map_app, !map_map. cbn [snd].
  assert (Hhd2 : exists tl, rows2 = init2 e s1 :: tl).
  { rewrite Hrows2 in Ht2 |- *. destruct l as [|a l]; injection Ht2 as -> _; eexists; reflexivity. }
  destruct Hhd2 as (tl & Hhd2). split; [|split].
  - destruct rows1 as [|a rows1]; cbn in Ht1 |- *; injection Ht1 as Ha _; subst.
    + rewrite Hhd2. now destruct e.
    + reflexivity.
  - rewrite Hhd2, map_cons, (EllipseFacts.init2_pos e). apply chain_app. split; [exact Hc1|].
    rewrite <- (EllipseFacts.init2_pos e s1), <- map_cons, <- Hhd2. apply (chain_app_l _ _ (pos s2)), Hc2.
  - exists (2%Z, r). split; [|exact Hr].
    rewrite Hrows2, map_app, app_assoc. apply last_opt_app_single.
Qed.

(** ** The printed table lines up *)

Module TableFacts.
Import EllipseDrawer Ostream OstreamFacts.

(** The columns of a printed row fit their fields. *)
Definition row_fits (r : Z * state) : Prop :=
  (-10^6 < DDA.to_int (ex (snd r)) < 10^7 /\ -10^6 < DDA.to_int (ey (snd r)) < 10^7 /\
   -10^10 < DDA.to_int (ep (snd r)) < 10^11 /\
   -10^8 < DDA.to_int (edx (snd r)) < 10^9 /\ -10^8 < DDA.to_int (edy (snd r)) < 10^9)%Z.

Lemma line_length_iff r s :
  (r = 1 \/ r = 2)%Z -> (String.length (printTableLine r s) = 64%nat <-> row_fits (r, s)).
Proof.
  intros Hr. unfold printTableLine, printTableRow, row_fits. cbn [snd]. line_length.
  assert (String.length (show_int r) <= 7)%nat by (apply show_int_fits; cbn; lia).
  pose proof (show_int_fits (DDA.to_int (ex s)) 7 ltac:(lia)) as H1. pose proof (show_int_fits (DDA.to_int (ey s)) 7 ltac:(lia)) as H2.
  pose proof (show_int_fits (DDA.to_int (ep s)) 11 ltac:(lia)) as H3. pose proof (show_int_fits (DDA.to_int (edx s)) 9 ltac:(lia)) as H4.
  pose proof (show_int_fits (DDA.to_int (edy s)) 9 ltac:(lia)) as H5. cbn in H1, H2, H3, H4, H5. lia.
Qed.

Lemma drawEllipse_regions e rows pts :
  drawEllipse e = Some (rows, pts) -> Forall (fun r => fst r = 1%Z \/ fst r = 2%Z) rows.
Proof.
  unfold drawEllipse. destruct (while_rows _ _ _ _) as [[rows1 s1]|]; [|discriminate].
  destruct (while_rows _ _ _ _) as [[rows2 s2]|]; [|discriminate]. intros H; injection H as <- _.
  apply Forall_app; split; apply Forall_map, Forall_forall; cbn; auto.
Qed.

End TableFacts.

(** Exp-09's table lines up with its borders exactly when every printed
    row's numbers fit their columns: [(int)x] and [(int)y] in
    [setw(7)], [(int)p] in [setw(11)], [(int)dx] and [(int)dy] in
    [setw(9)]; a row outside those ranges is pushed right. *)
Theorem exp09_table_aligned e rows pts :
  drawEllipse e = Some (rows, pts) ->
  exists out, drawEllipse_output e = Some out /\
    (Forall (fun l => String.length l = 64%nat) (tl out) <-> Forall TableFacts.row_fits rows).
Proof.
  intros He. pose proof (TableFacts.drawEllipse_regions _ _ _ He) as Hreg.
  unfold drawEllipse_output. rewrite He. eexists. split; [reflexivity|].
  cbn [printTableHeader tl app]. rewrite !Forall_cons_iff, Forall_app, Forall_cons_iff.
  assert (Hrows : Forall (fun l => String.length l = 64%nat) (map (fun '(r, s) => printTableLine r s) rows) <->
                  Forall TableFacts.row_fits rows).
  { rewrite Forall_map, !Forall_forall. rewrite Forall_forall in Hreg. split.
    - intros H [r s] Hin. apply (TableFacts.line_length_iff r s (Hreg _ Hin)), (H _ Hin).
    - intros H [r s] Hin. apply (TableFacts.line_length_iff r s (Hreg _ Hin)), (H _ Hin). }
  split.
  - intros (_ & _ & H & _). apply Hrows, H.
  - intros H. repeat split; try reflexivity; [apply Hrows, H | constructor].
Qed.

(** With radii 1000 the first row already overflows its [dy] column:
    [dy = 2 rx^2 ry = 2 000 000 000] has ten digits, and the row is 65
    characters wide instead of 64. *)
Example exp09_first_row_too_wide :
  cond1 (init1 (mkEllipse 0 0 1000 1000)) = true /\
  String.length (printTableLine 1 (init1 (mkEllipse 0 0 1000 1000))) = 65%nat.
Proof. split; vm_compute; reflexivity. Qed.

Lemma exp09_table_aligned_witness :
  exists rows pts, drawEllipse (mkEllipse 0 0 8 6) = Some (rows, pts) /\
    exists out, drawEllipse_output (mkEllipse 0 0 8 6) = Some out /\
      (Forall (fun l => String.length l = 64%nat) (tl out) <-> Forall TableFacts.row_fits rows).
Proof.
  assert (E : exists r, drawEllipse (mkEllipse 0 0 8 6) = Some r) by (eexists; vm_compute; reflexivity).
  destruct E as [[rows pts] E]. exists rows, pts. split; [exact E|].
  exact (exp09_table_aligned (mkEllipse 0 0 8 6) rows pts E).
Defined.

Lemma ellipse_integer_walk_witness :
  ry (mkEllipse 0 0 8 6) == inject_Z 6 /\ (0 <= 6)%Z /\
  exists rows pts, drawEllipse (mkEllipse 0 0 8 6) = Some (rows, pts) /\
    hd_error (map (fun r => pos (snd r)) rows) = Some (0, ry (mkEllipse 0 0 8 6)) /\
    chain ell_move (map (fun r => pos (snd r)) rows) /\
    exists r, last_opt rows = Some r /\ ey (snd r) == 0.
Proof.
  split; [reflexivity|]. split; [lia|].
  apply (ellipse_integer_walk (mkEllipse 0 0 8 6) 6); [reflexivity | lia].
Defined.

(** A fractional semi-axis leaves gaps: for rx = ry = 2.5 the walk
    visits y = 2.5, 1.5, 0.5 and stops, so none of the 16 plotted points
    lies on the horizontal line through the centre, and the ellipse is
    open at (xc - rx, yc) and (xc + rx, yc). *)
Example ellipse_fractional_radius_gap :
  exists rows pts, drawEllipse (mkEllipse 0 0 (5 # 2) (5 # 2)) = Some (rows, pts) /\
    length pts = 16%nat /\ forallb (fun p => negb (Qeq_bool (snd p) 0)) pts = true.
Proof. do 2 eexists. split; [vm_compute; reflexivity | split; vm_compute; reflexivity]. Qed.
