(* ===== verification/Scanline.v ===== *)
(** The scanline polygon fill of CG LAB/Exp-10.  The global arrays
    [poly] and [edges] are lists; [buildGET] is a map over the polygon's
    sides; [scanlineFill] runs over the scanlines [minY <= y < maxY],
    collects the active edges, sorts their indices with
    [bubbleSortIndices] by the current intersection [xCurr], and pairs
    them into spans submitted to [GL_LINES] through [(int)].  [xCurr] is
    an array the code writes for the active edges of the current
    scanline before it reads them; the model computes the same value
    on demand.  The bubble sort keeps the code's two nested loops: an
    inner pass of adjacent compare-and-swaps, and an outer loop of
    shrinking passes.  The three tables the program prints (vertices,
    global edges, active edges per scanline) are strings built with the
    [Console] model of [setw], [int] output and [fixed]; the theorems at
    the end give the inputs for which they line up with their rules. *)

From S2P Require Import Prelude QFloat DDA Console.
From Stdlib Require Import Permutation.
From Stdlib Require Strings.String.
Import String.StringSyntax.

Open Scope Z_scope.

Module Scanline.

Definition MAXV : Z := 50.

(** [class Point]: integer vertex. *)
Record Point := mkPoint { x : Z; y : Z }.

(** [struct Edge]. *)
Record Edge := mkEdge { yMin : Z; yMax : Z; xAtYMin : Q; invSlope : Q }.

(** The zero-initialised array entries. *)
Definition origin : Point := mkPoint 0 0.
Definition no_edge : Edge := mkEdge 0 0 0 0.

(** What [readVertices] leaves: an exit for fewer than three vertices,
    a write past [poly[50]] for more than fifty, or the polygon. *)
Inductive input_result :=
| TooFewVertices
| PolyOverflow
| Polygon (poly : list Point).

Definition readVertices (n : Z) (input : list (Z * Z)) : input_result :=
  if n <? 3 then TooFewVertices
  else if MAXV <? n then PolyOverflow
  else Polygon (map (fun '(a, b) => mkPoint a b) (firstn (Z.to_nat n) input)).

(** One pass of the [buildGET] loop: the side from [p1] to [p2], or
    nothing for a horizontal side. *)
Definition edge_of (p1 p2 : Point) : option Edge :=
  if y p1 =? y p2 then None
  else
    let '(ymn, ymx, xmn) := if y p1 <? y p2 then (y p1, y p2, x p1) else (y p2, y p1, x p2) in
    Some (mkEdge ymn ymx (inject_Z xmn) (fdiv (inject_Z (x p2 - x p1)) (inject_Z (y p2 - y p1)))).

(** [buildGET]: the sides [poly[i] -> poly[(i + 1) % n]] in order. *)
Definition buildGET (poly : list Point) : list Edge :=
  let n := length poly in
  flat_map (fun i => match edge_of (nth i poly origin) (nth ((i + 1) mod n) poly origin) with
                     | Some e => [e]
                     | None => []
                     end) (seq 0 n).

(** The inner loop of [bubbleSortIndices]: [k] adjacent
    compare-and-swaps from the front, swapping when
    [xvals[idx[j]] > xvals[idx[j + 1]]]. *)
Fixpoint bubble_pass (xvals : nat -> Q) (k : nat) (idx : list nat) : list nat :=
  match k, idx with
  | S k', a :: b :: rest =>
      if fltb (xvals b) (xvals a) then b :: bubble_pass xvals k' (a :: rest)
      else a :: bubble_pass xvals k' (b :: rest)
  | _, _ => idx
  end.

(** [bubbleSortIndices(idx, xvals, count)]: pass [i] makes
    [count - 1 - i] comparisons, for [i < count - 1]. *)
Definition bubbleSortIndices (idx : list nat) (xvals : nat -> Q) (count : nat) : list nat :=
  fold_left (fun l i => bubble_pass xvals (count - 1 - i) l) (seq 0 (count - 1)) idx.

(** [minY] and [maxY] of [scanlineFill]. *)
Definition minY (poly : list Point) : Z :=
  fold_left (fun m p => if y p <? m then y p else m) (tl poly) (y (hd origin poly)).
Definition maxY (poly : list Point) : Z :=
  fold_left (fun m p => if m <? y p then y p else m) (tl poly) (y (hd origin poly)).

(** The active edges of scanline [y], in index order. *)
Definition activeIdx (edges : list Edge) (y : Z) : list nat :=
  filter (fun e => let ed := nth e edges no_edge in (yMin ed <=? y) && (y <? yMax ed))
         (seq 0 (length edges)).

(** [edges[e].xAtYMin + (y - edges[e].yMin) * edges[e].invSlope]. *)
Definition x_at (ed : Edge) (y : Z) : Q := fadd (xAtYMin ed) (fmul (inject_Z (y - yMin ed)) (invSlope ed)).

(** [xCurr[e]], written for the active edges of scanline [y]. *)
Definition xCurr (edges : list Edge) (y : Z) (e : nat) : Q := x_at (nth e edges no_edge) y.

(** [for (i = 0; i + 1 < activeCount; i += 2)]: consecutive pairs; an
    odd last index is left out. *)
Fixpoint pairs (l : list nat) : list (nat * nat) :=
  match l with
  | a :: b :: rest => (a, b) :: pairs rest
  | _ => []
  end.

(** The spans of one scanline, as the two [glVertex2i] of each. *)
Definition scanline (edges : list Edge) (y : Z) : list (Z * Z) :=
  let act := activeIdx edges y in
  if Nat.ltb (length act) 2 then []
  else
    let idx := bubbleSortIndices act (xCurr edges y) (length act) in
    flat_map (fun '(i, j) => [(DDA.to_int (xCurr edges y i), y); (DDA.to_int (xCurr edges y j), y)])
             (pairs idx).

(** [scanlineFill]: the [GL_LINES] vertices of every scanline, then the
    [GL_LINE_LOOP] outline. *)
Definition scanlineFill (poly : list Point) (edges : list Edge) : list (Z * Z) * list (Z * Z) :=
  let lo := minY poly in
  let ys := map (fun k => lo + Z.of_nat k) (seq 0 (Z.to_nat (maxY poly - lo))) in
  (flat_map (scanline edges) ys, map (fun p => (x p, y p)) poly).

(** [main] up to the first frame. *)
Definition main (n : Z) (input : list (Z * Z)) : option (list Edge * (list (Z * Z) * list (Z * Z))) :=
  match readVertices n input with
  | Polygon poly => let edges := buildGET poly in Some (edges, scanlineFill poly edges)
  | _ => None
  end.

(** ** Console output *)

Import Ostream.
Local Open Scope string_scope.

(** [printVertexTable]: a title, a header, a 28-dash rule and one row
    per vertex, numbered from 1. *)
Definition printVertexTable (poly : list Point) : list str :=
  [cat [newline; "Vertex Table"; newline];
   cat [setw 8 "Index"; setw 10 "X"; setw 10 "Y"; newline];
   cat [rep 28 dash; newline]] ++
  map (fun i => let p := nth i poly origin in
                cat [setw 8 (show_int (Z.of_nat i + 1)); setw 10 (show_int (x p)); setw 10 (show_int (y p)); newline])
      (seq 0 (length poly)).

(** [printGET]: a title, a header, a 48-dash rule and one row per edge,
    [xAtYMin] with two decimals and [invSlope] with three. *)
Definition printGET (edges : list Edge) : list str :=
  [cat [newline; "Global Edge Table (GET)"; newline];
   cat [setw 8 "Edge#"; setw 8 "yMin"; setw 8 "yMax"; setw 12 "xAtYMin"; setw 12 "invSlope"; newline];
   cat [rep 48 dash; newline]] ++
  map (fun i => let ed := nth i edges no_edge in
                cat [setw 8 (show_int (Z.of_nat i + 1)); setw 8 (show_int (yMin ed)); setw 8 (show_int (yMax ed));
                     setw 12 (show_fixed 2 (xAtYMin ed)); setw 12 (show_fixed 3 (invSlope ed)); newline])
      (seq 0 (length edges)).

(** The listing of the active edges [scanlineFill] prints for a
    scanline with at least one: a title, a header, a 20-dash rule and
    one row per active edge with its [xCurr]. *)
Definition printAET (edges : list Edge) (yy : Z) : list str :=
  let act := activeIdx edges yy in
  if Nat.ltb 0 (length act) then
    [cat [newline; "Active Edge Table (AET) at y = "; show_int yy; newline];
     cat [setw 8 "Edge#"; setw 12 "xCurr"; newline];
     cat [rep 20 dash; newline]] ++
    map (fun e => cat [setw 8 (show_int (Z.of_nat e + 1)); setw 12 (show_fixed 2 (xCurr edges yy e)); newline]) act
  else [].

(** What one [display] prints: the listings of its scanlines. *)
Definition scanlineFill_output (poly : list Point) (edges : list Edge) : list str :=
  let lo := minY poly in
  flat_map (printAET edges) (map (fun k => lo + Z.of_nat k) (seq 0 (Z.to_nat (maxY poly - lo)))).

(** What [main] prints after reading the polygon: the vertex table and
    the global edge table. *)
Definition main_output (n : Z) (input : list (Z * Z)) : option (list str) :=
  match readVertices n input with
  | Polygon poly => Some (printVertexTable poly ++ printGET (buildGET poly))
  | _ => None
  end.

Close Scope string_scope.

(** Sorted by [xvals], as [bubbleSortIndices] promises. *)
Definition sorted_by (xvals : nat -> Q) (l : list nat) : Prop := chain (fun a b => (xvals a <= xvals b)%Q) l.

(** The sides [poly[i] -> poly[(i + 1) % n]], as [buildGET] visits them. *)
Definition sides (poly : list Point) : list (Point * Point) :=
  map (fun i => (nth i poly origin, nth ((i + 1) mod length poly) poly origin)) (seq 0 (length poly)).

Definition opt_list {A} (o : option A) : list A := match o with Some a => [a] | None => [] end.

(** The test of the active-edge loop. *)
Definition active_b (y : Z) (ed : Edge) : bool := (yMin ed <=? y) && (y <? yMax ed).

End Scanline.

(** ** Lemmas *)

Module BubbleFacts.
Import Scanline.
Local Open Scope Q_scope.

Section Sort.
Variable xv : nat -> Q.

Lemma bubble_pass_perm k l : Permutation (bubble_pass xv k l) l.
Proof.
  revert l. induction k as [|k IH]; intros [|a [|b rest]]; cbn; auto.
  destruct (fltb (xv b) (xv a)).
  - rewrite IH. apply perm_swap.
  - now rewrite IH.
Qed.

Lemma bubble_pass_app k p s : (k < length p)%nat -> bubble_pass xv k (p ++ s) = bubble_pass xv k p ++ s.
Proof.
  revert p. induction k as [|k IH]; intros p Hk; [now destruct p|].
  destruct p as [|a [|b rest]]; cbn in Hk; try lia. cbn [app bubble_pass].
  destruct (fltb (xv b) (xv a)); cbn [app]; f_equal; apply (IH (_ :: rest)); cbn; lia.
Qed.

(** A full pass carries a largest element to the end. *)
Lemma bubble_pass_max p :
  p <> [] -> exists q m, bubble_pass xv (length p - 1) p = q ++ [m] /\ Forall (fun a => xv a <= xv m) p.
Proof.
  remember (length p) as n eqn:Hn. revert p Hn.
  induction n as [n IH] using lt_wf_ind. intros p Hn Hp.
  destruct p as [|a [|b rest]]; [contradiction| |].
  - exists [], a. cbn in *; subst. split; [reflexivity|]. constructor; [apply Qle_refl | constructor].
  - subst n. cbn [length]. replace (S (S (length rest)) - 1)%nat with (S (length rest)) by lia.
    cbn [bubble_pass]. destruct (fltb_spec (xv b) (xv a)) as [Hba|Hab].
    + destruct (IH (S (length rest)) ltac:(cbn; lia) (a :: rest) eq_refl ltac:(discriminate))
        as (q & m & Hq & Hall). cbn [length] in Hq. replace (S (length rest) - 1)%nat with (length rest) in Hq by lia.
      exists (b :: q), m. rewrite Hq. split; [reflexivity|].
      inversion Hall as [|? ? Ham Hrest]; subst. repeat constructor; auto. lra.
    + destruct (IH (S (length rest)) ltac:(cbn; lia) (b :: rest) eq_refl ltac:(discriminate))
        as (q & m & Hq & Hall). cbn [length] in Hq. replace (S (length rest) - 1)%nat with (length rest) in Hq by lia.
      exists (a :: q), m. rewrite Hq. split; [reflexivity|].
      inversion Hall as [|? ? Hbm Hrest]; subst. repeat constructor; auto. lra.
Qed.

(** The state after [j] passes: an unsorted prefix below a sorted
    suffix of the [j] largest. *)
Definition outer_inv (l0 : list nat) (j : nat) (l : list nat) : Prop :=
  exists p s, l = p ++ s /\ length s = j /\ Permutation l l0 /\ sorted_by xv s /\
    Forall (fun a => Forall (fun b => xv a <= xv b) s) p.

Lemma outer_step l0 j l :
  (j < length l0 - 1)%nat -> outer_inv l0 j l -> outer_inv l0 (S j) (bubble_pass xv (length l0 - 1 - j) l).
Proof.
  intros Hj (p & s & -> & Hs & Hperm & Hsort & Hcross).
  pose proof (Permutation_length Hperm) as Hlen. rewrite length_app in Hlen.
  assert (Hk : (length l0 - 1 - j = length p - 1)%nat) by lia.
  rewrite Hk, bubble_pass_app by lia.
  destruct (bubble_pass_max p) as (q & m & Hq & Hall); [intros ->; cbn in Hlen; lia|].
  pose proof (bubble_pass_perm (length p - 1) p) as Hpp. rewrite Hq in *.
  exists q, (m :: s). repeat split.
  - now rewrite <- app_assoc.
  - cbn. lia.
  - rewrite <- Hperm. apply Permutation_app_tail, Hpp.
  - apply chain_cons_Forall; [|exact Hsort]. rewrite Forall_forall in Hcross.
    apply Hcross, (Permutation_in _ Hpp), in_elt.
  - rewrite Forall_forall in Hcross, Hall |- *. intros a Ha.
    assert (Hap : In a p) by (apply (Permutation_in _ Hpp), in_or_app; auto).
    constructor; [apply Hall, Hap | apply Hcross, Hap].
Qed.

Lemma outer_loop l0 j :
  (j <= length l0 - 1)%nat -> outer_inv l0 j (fold_left (fun l i => bubble_pass xv (length l0 - 1 - i) l) (seq 0 j) l0).
Proof.
  induction j as [|j IH]; intros Hj.
  - exists l0, []. rewrite app_nil_r. repeat split; auto.
    apply Forall_forall. intros. constructor.
  - rewrite seq_S, fold_left_app. cbn [fold_left]. apply outer_step; [lia|]. apply IH. lia.
Qed.

(** [bubbleSortIndices] on a whole list sorts it. *)
Lemma bubbleSort_correct l :
  Permutation (bubbleSortIndices l xv (length l)) l /\ sorted_by xv (bubbleSortIndices l xv (length l)).
Proof.
  destruct (outer_loop l (length l - 1) (le_n _)) as (p & s & Heq & Hs & Hperm & Hsort & Hcross).
  unfold bubbleSortIndices. rewrite Heq in Hperm |- *. split; [exact Hperm|].
  pose proof (Permutation_length Hperm) as Hlen. rewrite length_app in Hlen.
  destruct p as [|a [|b p]]; cbn [length app] in *.
  - exact Hsort.
  - inversion Hcross. apply chain_cons_Forall; assumption.
  - lia.
Qed.

End Sort.
End BubbleFacts.

Module GETFacts.
Import Scanline.

Lemma buildGET_sides poly :
  buildGET poly = flat_map (fun pq => opt_list (edge_of (fst pq) (snd pq))) (sides poly).
Proof.
  unfold buildGET, sides. cbv zeta. induction (seq 0 (length poly)) as [|i l IH]; [reflexivity|].
  cbn [map flat_map]. rewrite IH. reflexivity.
Qed.

(** The sides of [a :: l] are the pairs of [a :: l] and [l ++ [a]]. *)
Lemma sides_combine a l : sides (a :: l) = combine (a :: l) (l ++ [a]).
Proof.
  apply nth_ext with (d := (origin, origin)) (d' := (origin, origin)).
  - unfold sides. rewrite length_map, length_seq, length_combine, length_app. cbn [length]. rewrite Nat.add_1_r, Nat.min_id. reflexivity.
  - intros i Hi. unfold sides in *. rewrite length_map, length_seq in Hi.
    set (f := fun i => (nth i (a :: l) origin, nth ((i + 1) mod length (a :: l)) (a :: l) origin)).
    rewrite (nth_indep (map f _) _ (f 0%nat)) by (rewrite length_map, length_seq; lia).
    rewrite map_nth, seq_nth by lia. subst f. cbn beta. cbn [Nat.add].
    rewrite combine_nth by (cbn; rewrite length_app; cbn; lia). f_equal.
    cbn [length] in *. destruct (Nat.eq_dec i (length l)) as [->|Hne].
    + rewrite Nat.add_1_r, Nat.Div0.mod_same. rewrite app_nth2 by lia. now rewrite Nat.sub_diag.
    + rewrite Nat.mod_small by lia. rewrite app_nth1 by lia. now rewrite Nat.add_1_r.
Qed.

Lemma filter_seq_nth {A} (f : A -> bool) d (l pre : list A) :
  length (filter (fun i => f (nth i (pre ++ l) d)) (seq (length pre) (length l))) = length (filter f l).
Proof.
  revert pre. induction l as [|a l IH]; intros pre; [reflexivity|].
  cbn [length seq filter]. rewrite nth_middle.
  specialize (IH (pre ++ [a])). rewrite <- app_assoc, length_app in IH. cbn [app length] in IH.
  rewrite Nat.add_1_r in IH. destruct (f a); cbn [length]; rewrite IH; reflexivity.
Qed.

Lemma activeIdx_count edges y : length (activeIdx edges y) = length (filter (active_b y) edges).
Proof. apply (filter_seq_nth (active_b y) no_edge edges []). Qed.

Lemma filter_flat_map_opt {A B} (f : B -> bool) (g : A -> option B) l :
  length (filter f (flat_map (fun a => opt_list (g a)) l)) =
  length (filter (fun a => match g a with Some b => f b | None => false end) l).
Proof.
  induction l as [|a l IH]; [reflexivity|]. cbn [flat_map filter].
  destruct (g a) as [b|]; cbn [opt_list app filter]; [destruct (f b)|]; cbn [length]; auto.
Qed.

(** A side is active on scanline [y] exactly when one end is at or below
    [y] and the other above it. *)
Lemma edge_of_active y p q :
  match edge_of p q with Some e => active_b y e | None => false end =
  xorb (Scanline.y p <=? y) (Scanline.y q <=? y).
Proof.
  unfold edge_of, active_b.
  destruct (Z.eqb_spec (Scanline.y p) (Scanline.y q)) as [E|E].
  - rewrite E. destruct (Scanline.y q <=? y); reflexivity.
  - destruct (Z.ltb_spec (Scanline.y p) (Scanline.y q)); cbn [yMin yMax];
      destruct (Z.leb_spec (Scanline.y p) y); destruct (Z.leb_spec (Scanline.y q) y);
      destruct (Z.ltb_spec y (Scanline.y q)); destruct (Z.ltb_spec y (Scanline.y p));
      cbn; reflexivity || lia.
Qed.

(** Around a closed walk the number of changes of a boolean property is
    even: the changes from [a] through [l] to [c] have the parity of
    [a xor c]. *)
Lemma changes_parity (B : Point -> bool) a l c :
  Nat.even (length (filter (fun pq => xorb (B (fst pq)) (B (snd pq))) (combine (a :: l) (l ++ [c]))))
  = negb (xorb (B a) (B c)).
Proof.
  revert a. induction l as [|b l IH]; intros a.
  - cbn. destruct (B a), (B c); reflexivity.
  - cbn [app combine filter fst snd]. specialize (IH b). cbn [app combine filter fst snd] in IH.
    destruct (xorb (B a) (B b)) eqn:Hab; cbn [length]; rewrite ?Nat.even_succ, <- ?Nat.negb_even, IH;
      destruct (B a), (B b), (B c); cbn in *; congruence.
Qed.

End GETFacts.

Module SpanFacts.
Import Scanline.

Lemma pairs_length l : Nat.Even (length l) -> (length (pairs l) * 2 = length l)%nat.
Proof.
  remember (length l) as n eqn:Hn. revert l Hn. induction n as [n IH] using lt_wf_ind.
  intros [|a [|b l]] Hn He; cbn [pairs length] in *; subst; [reflexivity| |].
  - destruct He as [k Hk]. lia.
  - assert (He' : Nat.Even (length l)) by (destruct He as [k Hk]; exists (k - 1)%nat; lia).
    specialize (IH (length l) ltac:(lia) l eq_refl He'). lia.
Qed.

(** Every scanline crosses an even number of active edges. *)
Lemma active_even poly y : Nat.Even (length (activeIdx (buildGET poly) y)).
Proof.
  apply Nat.even_spec. destruct poly as [|a l]; [reflexivity|].
  rewrite GETFacts.activeIdx_count, GETFacts.buildGET_sides, GETFacts.filter_flat_map_opt.
  rewrite (filter_ext _ (fun pq => xorb (Scanline.y (fst pq) <=? y) (Scanline.y (snd pq) <=? y)))
    by (intros [p q]; apply GETFacts.edge_of_active).
  rewrite GETFacts.sides_combine, (GETFacts.changes_parity (fun p => Scanline.y p <=? y)).
  now rewrite xorb_nilpotent.
Qed.

End SpanFacts.

(** ** Properties of Exp-10 *)

Import Scanline.

(** C36. Every entry of the global edge table comes from a non-horizontal
    side [(p, q)] of the polygon: [yMin < yMax] are the side's lower and
    upper [y], and for every scanline [yy] the point
    [(xAtYMin + (yy - yMin) * invSlope, yy)] lies on the line through
    [p] and [q], so [xCurr] is the exact crossing of the scanline with
    the side. *)
Theorem scanline_get_wellformed poly :
  Forall (fun ed => exists p q, In (p, q) (sides poly) /\
            yMin ed < yMax ed /\ yMin ed = Z.min (y p) (y q) /\ yMax ed = Z.max (y p) (y q) /\
            forall yy, ((x_at ed yy - inject_Z (x p)) * inject_Z (y q - y p) ==
                        inject_Z (yy - y p) * inject_Z (x q - x p))%Q)
         (buildGET poly).
Proof.
  rewrite GETFacts.buildGET_sides. apply Forall_flat_map. intros [p q] Hin.
  unfold edge_of. cbn [fst snd].
  destruct (Z.eqb_spec (y p) (y q)) as [|Hne]; [constructor|].
  pose proof (inject_Z_neq _ _ Hne) as Hnz.
  destruct (Z.ltb_spec (y p) (y q)); repeat constructor; exists p, q; cbn [yMin yMax];
    (split; [exact Hin|]); (split; [lia|]); (split; [lia|]); (split; [lia|]);
    intros yy; unfold x_at; cbn [xAtYMin yMin invSlope];
    rewrite fadd_eq, fmul_eq, fdiv_eq, !inject_Z_sub; field;
    intros E; apply Hnz; lra.
Qed.

(** C35. One scanline of [scanlineFill]: the active edges are sorted by
    their crossing (a permutation of them, in non-decreasing [xCurr]),
    there is an even number of them for every closed polygon, so the
    [i += 2] loop pairs all of them, and the vertices drawn are the
    truncated crossings of consecutive pairs on the scanline. *)
Theorem scanline_spans poly yy :
  let edges := buildGET poly in
  let act := activeIdx edges yy in
  exists idx, Permutation idx act /\ sorted_by (xCurr edges yy) idx /\
    (length (pairs idx) * 2 = length act)%nat /\
    scanline edges yy =
      flat_map (fun '(i, j) => [(DDA.to_int (xCurr edges yy i), yy); (DDA.to_int (xCurr edges yy j), yy)])
               (pairs idx).
Proof.
  intros edges act. assert (Hev : Nat.Even (length act)) by exact (SpanFacts.active_even poly yy).
  destruct (BubbleFacts.bubbleSort_correct (xCurr edges yy) act) as (Hperm & Hsort).
  exists (bubbleSortIndices act (xCurr edges yy) (length act)). repeat split; try assumption.
  - rewrite SpanFacts.pairs_length; [apply Permutation_length, Hperm|].
    rewrite (Permutation_length Hperm). exact Hev.
  - unfold scanline. fold edges act. destruct (Nat.ltb_spec (length act) 2) as [Hl|]; [|reflexivity].
    assert (H0 : length act = 0%nat) by (destruct Hev as [k Hk]; lia).
    apply length_zero_iff_nil in H0. rewrite H0. reflexivity.
Qed.

(** ** The printed tables line up *)

Module TableFacts.
Import Scanline Ostream OstreamFacts.
Local Open Scope string_scope.


Lemma vertex_row_length i p :
  (i < 50)%nat ->
  (String.length (cat [setw 8 (show_int (Z.of_nat i + 1)); setw 10 (show_int (x p)); setw 10 (show_int (y p)); newline]) = 29%nat
   <-> -10^9 < x p < 10^10 /\ -10^9 < y p < 10^10).
Proof.
  intros Hi. line_length.
  assert (Hidx : (String.length (show_int (Z.of_nat i + 1)) <= 8)%nat) by (apply show_int_fits; cbn; lia).
  pose proof (show_int_fits (x p) 10 ltac:(lia)) as Hx. pose proof (show_int_fits (y p) 10 ltac:(lia)) as Hy.
  cbn in Hx, Hy. rewrite <- Hx, <- Hy. lia.
Qed.

(** A table printed row by row from a list holds rows of a shape
    exactly when every entry of the list satisfies the matching condition. *)
Lemma Forall_rows_iff {A} (l : list A) d (row : nat -> A -> str) (P : str -> Prop) (R : A -> Prop) :
  (forall i, (i < length l)%nat -> (P (row i (nth i l d)) <-> R (nth i l d))) ->
  (Forall P (map (fun i => row i (nth i l d)) (seq 0 (length l))) <-> Forall R l).
Proof.
  intros Hrow. rewrite !Forall_forall. split.
  - intros H a Ha. destruct (In_nth l a d Ha) as (i & Hi & <-). apply (Hrow i Hi), H, in_map_iff.
    exists i. split; [reflexivity | apply in_seq; lia].
  - intros H s Hs. apply in_map_iff in Hs as (i & <- & Hi). apply in_seq in Hi.
    apply Hrow; [lia|]. apply H, nth_In. lia.
Qed.

Lemma readVertices_length n input poly : readVertices n input = Polygon poly -> (length poly <= 50)%nat.
Proof.
  unfold readVertices. destruct (Z.ltb_spec n 3) as [H3|H3]; [discriminate|].
  destruct (Z.ltb_spec MAXV n) as [H50|H50]; [discriminate|].
  intros Hp; injection Hp as <-. rewrite length_map, length_firstn. unfold MAXV in *. lia.
Qed.

Lemma in_sides poly p q : In (p, q) (sides poly) -> In p poly /\ In q poly.
Proof.
  unfold sides. intros H. apply in_map_iff in H as (i & Hpq & Hi). apply in_seq in Hi. injection Hpq as <- <-.
  split; apply nth_In; [lia|]. apply Nat.mod_upper_bound. lia.
Qed.

Lemma edge_of_fields p q ed :
  edge_of p q = Some ed ->
  (yMin ed = y p \/ yMin ed = y q) /\ (yMax ed = y p \/ yMax ed = y q) /\
  (xAtYMin ed = inject_Z (x p) \/ xAtYMin ed = inject_Z (x q)) /\
  y p <> y q /\ invSlope ed = fdiv (inject_Z (x q - x p)) (inject_Z (y q - y p)).
Proof.
  unfold edge_of. destruct (Z.eqb_spec (y p) (y q)) as [|Hne]; [discriminate|].
  destruct (y p <? y q); intros H; injection H as <-; cbn; tauto.
Qed.

Lemma buildGET_edges poly ed :
  In ed (buildGET poly) -> exists p q, In p poly /\ In q poly /\ edge_of p q = Some ed.
Proof.
  rewrite GETFacts.buildGET_sides. intros H. apply in_flat_map in H as ([p q] & Hs & He).
  cbn [fst snd] in He. destruct (edge_of p q) as [e|] eqn:E; [|contradiction].
  destruct He as [<-|[]]. destruct (in_sides _ _ _ Hs). exists p, q. tauto.
Qed.

Lemma buildGET_length poly : (length (buildGET poly) <= length poly)%nat.
Proof.
  unfold buildGET. cbv zeta. rewrite <- (length_seq (length poly) 0) at 2.
  induction (seq 0 (length poly)) as [|i l IH]; [cbn; lia|]. cbn [flat_map length].
  rewrite length_app. destruct (edge_of _ _); cbn [length]; lia.
Qed.

Lemma Qabs_inject_Z z : (Qabs (inject_Z z) == inject_Z (Z.abs z))%Q.
Proof.
  destruct (Z.le_gt_cases 0 z).
  - rewrite Qabs_pos by (change 0%Q with (inject_Z 0); rewrite <- Zle_Qle; lia). rewrite Z.abs_eq by lia. reflexivity.
  - rewrite Qabs_neg by (change 0%Q with (inject_Z 0); rewrite <- Zle_Qle; lia).
    rewrite Z.abs_neq by lia. rewrite inject_Z_opp. reflexivity.
Qed.

(** A quotient of integers with a non-zero denominator is at most the
    numerator in magnitude. *)
Lemma Qabs_int_div a b : b <> 0 -> (Qabs (inject_Z a / inject_Z b) <= inject_Z (Z.abs a))%Q.
Proof.
  intros Hb. unfold Qdiv. rewrite Qabs_Qmult, Qabs_Qinv, !Qabs_inject_Z.
  assert (H1 : (1 <= inject_Z (Z.abs b))%Q) by (change 1%Q with (inject_Z 1); rewrite <- Zle_Qle; lia).
  apply Qle_shift_div_r; [lra|]. rewrite <- inject_Z_mult, <- Zle_Qle. nia.
Qed.

Lemma fixed_field_int z d :
  - 10 ^ Z.of_nat d < z < 10 ^ Z.of_nat d -> (Qabs (inject_Z z) + 1 <= inject_Z (10 ^ Z.of_nat d))%Q.
Proof.
  intros Hz. rewrite Qabs_inject_Z. change 1%Q with (inject_Z 1). rewrite <- inject_Z_plus, <- Zle_Qle. lia.
Qed.

(** A row of the global edge table is 48 characters wide (and a
    newline) when its numbers fit their columns. *)
Lemma get_row_length i ed :
  (i < 50)%nat -> -10^7 < yMin ed < 10^8 -> -10^7 < yMax ed < 10^8 ->
  (Qabs (xAtYMin ed) + 1 <= inject_Z (10^8))%Q -> (Qabs (invSlope ed) + 1 <= inject_Z (10^7))%Q ->
  String.length (cat [setw 8 (show_int (Z.of_nat i + 1)); setw 8 (show_int (yMin ed)); setw 8 (show_int (yMax ed));
                      setw 12 (show_fixed 2 (xAtYMin ed)); setw 12 (show_fixed 3 (invSlope ed)); newline]) = 49%nat.
Proof.
  intros Hi Hmn Hmx Hx Hs. line_length.
  assert (String.length (show_int (Z.of_nat i + 1)) <= 8)%nat by (apply show_int_fits; cbn; lia).
  assert (String.length (show_int (yMin ed)) <= 8)%nat by (apply show_int_fits; cbn; lia).
  assert (String.length (show_int (yMax ed)) <= 8)%nat by (apply show_int_fits; cbn; lia).
  pose proof (show_fixed_fits 2 (xAtYMin ed) 8 ltac:(lia) ltac:(lia) Hx).
  pose proof (show_fixed_fits 3 (invSlope ed) 7 ltac:(lia) ltac:(lia) Hs).
  lia.
Qed.

(** On a scanline it crosses, a side's [xCurr] lies between the x of
    its two ends. *)
Lemma x_at_between p q ed yy M :
  edge_of p q = Some ed -> yMin ed <= yy <= yMax ed ->
  (- M <= inject_Z (x p) <= M)%Q -> (- M <= inject_Z (x q) <= M)%Q -> (- M <= x_at ed yy <= M)%Q.
Proof.
  unfold edge_of, x_at. destruct (Z.eqb_spec (y p) (y q)) as [|Hne]; [discriminate|].
  intros He Hy Hp Hq.
  destruct (Z.ltb_spec (y p) (y q)) as [Hlt|Hge]; injection He as <-; cbn [xAtYMin yMin yMax invSlope] in *; qexact.
  - set (t := (inject_Z (yy - y p) / inject_Z (y q - y p))%Q).
    assert (Hd : (0 < inject_Z (y q - y p))%Q) by (change 0%Q with (inject_Z 0); rewrite <- Zlt_Qlt; lia).
    assert (Ht0 : (0 <= t)%Q) by (apply Qle_shift_div_l; [exact Hd | rewrite Qmult_0_l; change 0%Q with (inject_Z 0); rewrite <- Zle_Qle; lia]).
    assert (Ht1 : (t <= 1)%Q) by (apply Qle_shift_div_r; [exact Hd | rewrite Qmult_1_l, <- Zle_Qle; lia]).
    setoid_replace (inject_Z (x p) + inject_Z (yy - y p) * (inject_Z (x q - x p) / inject_Z (y q - y p)))%Q
      with ((1 - t) * inject_Z (x p) + t * inject_Z (x q))%Q by (subst t; rewrite !inject_Z_sub in *; field; lra).
    clearbody t. nra.
  - set (t := (inject_Z (yy - y q) / inject_Z (y p - y q))%Q).
    assert (Hd : (0 < inject_Z (y p - y q))%Q) by (change 0%Q with (inject_Z 0); rewrite <- Zlt_Qlt; lia).
    assert (Ht0 : (0 <= t)%Q) by (apply Qle_shift_div_l; [exact Hd | rewrite Qmult_0_l; change 0%Q with (inject_Z 0); rewrite <- Zle_Qle; lia]).
    assert (Ht1 : (t <= 1)%Q) by (apply Qle_shift_div_r; [exact Hd | rewrite Qmult_1_l, <- Zle_Qle; lia]).
    setoid_replace (inject_Z (x q) + inject_Z (yy - y q) * (inject_Z (x q - x p) / inject_Z (y q - y p)))%Q
      with ((1 - t) * inject_Z (x q) + t * inject_Z (x p))%Q by (subst t; rewrite !inject_Z_sub in *; field; split; lra).
    clearbody t. nra.
Qed.

Lemma aet_row_length e v :
  (e < 50)%nat -> (Qabs v + 1 <= inject_Z (10^8))%Q ->
  String.length (cat [setw 8 (show_int (Z.of_nat e + 1)); setw 12 (show_fixed 2 v); newline]) = 21%nat.
Proof.
  intros He Hv. line_length.
  assert (String.length (show_int (Z.of_nat e + 1)) <= 8)%nat by (apply show_int_fits; cbn; lia).
  pose proof (show_fixed_fits 2 v 8 ltac:(lia) ltac:(lia) Hv). lia.
Qed.

End TableFacts.

(** The vertex table of Exp-10 lines up with its 28-dash rule exactly
    when no coordinate is at or below [-10^9] (or at or above [10^10],
    which no [int] reaches): [setw(10)] is one character too narrow for
    [-2147483648], and a row with such a coordinate is pushed right. *)
Theorem exp10_vertex_table_aligned n input poly :
  readVertices n input = Polygon poly ->
  (Forall (fun l => String.length l = 29%nat) (tl (printVertexTable poly)) <->
   Forall (fun p => -10^9 < x p < 10^10 /\ -10^9 < y p < 10^10) poly).
Proof.
  intros Hr. pose proof (TableFacts.readVertices_length _ _ _ Hr) as Hn.
  unfold printVertexTable. cbn [tl app]. rewrite !Forall_cons_iff.
  rewrite (TableFacts.Forall_rows_iff poly origin
             (fun i p => Ostream.cat [Ostream.setw 8 (Ostream.show_int (Z.of_nat i + 1)); Ostream.setw 10 (Ostream.show_int (x p));
                                    Ostream.setw 10 (Ostream.show_int (y p)); Ostream.newline])
             _ (fun p => -10^9 < x p < 10^10 /\ -10^9 < y p < 10^10)).
  - split; [tauto | intros H; split; [reflexivity | split; [reflexivity | exact H]]].
  - intros i Hi. apply TableFacts.vertex_row_length. lia.
Qed.

Lemma exp10_vertex_table_aligned_witness :
  readVertices 3 [(-1000000000, 0); (10, 0); (10, 10)] = Polygon [mkPoint (-1000000000) 0; mkPoint 10 0; mkPoint 10 10] /\
  (Forall (fun l => String.length l = 29%nat) (tl (printVertexTable [mkPoint (-1000000000) 0; mkPoint 10 0; mkPoint 10 10])) <->
   Forall (fun p => -10^9 < x p < 10^10 /\ -10^9 < y p < 10^10) [mkPoint (-1000000000) 0; mkPoint 10 0; mkPoint 10 10]).
Proof. split; [reflexivity | apply (exp10_vertex_table_aligned 3 [(-1000000000, 0); (10, 0); (10, 10)]); reflexivity]. Defined.

(** The global edge table of Exp-10 lines up with its 48-dash rule for
    every polygon [main] reads whose coordinates are below [10^6] in
    magnitude: each row's [int] columns fit [setw(8)] and its
    [fixed] columns fit [setw(12)], the slope being at most the
    horizontal extent of its side. *)
Theorem exp10_get_table_aligned n input poly :
  readVertices n input = Polygon poly ->
  Forall (fun p => -10^6 < x p < 10^6 /\ -10^6 < y p < 10^6) poly ->
  Forall (fun l => String.length l = 49%nat) (tl (printGET (buildGET poly))).
Proof.
  intros Hr Hb. pose proof (TableFacts.readVertices_length _ _ _ Hr) as Hn. pose proof (TableFacts.buildGET_length poly).
  unfold printGET. cbn [tl app]. constructor; [reflexivity|]. constructor; [reflexivity|].
  apply Forall_forall. intros l Hl. apply in_map_iff in Hl as (i & <- & Hi). apply in_seq in Hi.
  assert (Hin : In (nth i (buildGET poly) no_edge) (buildGET poly)) by (apply nth_In; lia).
  destruct (TableFacts.buildGET_edges _ _ Hin) as (p & q & Hp & Hq & E).
  rewrite Forall_forall in Hb. destruct (Hb p Hp) as [Hpx Hpy], (Hb q Hq) as [Hqx Hqy].
  destruct (TableFacts.edge_of_fields _ _ _ E) as (Hmn & Hmx & Hxa & Hne & Hsl).
  apply TableFacts.get_row_length; [lia | destruct Hmn as [-> | ->]; lia | destruct Hmx as [-> | ->]; lia
    | destruct Hxa as [-> | ->]; apply (TableFacts.fixed_field_int _ 8); cbn; lia |].
  rewrite Hsl, fdiv_eq. eapply Qle_trans; [apply Qplus_le_compat; [apply TableFacts.Qabs_int_div; lia | apply Qle_refl]|].
  change 1%Q with (inject_Z 1). rewrite <- inject_Z_plus, <- Zle_Qle. cbn. lia.
Qed.

Lemma exp10_get_table_aligned_witness :
  readVertices 3 [(100, 100); (300, 150); (200, 400)] = Polygon [mkPoint 100 100; mkPoint 300 150; mkPoint 200 400] /\
  Forall (fun l => String.length l = 49%nat) (tl (printGET (buildGET [mkPoint 100 100; mkPoint 300 150; mkPoint 200 400]))).
Proof.
  split; [reflexivity|].
  apply (exp10_get_table_aligned 3 [(100, 100); (300, 150); (200, 400)]); [reflexivity|].
  repeat constructor; cbn; lia.
Defined.

(** Every listing of active edges Exp-10 prints lines up with its
    20-dash rule, for every polygon [main] reads with coordinates below
    [10^6] in magnitude: an active side's [xCurr] lies between the x of
    its ends, so it fits the [setw(12)] column with two decimals. *)
Theorem exp10_aet_table_aligned n input poly yy :
  readVertices n input = Polygon poly ->
  Forall (fun p => -10^6 < x p < 10^6 /\ -10^6 < y p < 10^6) poly ->
  Forall (fun l => String.length l = 21%nat) (tl (printAET (buildGET poly) yy)).
Proof.
  intros Hr Hb. pose proof (TableFacts.readVertices_length _ _ _ Hr) as Hn. pose proof (TableFacts.buildGET_length poly).
  unfold printAET. destruct (Nat.ltb 0 _); [|constructor]. cbn [tl app].
  constructor; [reflexivity|]. constructor; [reflexivity|].
  apply Forall_forall. intros l Hl. apply in_map_iff in Hl as (e & <- & He).
  unfold activeIdx in He. apply filter_In in He as [Hseq Hact]. apply in_seq in Hseq.
  assert (Hin : In (nth e (buildGET poly) no_edge) (buildGET poly)) by (apply nth_In; lia).
  destruct (TableFacts.buildGET_edges _ _ Hin) as (p & q & Hp & Hq & E).
  rewrite Forall_forall in Hb. destruct (Hb p Hp) as [Hpx _], (Hb q Hq) as [Hqx _].
  apply andb_true_iff in Hact as [H1 H2]. apply Z.leb_le in H1. apply Z.ltb_lt in H2.
  apply TableFacts.aet_row_length; [lia|].
  assert (Hm : forall z, -10^6 < z < 10^6 -> (- inject_Z (10^6) <= inject_Z z <= inject_Z (10^6))%Q).
  { intros z Hz. rewrite <- inject_Z_opp, <- !Zle_Qle. lia. }
  pose proof (TableFacts.x_at_between p q (nth e (buildGET poly) no_edge) yy (inject_Z (10^6)) E ltac:(cbv zeta in *; lia) (Hm _ Hpx) (Hm _ Hqx)) as Hx.
  apply Qabs_Qle_condition in Hx. unfold xCurr. set (v := x_at _ yy) in *. clearbody v.
  apply (Qle_trans _ (inject_Z (10^6) + 1)); [lra|].
  change 1%Q with (inject_Z 1). rewrite <- inject_Z_plus, <- Zle_Qle. lia.
Qed.

Lemma exp10_aet_table_aligned_witness :
  readVertices 3 [(100, 100); (300, 150); (200, 400)] = Polygon [mkPoint 100 100; mkPoint 300 150; mkPoint 200 400] /\
  Forall (fun l => String.length l = 21%nat) (tl (printAET (buildGET [mkPoint 100 100; mkPoint 300 150; mkPoint 200 400]) 120)).
Proof.
  split; [reflexivity|].
  apply (exp10_aet_table_aligned 3 [(100, 100); (300, 150); (200, 400)]); [reflexivity|].
  repeat constructor; cbn; lia.
Defined.
