(* ===== verification/WeilerAtherton.v ===== *)
(** Weiler-Atherton polygon clipping, CG LAB/Exp-18.  The global arrays
    [subjectList], [clipList] and [resultPoly] become lists, and a read
    past the filled part of [clipList] returns the zero-initialised
    [Point] ([default_point]), as the global array does.  [buildLists]
    threads [intersectionCount]; [performClipping] is the outer [for]
    over start vertices and a fuelled [do]-[while] walk ([walk]) with the
    [visited] array as the list of visited indices.  A walk takes at most
    one step per subject-list entry and then at most one pass over the
    clip list, so [length subjectList + length clipList + 2] steps are
    enough whenever the walk ends at all.  [display] is the list of GL
    calls it makes ([Draw.cmd]), with [cos] and [sin] of its markers as
    [Section] variables; [printTable] is not modelled. *)

From S2P Require Import Prelude QFloat Draw.

Module WeilerAtherton.

(** [struct Point]. *)
Record WPoint := mkW { px : Q; py : Q; isIntersection : bool; isEntry : bool; id : Z }.

(** [Point(a, b)]: not an intersection, id -1. *)
Definition point (a b : Q) : WPoint := mkW a b false false (-1).

Definition default_point : WPoint := point 0 0.

(** [isInside(p, poly, n)]: the even-odd crossing test over the edges
    [(poly[j], poly[i])], [j] the previous index. *)
Definition isInside (p : WPoint) (poly : list WPoint) : bool :=
  let n := length poly in
  fold_left
    (fun inside i =>
       let pi := nth i poly default_point in
       let pj := nth (if Nat.eqb i 0 then n - 1 else i - 1)%nat poly default_point in
       if xorb (fltb (py p) (py pi)) (fltb (py p) (py pj)) &&
          fltb (px p) (fadd (fdiv (fmul (fsub (px pj) (px pi)) (fsub (py p) (py pi)))
                                  (fsub (py pj) (py pi))) (px pi))
       then negb inside else inside)
    (seq 0 n) false.

(** [getIntersection(p1, p2, p3, p4, inter)]: the crossing of the open
    segments, if the lines are not (nearly) parallel. *)
Definition getIntersection (p1 p2 p3 p4 : WPoint) : option (Q * Q) :=
  let d := fsub (fmul (fsub (px p1) (px p2)) (fsub (py p3) (py p4)))
                (fmul (fsub (py p1) (py p2)) (fsub (px p3) (px p4))) in
  if fltb d (1 # 10000) && fltb (- (1 # 10000)) d then None
  else
    let t := fdiv (fsub (fmul (fsub (px p1) (px p3)) (fsub (py p3) (py p4)))
                        (fmul (fsub (py p1) (py p3)) (fsub (px p3) (px p4)))) d in
    let u := fdiv (- fsub (fmul (fsub (px p1) (px p2)) (fsub (py p1) (py p3)))
                          (fmul (fsub (py p1) (py p2)) (fsub (px p1) (px p3)))) d in
    if fltb 0 t && fltb t 1 && fltb 0 u && fltb u 1 then
      Some (fadd (px p1) (fmul t (fsub (px p2) (px p1))), fadd (py p1) (fmul t (fsub (py p2) (py p1))))
    else None.

(** The [(i + 1) % n] neighbour in a polygon. *)
Definition next_vertex (poly : list WPoint) (i : nat) : WPoint :=
  nth ((i + 1) mod length poly) poly default_point.

(** The subject phase of [buildLists]: each subject vertex followed by
    its crossings with the clip edges in clip-edge order, numbered by
    [intersectionCount], entry when the midpoint from the vertex is
    outside the clip polygon. *)
Definition subject_entries (S C : list WPoint) (i : nat) (count : Z) : list WPoint * Z :=
  fold_left
    (fun '(acc, cnt) j =>
       match getIntersection (nth i S default_point) (next_vertex S i)
                             (nth j C default_point) (next_vertex C j) with
       | Some (a, b) =>
           let mid := point (fdiv (fadd (px (nth i S default_point)) a) 2)
                            (fdiv (fadd (py (nth i S default_point)) b) 2) in
           (acc ++ [mkW a b true (negb (isInside mid C)) cnt], (cnt + 1)%Z)
       | None => (acc, cnt)
       end)
    (seq 0 (length C)) ([nth i S default_point], count).

(** The clip phase: each clip vertex followed by its crossings with the
    subject edges, taking [id] and [isEntry] from the first subject-list
    intersection within 0.001 in both coordinates (else id -1, exit). *)
Definition match_subject (SL : list WPoint) (a b : Q) : WPoint :=
  match find (fun k => isIntersection k && fltb (Qabs (px k - a)) (1 # 1000)
                       && fltb (Qabs (py k - b)) (1 # 1000)) SL with
  | Some k => mkW a b true (isEntry k) (id k)
  | None => mkW a b true false (-1)
  end.

Definition clip_entries (S C SL : list WPoint) (j : nat) : list WPoint :=
  nth j C default_point ::
  flat_map (fun i =>
              match getIntersection (nth j C default_point) (next_vertex C j)
                                    (nth i S default_point) (next_vertex S i) with
              | Some (a, b) => [match_subject SL a b]
              | None => []
              end)
           (seq 0 (length S)).

(** [buildLists]: [subjectList] and [clipList]. *)
Definition buildLists (S C : list WPoint) : list WPoint * list WPoint :=
  let '(SL, _) :=
    fold_left (fun '(acc, cnt) i => let '(e, cnt') := subject_entries S C i cnt in (acc ++ e, cnt'))
              (seq 0 (length S)) ([], 0%Z) in
  (SL, flat_map (clip_entries S C SL) (seq 0 (length C))).

(** The first index of an intersection with the given id, as the two
    search loops of [performClipping] find it. *)
Fixpoint find_id (l : list WPoint) (k : Z) (i : nat) : option nat :=
  match l with
  | [] => None
  | p :: l' => if isIntersection p && Z.eqb (id p) k then Some i else find_id l' k (S i)
  end.

(** The [do]-[while] walk from [start]: [Some (visited, result)] when it
    ends, [None] when the fuel runs out. *)
Fixpoint walk (fuel : nat) (SL CL : list WPoint) (start curr : nat) (inSubject : bool)
         (visited : list nat) (result : list WPoint) : option (list nat * list WPoint) :=
  match fuel with
  | O => None
  | S fuel' =>
      if inSubject then
        let p := nth curr SL default_point in
        let visited := curr :: visited in
        let result := result ++ [p] in
        let '(inS, c) :=
          if isIntersection p && negb (isEntry p) then
            (false, match find_id CL (id p) 0 with Some i => i | None => curr end)
          else (true, curr) in
        let curr := ((c + 1) mod length SL)%nat in
        if inS && Nat.eqb curr start then Some (visited, result)
        else walk fuel' SL CL start curr inS visited result
      else
        let p := nth curr CL default_point in
        let result := result ++ [p] in
        if isIntersection p && isEntry p then Some (visited, result)
        else walk fuel' SL CL start ((curr + 1) mod length CL)%nat false visited result
  end.

(** [performClipping]: a walk from every unvisited entry intersection of
    the subject list, appending to one result. *)
Definition performClipping (SL CL : list WPoint) : option (list WPoint) :=
  let fuel := (length SL + length CL + 2)%nat in
  option_map snd
    (fold_left
       (fun acc start =>
          match acc with
          | None => None
          | Some (visited, result) =>
              let p := nth start SL default_point in
              if isIntersection p && isEntry p && negb (existsb (Nat.eqb start) visited) then
                walk fuel SL CL start start true visited result
              else Some (visited, result)
          end)
       (seq 0 (length SL)) (Some ([], []))).

(** [main] without the drawing: the two lists and the clipped polygon,
    for subject and clip polygons within their arrays. *)
Definition main (subject clip : list (Q * Q)) : option (list WPoint * list WPoint * list WPoint) :=
  if Nat.ltb 20 (length subject) || Nat.ltb 20 (length clip) then None
  else
    let S := map (fun '(a, b) => point a b) subject in
    let C := map (fun '(a, b) => point a b) clip in
    let '(SL, CL) := buildLists S C in
    if Nat.ltb 50 (length SL) || Nat.ltb 50 (length CL) then None
    else option_map (fun r => (SL, CL, r)) (performClipping SL CL).

(** ** The frame [display] draws *)

(** [init]: [gluOrtho2D(-250, 250, -250, 250)] on the identity projection. *)
Definition init : list cmd := [MatrixMode true; Ortho (-250) 250 (-250) 250].

Definition xy (p : WPoint) : Q * Q := (px p, py p).

Section Display.
Variables cos sin : Q -> Q.

(** The marker [display] draws around an intersection: a 20-gon of
    radius 6, [angle = 6.28318 * j / 20]. *)
Definition marker (p : WPoint) : list cmd :=
  [Prim GL_LINE_LOOP
     (map (fun j => let angle := fdiv (fmul 6.28318 (inject_Z j)) 20 in
                    (fadd (px p) (fmul 6 (cos angle)), fadd (py p) (fmul 6 (sin angle))))
          (for_int 0 20 1))].

(** [display]: the backdrop square, the subject and clip polygons filled
    and outlined, the clipped polygon when it has vertices, then a point
    and a marker for every intersection of the subject list.  Blending
    is not recorded. *)
Definition display (S C SL result : list WPoint) : list cmd :=
  [Color 0.2 0.2 0.3 1; Prim GL_QUADS [(-250, 250); (250, 250); (250, -250); (-250, -250)];
   Color 0.2 0.6 1.0 0.3; Prim GL_POLYGON (map xy S);
   Color 0.2 0.6 1.0 1; LineWidth 2; Prim GL_LINE_LOOP (map xy S);
   Color 1.0 0.3 0.3 0.3; Prim GL_POLYGON (map xy C);
   Color 1.0 0.3 0.3 1; Prim GL_LINE_LOOP (map xy C)] ++
  (if Nat.ltb 0 (length result) then
     [Color 0.3 1.0 0.4 0.7; Prim GL_POLYGON (map xy result);
      Color 0.0 0.7 0.2 1; LineWidth 3; Prim GL_LINE_LOOP (map xy result)]
   else []) ++
  [Color 1.0 1.0 0.0 1; PointSize 8; Prim GL_POINTS (map xy (filter isIntersection SL));
   Color 1.0 0.8 0.0 1; LineWidth 1.5] ++
  flat_map marker (filter isIntersection SL).

(** The program after input: [main]'s lists and result, then the frame
    of [display] over them. *)
Definition frame (subject clip : list (Q * Q)) : option (list cmd) :=
  option_map (fun '(SL, CL, res) =>
                display (map (fun '(a, b) => point a b) subject) (map (fun '(a, b) => point a b) clip) SL res)
             (main subject clip).

End Display.

End WeilerAtherton.

(** ** Properties of Exp-18 *)

Import WeilerAtherton.

(** Two lines cross at the parameters Cramer's rule gives. *)
Lemma line_cross x1 y1 x2 y2 x3 y3 x4 y4 d t u :
  d == (x1 - x2) * (y3 - y4) - (y1 - y2) * (x3 - x4) -> ~ d == 0 ->
  t == ((x1 - x3) * (y3 - y4) - (y1 - y3) * (x3 - x4)) / d ->
  u == - ((x1 - x2) * (y1 - y3) - (y1 - y2) * (x1 - x3)) / d ->
  x1 + t * (x2 - x1) == x3 + u * (x4 - x3) /\ y1 + t * (y2 - y1) == y3 + u * (y4 - y3).
Proof.
  intros Hd Hnz Ht Hu. rewrite Ht, Hu. rewrite Hd in Hnz |- *. split; field; exact Hnz.
Qed.

(** [getIntersection] is sound: a point it returns lies strictly
    inside both segments, at parameter [t] of [p1 p2] and [u] of
    [p3 p4], both in (0, 1). *)
Lemma getIntersection_params p1 p2 p3 p4 a b :
  getIntersection p1 p2 p3 p4 = Some (a, b) ->
  exists t u, 0 < t < 1 /\ 0 < u < 1 /\
    a == px p1 + t * (px p2 - px p1) /\ b == py p1 + t * (py p2 - py p1) /\
    a == px p3 + u * (px p4 - px p3) /\ b == py p3 + u * (py p4 - py p3).
Proof.
  destruct p1 as [x1 y1 ? ? ?], p2 as [x2 y2 ? ? ?], p3 as [x3 y3 ? ? ?], p4 as [x4 y4 ? ? ?].
  unfold getIntersection; cbn [px py].
  set (d := fsub (fmul (fsub x1 x2) (fsub y3 y4)) (fmul (fsub y1 y2) (fsub x3 x4))).
  set (t := fdiv _ d). set (u := fdiv _ d).
  destruct (fltb d (1 # 10000) && fltb (- (1 # 10000)) d) eqn:Hpar; [discriminate|].
  destruct (fltb 0 t && fltb t 1 && fltb 0 u && fltb u 1) eqn:Hrng; [|discriminate].
  intros Hs. injection Hs as <- <-.
  assert (Hnz : ~ d == 0).
  { apply andb_false_iff in Hpar. intros Hz.
    destruct Hpar as [Hp|Hp]; revert Hp; [destruct (fltb_spec d (1 # 10000)) | destruct (fltb_spec (- (1 # 10000)) d)];
      (discriminate || lra). }
  rewrite !andb_true_iff in Hrng. destruct Hrng as (((H1 & H2) & H3) & H4).
  destruct (fltb_spec 0 t); [|discriminate]. destruct (fltb_spec t 1); [|discriminate].
  destruct (fltb_spec 0 u); [|discriminate]. destruct (fltb_spec u 1); [|discriminate].
  destruct (line_cross x1 y1 x2 y2 x3 y3 x4 y4 d t u) as [Ex Ey]; try assumption.
  - subst d. qexact. reflexivity.
  - subst t d. qexact. reflexivity.
  - subst u d. qexact. reflexivity.
  - exists t, u. repeat split; try assumption.
    + qexact. reflexivity.
    + qexact. reflexivity.
    + rewrite <- Ex. qexact. reflexivity.
    + rewrite <- Ey. qexact. reflexivity.
Qed.

(** The clipped polygon is wrong for a subject crossing the clip
    polygon's closing edge: clipping the pentagon (-5,2), (5,2), (5,8),
    (-5,8), (-6,5) by the square [1, 11]^2 should give the rectangle
    (1,2), (5,2), (5,8), (1,8).  The two crossings of the closing clip
    edge are stored in subject-edge order, not along the edge, and after
    the exit the walk steps with [% subListSize] instead of
    [% clipListSize]; the result runs through the zero-initialised
    array slot (0,0), which is on neither polygon, and the clip corners
    (11,1), (11,11), (1,11), which are outside the subject. *)
Example wa_clipped_polygon_wrong :
  exists SL CL res,
    main [(-5, 2); (5, 2); (5, 8); (-5, 8); (-6, 5)] [(1, 1); (11, 1); (11, 11); (1, 11)] =
      Some (SL, CL, res) /\
    map (fun p => (px p, py p)) res =
      [(1, 2); (5, 2); (5, 8); (1, 8); (0, 0); (11, 1); (11, 11); (1, 11); (1, 2)] /\
    isInside (point 11 11) (map (fun '(a, b) => point a b) [(-5, 2); (5, 2); (5, 8); (-5, 8); (-6, 5)]) = false.
Proof. do 3 eexists. split; [vm_compute; reflexivity | split; vm_compute; reflexivity]. Qed.


(** ** Everything Exp-18 draws is in the view

    Every list entry is an input vertex, a crossing of two input edges
    or the zero-initialised [Point]: all in any square around the
    origin that holds the inputs. *)

Module WAFrameFacts.

Definition in_square (h : Q) (p : Q * Q) : Prop := - h <= fst p <= h /\ - h <= snd p <= h.

Section Square.
Variable h : Q.
Hypothesis Hh : 0 <= h.

Definition PS (p : WPoint) : Prop := in_square h (xy p).

Lemma default_PS : PS default_point.
Proof. unfold PS, in_square; cbn; lra. Qed.

Lemma nth_PS l i : Forall PS l -> PS (nth i l default_point).
Proof. intros Hl. exact (Forall_nth_default PS l default_point i Hl default_PS). Qed.

Lemma next_vertex_PS l i : Forall PS l -> PS (next_vertex l i).
Proof. apply nth_PS. Qed.

(** A point of an open segment between two points of the square. *)
Lemma segment_in_square p1 p2 t a b :
  PS p1 -> PS p2 -> 0 < t < 1 ->
  a == px p1 + t * (px p2 - px p1) -> b == py p1 + t * (py p2 - py p1) -> in_square h (a, b).
Proof.
  unfold PS, in_square, xy; cbn. intros (Hx1 & Hy1) (Hx2 & Hy2) Ht -> ->.
  assert (0 <= t) by lra. assert (0 <= 1 - t) by lra. split; split; nra.
Qed.

Lemma getIntersection_PS p1 p2 p3 p4 a b :
  PS p1 -> PS p2 -> getIntersection p1 p2 p3 p4 = Some (a, b) -> in_square h (a, b).
Proof.
  intros H1 H2 E. destruct (getIntersection_params _ _ _ _ _ _ E) as (t & u & Ht & _ & Ea & Eb & _).
  exact (segment_in_square p1 p2 t a b H1 H2 Ht Ea Eb).
Qed.

Section Lists.
Variables S C : list WPoint.
Hypotheses (HS : Forall PS S) (HC : Forall PS C).

Lemma subject_entries_PS i cnt : Forall PS (fst (subject_entries S C i cnt)).
Proof.
  unfold subject_entries. apply (fold_left_inv (fun pr => Forall PS (fst pr))); [|constructor; [apply nth_PS, HS | constructor]].
  intros [acc c] j _ Hacc. cbn [fst] in Hacc.
  destruct (getIntersection _ _ _ _) as [[a b]|] eqn:E; [|exact Hacc]. cbn [fst].
  apply Forall_app. split; [exact Hacc|]. constructor; [|constructor].
  exact (getIntersection_PS _ _ _ _ a b (nth_PS _ _ HS) (next_vertex_PS _ _ HS) E).
Qed.

Lemma clip_entries_PS SL j : Forall PS (clip_entries S C SL j).
Proof.
  unfold clip_entries. constructor; [apply nth_PS, HC|]. apply Forall_flat_map. intros i _.
  destruct (getIntersection _ _ _ _) as [[a b]|] eqn:E; [|constructor]. constructor; [|constructor].
  unfold PS. replace (xy (match_subject SL a b)) with (a, b) by (unfold match_subject; destruct find; reflexivity).
  exact (getIntersection_PS _ _ _ _ a b (nth_PS _ _ HC) (next_vertex_PS _ _ HC) E).
Qed.

Lemma buildLists_PS SL CL : buildLists S C = (SL, CL) -> Forall PS SL /\ Forall PS CL.
Proof.
  unfold buildLists.
  match goal with |- context [fold_left ?f ?l ?a] => assert (Hf : Forall PS (fst (fold_left f l a))) end.
  { apply (fold_left_inv (fun pr => Forall PS (fst pr))); [|constructor].
    intros [acc c] i _ Hacc. pose proof (subject_entries_PS i c) as He.
    destruct (subject_entries S C i c) as [e c']. cbn in *. apply Forall_app; split; assumption. }
  destruct (fold_left _ _ _) as [SL0 c] eqn:E. intros Hb; injection Hb as <- <-. split.
  - exact Hf.
  - apply Forall_flat_map. intros j _. apply clip_entries_PS.
Qed.

End Lists.

Section Walk.
Variables SL CL : list WPoint.
Hypotheses (HSL : Forall PS SL) (HCL : Forall PS CL).

Lemma walk_PS fuel start curr inS visited result v r :
  Forall PS result -> walk fuel SL CL start curr inS visited result = Some (v, r) -> Forall PS r.
Proof.
  revert curr inS visited result. induction fuel as [|fuel IH]; intros curr inS visited result Hr H; [discriminate|].
  cbn [walk] in H. destruct inS.
  - assert (Hr' : Forall PS (result ++ [nth curr SL default_point]))
      by (apply Forall_app; split; [exact Hr | constructor; [apply nth_PS, HSL | constructor]]).
    destruct (isIntersection _ && negb _); cbn [andb] in H; [exact (IH _ _ _ _ Hr' H)|].
    destruct (Nat.eqb _ start); [injection H as _ <-; exact Hr' | exact (IH _ _ _ _ Hr' H)].
  - assert (Hr' : Forall PS (result ++ [nth curr CL default_point]))
      by (apply Forall_app; split; [exact Hr | constructor; [apply nth_PS, HCL | constructor]]).
    destruct (_ && _); [injection H as _ <-; exact Hr' | exact (IH _ _ _ _ Hr' H)].
Qed.

Lemma performClipping_PS res : performClipping SL CL = Some res -> Forall PS res.
Proof.
  unfold performClipping.
  set (P := fun acc : option (list nat * list WPoint) => match acc with Some (_, r) => Forall PS r | None => True end).
  match goal with |- context [fold_left ?f ?l ?a] => assert (HP : P (fold_left f l a)) end.
  { apply fold_left_inv; [|constructor]. intros [[vis r]|] st _ Hacc; [|exact I]. cbn in Hacc |- *.
    destruct (_ && _); [|exact Hacc]. destruct (walk _ _ _ _ _ _ _ _) as [[v r']|] eqn:E; [|exact I].
    exact (walk_PS _ _ _ _ _ _ _ _ Hacc E). }
  destruct (fold_left _ _ _) as [[v r]|]; [|discriminate]. intros H; injection H as <-. exact HP.
Qed.

End Walk.

Lemma points_PS l : Forall (in_square h) l -> Forall PS (map (fun '(a, b) => point a b) l).
Proof. intros Hl. apply Forall_map. eapply Forall_impl; [|exact Hl]. intros [a b] Hab. exact Hab. Qed.

(** [main]'s lists and result stay in the square of its inputs. *)
Lemma main_PS subject clip SL CL res :
  Forall (in_square h) subject -> Forall (in_square h) clip -> main subject clip = Some (SL, CL, res) ->
  Forall PS SL /\ Forall PS CL /\ Forall PS res.
Proof.
  intros Hs Hc. unfold main.
  destruct (_ || _); [discriminate|].
  destruct (buildLists _ _) as [SL0 CL0] eqn:E.
  destruct (buildLists_PS _ _ (points_PS _ Hs) (points_PS _ Hc) _ _ E) as [H1 H2].
  destruct (_ || _); [discriminate|]. destruct (performClipping SL0 CL0) as [r|] eqn:Er; [|discriminate].
  intros H; injection H as <- <- <-. repeat split; try assumption. exact (performClipping_PS _ _ H1 H2 r Er).
Qed.

End Square.

Lemma in_square_mono h h' p : h <= h' -> in_square h p -> in_square h' p.
Proof. unfold in_square. lra. Qed.

Lemma map_xy_in_square h h' l : h <= h' -> Forall (PS h) l -> Forall (in_square h') (map xy l).
Proof. intros Hh Hl. apply Forall_map. eapply Forall_impl; [|exact Hl]. intros p. apply in_square_mono, Hh. Qed.

Lemma Forall_filter_sub {A} (P : A -> Prop) f l : Forall P l -> Forall P (filter f l).
Proof. rewrite !Forall_forall. intros H x Hx. apply filter_In in Hx. apply H, Hx. Qed.

Lemma positions_flat_map {A} (k : A -> list cmd) l :
  positions (flat_map k l) = flat_map (fun a => positions (k a)) l.
Proof. induction l as [|a l IH]; [reflexivity|]. cbn [flat_map]. rewrite DrawFacts.positions_app, IH. reflexivity. Qed.

Section Trig.
Variables cos sin : Q -> Q.
Hypotheses (Hcos : forall a, -1 <= cos a <= 1) (Hsin : forall a, -1 <= sin a <= 1).

(** A marker of radius 6 around a point of the square of half-side
    [h] stays in the square of half-side [h + 6]. *)
Lemma marker_in_square h p : PS h p -> Forall (in_square (h + 6)) (positions (marker cos sin p)).
Proof.
  unfold PS, in_square, xy; cbn [fst snd]. intros Hp. unfold marker, positions. cbn [flat_map]. rewrite app_nil_r.
  apply Forall_map, Forall_forall. intros j _. cbn [fst snd]. set (a := fdiv _ _). clearbody a.
  rewrite !fadd_eq, !fmul_eq. pose proof (Hcos a). pose proof (Hsin a). repeat split; lra.
Qed.

End Trig.

End WAFrameFacts.

Import WAFrameFacts.

(** [getIntersection] finds a crossing of [p1 p2] with [p3 p4] exactly
    when it finds one of [p3 p4] with [p1 p2]: swapping the segments
    negates [d] and swaps [t] and [u]. *)
Lemma getIntersection_swap_none p1 p2 p3 p4 :
  getIntersection p1 p2 p3 p4 = None -> getIntersection p3 p4 p1 p2 = None.
Proof.
  destruct p1 as [x1 y1 ? ? ?], p2 as [x2 y2 ? ? ?], p3 as [x3 y3 ? ? ?], p4 as [x4 y4 ? ? ?].
  unfold getIntersection; cbn [px py].
  set (d := fsub (fmul (fsub x1 x2) (fsub y3 y4)) (fmul (fsub y1 y2) (fsub x3 x4))).
  set (d' := fsub (fmul (fsub x3 x4) (fsub y1 y2)) (fmul (fsub y3 y4) (fsub x1 x2))).
  assert (Ed : d' == - d) by (subst d d'; qexact; ring).
  assert (Hp : (fltb d' (1 # 10000) && fltb (- (1 # 10000)) d') = (fltb d (1 # 10000) && fltb (- (1 # 10000)) d)).
  { rewrite Ed. destruct (fltb_spec (- d) (1 # 10000)), (fltb_spec (- (1 # 10000)) (- d)),
      (fltb_spec d (1 # 10000)), (fltb_spec (- (1 # 10000)) d); cbn; reflexivity || lra. }
  rewrite Hp. destruct (fltb d (1 # 10000) && fltb (- (1 # 10000)) d) eqn:Epar; [reflexivity|].
  assert (Hnz : ~ d == 0).
  { intros Hz. apply andb_false_iff in Epar.
    destruct Epar as [Hq|Hq]; revert Hq; [destruct (fltb_spec d (1 # 10000)) | destruct (fltb_spec (- (1 # 10000)) d)];
      (discriminate || lra). }
  set (t := fdiv _ d). set (u := fdiv _ d). set (t' := fdiv _ d'). set (u' := fdiv _ d').
  assert (HD : ~ (x1 - x2) * (y3 - y4) - (y1 - y2) * (x3 - x4) == 0)
    by (intros Hz; apply Hnz; subst d; qexact; exact Hz).
  assert (HD' : ~ (x3 - x4) * (y1 - y2) - (y3 - y4) * (x1 - x2) == 0)
    by (intros Hz; apply HD; lra).
  assert (Et : t' == u) by (subst t' u d' d; qexact; field; split; assumption).
  assert (Eu : u' == t) by (subst u' t d' d; qexact; field; split; assumption).
  rewrite (fltb_compat 0 0 t' u), (fltb_compat t' u 1 1), (fltb_compat 0 0 u' t), (fltb_compat u' t 1 1)
    by (reflexivity || assumption).
  destruct (fltb 0 t && fltb t 1 && fltb 0 u && fltb u 1) eqn:Ec; [discriminate|]. intros _.
  replace (fltb 0 u && fltb u 1 && fltb 0 t && fltb t 1) with false; [reflexivity|].
  rewrite <- Ec. destruct (fltb 0 t), (fltb t 1), (fltb 0 u), (fltb u 1); reflexivity.
Qed.

(** C37. Exp-18 draws inside its window: for subject and clip vertices in
    the square [-244, 244]^2 (and any [cos] and [sin] with values in
    [-1, 1]), every vertex of the frame [display] draws, the clipped
    polygon and the intersection markers of radius 6 included, lies in
    the square [-250, 250]^2 that [init] projects onto the window. *)
Theorem wa_frame_in_view cos sin subject clip f :
  (forall a, -1 <= cos a <= 1) -> (forall a, -1 <= sin a <= 1) ->
  Forall (in_square 244) subject -> Forall (in_square 244) clip ->
  frame cos sin subject clip = Some f ->
  init = [MatrixMode true; Ortho (-250) 250 (-250) 250] /\ Forall (in_square 250) (positions f).
Proof.
  intros Hc Hs Hsub Hclip Hf. split; [reflexivity|].
  unfold frame in Hf. destruct (main subject clip) as [[[SL CL] res]|] eqn:E; [|discriminate]. injection Hf as <-.
  destruct (main_PS 244 ltac:(lra) _ _ _ _ _ Hsub Hclip E) as (H1 & H2 & H3).
  pose proof (points_PS 244 _ Hsub) as HS. pose proof (points_PS 244 _ Hclip) as HC.
  assert (Hv : forall l, Forall (PS 244) l -> Forall (in_square 250) (map xy l)) by (intros l; apply map_xy_in_square; lra).
  unfold display. rewrite !DrawFacts.positions_app, positions_flat_map.
  apply Forall_app; split; [|apply Forall_app; split; [|apply Forall_app; split]].
  - cbn [positions flat_map app]. do 4 (apply Forall_cons; [unfold in_square; cbn; lra|]).
    rewrite !app_nil_r. repeat (apply Forall_app; split; [apply Hv; assumption|]). apply Hv; assumption.
  - destruct (Nat.ltb 0 _); cbn [positions flat_map app]; [|constructor].
    rewrite !app_nil_r. apply Forall_app; split; apply Hv, H3.
  - cbn [positions flat_map app]. rewrite !app_nil_r. apply Hv, Forall_filter_sub, H1.
  - apply Forall_flat_map. intros p Hp. apply filter_In in Hp as [Hp _].
    rewrite Forall_forall in H1. exact (marker_in_square cos sin Hc Hs 244 p (H1 p Hp)).
Qed.

Lemma wa_frame_in_view_witness :
  exists f, frame (fun _ => 0) (fun _ => 0) [(-5, 2); (5, 2); (5, 8); (-5, 8); (-6, 5)] [(1, 1); (11, 1); (11, 11); (1, 11)] = Some f /\
    init = [MatrixMode true; Ortho (-250) 250 (-250) 250] /\ Forall (in_square 250) (positions f).
Proof.
  eexists. split; [vm_compute; reflexivity|].
  apply (wa_frame_in_view (fun _ => 0) (fun _ => 0) [(-5, 2); (5, 2); (5, 8); (-5, 8); (-6, 5)] [(1, 1); (11, 1); (11, 11); (1, 11)]);
    [intros a; lra | intros a; lra | repeat constructor; unfold in_square; cbn; lra | repeat constructor; unfold in_square; cbn; lra | vm_compute; reflexivity].
Defined.

(** ** Polygons whose edges do not cross *)

Module WANoCross.

Lemma map_nth_seq {A} (l : list A) d : map (fun i => nth i l d) (seq 0 (length l)) = l.
Proof.
  induction l as [|a l IH]; [reflexivity|]. cbn [length seq map nth]. f_equal.
  rewrite <- seq_shift, map_map. exact IH.
Qed.

Lemma flat_map_singleton {A B} (f : A -> B) l : flat_map (fun a => [f a]) l = map f l.
Proof. induction l as [|a l IH]; [reflexivity|]. cbn. now rewrite IH. Qed.

Lemma flat_map_ext_in {A B} (f g : A -> list B) l :
  (forall a, In a l -> f a = g a) -> flat_map f l = flat_map g l.
Proof.
  induction l as [|a l IH]; intros H; [reflexivity|]. cbn [flat_map].
  rewrite (H a (or_introl eq_refl)), IH; [reflexivity|]. intros b Hb. apply H. right. exact Hb.
Qed.

Section NoCross.
Variables S C : list WPoint.
Hypothesis Hcross : forall i j, (i < length S)%nat -> (j < length C)%nat ->
  getIntersection (nth i S default_point) (next_vertex S i) (nth j C default_point) (next_vertex C j) = None /\
  getIntersection (nth j C default_point) (next_vertex C j) (nth i S default_point) (next_vertex S i) = None.

Lemma subject_entries_none i cnt : (i < length S)%nat -> subject_entries S C i cnt = ([nth i S default_point], cnt).
Proof.
  intros Hi. unfold subject_entries.
  match goal with |- fold_left ?f _ ?a = _ =>
    assert (H : forall l acc, (forall j, In j l -> (j < length C)%nat) -> fold_left f l acc = acc) end.
  { induction l as [|j l IH]; intros [acc c] Hl; [reflexivity|]. cbn [fold_left].
    rewrite (proj1 (Hcross i j Hi (Hl j (or_introl eq_refl)))). apply IH. intros k Hk. apply Hl. right. exact Hk. }
  apply H. intros j Hj. apply in_seq in Hj. lia.
Qed.

Lemma clip_entries_none SL j : (j < length C)%nat -> clip_entries S C SL j = [nth j C default_point].
Proof.
  intros Hj. unfold clip_entries. f_equal.
  assert (H : forall l, (forall i, In i l -> (i < length S)%nat) ->
            flat_map (fun i => match getIntersection (nth j C default_point) (next_vertex C j)
                                                     (nth i S default_point) (next_vertex S i) with
                               | Some (a, b) => [match_subject SL a b]
                               | None => []
                               end) l = []).
  { induction l as [|i l IH]; intros Hl; [reflexivity|]. cbn [flat_map].
    rewrite (proj2 (Hcross i j (Hl i (or_introl eq_refl)) Hj)). apply IH. intros k Hk. apply Hl. right. exact Hk. }
  apply H. intros i Hi. apply in_seq in Hi. lia.
Qed.

Lemma buildLists_none : buildLists S C = (S, C).
Proof.
  unfold buildLists.
  match goal with |- context [fold_left ?f (seq 0 (length S)) ?a] =>
    assert (H : forall l acc, (forall i, In i l -> (i < length S)%nat) ->
              fold_left f l (acc, 0%Z) = (acc ++ map (fun i => nth i S default_point) l, 0%Z)) end.
  { induction l as [|i l IH]; intros acc Hl; cbn [fold_left map]; [now rewrite app_nil_r|].
    rewrite subject_entries_none by (apply Hl; left; reflexivity).
    rewrite IH by (intros k Hk; apply Hl; right; exact Hk). rewrite <- app_assoc. reflexivity. }
  rewrite H by (intros i Hi; apply in_seq in Hi; lia). cbn [app]. rewrite map_nth_seq. f_equal.
  rewrite (flat_map_ext_in _ (fun j => [nth j C default_point])) by (intros j Hj; apply in_seq in Hj; apply clip_entries_none; lia).
  rewrite flat_map_singleton, map_nth_seq. reflexivity.
Qed.

End NoCross.

(** With no intersection in the subject list, no walk starts and the
    clipped polygon is empty. *)
Lemma performClipping_no_intersection SL CL :
  Forall (fun p => isIntersection p = false) SL -> performClipping SL CL = Some [].
Proof.
  intros H. unfold performClipping.
  match goal with |- context [fold_left ?f ?l ?a] => assert (Hf : forall l', fold_left f l' a = a) end.
  { induction l' as [|st l' IH]; [reflexivity|]. cbn [fold_left].
    replace (isIntersection (nth st SL default_point)) with false
      by (symmetry; exact (Forall_nth_default (fun p => isIntersection p = false) SL default_point st H eq_refl)).
    cbn [andb]. exact IH. }
  rewrite Hf. reflexivity.
Qed.

End WANoCross.

Import WANoCross.

(** C12. When [getIntersection] finds no crossing of a subject edge with a
    clip edge, Exp-18 builds lists without intersections and its
    clipped polygon is empty, whatever the nesting: a subject lying inside the clip polygon
    (whose clipped polygon is the subject itself) draws no result, and
    so does a clip polygon lying inside the subject. *)
Theorem wa_no_crossing_empty subject clip :
  (length subject <= 20)%nat -> (length clip <= 20)%nat ->
  let S := map (fun '(a, b) => point a b) subject in
  let C := map (fun '(a, b) => point a b) clip in
  (forall i j, (i < length S)%nat -> (j < length C)%nat ->
     getIntersection (nth i S default_point) (next_vertex S i) (nth j C default_point) (next_vertex C j) = None) ->
  main subject clip = Some (S, C, []).
Proof.
  intros Hs Hc S C Hnone.
  assert (Hcross : forall i j, (i < length S)%nat -> (j < length C)%nat ->
     getIntersection (nth i S default_point) (next_vertex S i) (nth j C default_point) (next_vertex C j) = None /\
     getIntersection (nth j C default_point) (next_vertex C j) (nth i S default_point) (next_vertex S i) = None)
    by (intros i j Hi Hj; split; [|apply getIntersection_swap_none]; apply Hnone; assumption).
  unfold main.
  destruct (Nat.ltb_spec 20 (length subject)); [lia|]. destruct (Nat.ltb_spec 20 (length clip)); [lia|]. cbn [orb].
  fold S C. rewrite (buildLists_none S C Hcross).
  assert (HS : length S = length subject) by apply length_map. assert (HC : length C = length clip) by apply length_map.
  destruct (Nat.ltb_spec 50 (length S)); [lia|]. destruct (Nat.ltb_spec 50 (length C)); [lia|]. cbn [orb].
  rewrite performClipping_no_intersection; [reflexivity|].
  apply Forall_map, Forall_forall. intros [a b] _. reflexivity.
Qed.

Lemma wa_no_crossing_empty_witness :
  (forallb (fun p => isInside p (map (fun '(a, b) => point a b) [(1, 1); (11, 1); (11, 11); (1, 11)]))
           (map (fun '(a, b) => point a b) [(4, 4); (6, 4); (6, 6); (4, 6)]) = true) /\
  main [(4, 4); (6, 4); (6, 6); (4, 6)] [(1, 1); (11, 1); (11, 11); (1, 11)] =
    Some (map (fun '(a, b) => point a b) [(4, 4); (6, 4); (6, 6); (4, 6)],
          map (fun '(a, b) => point a b) [(1, 1); (11, 1); (11, 11); (1, 11)], []).
Proof.
  split; [vm_compute; reflexivity|].
  apply (wa_no_crossing_empty [(4, 4); (6, 4); (6, 6); (4, 6)] [(1, 1); (11, 1); (11, 11); (1, 11)]); [cbn; lia | cbn; lia|].
  intros i j Hi Hj. cbn [length map] in Hi, Hj.
  destruct i as [|[|[|[|i]]]]; try lia; destruct j as [|[|[|[|j]]]]; try lia; vm_compute; reflexivity.
Defined.
