(* ===== verification/Fill.v ===== *)
(** The recursive 4-way fills of CG LAB/Exp-06 (boundary fill) and
    CG LAB/Exp-07 (flood fill).  Both read a pixel with [glReadPixels],
    paint it with a [GL_POINTS] vertex when a colour test passes, and
    recurse on (x+1, y), (x-1, y), (x, y+1), (x, y-1) in that order.  The
    framebuffer is a function from window coordinates to RGB triples
    ([unsigned char] each); painting the point (x, y) sets pixel (x, y).
    Both fills are instances of [fill4], parameterised by the colour
    test ([paintable]) in a [Section].  The recursion is bounded by fuel
    on its depth: [None] means the depth ran out.  On a region enclosed
    by unpaintable pixels the depth never exceeds the number of
    paintable pixels of the region, which [fill4_total] proves; a
    region that is not enclosed makes the recursion run on forever
    ([fill4_runs_right]).  The mouse handlers fill only on a left-button
    press, converting GLUT's y with the window height. *)

From S2P Require Import Prelude.

Module Raster.

(** An RGB colour of three [unsigned char]s. *)
Definition color := (Z * Z * Z)%type.

Definition color_eqb (c d : color) : bool :=
  let '(r1, g1, b1) := c in let '(r2, g2, b2) := d in (r1 =? r2) && (g1 =? g2) && (b1 =? b2).

(** What [glReadPixels] returns at each window coordinate. *)
Definition framebuffer := Z -> Z -> color.

(** Drawing one [GL_POINTS] vertex at (x, y) in colour [c]. *)
Definition plot (fb : framebuffer) (x y : Z) (c : color) : framebuffer :=
  fun a b => if (a =? x) && (b =? y) then c else fb a b.

Section Fill4.
Variable paintable : color -> bool.
Variable fillColor : color.

(** The recursive [fill(x, y)] of both programs. *)
Fixpoint fill4 (fuel : nat) (fb : framebuffer) (x y : Z) : option framebuffer :=
  match fuel with
  | O => None
  | S fuel' =>
      if paintable (fb x y) then
        let fb := plot fb x y fillColor in
        match fill4 fuel' fb (x + 1) y with
        | None => None
        | Some fb =>
            match fill4 fuel' fb (x - 1) y with
            | None => None
            | Some fb =>
                match fill4 fuel' fb x (y + 1) with
                | None => None
                | Some fb => fill4 fuel' fb x (y - 1)
                end
            end
        end
      else Some fb
  end.

End Fill4.

(** [mouse]: GLUT reports y from the top; the programs convert it with
    [y = winHeight - y]. *)
Definition to_window_y (winHeight y : Z) : Z := winHeight - y.

(** The [button] and [state] arguments of a GLUT mouse callback, and
    the handlers' test [button == GLUT_LEFT_BUTTON && state == GLUT_DOWN]. *)
Inductive mouse_button := GLUT_LEFT_BUTTON | GLUT_MIDDLE_BUTTON | GLUT_RIGHT_BUTTON.
Inductive button_state := GLUT_DOWN | GLUT_UP.

Definition left_down (button : mouse_button) (state : button_state) : bool :=
  match button, state with GLUT_LEFT_BUTTON, GLUT_DOWN => true | _, _ => false end.

End Raster.

Module BoundaryFill.
Import Raster.

(** [class BoundaryFill]: the fill colour and the red boundary. *)
Record BoundaryFill := mkBF { boundaryColor : color; fillColor : color }.

Definition make (r g b : Z) : BoundaryFill := mkBF (255, 0, 0) (r, g, b).

(** The test of [fill]: neither the boundary nor the fill colour. *)
Definition paintable (bf : BoundaryFill) (pixel : color) : bool :=
  negb (color_eqb pixel (boundaryColor bf)) && negb (color_eqb pixel (fillColor bf)).

Definition fill (fuel : nat) (bf : BoundaryFill) (fb : framebuffer) (x y : Z) : option framebuffer :=
  fill4 (paintable bf) (fillColor bf) fuel fb x y.

(** [display]: the red square drawn as a [GL_LINE_LOOP]. *)
Definition display : color * list (Z * Z) := ((255, 0, 0), [(100, 100); (300, 100); (300, 300); (100, 300)]).

(** The global filler [main] creates: [new BoundaryFill(0, 255, 0)]. *)
Definition boundaryFill : BoundaryFill := make 0 255 0.

(** [mouse]: a left click at GLUT position (x, y) fills from the window
    point (x, winHeight - y) with the green filler of [main]; any other
    button event leaves the framebuffer as it is. *)
Definition mouse (fuel : nat) (button : mouse_button) (state : button_state) (fb : framebuffer)
    (winHeight x y : Z) : option framebuffer :=
  if left_down button state then fill fuel boundaryFill fb x (to_window_y winHeight y) else Some fb.

End BoundaryFill.

Module FloodFill.
Import Raster.

(** [class FloodFill]: the fill colour; the target colour is read at
    the click by [start]. *)
Record FloodFill := mkFF { targetColor : color; fillColor : color }.

(** The test of [fill]: the target colour and not the fill colour. *)
Definition paintable (ff : FloodFill) (pixel : color) : bool :=
  color_eqb pixel (targetColor ff) && negb (color_eqb pixel (fillColor ff)).

Definition fill (fuel : nat) (ff : FloodFill) (fb : framebuffer) (x y : Z) : option framebuffer :=
  fill4 (paintable ff) (fillColor ff) fuel fb x y.

(** [start(x, y)]: read the target colour at the seed, then fill. *)
Definition start (fuel : nat) (fill_rgb : color) (fb : framebuffer) (x y : Z) : option framebuffer :=
  fill fuel (mkFF (fb x y) fill_rgb) fb x y.

(** [displayFlood]: the blue square drawn as a [GL_POLYGON]. *)
Definition displayFlood : color * list (Z * Z) := ((0, 0, 255), [(150, 150); (350, 150); (350, 350); (150, 350)]).

(** The fill colour of the global filler [main] creates:
    [new FloodFill(255, 255, 0)]. *)
Definition floodFill : color := (255, 255, 0).

(** [mouseFlood]: a left click starts a yellow flood fill. *)
Definition mouseFlood (fuel : nat) (button : mouse_button) (state : button_state) (fb : framebuffer)
    (winHeight x y : Z) : option framebuffer :=
  if left_down button state then start fuel floodFill fb x (to_window_y winHeight y) else Some fb.

End FloodFill.

(** ** Lemmas *)

Module FillFacts.
Import Raster.

Lemma color_eqb_spec c d : reflect (c = d) (color_eqb c d).
Proof.
  destruct c as [[r1 g1] b1], d as [[r2 g2] b2]. unfold color_eqb.
  destruct (Z.eqb_spec r1 r2), (Z.eqb_spec g1 g2), (Z.eqb_spec b1 b2); cbn; constructor;
    congruence.
Qed.

Section Fill4.
Variable paintable : color -> bool.
Variable fillColor : color.
(** The fill colour itself never passes the test. *)
Hypothesis fill_not_paintable : paintable fillColor = false.

(** [fb'] differs from [fb] only by painting paintable pixels. *)
Definition repaints (fb fb' : framebuffer) : Prop :=
  forall a b, fb' a b = fb a b \/ (fb' a b = fillColor /\ paintable (fb a b) = true).

Lemma repaints_refl fb : repaints fb fb.
Proof. intros a b. auto. Qed.

Lemma repaints_trans fb1 fb2 fb3 : repaints fb1 fb2 -> repaints fb2 fb3 -> repaints fb1 fb3.
Proof.
  intros H12 H23 a b. destruct (H12 a b) as [E1|[E1 P1]], (H23 a b) as [E2|[E2 P2]].
  - left. congruence.
  - right. rewrite <- E1. auto.
  - right. rewrite E2. auto.
  - right. auto.
Qed.

Lemma repaints_plot fb x y : paintable (fb x y) = true -> repaints fb (plot fb x y fillColor).
Proof.
  intros Hp a b. unfold plot. destruct ((a =? x) && (b =? y)) eqn:E; [|auto].
  apply andb_true_iff in E as [Ea Eb]. apply Z.eqb_eq in Ea, Eb. subst. auto.
Qed.

(** A pixel that fails the test is never changed. *)
Lemma repaints_keep fb fb' a b : repaints fb fb' -> paintable (fb a b) = false -> fb' a b = fb a b.
Proof. intros H Hp. destruct (H a b) as [E|[_ E]]; congruence. Qed.

Lemma repaints_unpaintable fb fb' a b :
  repaints fb fb' -> paintable (fb a b) = false -> paintable (fb' a b) = false.
Proof. intros H Hp. now rewrite (repaints_keep _ _ _ _ H Hp). Qed.

Ltac fill_cases H :=
  cbn [fill4] in H;
  match type of H with
  | context [paintable (?fb ?x ?y)] => destruct (paintable (fb x y)) eqn:Hp
  end;
  [ repeat match type of H with
      | match ?c with None => None | Some _ => _ end = Some _ =>
          let fb := fresh "fb" in let Hc := fresh "Hc" in
          destruct c as [fb|] eqn:Hc; [|discriminate]
      end
  | ].

(** Soundness: a fill only paints pixels that pass the test, with the
    fill colour; and its seed fails the test afterwards. *)
Lemma fill4_repaints fuel fb x y fb' :
  fill4 paintable fillColor fuel fb x y = Some fb' -> repaints fb fb' /\ paintable (fb' x y) = false.
Proof.
  revert fb x y fb'. induction fuel as [|f IH]; intros fb x y fb' H; [discriminate|].
  fill_cases H.
  - destruct (IH _ _ _ _ Hc) as [R1 _], (IH _ _ _ _ Hc0) as [R2 _], (IH _ _ _ _ Hc1) as [R3 _],
      (IH _ _ _ _ H) as [R4 _].
    assert (R : repaints fb fb').
    { eapply repaints_trans; [apply repaints_plot, Hp|].
      eapply repaints_trans; [exact R1|]. eapply repaints_trans; [exact R2|].
      eapply repaints_trans; [exact R3|exact R4]. }
    split; [exact R|].
    assert (Hpl : paintable (plot fb x y fillColor x y) = false)
      by (unfold plot; rewrite !Z.eqb_refl; exact fill_not_paintable).
    eapply repaints_unpaintable; [|exact Hpl].
    eapply repaints_trans; [exact R1|]. eapply repaints_trans; [exact R2|].
    eapply repaints_trans; [exact R3|exact R4].
  - injection H as <-. split; [apply repaints_refl | exact Hp].
Qed.

(** The four neighbours the recursion visits. *)
Definition nbrs (a b : Z) : list (Z * Z) := [(a + 1, b); (a - 1, b); (a, b + 1); (a, b - 1)].

(** Completeness: around every pixel the fill changed, the four
    neighbours fail the test at the end. *)
Definition closed (fb fb' : framebuffer) : Prop :=
  forall a b, fb' a b <> fb a b -> Forall (fun n => paintable (fb' (fst n) (snd n)) = false) (nbrs a b).

Lemma closed_compose fb1 fb2 fb3 :
  closed fb1 fb2 -> closed fb2 fb3 -> repaints fb2 fb3 -> closed fb1 fb3.
Proof.
  intros C12 C23 R a b Hne.
  destruct (color_eqb_spec (fb2 a b) (fb1 a b)) as [E|E].
  - apply C23. congruence.
  - specialize (C12 a b E). revert C12. apply Forall_impl. intros n Hn.
    eapply repaints_unpaintable; eassumption.
Qed.

Lemma fill4_closed fuel fb x y fb' :
  fill4 paintable fillColor fuel fb x y = Some fb' -> closed fb fb'.
Proof.
  revert fb x y fb'. induction fuel as [|f IH]; intros fb x y fb' H; [discriminate|].
  fill_cases H.
  - destruct (fill4_repaints _ _ _ _ _ Hc) as [R1 S1], (fill4_repaints _ _ _ _ _ Hc0) as [R2 S2],
      (fill4_repaints _ _ _ _ _ Hc1) as [R3 S3], (fill4_repaints _ _ _ _ _ H) as [R4 S4].
    assert (C : closed (plot fb x y fillColor) fb').
    { eapply closed_compose; [apply (IH _ _ _ _ Hc)| |].
      - eapply closed_compose; [apply (IH _ _ _ _ Hc0)| |].
        + eapply closed_compose; [apply (IH _ _ _ _ Hc1)|apply (IH _ _ _ _ H)|exact R4].
        + eapply repaints_trans; [exact R3|exact R4].
      - eapply repaints_trans; [exact R2|]. eapply repaints_trans; [exact R3|exact R4]. }
    intros a b Hne. destruct ((a =? x) && (b =? y)) eqn:E.
    + apply andb_true_iff in E as [Ea Eb]. apply Z.eqb_eq in Ea, Eb. subst a b.
      repeat constructor; cbn [fst snd].
      * eapply repaints_unpaintable; [|exact S1].
        eapply repaints_trans; [exact R2|]. eapply repaints_trans; [exact R3|exact R4].
      * eapply repaints_unpaintable; [|exact S2]. eapply repaints_trans; [exact R3|exact R4].
      * eapply repaints_unpaintable; [exact R4|exact S3].
      * exact S4.
    + apply C. unfold plot. rewrite E. exact Hne.
  - injection H as <-. intros a b Hne. contradiction.
Qed.

Lemma fill4_sound_complete fuel fb x y fb' :
  fill4 paintable fillColor fuel fb x y = Some fb' ->
  repaints fb fb' /\ closed fb fb' /\ paintable (fb' x y) = false.
Proof.
  intros H. destruct (fill4_repaints _ _ _ _ _ H) as [R S]. split; [exact R|].
  split; [apply (fill4_closed _ _ _ _ _ H) | exact S].
Qed.

(** ** Termination on an enclosed region *)

Section Region.
(** The pixels of the region; everything outside it fails the test. *)
Variable region : list (Z * Z).

Definition outside_blocked (fb : framebuffer) : Prop :=
  forall a b, ~ In (a, b) region -> paintable (fb a b) = false.

(** The paintable pixels of the region left. *)
Definition left_to_paint (fb : framebuffer) : nat :=
  length (filter (fun q => paintable (fb (fst q) (snd q))) region).

Lemma filter_length_mono {A} (f g : A -> bool) l :
  (forall a, f a = true -> g a = true) -> (length (filter f l) <= length (filter g l))%nat.
Proof.
  intros H. induction l as [|a l IH]; cbn; [lia|].
  destruct (f a) eqn:Ef; [rewrite (H a Ef); cbn; lia|]. destruct (g a); cbn; lia.
Qed.

Lemma left_to_paint_mono fb fb' : repaints fb fb' -> (left_to_paint fb' <= left_to_paint fb)%nat.
Proof.
  intros R. apply filter_length_mono. intros [a b] Hp. cbn in *.
  destruct (R a b) as [E|[E P]]; [congruence | assumption].
Qed.

Lemma filter_length_strict {A} (f g : A -> bool) l a :
  (forall a, f a = true -> g a = true) -> In a l -> f a = false -> g a = true ->
  (length (filter f l) < length (filter g l))%nat.
Proof.
  intros H Hin Hf Hg. induction l as [|b l IH]; [contradiction|].
  destruct Hin as [<-|Hin].
  - cbn. rewrite Hf, Hg. cbn. pose proof (filter_length_mono f g l H). lia.
  - specialize (IH Hin). cbn. destruct (f b) eqn:Ef; [rewrite (H b Ef); cbn; lia|].
    destruct (g b); cbn; lia.
Qed.

Lemma left_to_paint_plot fb x y :
  In (x, y) region -> paintable (fb x y) = true ->
  (left_to_paint (plot fb x y fillColor) < left_to_paint fb)%nat.
Proof.
  intros Hin Hp. apply (filter_length_strict _ _ _ (x, y)); [|exact Hin| |exact Hp].
  - intros [a b] Hq. cbn in *. destruct (repaints_plot fb x y Hp a b) as [E|[E _]]; congruence.
  - cbn. unfold plot. rewrite !Z.eqb_refl. exact fill_not_paintable.
Qed.

Lemma repaints_outside fb fb' : repaints fb fb' -> outside_blocked fb -> outside_blocked fb'.
Proof. intros R Ho a b Hn. eapply repaints_unpaintable; [exact R | apply Ho, Hn]. Qed.

(** With more fuel than paintable pixels left in an enclosed region,
    the recursion returns. *)
Lemma fill4_total fuel fb x y :
  outside_blocked fb -> (left_to_paint fb < fuel)%nat ->
  exists fb', fill4 paintable fillColor fuel fb x y = Some fb'.
Proof.
  revert fb x y. induction fuel as [|f IH]; intros fb x y Ho Hl; [lia|].
  cbn [fill4]. destruct (paintable (fb x y)) eqn:Hp; [|eauto].
  assert (Hin : In (x, y) region).
  { assert (Hdec : forall p q : Z * Z, {p = q} + {p <> q}) by (decide equality; apply Z.eq_dec).
    destruct (in_dec Hdec (x, y) region) as [|Hn];
      [assumption|]. rewrite (Ho x y Hn) in Hp. discriminate. }
  pose proof (left_to_paint_plot fb x y Hin Hp) as Hd.
  assert (Ho0 := repaints_outside _ _ (repaints_plot fb x y Hp) Ho).
  destruct (IH _ (x + 1) y Ho0 ltac:(lia)) as [fb1 H1]. rewrite H1.
  destruct (fill4_repaints _ _ _ _ _ H1) as [R1 _].
  pose proof (left_to_paint_mono _ _ R1).
  destruct (IH fb1 (x - 1) y (repaints_outside _ _ R1 Ho0) ltac:(lia)) as [fb2 H2]. rewrite H2.
  destruct (fill4_repaints _ _ _ _ _ H2) as [R2 _].
  pose proof (left_to_paint_mono _ _ R2).
  destruct (IH fb2 x (y + 1) (repaints_outside _ _ R2 (repaints_outside _ _ R1 Ho0)) ltac:(lia)) as [fb3 H3].
  rewrite H3. destruct (fill4_repaints _ _ _ _ _ H3) as [R3 _].
  pose proof (left_to_paint_mono _ _ R3).
  apply IH; [|lia]. do 3 (eapply repaints_outside; [eassumption|]). exact Ho0.
Qed.

End Region.

(** A seed whose row is paintable forever to its right never returns:
    the first recursive call runs right without end. *)
Lemma fill4_runs_right fuel fb x y :
  (forall k, 0 <= k -> paintable (fb (x + k) y) = true) ->
  fill4 paintable fillColor fuel fb x y = None.
Proof.
  revert fb x. induction fuel as [|f IH]; intros fb x Hrow; [reflexivity|].
  cbn [fill4]. assert (H0 : paintable (fb x y) = true) by (rewrite <- (Z.add_0_r x); apply Hrow; lia).
  rewrite H0.
  rewrite IH; [reflexivity|]. intros k Hk. unfold plot.
  replace ((x + 1 + k =? x) && (y =? y)) with false by (symmetry; apply andb_false_iff; left; apply Z.eqb_neq; lia).
  rewrite <- Z.add_assoc. apply Hrow. lia.
Qed.

End Fill4.
End FillFacts.

Module FillInstances.
Import Raster.

Lemma color_eqb_false c d : color_eqb c d = false <-> c <> d.
Proof. destruct (FillFacts.color_eqb_spec c d); split; intros; congruence. Qed.

Lemma color_eqb_true c d : color_eqb c d = true <-> c = d.
Proof. destruct (FillFacts.color_eqb_spec c d); split; intros; congruence. Qed.

Lemma bf_fill_not_paintable bf : BoundaryFill.paintable bf (BoundaryFill.fillColor bf) = false.
Proof.
  unfold BoundaryFill.paintable. destruct (FillFacts.color_eqb_spec (BoundaryFill.fillColor bf) (BoundaryFill.fillColor bf)); [|congruence].
  apply andb_false_iff. now right.
Qed.

(** A pixel fails the boundary-fill test exactly when it has the
    boundary or the fill colour. *)
Lemma bf_unpaintable_iff bf c :
  BoundaryFill.paintable bf c = false <-> c = BoundaryFill.boundaryColor bf \/ c = BoundaryFill.fillColor bf.
Proof.
  unfold BoundaryFill.paintable. rewrite andb_false_iff, !negb_false_iff, !color_eqb_true. tauto.
Qed.

Lemma ff_fill_not_paintable ff : FloodFill.paintable ff (FloodFill.fillColor ff) = false.
Proof.
  unfold FloodFill.paintable. destruct (FillFacts.color_eqb_spec (FloodFill.fillColor ff) (FloodFill.fillColor ff)); [|congruence].
  apply andb_false_iff. now right.
Qed.

(** Flood fill from a click: it only turns target-coloured pixels
    into the fill colour, and around each pixel it turned, every
    neighbour ends with another colour than the target or with the fill
    colour. *)
Lemma flood_fill_sound_complete fuel ff fb x y fb' :
  FloodFill.fill fuel ff fb x y = Some fb' ->
  FillFacts.repaints (FloodFill.paintable ff) (FloodFill.fillColor ff) fb fb' /\
  FillFacts.closed (FloodFill.paintable ff) fb fb'.
Proof.
  intros H. destruct (FillFacts.fill4_sound_complete _ _ (ff_fill_not_paintable ff) _ _ _ _ _ H)
    as (R & C & _). auto.
Qed.

End FillInstances.

(** ** Properties of Exp-06 and Exp-07 *)

Import Raster.

(** C39. Boundary fill is correct on an enclosed region: when every
    pixel outside a finite region already has the boundary or the fill
    colour, [fill] returns within [length region + 1] levels of
    recursion; it changes only pixels that had neither colour, and only
    to the fill colour; and around every pixel it changed, each of the
    four neighbours ends with the boundary or the fill colour, so the
    fill stops only at the boundary. *)
Theorem boundary_fill_correct (region : list (Z * Z)) bf fb x y :
  (forall a b, ~ In (a, b) region ->
               fb a b = BoundaryFill.boundaryColor bf \/ fb a b = BoundaryFill.fillColor bf) ->
  exists fb', BoundaryFill.fill (length region + 1) bf fb x y = Some fb' /\
    (forall a b, fb' a b = fb a b \/
                 (fb' a b = BoundaryFill.fillColor bf /\ fb a b <> BoundaryFill.boundaryColor bf)) /\
    (forall a b, fb' a b <> fb a b ->
       Forall (fun n => fb' (fst n) (snd n) = BoundaryFill.boundaryColor bf \/
                        fb' (fst n) (snd n) = BoundaryFill.fillColor bf) (FillFacts.nbrs a b)).
Proof.
  intros Hout.
  assert (Ho : FillFacts.outside_blocked (BoundaryFill.paintable bf) region fb).
  { intros a b Hn. apply FillInstances.bf_unpaintable_iff, Hout, Hn. }
  assert (Hl : (FillFacts.left_to_paint (BoundaryFill.paintable bf) region fb < length region + 1)%nat).
  { unfold FillFacts.left_to_paint.
    pose proof (filter_length_le (fun q => BoundaryFill.paintable bf (fb (fst q) (snd q))) region). lia. }
  destruct (FillFacts.fill4_total _ _ (FillInstances.bf_fill_not_paintable bf) region _ _ x y Ho Hl)
    as [fb' H].
  exists fb'. split; [exact H|].
  destruct (FillFacts.fill4_sound_complete _ _ (FillInstances.bf_fill_not_paintable bf) _ _ _ _ _ H)
    as (R & C & _). split.
  - intros a b. destruct (R a b) as [E|[E P]]; [auto|right]. split; [exact E|].
    intros Eb. rewrite Eb in P. unfold BoundaryFill.paintable in P.
    destruct (FillFacts.color_eqb_spec (BoundaryFill.boundaryColor bf) (BoundaryFill.boundaryColor bf)); [|congruence].
    discriminate.
  - intros a b Hne. specialize (C a b Hne). revert C. apply Forall_impl. intros n Hn.
    apply FillInstances.bf_unpaintable_iff, Hn.
Qed.

(** C40. A left click outside a closed boundary never returns: [mouse]
    checks no window bounds, so when no pixel right of the click on its
    row has the red boundary or the green fill colour (a click right of
    the square, with reads past the window edge returning anything but
    those two colours), the first recursive call runs right forever and
    [fill] returns for no depth of recursion. *)
Theorem boundary_fill_unbounded_row fb winHeight x y :
  (forall k, 0 <= k -> fb (x + k) (winHeight - y) <> (255, 0, 0) /\ fb (x + k) (winHeight - y) <> (0, 255, 0)) ->
  forall fuel, BoundaryFill.mouse fuel GLUT_LEFT_BUTTON GLUT_DOWN fb winHeight x y = None.
Proof.
  intros Hrow fuel. unfold BoundaryFill.mouse, BoundaryFill.boundaryFill, BoundaryFill.fill, to_window_y. cbn [left_down].
  apply FillFacts.fill4_runs_right. intros k Hk. destruct (Hrow k Hk) as [H1 H2].
  unfold BoundaryFill.paintable, BoundaryFill.make. cbn [BoundaryFill.boundaryColor BoundaryFill.fillColor].
  apply FillInstances.color_eqb_false in H1, H2. now rewrite H1, H2.
Qed.

(** A 3 x 3 white square inside a red frame. *)
Definition framed_square : framebuffer :=
  fun a b => if (1 <=? a) && (a <=? 3) && (1 <=? b) && (b <=? 3) then (255, 255, 255) else (255, 0, 0).

Definition square_region : list (Z * Z) :=
  [(1, 1); (1, 2); (1, 3); (2, 1); (2, 2); (2, 3); (3, 1); (3, 2); (3, 3)].

Lemma boundary_fill_correct_witness :
  (forall a b, ~ In (a, b) square_region ->
     framed_square a b = BoundaryFill.boundaryColor (BoundaryFill.make 0 255 0) \/
     framed_square a b = BoundaryFill.fillColor (BoundaryFill.make 0 255 0)) /\
  exists fb', BoundaryFill.fill (length square_region + 1) (BoundaryFill.make 0 255 0) framed_square 2 2 = Some fb' /\
    (forall a b, fb' a b = framed_square a b \/
       (fb' a b = BoundaryFill.fillColor (BoundaryFill.make 0 255 0) /\
        framed_square a b <> BoundaryFill.boundaryColor (BoundaryFill.make 0 255 0))) /\
    (forall a b, fb' a b <> framed_square a b ->
       Forall (fun n => fb' (fst n) (snd n) = BoundaryFill.boundaryColor (BoundaryFill.make 0 255 0) \/
                        fb' (fst n) (snd n) = BoundaryFill.fillColor (BoundaryFill.make 0 255 0)) (FillFacts.nbrs a b)).
Proof.
  assert (Hout : forall a b, ~ In (a, b) square_region ->
     framed_square a b = BoundaryFill.boundaryColor (BoundaryFill.make 0 255 0) \/
     framed_square a b = BoundaryFill.fillColor (BoundaryFill.make 0 255 0)).
  { intros a b Hn. left. unfold framed_square.
    destruct ((1 <=? a) && (a <=? 3) && (1 <=? b) && (b <=? 3)) eqn:E; [|reflexivity].
    exfalso. apply Hn. rewrite !andb_true_iff, !Z.leb_le in E.
    assert (Ha : a = 1 \/ a = 2 \/ a = 3) by lia. assert (Hb : b = 1 \/ b = 2 \/ b = 3) by lia.
    destruct Ha as [-> | [-> | ->]], Hb as [-> | [-> | ->]]; cbn; tauto. }
  split; [exact Hout|]. exact (boundary_fill_correct square_region _ framed_square 2 2 Hout).
Defined.

Lemma boundary_fill_unbounded_row_witness :
  (forall k, 0 <= k -> (fun _ _ => (255, 255, 255)) (400 + k) (500 - 300) <> (255, 0, 0) /\
                        (fun _ _ => (255, 255, 255)) (400 + k) (500 - 300) <> (0, 255, 0)) /\
  forall fuel, BoundaryFill.mouse fuel GLUT_LEFT_BUTTON GLUT_DOWN (fun _ _ => (255, 255, 255)) 500 400 300 = None.
Proof.
  assert (Hrow : forall k, 0 <= k -> (fun _ _ => (255, 255, 255)) (400 + k) (500 - 300) <> (255, 0, 0) /\
                        (fun _ _ => (255, 255, 255)) (400 + k) (500 - 300) <> (0, 255, 0)).
  { intros k _. split; discriminate. }
  split; [exact Hrow|]. exact (boundary_fill_unbounded_row (fun _ _ => (255, 255, 255)) 500 400 300 Hrow).
Defined.
