(* ===== verification/Shapes.v ===== *)
(** The fixed drawings of CG LAB/Exp-01 (a line, triangle, rectangle or
    pentagon chosen on the console) and CG LAB/Exp-02 (a stickman of
    rectangles and segments).  Each drawing function is modelled as the
    primitives it submits, each with its vertex list, in the world
    coordinates of [gluOrtho2D(-1, 1, -1, 1)].  [float] literals are
    exact rationals; the pentagon's [cos] and [sin] of [2 pi i / 5] are
    parameters of a [Section]. *)

From S2P Require Import Prelude QFloat.

Module BasicShapes.

Definition drawLine : primitive * list (Q * Q) := (GL_LINES, [(-(1 # 2), 0); (1 # 2, 0)]).

Definition drawTriangle : primitive * list (Q * Q) :=
  (GL_TRIANGLES, [(-(1 # 2), -(2 # 5)); (1 # 2, -(2 # 5)); (0, 1 # 2)]).

Definition drawRectangle : primitive * list (Q * Q) :=
  (GL_QUADS, [(-(1 # 2), -(2 # 5)); (1 # 2, -(2 # 5)); (1 # 2, 2 # 5); (-(1 # 2), 2 # 5)]).

Section Trig.
(** [cos] and [sin] of the angle [2 * M_PI * i / 5]. *)
Variables cos5 sin5 : Z -> Q.

(** [drawPentagon(radius)]: the five vertices at angles 2 pi i / 5. *)
Definition drawPentagon (radius : Q) : primitive * list (Q * Q) :=
  (GL_POLYGON, map (fun i => (fmul radius (cos5 i), fmul radius (sin5 i))) [0; 1; 2; 3; 4]%Z).

(** [displayCallback]: the shape of [shapeChoice], or the message
    "Invalid shape!" ([None]). *)
Definition displayCallback (shapeChoice : Z) : option (primitive * list (Q * Q)) :=
  if Z.eqb shapeChoice 1 then Some drawLine
  else if Z.eqb shapeChoice 2 then Some drawTriangle
  else if Z.eqb shapeChoice 3 then Some drawRectangle
  else if Z.eqb shapeChoice 4 then Some (drawPentagon (2 # 5))
  else None.

(** [main]: a choice outside 1..4 exits before any window is made
    ([None]); otherwise every redisplay draws [displayCallback]. *)
Definition main (shapeChoice : Z) : option (option (primitive * list (Q * Q))) :=
  if ((shapeChoice <? 1) || (4 <? shapeChoice))%Z then None
  else Some (displayCallback shapeChoice).

End Trig.

End BasicShapes.

Module Stickman.

(** [drawRectangle(cx, cy, width, height)]: a [GL_LINE_LOOP] from the
    top-left corner, clockwise. *)
Definition drawRectangle (cx cy width height : Q) : primitive * list (Q * Q) :=
  (GL_LINE_LOOP,
   [(fsub cx (fdiv width 2), fadd cy (fdiv height 2)); (fadd cx (fdiv width 2), fadd cy (fdiv height 2));
    (fadd cx (fdiv width 2), fsub cy (fdiv height 2)); (fsub cx (fdiv width 2), fsub cy (fdiv height 2))]).

(** The measures of [drawStickman]. *)
Definition headW : Q := 3 # 10.
Definition headH : Q := 35 # 100.
Definition headCenterX : Q := 0.
Definition headTopY : Q := 3 # 4.
Definition headCenterY : Q := fsub headTopY (fdiv headH 2).
Definition bodyW : Q := 1 # 4.
Definition bodyH : Q := 1 # 2.
Definition bodyCenterY : Q := fsub headCenterY (fadd (fdiv headH 2) (fdiv bodyH 2)).
Definition eyeW : Q := 6 # 100.
Definition eyeH : Q := 3 # 100.
Definition eyeY : Q := fadd headCenterY (5 # 100).
Definition shoulderY : Q := fsub headCenterY (fdiv headH 2).
Definition shoulderXLeft : Q := - fdiv bodyW 2.
Definition shoulderXRight : Q := fdiv bodyW 2.
Definition armLength : Q := 35 # 100.
Definition hipY : Q := fsub bodyCenterY (fdiv bodyH 2).
Definition legLength : Q := 35 # 100.

(** [drawStickman]: every primitive in the order submitted. *)
Definition drawStickman : list (primitive * list (Q * Q)) :=
  [drawRectangle headCenterX headCenterY headW headH;
   drawRectangle headCenterX bodyCenterY bodyW bodyH;
   (GL_QUADS,
    [(-(1 # 10), fadd eyeY (fdiv eyeH 2)); (fadd (-(1 # 10)) eyeW, fadd eyeY (fdiv eyeH 2));
     (fadd (-(1 # 10)) eyeW, fsub eyeY (fdiv eyeH 2)); (-(1 # 10), fsub eyeY (fdiv eyeH 2));
     (fsub (1 # 10) eyeW, fadd eyeY (fdiv eyeH 2)); (1 # 10, fadd eyeY (fdiv eyeH 2));
     (1 # 10, fsub eyeY (fdiv eyeH 2)); (fsub (1 # 10) eyeW, fsub eyeY (fdiv eyeH 2))]);
   (GL_LINES, [(0, fadd headCenterY (2 # 100)); (0, fsub headCenterY (5 # 100))]);
   (GL_LINES, [(-(8 # 100), fsub headCenterY (1 # 10)); (8 # 100, fsub headCenterY (1 # 10))]);
   (GL_LINES,
    [(shoulderXLeft, shoulderY); (fsub shoulderXLeft armLength, fsub shoulderY armLength);
     (shoulderXRight, shoulderY); (fadd shoulderXRight armLength, fsub shoulderY armLength)]);
   (GL_LINES,
    [(-(5 # 100), hipY); (-(5 # 100), fsub hipY legLength);
     (5 # 100, hipY); (5 # 100, fsub hipY legLength)])].

End Stickman.

(** A vertex is visible in the [gluOrtho2D(-1, 1, -1, 1)] view. *)
Definition in_view : Q * Q -> bool := in_box (-1) 1 (-1) 1.

Module ShapesFacts.

Lemma in_view_scale (r c s : Q) :
  (0 <= r <= 1)%Q -> (-1 <= c <= 1)%Q -> (-1 <= s <= 1)%Q ->
  in_view (fmul r c, fmul r s) = true.
Proof.
  intros Hr Hc Hs; apply in_box_spec; cbn [fst snd]; qexact.
  split; split; nra.
Qed.

End ShapesFacts.

(** Exp-01: the "Invalid shape!" branch of [displayCallback] is dead,
    since [main] exits on every choice it would take; each accepted
    choice draws a shape whose every vertex is inside the view, when
    [cos] and [sin] stay in [-1, 1]. *)
Theorem basic_shape_drawn_in_view (cos5 sin5 : Z -> Q) (c : Z) :
  (forall i, -1 <= cos5 i <= 1)%Q -> (forall i, -1 <= sin5 i <= 1)%Q ->
  match BasicShapes.main cos5 sin5 c with
  | None => (c < 1 \/ 4 < c)%Z
  | Some d => exists prim vs, d = Some (prim, vs) /\ Forall (fun p => in_view p = true) vs
  end.
Proof.
  intros Hc Hs; unfold BasicShapes.main.
  destruct ((c <? 1) || (4 <? c))%Z eqn:E.
  { apply orb_true_iff in E as [E|E]; [left|right]; lia. }
  apply orb_false_iff in E as [E1 E2]; apply Z.ltb_ge in E1, E2.
  unfold BasicShapes.displayCallback.
  assert (c = 1 \/ c = 2 \/ c = 3 \/ c = 4)%Z as [ -> | [ -> | [ -> | -> ] ] ] by lia; cbn -[in_view fmul];
    do 2 eexists; split; try reflexivity.
  - repeat constructor.
  - repeat constructor.
  - repeat constructor.
  - repeat constructor; apply ShapesFacts.in_view_scale; auto; split; discriminate.
Qed.

(** Exp-02: the stickman is one connected figure inside the view: the
    head's bottom edge is the body's top edge, the arms start at the
    body's top corners, the legs start on the body's bottom edge within
    its width, and every vertex submitted is visible. *)
Theorem stickman_connected_in_view :
  let head := snd (Stickman.drawRectangle Stickman.headCenterX Stickman.headCenterY Stickman.headW Stickman.headH) in
  let body := snd (Stickman.drawRectangle Stickman.headCenterX Stickman.bodyCenterY Stickman.bodyW Stickman.bodyH) in
  snd (nth 3 head (0, 0)) = snd (nth 0 body (0, 0)) /\
  snd (nth 2 head (0, 0)) = snd (nth 1 body (0, 0)) /\
  (Stickman.shoulderXLeft, Stickman.shoulderY) = nth 0 body (0, 0) /\
  (Stickman.shoulderXRight, Stickman.shoulderY) = nth 1 body (0, 0) /\
  Stickman.hipY = snd (nth 3 body (0, 0)) /\
  (fst (nth 3 body (0, 0)) < -(5 # 100) /\ 5 # 100 < fst (nth 2 body (0, 0)))%Q /\
  Forall (fun d => Forall (fun p => in_view p = true) (snd d)) Stickman.drawStickman.
Proof.
  vm_compute; repeat split; repeat constructor.
Qed.
